(* ===== verification/_CoqProject ===== *)
-Q . S2P
Prelude.v
Bytes.v
Value.v
Codec.v
Flat.v
CddlText.v
Schema.v
SchemaSpec.v
Json.v
Clock.v
Hash.v
Sodium.v
Toy.v
Primitives.v
Objects.v
SharedChange.v
SharedChangeSpec.v
Membership.v
Authority.v
Activation.v
Enrolment.v
Sample.v
ObjectsSpec.v
Inbox.v
Exchange.v
SampleSource.v
ExchangeServer.v
ServerSpec.v
ExchangeSpec.v
InboxSpec.v
AuthoritySpec.v
AuthorityRun.v
PermitSpec.v
ReplaySpec.v
Framing.v
FramingSpec.v
Negotiation.v
NegotiationSpec.v
Paging.v
Ipaddr.v
Connectivity.v
ConnectivitySpec.v
Controller.v
ControllerSpec.v
Crash.v
Sqlite.v
Migration.v
MigrationBackup.v
MigrationShadow.v
MigrationEngine.v
MigrationSample.v
MigrationSafety.v
MigrationConvert.v
MigrationFacts.v
MigrationResume.v
MigrationSpec.v
EventPayload.v
Events.v
EventsSpec.v
EventsRun.v
EventsLife.v
EventsDelivery.v
EventsCorrect.v
Subscriptions.v
Snapshots.v
Presence.v
Store.v
StoreOps.v
StoreSpec.v
StoreAudit.v
StoreRun.v
StoreAccept.v
StoreCorrect.v
