(* ===== verification/Prelude.v ===== *)
(** * PAR: a verification library for the peer application runtime

    PAR keeps encrypted documents in Spaces that devices replicate peer to peer: frames of
    deterministic CBOR, typed cryptographic objects, a signed authority ledger per Space,
    change requests that carry their causal past, a durable inbox, causal-read exchanges
    over connections a dial controller makes, and per-host stores (an event journal, and
    the store of commits, and the one a migration upgrades).  This library models those parts of the
    Python code function by function and proves what each promises to the next.

    ** Conventions

    A Python [int] is [Z]; [bytes] is a list of [byte], a [str] of the data is the list of
    its code points, and the names, codes and keys of the code itself are [string]s; a CBOR
    object is a [value] (Value.v).  Code that raises returns [result A]: [Ok], or [Err] with
    an [exn] that carries the error's code; the monad, the guard [require] and their lemmas
    are in this file.  A method returns the object it leaves together with its result, as a
    failing method may leave a changed object.  Code that writes durable state is a
    computation of Crash.v over that state: it visits the states a killed process can
    leave, and [wp] reasons on all of them at once.  What the outside decides (clocks,
    random bytes, sockets, callbacks, failing statements) is an argument of the definition
    that asks for it.

    ** Interfaces (type classes)

    - [Hash] (Hash.v): SHA-256 and HMAC by their output length; [sha256_hash] is FIPS 180-4
      itself, and [toy_hash] (Toy.v) a short function the witnesses can run.  Nothing
      assumes the hash injective: a theorem that needs distinct digests has [no_collision]
      on the finite set of inputs at hand, or exhibits the colliding pair.
    - [Sodium], [SodiumLaws] (Sodium.v): libsodium, one operation per bound C function,
      with its documented algebra (lengths, a signature verifies, decryption undoes
      encryption, Diffie-Hellman commutes); no secrecy, no unforgeability.  [toy_sodium]
      satisfies the laws.
    - [Clock], [ClockLaws] (Clock.v): Python numbers used as time; instance [Z].
    - [Sqlite] (Sqlite.v): the file format of a SQLite database, with its laws.

    ** The parts, from the bottom up

    Wire layer, src/experiments/g0-wire/par_wire.  Codec.v is codec.py ([encode] and
    [decode] are inverse on what each accepts); CddlText.v is the frozen protocol text and
    registry, Schema.v is schema.py run on that text, and SchemaSpec.v shows that
    [validate] decides the relation [conforms] and that a parsed schema is closed and
    acyclic; Framing.v and FramingSpec.v are framing.py (the chunked reader refines one
    that consumes single bytes); Negotiation.v and NegotiationSpec.v are negotiation.py
    (what a transcript binds, the replay window); Paging.v is paging.py.

    Objects, src/experiments/g0-crypto/par_crypto.  Sodium.v is provider.py, Primitives.v
    primitives.py and hpke.py, Objects.v objects.py: signed and sealed objects made of the
    codec's bytes.  ObjectsSpec.v: what is sealed opens to what was sealed, and what opens
    was signed by the key it names.

    Authority, src/experiments/space-auth/par_auth.  Membership.v is common.py and
    membership.py, Authority.v and Activation.v chain.py and activation.py, Enrolment.v
    admission.py, receiver.py and replay.py.  AuthoritySpec.v relates the object to the
    ledger it stands for, AuthorityRun.v closes that under every sequence of calls,
    PermitSpec.v is about permits, ReplaySpec.v about exporting and replaying a history.

    Changes, src/product/wp04.  SharedChange.v is contracts.py: [core_request] orders the
    causal past of a candidate; SharedChangeSpec.v shows it accepts exactly that past.
    Inbox.v is inbox.py, which stores what the authority does not yet accept; InboxSpec.v:
    publication is atomic under crashes and nothing acknowledged is lost.  Exchange.v and
    ExchangeServer.v are exchange.py with keeper-service/transport.py: the signed read
    protocol, its client, and the server's connections as a state machine; ServerSpec.v is
    that machine's invariant, ExchangeSpec.v the protocol's theorems.

    Connectivity, src/product/wp09/par_connectivity.  Ipaddr.v is the part of Python's
    [ipaddress] that is used, Connectivity.v is model.py and policy.py (only granted and
    routable addresses are dialled: ConnectivitySpec.v), Controller.v is controller.py as a
    step relation between coroutines, ControllerSpec.v its invariants under every
    interleaving.

    Store migration, src/product/wp14/par_migration.  Migration.v is model.py, store.py,
    planner.py and fs.py, MigrationBackup.v journal.py and backup.py, MigrationShadow.v
    shadow.py, MigrationEngine.v engine.py.  MigrationConvert.v: the conversion is total on
    a sound source; MigrationFacts.v: files read back as written; MigrationSafety.v: the
    active pointer names a complete generation in every state a crash can leave;
    MigrationResume.v: a migration interrupted anywhere completes when run again;
    MigrationSpec.v: the properties.

    Event journal and its ports, src/product/wp10.  EventPayload.v and Events.v are events.py;
    EventsSpec.v turns the audit into the journal's invariant; EventsRun.v specifies each
    method, in any behaviour of the outside; EventsLife.v and EventsDelivery.v follow a
    journal through calls, failures, crashes and reopening; EventsCorrect.v: nothing is
    lost, an operation is published exactly once, and a consumer is given the events in
    order.  Subscriptions.v, Snapshots.v and Presence.v are subscriptions.py: the object that
    hands on the latest value only, and the expiring hints of who is present, each against
    the log of the calls it accepted.

    Transactional store, src/experiments/g0-store.  Store.v is model.py with the tables of
    schema-overlay.sql and their constraints, one function per SQL statement; StoreOps.v is
    store.py, the block files of fs.py and [audit] of recovery.py.  StoreSpec.v states the
    specification, [represents]: every table is a function of a list of commits, and each
    transaction keeps that; StoreAudit.v: such a store passes the audit; StoreRun.v: each
    call, at every point it can be killed, keeps the log or adds its commit; StoreAccept.v:
    when a call succeeds; StoreCorrect.v: a store refines its log through calls and crashes,
    a commit happens once and can be retried, and a replaced writer is refused.

    Shared: this file, Bytes.v, Value.v, Flat.v (flat CBOR objects), Json.v, Clock.v,
    Crash.v, Sqlite.v; Toy.v, Sample.v, SampleSource.v and MigrationSample.v are the
    concrete data of the witnesses.

    ** Bounds and fuel

    Recursion that Python leaves to its stack runs on fuel, and running out is the exception
    [OutOfFuel], which no Python code raises; each use has a theorem or lemma that it is
    never the result.  The codec stops at depth 32 by its own guard, so its [FUEL] 34
    always suffices ([codec_errors]).  The validator stops at
    depth 128, so its 130 units suffice ([validate_frame_total]); the parser has two units
    per token and the reference check one per rule ([parse_cddl_correct]).  The searches of
    [core_request] are given one unit per hash and per edge of its closure
    ([core_request_terminates]), the inbox's gathering its own limit of 128 entries
    ([gather_terminates]), the frame reader one unit per byte, and the migration's journal
    one per stage.  Integers are unbounded in Python; where the
    code bounds them (64-bit CBOR heads, frame lengths, sequence numbers) the bound is a
    guard of the definition.

    ** Not modelled

    Threads and re-entrancy flags ([_busy], owner tests): calls run one after the other.
    Permissions, symbolic links, file locks, sockets and processes.  System calls that
    fail, but for those whose failure the code handles (the statements and commits of the
    event journal and of the transactional store, the writes of a migration).
    The transactional store's checks of version, schema and settings at opening are
    outcomes of its world, and its snapshots are left out.  libsodium and SQLite themselves.  The other
    components of the repository are listed in the manifest with the reason for each: the
    keeper and host services, the adapters over asyncio and OpenSSL, the document
    application (its core is an external process), and the project's own bookkeeping. *)

From Stdlib Require Export ZArith Lia Strings.Byte.
From stdpp Require Export base tactics gmap strings sorting numbers.
From stdpp Require Export list_basics list_relations list.

(** ** Python exceptions *)

(** The exceptions the modelled code raises.  The named ones carry the [code]
    attribute of the Python class; [WireError] also carries its [path].
    [Raised] is any other exception class of the code, by name.
    [OutOfFuel] is no Python exception: it marks a model whose fuel ran out,
    and each component proves that it is never the result. *)
Inductive exn :=
| WireError (code path : string)
| CryptoError (code : string)
| AuthError (code : string)
| ExchangeError (code : string)
| Raised (cls code : string)
| ValueError
| TypeError
| KeyError
| IndexError
| OutOfFuel.

#[export] Instance exn_eq_dec : EqDecision exn.
Proof. solve_decision. Defined.

(** A [WireError] raised with the default empty path. *)
Definition wire (code : string) : exn := WireError code "".

(** ** The error monad *)

Inductive result (A : Type) :=
| Ok (a : A)
| Err (e : exn).
Arguments Ok {A} a.
Arguments Err {A} e.

#[export] Instance result_eq_dec {A} `{EqDecision A} : EqDecision (result A).
Proof. solve_decision. Defined.

#[export] Instance result_ret : MRet result := @Ok.
#[export] Instance result_bind : MBind result :=
  λ A B f m, match m with Ok a => f a | Err e => Err e end.
#[export] Instance result_fmap : FMap result :=
  λ A B f m, match m with Ok a => Ok (f a) | Err e => Err e end.

(** [require ok e]: Python's [if not ok: raise e]. *)
Definition require (ok : bool) (e : exn) : result unit :=
  if ok then Ok tt else Err e.

Definition of_option {A} (e : exn) (o : option A) : result A :=
  match o with Some a => Ok a | None => Err e end.

Definition is_ok {A} (r : result A) : bool :=
  match r with Ok _ => true | Err _ => false end.

(** Try a computation and replace any [WireError] by another exception, the
    shape [try: ... except WireError: raise e from None]. *)
Definition catch_wire {A} (e : exn) (m : result A) : result A :=
  match m with Err (WireError _ _) => Err e | _ => m end.

Definition catch_crypto {A} (e : exn) (m : result A) : result A :=
  match m with Err (CryptoError _) => Err e | _ => m end.

(** [try: ... except Exception: raise e from None]. *)
Definition catch_any {A} (e : exn) (m : result A) : result A :=
  match m with Ok a => Ok a | Err _ => Err e end.

(** [for x in l: s = f(x, s)], stopping at the first exception. *)
Fixpoint iter {S A} (f : A → S → result S) (l : list A) (s : S) : result S :=
  match l with [] => Ok s | x :: l' => match f x s with Ok s' => iter f l' s' | Err e => Err e end end.

Section ResultLemmas.
Context {A B : Type}.

Lemma bind_Ok (m : result A) (f : A → result B) (b : B) :
  m ≫= f = Ok b ↔ ∃ a, m = Ok a ∧ f a = Ok b.
Proof.
  destruct m as [a|e]; cbn; split; intros H; [eauto| |done|];
    by destruct H as (? & ? & ?); simplify_eq.
Qed.

Lemma bind_Err (m : result A) (f : A → result B) (e : exn) :
  m ≫= f = Err e ↔ m = Err e ∨ ∃ a, m = Ok a ∧ f a = Err e.
Proof. destruct m as [a|e']; cbn; naive_solver. Qed.

Lemma bind_cong (m : result A) (f g : A → result B) : (∀ a, f a = g a) → m ≫= f = m ≫= g.
Proof. destruct m; cbn; auto. Qed.

(** One step of a computation whose first part is known. *)
Lemma bind_step (m : result A) (f : A → result B) (a : A) (r : result B) :
  m = Ok a → f a = r → m ≫= f = r.
Proof. by intros ->. Qed.

(** The same, when only success matters. *)
Lemma bind_step_ex (m : result A) (f : A → result B) (a : A) :
  m = Ok a → (∃ r, f a = Ok r) → ∃ r, m ≫= f = Ok r.
Proof. by intros ->. Qed.

Lemma catch_any_Ok (m : result A) e a : catch_any e m = Ok a ↔ m = Ok a.
Proof. destruct m; cbn; naive_solver. Qed.

Lemma require_Ok b e : require b e = Ok tt ↔ b = true.
Proof. destruct b; cbn; naive_solver. Qed.

Lemma iter_app {S} (f : A → S → result S) l k s :
  iter f (l ++ k) s = iter f l s ≫= iter f k.
Proof.
  revert s. induction l as [|x l IH]; intros s; [done|]. cbn [iter app].
  destruct (f x s); [apply IH|done].
Qed.

(** An invariant of the loop. *)
Lemma iter_inv {S} (f : A → S → result S) (I : S → Prop) l s s' :
  (∀ x t t', x ∈ l → f x t = Ok t' → I t → I t') → iter f l s = Ok s' → I s → I s'.
Proof.
  revert s. induction l as [|x l IH]; intros s Hf E Hs; cbn [iter] in E; [by simplify_eq|].
  destruct (f x s) as [t|] eqn:Hx; [|done].
  apply (IH t); [|done|eapply Hf; [by left|done|done]].
  intros y u u' Hy. apply Hf. by right.
Qed.

(** A loop that only checks. *)
Lemma iter_check (f : A → result unit) l :
  iter (λ x _, f x) l tt = Ok tt ↔ ∀ x, x ∈ l → f x = Ok tt.
Proof.
  induction l as [|x l IH]; cbn [iter]; [split; [by intros _ ? ?%not_elem_of_nil|done]|].
  destruct (f x) as [[]|] eqn:E.
  - rewrite IH. split; [intros H y [->|Hy]%elem_of_cons; [done|by apply H]|].
    intros H y Hy. apply H. by right.
  - split; [done|]. intros H. by rewrite <-E; apply H; left.
Qed.

(** An error of a loop is an error of one of its steps. *)
Lemma iter_Err {S} (f : A → S → result S) l s e :
  iter f l s = Err e → ∃ x t, x ∈ l ∧ f x t = Err e.
Proof.
  revert s. induction l as [|x l IH]; intros s E; cbn [iter] in E; [done|].
  destruct (f x s) as [t|e'] eqn:Hx.
  - apply IH in E as (y & u & Hy & E). exists y, u. split; [by right|done].
  - injection E as ->. exists x, s. split; [by left|done].
Qed.

Lemma require_Err b e e' : require b e = Err e' ↔ b = false ∧ e' = e.
Proof. destruct b; cbn; naive_solver. Qed.
End ResultLemmas.

(** ** Computations that raise nothing but a [WireError] *)

Definition wire_error (e : exn) : Prop := ∃ c p, e = WireError c p.

Definition wire_only {A} (m : result A) : Prop := ∀ e, m = Err e → wire_error e.

Lemma wire_only_Ok {A} (a : A) : wire_only (Ok a).
Proof. done. Qed.
Lemma wire_only_raise {A} c p : wire_only (@Err A (WireError c p)).
Proof. intros e [= <-]. by eexists _, _. Qed.
Lemma wire_only_bind {A B} (m : result A) (f : A → result B) :
  wire_only m → (∀ a, m = Ok a → wire_only (f a)) → wire_only (m ≫= f).
Proof. intros Hm Hf e [H|(a & Ha & H)]%bind_Err; [by apply Hm|by eapply Hf]. Qed.
Lemma wire_only_step {A B} (m : result A) (f : A → result B) a :
  m = Ok a → wire_only (f a) → wire_only (m ≫= f).
Proof. by intros ->. Qed.
Lemma wire_only_of_option {A} c p (o : option A) : wire_only (of_option (WireError c p) o).
Proof. destruct o; cbn; [done|apply wire_only_raise]. Qed.
Lemma wire_only_require b c p : wire_only (require b (WireError c p)).
Proof. destruct b; cbn; [done|apply wire_only_raise]. Qed.
Lemma wire_only_not_fuel {A} (m : result A) : wire_only m → m ≠ Err OutOfFuel.
Proof. intros H E. by destruct (H _ E) as (? & ? & ?). Qed.

(** Walks through a computation; what it calls is left to [eauto] with [wire_db]. *)
Create HintDb wire_db discriminated.
#[export] Hint Resolve wire_only_Ok wire_only_raise wire_only_of_option
  wire_only_require : wire_db.
Ltac wire_step :=
  cbv beta zeta;
  first
    [ solve [eauto with wire_db]
    | lazymatch goal with
      | |- wire_only (_ ≫= _) => apply wire_only_bind; [|intros]
      | |- wire_only (mbind _ _) => apply wire_only_bind; [|intros]
      | |- wire_only (Err (wire _)) => apply wire_only_raise
      | |- wire_only (of_option (wire _) _) => apply wire_only_of_option
      | |- wire_only (require _ (wire _)) => apply wire_only_require
      | |- wire_only (match ?x with _ => _ end) => destruct x eqn:?
      end ].
Ltac wire_only := repeat wire_step.

(** ** Automation *)

(** [inv_bind H] takes a successful (or failed) monadic computation apart: each
    bind, guard and option conversion becomes an equation of its own. *)
Ltac inv_bind_step :=
  match goal with
  | H : (_ ≫= _) = Ok _ |- _ =>
      apply bind_Ok in H; let x := fresh "x" in let E := fresh "E" in
      destruct H as (x & E & H); try destruct x as []; cbn beta iota in H
  | H : require _ _ = Ok _ |- _ => apply require_Ok in H
  | H : Ok _ = Ok _ |- _ => injection H as H; subst
  | H : Err _ = Ok _ |- _ => discriminate H
  | H : Ok _ = Err _ |- _ => discriminate H
  | H : mret _ = Ok _ |- _ => injection H as H; subst
  end.

(** [run H] performs the first step of the goal's computation, known by [H]; the
    conversions stay shallow, so nothing is evaluated. *)
Ltac run H := refine (bind_step _ _ _ _ H _); cbv beta.
(** The first step, when it computes. *)
Ltac run_eq := refine (bind_step _ _ _ _ _ _); [reflexivity|cbv beta].
Ltac run_ex H := refine (bind_step_ex _ _ _ H _); cbv beta.

(** Rows with distinct keys are determined by them. *)
Lemma NoDup_key {A B} (key : A → B) l x y :
  NoDup (key <$> l) → x ∈ l → y ∈ l → key x = key y → x = y.
Proof.
  intros Hn [i Hi]%list_elem_of_lookup [j Hj]%list_elem_of_lookup E.
  assert (i = j) as ->; [|congruence].
  apply (proj1 (NoDup_alt _) Hn i j (key x)); rewrite list_lookup_fmap; [by rewrite Hi|rewrite Hj; cbn; by rewrite E].
Qed.

(** ** [mapM] *)

Lemma mapM_Ok_Forall2 {A B} (f : A → result B) l k :
  mapM f l = Ok k → Forall2 (λ x y, f x = Ok y) l k.
Proof.
  revert k. induction l as [|x l IH]; intros k E; cbn in E; [injection E as <-; constructor|].
  apply bind_Ok in E as (y & Hy & E). apply bind_Ok in E as (k' & Hk & E). injection E as <-.
  constructor; [done|by apply IH].
Qed.

Lemma mapM_total {A B} (f : A → result B) l :
  (∀ x, x ∈ l → ∃ y, f x = Ok y) → ∃ k, mapM f l = Ok k.
Proof.
  induction l as [|x l IH]; intros Hl; [by eexists|].
  destruct (Hl x) as [y Hy]; [by left|]. destruct IH as [k Hk]; [intros z Hz; apply Hl; by right|].
  exists (y :: k). change (f x ≫= (λ y, mapM f l ≫= λ k, Ok (y :: k)) = Ok (y :: k)).
  run Hy. run Hk. done.
Qed.

Lemma Forall2_lookup_l_elem {A B} (P : A → B → Prop) l k x :
  Forall2 P l k → x ∈ l → ∃ y, y ∈ k ∧ P x y.
Proof.
  induction 1 as [|a b l k Hab _ IH]; [by intros ?%not_elem_of_nil|].
  intros [->|Hx]%elem_of_cons; [exists b; split; [by left|done]|].
  destruct (IH Hx) as (y & ? & ?). exists y. split; [by right|done].
Qed.

Lemma Forall2_lookup_r_elem {A B} (P : A → B → Prop) l k y :
  Forall2 P l k → y ∈ k → ∃ x, x ∈ l ∧ P x y.
Proof.
  induction 1 as [|a b l k Hab _ IH]; [by intros ?%not_elem_of_nil|].
  intros [->|Hx]%elem_of_cons; [exists a; split; [by left|done]|].
  destruct (IH Hx) as (x & ? & ?). exists x. split; [by right|done].
Qed.

Lemma mapM_Ok_elem {A B} (f : A → result B) l k :
  mapM f l = Ok k → (∀ x, x ∈ l → ∃ y, f x = Ok y ∧ y ∈ k) ∧ (∀ y, y ∈ k → ∃ x, x ∈ l ∧ f x = Ok y).
Proof.
  intros E%mapM_Ok_Forall2. split.
  - intros x Hx. eapply Forall2_lookup_l_elem in E as (y & ? & ?); [|done]. by exists y.
  - intros y Hy. eapply Forall2_lookup_r_elem in E as (x & ? & ?); [|done]. by exists x.
Qed.

Lemma mapM_Ok_length {A B} (f : A → result B) l k : mapM f l = Ok k → length k = length l.
Proof. intros E%mapM_Ok_Forall2. symmetry. by eapply Forall2_length. Qed.

Ltac case_if H :=
  match type of H with
  | context [if ?b then _ else _] =>
      let E := fresh "E" in destruct b eqn:E; try discriminate H
  end.

(** Boolean comparisons on [Z] as propositions. *)
Ltac zb :=
  repeat match goal with
  | H : (_ <? _)%Z = true |- _ => apply Z.ltb_lt in H
  | H : (_ <? _)%Z = false |- _ => apply Z.ltb_ge in H
  | H : (_ <=? _)%Z = true |- _ => apply Z.leb_le in H
  | H : (_ <=? _)%Z = false |- _ => apply Z.leb_gt in H
  | H : (_ =? _)%Z = true |- _ => apply Z.eqb_eq in H
  | H : (_ =? _)%Z = false |- _ => apply Z.eqb_neq in H
  | H : (_ >? _)%Z = _ |- _ => rewrite Z.gtb_ltb in H
  | H : (_ >=? _)%Z = _ |- _ => rewrite Z.geb_leb in H
  | H : andb _ _ = true |- _ => apply andb_prop in H; destruct H
  | H : andb _ _ = false |- _ => apply andb_false_iff in H
  | H : orb _ _ = false |- _ => apply orb_false_elim in H; destruct H
  | H : orb _ _ = true |- _ => apply orb_prop in H
  | H : negb _ = true |- _ => apply negb_true_iff in H
  | H : negb _ = false |- _ => apply negb_false_iff in H
  end.

(** Length of a Python sequence. *)
Definition len {A} (l : list A) : Z := Z.of_nat (length l).
#[global] Arguments len : simpl never.

Section LenLemmas.
Local Open Scope Z_scope.
Context {A : Type}.
Implicit Types l k : list A.

Lemma len_nonneg l : 0 <= len l.
Proof. unfold len; lia. Qed.
Lemma len_nil : len (@nil A) = 0.
Proof. done. Qed.
Lemma len_cons x l : len (x :: l) = len l + 1.
Proof. unfold len; cbn [length]; lia. Qed.
Lemma len_app l k : len (l ++ k) = len l + len k.
Proof. unfold len; rewrite length_app; lia. Qed.
Lemma len_zero l : len l = 0 → l = [].
Proof. destruct l; [done|rewrite len_cons; pose proof (len_nonneg l); lia]. Qed.
End LenLemmas.

Lemma len_map {A B} (f : A → B) l : len (f <$> l) = len l.
Proof. unfold len. by rewrite length_fmap. Qed.

Create HintDb par discriminated.
Create Rewrite HintDb par.
#[export] Hint Resolve len_nonneg : par.
#[export] Hint Rewrite @len_cons @len_app @len_map : par.

(** Linear arithmetic up to [len]: the lengths are made non-negative first. *)
Ltac len_nil :=
  repeat match goal with
  | |- context [@len ?A []] => change (@len A []) with 0%Z
  | H : context [@len ?A []] |- _ => change (@len A []) with 0%Z in H
  end.

Ltac len_lia :=
  autorewrite with par in *; len_nil;
  repeat match goal with
  | |- context [len ?l] =>
      lazymatch goal with
      | _ : (0 <= len l)%Z |- _ => fail
      | _ => pose proof (len_nonneg l)
      end
  | _ : context [len ?l] |- _ =>
      lazymatch goal with
      | _ : (0 <= len l)%Z |- _ => fail
      | _ => pose proof (len_nonneg l)
      end
  end; lia.
