(* ===== verification/Bytes.v ===== *)
(** * Bytes, big-endian integers and strict UTF-8

    The parts of Python's [bytes], [int.to_bytes]/[int.from_bytes] and
    [str.encode]/[bytes.decode] (strict) that the wire code uses.  A [bytes]
    object is a list of bytes; a [str] is the list of its code points. *)

From S2P Require Import Prelude.
Local Open Scope Z_scope.

Abbreviation bytes := (list byte).
(** Python's [str]: its code points (surrogates included, as in Python). *)
Abbreviation pystr := (list Z).

Definition Z_of_byte (b : byte) : Z := Z.of_N (Byte.to_N b).
Definition byte_of_Z (z : Z) : byte := default x00 (Byte.of_N (Z.to_N z)).

Lemma Z_of_byte_bound b : 0 <= Z_of_byte b < 256.
Proof. unfold Z_of_byte. pose proof (Byte.to_N_bounded b). lia. Qed.

Lemma byte_of_Z_of_byte b : byte_of_Z (Z_of_byte b) = b.
Proof. unfold byte_of_Z, Z_of_byte. rewrite N2Z.id, Byte.of_to_N. done. Qed.

Lemma Z_of_byte_of_Z z : 0 <= z < 256 → Z_of_byte (byte_of_Z z) = z.
Proof.
  intros Hz. unfold byte_of_Z, Z_of_byte.
  destruct (Byte.of_N (Z.to_N z)) as [b|] eqn:E; cbn.
  - apply Byte.to_of_N in E. lia.
  - apply Byte.of_N_None_iff in E. lia.
Qed.

Lemma Z_of_byte_inj a b : Z_of_byte a = Z_of_byte b → a = b.
Proof. intros H. by rewrite <- (byte_of_Z_of_byte a), H, byte_of_Z_of_byte. Qed.

#[export] Instance byte_eq_dec : EqDecision byte := Byte.byte_eq_dec.
#[export] Instance byte_countable : Countable byte.
Proof.
  refine (inj_countable' Byte.to_N (λ n, default x00 (Byte.of_N n)) _).
  intros b. by rewrite Byte.of_to_N.
Defined.

(** Python's lexicographic order on [bytes]. *)
Fixpoint bytes_ltb (a b : bytes) : bool :=
  match a, b with
  | _, [] => false
  | [], _ :: _ => true
  | x :: a', y :: b' =>
      if Z_of_byte x <? Z_of_byte y then true
      else if Z_of_byte y <? Z_of_byte x then false
      else bytes_ltb a' b'
  end.

Lemma bytes_ltb_irrefl a : bytes_ltb a a = false.
Proof. induction a; cbn; [done|]. rewrite Z.ltb_irrefl. done. Qed.

Lemma bytes_ltb_trans a b c :
  bytes_ltb a b = true → bytes_ltb b c = true → bytes_ltb a c = true.
Proof.
  revert b c. induction a as [|x a IH]; intros [|y b] [|z c]; cbn; try done.
  repeat case_match; zb; try done; try lia; eauto.
Qed.

Lemma bytes_ltb_trichotomy a b :
  bytes_ltb a b = false → bytes_ltb b a = false → a = b.
Proof.
  revert b. induction a as [|x a IH]; intros [|y b]; cbn; try done.
  repeat case_match; zb; try done; try lia. intros. f_equal; [|by apply IH].
  apply Z_of_byte_inj. lia.
Qed.

(** ** Big-endian integers *)

(** [z.to_bytes(w, 'big')] for a [z] that fits. *)
Fixpoint to_bytes_big (w : nat) (z : Z) : bytes :=
  match w with
  | O => []
  | S w' => to_bytes_big w' (z / 256) ++ [byte_of_Z (z mod 256)]
  end.

(** [int.from_bytes(b, 'big')]. *)
Definition from_bytes_big (b : bytes) : Z :=
  fold_left (λ acc x, acc * 256 + Z_of_byte x) b 0.

Lemma from_bytes_big_snoc b x :
  from_bytes_big (b ++ [x]) = from_bytes_big b * 256 + Z_of_byte x.
Proof. unfold from_bytes_big. by rewrite fold_left_app. Qed.

Lemma length_to_bytes_big w z : length (to_bytes_big w z) = w.
Proof. revert z. induction w; intros z; [done|]. unfold to_bytes_big; fold to_bytes_big.
  rewrite length_app, IHw. cbn; lia. Qed.

Lemma len_to_bytes_big w z : len (to_bytes_big w z) = Z.of_nat w.
Proof. unfold len. by rewrite length_to_bytes_big. Qed.
#[export] Hint Rewrite len_to_bytes_big : par.

Lemma from_to_bytes_big w z :
  0 <= z < 256 ^ Z.of_nat w → from_bytes_big (to_bytes_big w z) = z.
Proof.
  revert z. induction w as [|w IH]; intros z Hz; [cbn in *; lia|].
  rewrite Nat2Z.inj_succ, Z.pow_succ_r in Hz by lia.
  cbn [to_bytes_big]. rewrite from_bytes_big_snoc, IH, Z_of_byte_of_Z.
  - pose proof (Z.div_mod z 256). lia.
  - apply Z.mod_pos_bound; lia.
  - split; [apply Z.div_pos; lia|]. apply Z.div_lt_upper_bound; lia.
Qed.

Lemma from_bytes_big_bound b : 0 <= from_bytes_big b < 256 ^ len b.
Proof.
  induction b as [|x b IH] using rev_ind; [split; [done|reflexivity]|].
  rewrite from_bytes_big_snoc, len_app, len_cons, (len_nil (A := byte)).
  pose proof (Z_of_byte_bound x). pose proof (len_nonneg b).
  rewrite Z.pow_add_r by lia. change (256 ^ (0 + 1)) with 256. lia.
Qed.

Lemma to_from_bytes_big b : to_bytes_big (length b) (from_bytes_big b) = b.
Proof.
  induction b as [|x b IH] using rev_ind; [done|].
  rewrite length_app, Nat.add_comm. cbn [length Nat.add to_bytes_big].
  pose proof (Z_of_byte_bound x).
  rewrite from_bytes_big_snoc, Z.div_add_l, Z.div_small, Z.add_0_r, IH by lia.
  f_equal. rewrite Z.add_comm, Z.mod_add, Z.mod_small by lia.
  by rewrite byte_of_Z_of_byte.
Qed.

#[global] Arguments to_bytes_big : simpl never.

(** ** Strict UTF-8 *)

(** A code point Python's strict encoder accepts: no surrogates. *)
Definition is_scalar (c : Z) : bool :=
  (0 <=? c) && (c <=? 0x10FFFF) && negb ((0xD800 <=? c) && (c <=? 0xDFFF)).

Definition utf8_char (c : Z) : bytes :=
  if c <? 0x80 then [byte_of_Z c]
  else if c <? 0x800 then [byte_of_Z (0xC0 + c / 64); byte_of_Z (0x80 + c mod 64)]
  else if c <? 0x10000 then
    [byte_of_Z (0xE0 + c / 4096); byte_of_Z (0x80 + c / 64 mod 64);
     byte_of_Z (0x80 + c mod 64)]
  else
    [byte_of_Z (0xF0 + c / 262144); byte_of_Z (0x80 + c / 4096 mod 64);
     byte_of_Z (0x80 + c / 64 mod 64); byte_of_Z (0x80 + c mod 64)].

(** [s.encode('utf-8', errors='strict')]; [None] is [UnicodeEncodeError]. *)
Fixpoint utf8_encode (s : pystr) : option bytes :=
  match s with
  | [] => Some []
  | c :: s' =>
      if is_scalar c then b ← utf8_encode s'; Some (utf8_char c ++ b) else None
  end.

(** A continuation byte [10xxxxxx]. *)
Definition is_cont (b : byte) : bool := Z_of_byte b / 64 =? 2.
Definition cont (b : byte) : Z := Z_of_byte b mod 64.

(** [b.decode('utf-8', errors='strict')]; [None] is [UnicodeDecodeError]:
    overlong forms, surrogates, values past U+10FFFF and truncated or stray
    continuation bytes are refused. *)
Fixpoint utf8_decode (b : bytes) : option pystr :=
  match b with
  | [] => Some []
  | b0 :: r0 =>
      let h := Z_of_byte b0 in
      if h <? 0x80 then s ← utf8_decode r0; Some (h :: s)
      else if h <? 0xC2 then None
      else match r0 with
      | [] => None
      | b1 :: r1 =>
          if negb (is_cont b1) then None
          else if h <? 0xE0 then
            s ← utf8_decode r1; Some ((h - 0xC0) * 64 + cont b1 :: s)
          else match r1 with
          | [] => None
          | b2 :: r2 =>
              if negb (is_cont b2) then None
              else if h <? 0xF0 then
                let c := (h - 0xE0) * 4096 + cont b1 * 64 + cont b2 in
                if (0x800 <=? c) && is_scalar c
                then s ← utf8_decode r2; Some (c :: s) else None
              else match r2 with
              | [] => None
              | b3 :: r3 =>
                  if negb (is_cont b3) then None
                  else
                    let c := (h - 0xF0) * 262144 + cont b1 * 4096 + cont b2 * 64 + cont b3 in
                    if (0x10000 <=? c) && is_scalar c
                    then s ← utf8_decode r3; Some (c :: s) else None
              end
          end
      end
  end.

(** Every constant-divisor quotient and remainder as its two inequalities. *)
Ltac div_lia := Z.to_euclidean_division_equations; lia.

(** Decide every boolean comparison of the goal whose value follows from the
    hypotheses. *)
Ltac decide_cmp :=
  repeat match goal with
  | |- context [(?a <? ?b)%Z] =>
      first [replace (a <? b)%Z with true by div_lia
            |replace (a <? b)%Z with false by div_lia]
  | |- context [(?a <=? ?b)%Z] =>
      first [replace (a <=? b)%Z with true by div_lia
            |replace (a <=? b)%Z with false by div_lia]
  | |- context [(?a =? ?b)%Z] =>
      first [replace (a =? b)%Z with true by div_lia
            |replace (a =? b)%Z with false by div_lia]
  end; cbn [negb andb orb].

Lemma is_scalar_spec c :
  is_scalar c = true ↔ 0 <= c <= 0x10FFFF ∧ (c < 0xD800 ∨ 0xDFFF < c).
Proof. unfold is_scalar. lia. Qed.

Lemma is_cont_spec b : is_cont b = true ↔ 0x80 <= Z_of_byte b < 0xC0.
Proof. unfold is_cont. rewrite Z.eqb_eq. div_lia. Qed.

Lemma cont_bound b : 0 <= cont b < 64.
Proof. unfold cont. apply Z.mod_pos_bound. lia. Qed.

(** Decoding the bytes of one scalar value gives it back. *)
Lemma utf8_decode_char c r :
  is_scalar c = true →
  utf8_decode (utf8_char c ++ r) = s ← utf8_decode r; Some (c :: s).
Proof.
  intros Hs. pose proof (proj1 (is_scalar_spec _) Hs) as [Hc Hsur]. unfold utf8_char.
  repeat case_match; zb; cbn -[Z.div Z.modulo Z.mul Z.add byte_of_Z];
    unfold is_cont, cont; rewrite ?Z_of_byte_of_Z by div_lia; decide_cmp; [done|..].
  - by replace ((192 + c / 64 - 192) * 64 + (128 + c mod 64) mod 64) with c by div_lia.
  - replace ((224 + c / 4096 - 224) * 4096 + (128 + c / 64 mod 64) mod 64 * 64
             + (128 + c mod 64) mod 64) with c by div_lia.
    by decide_cmp; rewrite Hs.
  - replace ((240 + c / 262144 - 240) * 262144 + (128 + c / 4096 mod 64) mod 64 * 4096
             + (128 + c / 64 mod 64) mod 64 * 64 + (128 + c mod 64) mod 64)
      with c by div_lia.
    by decide_cmp; rewrite Hs.
Qed.

Lemma utf8_decode_encode s b : utf8_encode s = Some b → utf8_decode b = Some s.
Proof.
  revert b. induction s as [|c s IH]; intros b; cbn; [by intros [= <-]|].
  destruct (is_scalar c) eqn:Hc; [|done]. intros H.
  destruct (utf8_encode s) as [b'|]; [|done]. cbn in H. injection H as <-.
  rewrite utf8_decode_char by done. by rewrite (IH b').
Qed.

(** The three multi-byte forms, as the decoder recomposes them. *)
Lemma utf8_char_two b0 b1 :
  0xC2 <= Z_of_byte b0 < 0xE0 → is_cont b1 = true →
  is_scalar ((Z_of_byte b0 - 0xC0) * 64 + cont b1) = true
  ∧ utf8_char ((Z_of_byte b0 - 0xC0) * 64 + cont b1) = [b0; b1].
Proof.
  intros H0 H1%is_cont_spec. rewrite is_scalar_spec. unfold utf8_char, cont.
  split; [div_lia|]. decide_cmp.
  f_equal; [|f_equal]; apply Z_of_byte_inj; rewrite Z_of_byte_of_Z; div_lia.
Qed.

Lemma utf8_char_three b0 b1 b2 c :
  0xE0 <= Z_of_byte b0 < 0xF0 → is_cont b1 = true → is_cont b2 = true →
  c = (Z_of_byte b0 - 0xE0) * 4096 + cont b1 * 64 + cont b2 → 0x800 <= c →
  utf8_char c = [b0; b1; b2].
Proof.
  intros H0 H1%is_cont_spec H2%is_cont_spec Hc Hmin. unfold utf8_char, cont in *.
  decide_cmp.
  repeat f_equal; apply Z_of_byte_inj; rewrite Z_of_byte_of_Z; div_lia.
Qed.

Lemma utf8_char_four b0 b1 b2 b3 c :
  0xF0 <= Z_of_byte b0 → is_cont b1 = true → is_cont b2 = true → is_cont b3 = true →
  c = (Z_of_byte b0 - 0xF0) * 262144 + cont b1 * 4096 + cont b2 * 64 + cont b3 →
  0x10000 <= c <= 0x10FFFF → utf8_char c = [b0; b1; b2; b3].
Proof.
  intros H0 H1%is_cont_spec H2%is_cont_spec H3%is_cont_spec Hc Hmin.
  unfold utf8_char, cont in *. decide_cmp.
  repeat f_equal; apply Z_of_byte_inj; rewrite Z_of_byte_of_Z; div_lia.
Qed.

Lemma utf8_char_one b0 :
  Z_of_byte b0 < 0x80 →
  is_scalar (Z_of_byte b0) = true ∧ utf8_char (Z_of_byte b0) = [b0].
Proof.
  intros H. pose proof (Z_of_byte_bound b0). rewrite is_scalar_spec. unfold utf8_char.
  split; [lia|]. decide_cmp. by rewrite byte_of_Z_of_byte.
Qed.

(** Strict decoding accepts only the encoder's own output. *)
Lemma utf8_encode_decode b s : utf8_decode b = Some s → utf8_encode s = Some b.
Proof.
  remember (length b) as n eqn:Hn. revert b s Hn.
  induction (lt_wf n) as [n _ IH]. intros b s ->.
  assert (∀ c pre r t, b = pre ++ r → pre ≠ [] → is_scalar c = true → utf8_char c = pre →
            (x ← utf8_decode r; Some (c :: x)) = Some t → utf8_encode t = Some b) as Hstep.
  { intros c pre r t -> Hpre Hc Hch Ht. destruct (utf8_decode r) as [x|] eqn:Er; [|done].
    cbn in Ht. injection Ht as <-. cbn. rewrite Hc.
    erewrite IH; [by cbn; rewrite Hch| |done|done].
    rewrite length_app. destruct pre; [done|cbn; lia]. }
  destruct b as [|b0 r0]; [by intros [= <-]|].
  cbn -[Z.mul Z.add Z.sub is_scalar]. intros H.
  repeat case_match; try discriminate; zb; subst.
  - destruct (utf8_char_one b0); [lia|]. by eapply (Hstep _ [b0]).
  - destruct (utf8_char_two b0 b); [lia|done|]. by eapply (Hstep _ [b0; b]).
  - eapply (Hstep _ [b0; b; b1]); [done..|eapply utf8_char_three; try done; lia|done].
  - eapply (Hstep _ [b0; b; b1; b2]); [done..|eapply utf8_char_four; try done|done].
    rewrite is_scalar_spec in *. lia.
Qed.

Lemma utf8_char_len c : 1 <= len (utf8_char c).
Proof. unfold utf8_char. repeat case_match; len_lia. Qed.

(** An encoded string has at least one byte per code point. *)
Lemma utf8_encode_len s b : utf8_encode s = Some b → len s <= len b.
Proof.
  revert b. induction s as [|c s IH]; intros b; cbn; [by intros [= <-]|].
  destruct (is_scalar c); [|done].
  destruct (utf8_encode s) as [b'|]; [|done]. intros [= <-].
  specialize (IH b' eq_refl). pose proof (utf8_char_len c). len_lia.
Qed.

(** ASCII literals as Python [str] and [bytes] values. *)
Fixpoint str (s : string) : pystr :=
  match s with
  | EmptyString => []
  | String a s' => Z.of_N (Ascii.N_of_ascii a) :: str s'
  end.

Definition raw (zs : list Z) : bytes := byte_of_Z <$> zs.
