(* ===== verification/Value.v ===== *)
(** * Python values of the wire subset

    The objects that the codec, the schema interpreter and the message layers
    exchange: [None], [bool], [int], [bytes], [str], [list] and [dict].  An object
    graph is the tree it unfolds to; [VOther] stands for an object of any other
    Python type ([float], [tuple], subclasses, ...), which every layer refuses. *)

From S2P Require Import Prelude Bytes.
Local Open Scope Z_scope.

(** A dictionary key (any hashable the callers use). *)
Inductive pykey :=
| KInt (z : Z)
| KBool (b : bool)
| KStr (s : pystr)
| KBytes (b : bytes)
| KNone.

#[export] Instance pykey_eq_dec : EqDecision pykey.
Proof. solve_decision. Defined.

Inductive value :=
| VNone
| VBool (b : bool)
| VInt (z : Z)
| VBytes (b : bytes)
| VStr (s : pystr)
| VList (l : list value)
| VDict (d : list (pykey * value))
| VOther (tag : Z).

(** The induction principle with the hypothesis on list and dict elements. *)
Section ValueInd.
Variable P : value → Prop.
Hypothesis Hnone : P VNone.
Hypothesis Hbool : ∀ b, P (VBool b).
Hypothesis Hint : ∀ z, P (VInt z).
Hypothesis Hbytes : ∀ b, P (VBytes b).
Hypothesis Hstr : ∀ s, P (VStr s).
Hypothesis Hlist : ∀ l, Forall P l → P (VList l).
Hypothesis Hdict : ∀ d, Forall (λ kv, P kv.2) d → P (VDict d).
Hypothesis Hother : ∀ t, P (VOther t).

Fixpoint value_rect_nested (v : value) : P v :=
  match v with
  | VNone => Hnone
  | VBool b => Hbool b
  | VInt z => Hint z
  | VBytes b => Hbytes b
  | VStr s => Hstr s
  | VList l =>
      Hlist l ((fix go l := match l return Forall P l with
                | [] => Forall_nil_2 _
                | x :: l' => Forall_cons_2 _ _ _ (value_rect_nested x) (go l')
                end) l)
  | VDict d =>
      Hdict d ((fix go d := match d return Forall (λ kv, P kv.2) d with
                | [] => Forall_nil_2 _
                | kv :: d' => Forall_cons_2 _ _ _ (value_rect_nested kv.2) (go d')
                end) d)
  | VOther t => Hother t
  end.
End ValueInd.

#[export] Instance value_eq_dec : EqDecision value.
Proof.
  refine (fix go (v w : value) : {v = w} + {v ≠ w} :=
    match v, w with
    | VNone, VNone => left eq_refl
    | VBool a, VBool b => cast_if (decide (a = b))
    | VInt a, VInt b => cast_if (decide (a = b))
    | VBytes a, VBytes b => cast_if (decide (a = b))
    | VStr a, VStr b => cast_if (decide (a = b))
    | VList a, VList b => cast_if (@decide (a = b) (@list_eq_dec _ go a b))
    | VDict a, VDict b =>
        cast_if (@decide (a = b) (@list_eq_dec _
          (λ p q, @prod_eq_dec _ _ _ go p q) a b))
    | VOther a, VOther b => cast_if (decide (a = b))
    | _, _ => right _
    end); clear go; abstract congruence.
Defined.

(** ** Type tests ([type(v) is T]) *)

Definition is_int (v : value) : bool := match v with VInt _ => true | _ => false end.
Definition is_bool (v : value) : bool := match v with VBool _ => true | _ => false end.
Definition is_bytes (v : value) : bool := match v with VBytes _ => true | _ => false end.
Definition is_str (v : value) : bool := match v with VStr _ => true | _ => false end.
Definition is_none (v : value) : bool := match v with VNone => true | _ => false end.

Definition key_is_int (k : pykey) : bool := match k with KInt _ => true | _ => false end.

(** The keys of a dictionary all of whose keys are [int]s ([None] otherwise). *)
Definition key_int (k : pykey) : option Z :=
  match k with KInt z => Some z | _ => None end.
Definition int_keys (d : list (pykey * value)) : option (list Z) :=
  mapM (λ kv, key_int kv.1) d.

(** [d.get(k)] for an [int] key. *)
Fixpoint dict_get (d : list (pykey * value)) (k : Z) : option value :=
  match d with
  | [] => None
  | (KInt k', v) :: d' => if k =? k' then Some v else dict_get d' k
  | _ :: d' => dict_get d' k
  end.

(** [v[k]] on a value: [TypeError]/[KeyError]/[IndexError] as in Python.  A list
    is indexed by a non-negative position here (the only use in the code). *)
Definition getitem (v : value) (k : Z) : result value :=
  match v with
  | VDict d => of_option KeyError (dict_get d k)
  | VList l => of_option IndexError (l !! Z.to_nat k)
  | _ => Err TypeError
  end.

(** [sorted(keys)]. *)
Definition sorted_keys (ks : list Z) : list Z := merge_sort Z.le ks.

Lemma sorted_keys_perm ks : sorted_keys ks ≡ₚ ks.
Proof. apply merge_sort_Permutation. Qed.

Lemma sorted_keys_sorted ks : StronglySorted Z.le (sorted_keys ks).
Proof. apply StronglySorted_merge_sort; apply _. Qed.

Lemma strictly_sorted_le ks : StronglySorted Z.lt ks → StronglySorted Z.le ks.
Proof.
  induction 1; constructor; [done|].
  eapply Forall_impl; [done|]. intros x Hx. lia.
Qed.

Lemma strictly_sorted_NoDup ks : StronglySorted Z.lt ks → NoDup ks.
Proof.
  induction 1 as [|k l _ IH Hall]; constructor; [|done].
  intros Hin. rewrite Forall_forall in Hall. specialize (Hall _ Hin). lia.
Qed.

(** Sorting strictly increasing keys changes nothing. *)
Lemma sorted_keys_id ks : StronglySorted Z.lt ks → sorted_keys ks = ks.
Proof.
  intros H. eapply (StronglySorted_unique Z.le).
  - apply sorted_keys_sorted.
  - by apply strictly_sorted_le.
  - apply sorted_keys_perm.
Qed.

(** Distinct keys sort to strictly increasing ones. *)
Lemma sorted_keys_strict ks : NoDup ks → StronglySorted Z.lt (sorted_keys ks).
Proof.
  intros Hnd. assert (NoDup (sorted_keys ks)) as Hn by (by rewrite sorted_keys_perm).
  pose proof (sorted_keys_sorted ks) as Hs. revert Hn.
  induction Hs as [|k l Hs IH Hall]; intros Hn; constructor.
  - apply IH. by inversion Hn.
  - apply NoDup_cons in Hn as [Hk _]. rewrite Forall_forall in *.
    intros x Hx. specialize (Hall x Hx).
    assert (x ≠ k) by (intros ->; done). lia.
Qed.

(** A Python object: dictionary keys are pairwise distinct, all the way down. *)
Fixpoint wf_value (v : value) : Prop :=
  match v with
  | VList l => (fix go l := match l with [] => True | x :: l' => wf_value x ∧ go l' end) l
  | VDict d =>
      NoDup d.*1
      ∧ (fix go (d : list (pykey * value)) :=
           match d with [] => True | kv :: d' => wf_value kv.2 ∧ go d' end) d
  | _ => True
  end.

Lemma wf_value_list l : wf_value (VList l) ↔ Forall wf_value l.
Proof. cbn. induction l as [|x l IH]; [by split; [constructor|]|]. rewrite Forall_cons, IH. done. Qed.

Lemma wf_value_dict d :
  wf_value (VDict d) ↔ NoDup d.*1 ∧ Forall (λ kv, wf_value kv.2) d.
Proof.
  cbn. apply and_iff_compat_l.
  induction d as [|x l IH]; [by split; [constructor|]|]. rewrite Forall_cons, IH. done.
Qed.

(** ** Dictionaries with integer keys, as association lists *)

Definition to_dict (kvs : list (Z * value)) : list (pykey * value) :=
  (λ kv, (KInt kv.1, kv.2)) <$> kvs.

Lemma int_keys_to_dict kvs : int_keys (to_dict kvs) = Some kvs.*1.
Proof.
  unfold int_keys, to_dict. induction kvs as [|[k v] kvs IH]; [done|].
  cbn in *. by rewrite IH.
Qed.

(** A dictionary with only integer keys is the image of its pairs. *)
Lemma int_keys_Some d ks :
  int_keys d = Some ks → ∃ kvs, d = to_dict kvs ∧ ks = kvs.*1.
Proof.
  unfold int_keys. revert ks. induction d as [|[k v] d IH]; intros ks; cbn.
  - intros [= <-]. by exists [].
  - intros H.
    destruct k as [z| | | |]; cbn in H; try discriminate.
    destruct (mapM _ d) as [l|] eqn:El; [|discriminate]. cbn in H. injection H as <-.
    destruct (IH _ eq_refl) as (kvs & -> & ->). by exists ((z, v) :: kvs).
Qed.

Lemma dict_get_None kvs k : dict_get (to_dict kvs) k = None ↔ k ∉ kvs.*1.
Proof.
  induction kvs as [|[k' v] kvs IH]; cbn; [set_solver|].
  destruct (Z.eqb_spec k k') as [->|Hne]; [set_solver|]. rewrite IH. set_solver.
Qed.

Lemma dict_get_elem kvs k v :
  NoDup kvs.*1 → (k, v) ∈ kvs → dict_get (to_dict kvs) k = Some v.
Proof.
  induction kvs as [|[k' v'] kvs IH]; [by intros _ ?%not_elem_of_nil|].
  cbn. intros [Hk Hnd]%NoDup_cons [[= -> ->]|Hin]%elem_of_cons.
  - by rewrite Z.eqb_refl.
  - destruct (Z.eqb_spec k k') as [->|]; [|by apply IH].
    exfalso. apply Hk. apply list_elem_of_fmap. by exists (k', v).
Qed.

Lemma dict_get_Some_elem kvs k v :
  dict_get (to_dict kvs) k = Some v → (k, v) ∈ kvs.
Proof.
  induction kvs as [|[k' v'] kvs IH]; cbn; [done|].
  destruct (Z.eqb_spec k k') as [->|]; [intros [= ->]; by left|]. right. auto.
Qed.

Lemma NoDup_to_dict kvs : NoDup (to_dict kvs).*1 ↔ NoDup kvs.*1.
Proof.
  unfold to_dict. rewrite <- list_fmap_compose.
  replace ((fst ∘ λ kv : Z * value, (KInt kv.1, kv.2)) <$> kvs) with (KInt <$> kvs.*1)
    by (rewrite <- list_fmap_compose; done).
  apply NoDup_fmap. by intros ?? [= ->].
Qed.

(** The canonical form: dict entries in increasing key order, at every level. *)
Fixpoint norm (v : value) : value :=
  match v with
  | VList l => VList (map norm l)
  | VDict d =>
      let d' := map (λ kv, (kv.1, norm kv.2)) d in
      VDict (map (λ k, (KInt k, default VNone (dict_get d' k)))
               (sorted_keys (default [] (int_keys d))))
  | _ => v
  end.

Lemma dict_get_map (f : value → value) d k :
  dict_get (map (λ kv, (kv.1, f kv.2)) d) k = f <$> dict_get d k.
Proof.
  induction d as [|[[z| | | |] v] d IH]; cbn; try done.
  destruct (k =? z); [done|]. apply IH.
Qed.

Lemma norm_dict d :
  norm (VDict d) =
    VDict (map (λ k, (KInt k, norm (default VNone (dict_get d k))))
             (sorted_keys (default [] (int_keys d)))).
Proof.
  cbn. f_equal. apply map_ext. intros k. rewrite dict_get_map.
  by destruct (dict_get d k).
Qed.
