(* ===== verification/Codec.v ===== *)
(** * The deterministic CBOR codec (experiments/g0-wire/par_wire/codec.py)

    [encode]/[decode] with their budgets.  The encoder's [nonlocal] state (the
    output buffer and the node counter) is [est]; the decoder's ([pos] into the
    input and the node counter) is [dst], the position kept as the unread
    suffix.  Recursion runs on fuel: the depth guard stops both at depth 33, so
    [FUEL] is enough ([codec_errors]).  The encoder's [CYCLE]
    check has no counterpart: a [value] is a finite tree. *)

From S2P Require Import Prelude Bytes Value.
Local Open Scope Z_scope.

Definition MAX_BYTES : Z := 1048576.
Definition MAX_DEPTH : Z := 32.
Definition MAX_NODES : Z := 100000.
Definition U64 : Z := Z.shiftl 1 64 - 1.
Definition FUEL : nat := 34.

(** The guard both entry points start with. *)
Definition valid_budget (max_bytes max_nodes : Z) : bool :=
  (1 <=? max_bytes) && (max_bytes <=? MAX_BYTES) && (1 <=? max_nodes).

(** The loop of [_head] over the argument widths. *)
Fixpoint head_widths (major value : Z) (widths : list (Z * nat)) : result bytes :=
  match widths with
  | [] => Err (wire "UINT_RANGE")
  | (ai, width) :: widths' =>
      if value <? Z.shiftl 1 (Z.of_nat width * 8) then
        Ok (byte_of_Z (Z.lor (Z.shiftl major 5) ai) :: to_bytes_big width value)
      else head_widths major value widths'
  end.

(** [_head] *)
Definition head (major value : Z) : result bytes :=
  if negb ((0 <=? value) && (value <=? U64)) then Err (wire "UINT_RANGE")
  else if value <? 24 then Ok [byte_of_Z (Z.lor (Z.shiftl major 5) value)]
  else head_widths major value [(24, 1%nat); (25, 2%nat); (26, 4%nat); (27, 8%nat)].

(** ** Encoder *)

Record est := Est { e_out : bytes; e_nodes : Z }.

(** The key check of the dict case: [type(k) is not int or not 0 <= k <= U64]. *)
Definition key_ok (k : pykey) : bool :=
  match k with KInt z => (0 <=? z) && (z <=? U64) | _ => false end.

(** The children of a dict in the order they are encoded: each key, in
    increasing order, followed by its value. *)
Definition dict_items (d : list (pykey * value)) : list value :=
  flat_map (λ k, [VInt k; default VNone (dict_get d k)])
    (sorted_keys (default [] (int_keys d))).

Section Encoder.
Context (max_bytes max_nodes : Z).

Definition put (b : bytes) (s : est) : result est :=
  if max_bytes <? len (e_out s) + len b then Err (wire "LIMIT")
  else Ok (Est (e_out s ++ b) (e_nodes s)).

Definition put_head (major n : Z) (s : est) : result est :=
  h ← head major n; put h s.

Fixpoint enc_items (item : value → est → result est) (l : list value) (s : est)
    : result est :=
  match l with
  | [] => Ok s
  | v :: l' => s' ← item v s; enc_items item l' s'
  end.

Fixpoint enc_item (fuel : nat) (v : value) (depth : Z) (s : est) : result est :=
  match fuel with
  | O => Err OutOfFuel
  | S fuel' =>
      if MAX_DEPTH <? depth then Err (wire "DEPTH")
      else
        let s := Est (e_out s) (e_nodes s + 1) in
        if max_nodes <? e_nodes s then Err (wire "RESOURCE_LIMIT")
        else
          match v with
          | VNone => put [xf6] s
          | VBool b => put (if b then [xf5] else [xf4]) s
          | VInt z =>
              if z <? 0 then Err (wire "FORBIDDEN_TYPE") else put_head 0 z s
          | VBytes b => s ← put_head 2 (len b) s; put b s
          | VStr t =>
              if max_bytes <? len t then Err (wire "LIMIT")
              else
                raw ← of_option (wire "UTF8") (utf8_encode t);
                s ← put_head 3 (len raw) s; put raw s
          | VList l =>
              if max_nodes <? len l then Err (wire "RESOURCE_LIMIT")
              else
                s ← put_head 4 (len l) s;
                enc_items (λ c, enc_item fuel' c (depth + 1)) l s
          | VDict d =>
              if max_nodes <? len d then Err (wire "RESOURCE_LIMIT")
              else if negb (forallb (λ kv, key_ok kv.1) d) then Err (wire "MAP_KEY")
              else
                s ← put_head 5 (len d) s;
                enc_items (λ c, enc_item fuel' c (depth + 1)) (dict_items d) s
          | VOther _ => Err (wire "FORBIDDEN_TYPE")
          end
  end.
End Encoder.

Definition encode_with (max_bytes max_nodes : Z) (v : value) : result bytes :=
  if negb (valid_budget max_bytes max_nodes) then Err ValueError
  else s ← enc_item max_bytes max_nodes FUEL v 0 (Est [] 0); Ok (e_out s).

Definition encode : value → result bytes := encode_with MAX_BYTES MAX_NODES.

(** ** Decoder *)

Record dst := Dst { d_rest : bytes; d_nodes : Z }.

Definition take_bytes (n : Z) (s : dst) : result (bytes * dst) :=
  if len (d_rest s) <? n then Err (wire "TRUNCATED")
  else Ok (take (Z.to_nat n) (d_rest s), Dst (drop (Z.to_nat n) (d_rest s)) (d_nodes s)).

(** [(24, 256, 65536, 4294967296)[ai-24]] *)
Definition minimum_argument (ai : Z) : Z :=
  if ai =? 24 then 24 else if ai =? 25 then 256 else if ai =? 26 then 65536 else 4294967296.

Definition argument (ai : Z) (s : dst) : result (Z * dst) :=
  if ai <? 24 then Ok (ai, s)
  else if ai =? 31 then Err (wire "INDEFINITE")
  else if negb ((24 <=? ai) && (ai <=? 27)) then Err (wire "RESERVED")
  else
    '(b, s) ← take_bytes (Z.shiftl 1 (ai - 24)) s;
    let n := from_bytes_big b in
    if n <? minimum_argument ai then Err (wire "NON_MINIMAL") else Ok (n, s).

Section Decoder.
Context (max_bytes max_nodes : Z).

(** [[item(depth+1) for _ in range(n)]] *)
Fixpoint dec_list (item : dst → result (value * dst)) (n : nat) (s : dst)
    : result (list value * dst) :=
  match n with
  | O => Ok ([], s)
  | S n' =>
      '(v, s) ← item s;
      '(l, s) ← dec_list item n' s;
      Ok (v :: l, s)
  end.

(** The loop filling [result]; the keys arrive increasing, so each store is a
    fresh entry at the end. *)
Fixpoint dec_map (item : dst → result (value * dst)) (n : nat) (previous : Z) (s : dst)
    : result (list (pykey * value) * dst) :=
  match n with
  | O => Ok ([], s)
  | S n' =>
      '(key, s) ← item s;
      match key with
      | VInt k =>
          if k <=? previous then Err (wire "MAP_ORDER")
          else
            '(v, s) ← item s;
            '(d, s) ← dec_map item n' k s;
            Ok ((KInt k, v) :: d, s)
      | _ => Err (wire "MAP_KEY")
      end
  end.

Fixpoint dec_item (fuel : nat) (depth : Z) (s : dst) : result (value * dst) :=
  match fuel with
  | O => Err OutOfFuel
  | S fuel' =>
      if MAX_DEPTH <? depth then Err (wire "DEPTH")
      else
        let s := Dst (d_rest s) (d_nodes s + 1) in
        if max_nodes <? d_nodes s then Err (wire "RESOURCE_LIMIT")
        else
          '(b0, s) ← take_bytes 1 s;
          let initial := from_bytes_big b0 in
          let major := Z.shiftr initial 5 in
          let ai := Z.land initial 31 in
          if major =? 7 then
            if ai =? 20 then Ok (VBool false, s)
            else if ai =? 21 then Ok (VBool true, s)
            else if ai =? 22 then Ok (VNone, s)
            else Err (wire "FORBIDDEN_TYPE")
          else if (major =? 1) || (major =? 6) then Err (wire "FORBIDDEN_TYPE")
          else
            '(n, s) ← argument ai s;
            if major =? 0 then Ok (VInt n, s)
            else if max_bytes <? n then Err (wire "LIMIT")
            else if (major =? 2) || (major =? 3) then
              '(b, s) ← take_bytes n s;
              if major =? 2 then Ok (VBytes b, s)
              else t ← of_option (wire "UTF8") (utf8_decode b); Ok (VStr t, s)
            else
              let needed := n * (if major =? 5 then 2 else 1) in
              if len (d_rest s) <? needed then Err (wire "TRUNCATED")
              else if max_nodes <? d_nodes s + needed then Err (wire "RESOURCE_LIMIT")
              else if major =? 4 then
                '(l, s) ← dec_list (dec_item fuel' (depth + 1)) (Z.to_nat n) s;
                Ok (VList l, s)
              else
                '(d, s) ← dec_map (dec_item fuel' (depth + 1)) (Z.to_nat n) (-1) s;
                Ok (VDict d, s)
  end.
End Decoder.

Definition decode_with (max_bytes max_nodes : Z) (data : bytes) : result value :=
  if negb (valid_budget max_bytes max_nodes) then Err ValueError
  else if max_bytes <? len data then Err (wire "LIMIT")
  else
    '(v, s) ← dec_item max_bytes max_nodes FUEL 0 (Dst data 0);
    if negb (len (d_rest s) =? 0) then Err (wire "TRAILING") else Ok v.

Definition decode : bytes → result value := decode_with MAX_BYTES MAX_NODES.

(** Conversion unfolds the abbreviations with the default budgets first, and the
    recursions last. *)
#[global] Strategy expand [encode decode].
#[global] Strategy 1000 [encode_with decode_with enc_item dec_item].

(** Two evaluations of the model. *)
Example encode_ex :
  encode (VDict [(KInt 300, VStr (str "hi")); (KInt 1, VList [VBool true; VNone])])
  = Ok (raw [0xA2; 1; 0x82; 0xF5; 0xF6; 0x19; 1; 44; 0x62; 104; 105]).
Proof. vm_compute. reflexivity. Qed.

Example decode_ex :
  decode (raw [0xA2; 1; 0x82; 0xF5; 0xF6; 0x19; 1; 44; 0x62; 104; 105])
  = Ok (VDict [(KInt 1, VList [VBool true; VNone]); (KInt 300, VStr (str "hi"))]).
Proof. vm_compute. reflexivity. Qed.

(** ** Heads *)

Definition head_byte (major ai : Z) : Z := Z.lor (Z.shiftl major 5) ai.

Lemma head_byte_sum major ai : 0 <= ai < 32 → head_byte major ai = major * 32 + ai.
Proof.
  intros Hai. unfold head_byte.
  rewrite <- Z.lxor_lor, <- Z.add_nocarry_lxor; rewrite ?Z.shiftl_mul_pow2 by lia; try done.
  all: apply Z.bits_inj'; intros n Hn; rewrite Z.land_spec, Z.bits_0.
  all: destruct (decide (n < 5)).
  all: try (rewrite Z.mul_pow2_bits_low by lia; done).
  all: replace ai with (ai mod 2 ^ 5) by (apply Z.mod_small; lia);
    rewrite Z.mod_pow2_bits_high, andb_false_r by lia; done.
Qed.

Lemma head_byte_bound major ai :
  0 <= major < 8 → 0 <= ai < 32 → 0 <= head_byte major ai < 256.
Proof. intros. rewrite head_byte_sum; lia. Qed.

Lemma shiftr_5 z : Z.shiftr z 5 = z / 32.
Proof. by rewrite Z.shiftr_div_pow2. Qed.
Lemma land_31 z : Z.land z 31 = z mod 32.
Proof. change 31 with (Z.ones 5). by rewrite Z.land_ones. Qed.

Lemma head_byte_major major ai :
  0 <= major < 8 → 0 <= ai < 32 →
  Z.shiftr (Z_of_byte (byte_of_Z (head_byte major ai))) 5 = major.
Proof.
  intros. rewrite Z_of_byte_of_Z by (by apply head_byte_bound).
  rewrite shiftr_5, head_byte_sum by lia. div_lia.
Qed.

Lemma head_byte_ai major ai :
  0 <= major < 8 → 0 <= ai < 32 →
  Z.land (Z_of_byte (byte_of_Z (head_byte major ai))) 31 = ai.
Proof.
  intros. rewrite Z_of_byte_of_Z by (by apply head_byte_bound).
  rewrite land_31, head_byte_sum by lia. div_lia.
Qed.

Lemma head_byte_of_byte b :
  byte_of_Z (head_byte (Z.shiftr (Z_of_byte b) 5) (Z.land (Z_of_byte b) 31)) = b.
Proof.
  rewrite shiftr_5, land_31, head_byte_sum by div_lia.
  rewrite <- (byte_of_Z_of_byte b) at 3. f_equal. div_lia.
Qed.

Lemma from_bytes_big_one b : from_bytes_big [b] = Z_of_byte b.
Proof. unfold from_bytes_big. cbn. lia. Qed.

Lemma take_bytes_app n b r k :
  n = len b → take_bytes n (Dst (b ++ r) k) = Ok (b, Dst r k).
Proof.
  intros ->. unfold take_bytes. cbn. rewrite len_app.
  replace (len b + len r <? len b) with false by (symmetry; apply Z.ltb_ge; len_lia).
  unfold len. by rewrite Nat2Z.id, take_app_length, drop_app_length.
Qed.

Lemma take_bytes_inv n s b s' :
  0 <= n → take_bytes n s = Ok (b, s') →
  d_rest s = b ++ d_rest s' ∧ len b = n ∧ d_nodes s' = d_nodes s.
Proof.
  unfold take_bytes. intros Hn H. case_if H. simplify_eq. cbn.
  rewrite take_drop. split_and!; try done. zb. unfold len in *. rewrite length_take. lia.
Qed.

Lemma U64_val : U64 = 18446744073709551615.
Proof. reflexivity. Qed.

(** The four argument widths, as one equation per width. *)
Lemma head_cases major n :
  0 <= n <= U64 →
  head major n =
    if n <? 24 then Ok [byte_of_Z (head_byte major n)]
    else if n <? 256 then Ok (byte_of_Z (head_byte major 24) :: to_bytes_big 1 n)
    else if n <? 65536 then Ok (byte_of_Z (head_byte major 25) :: to_bytes_big 2 n)
    else if n <? 4294967296 then Ok (byte_of_Z (head_byte major 26) :: to_bytes_big 4 n)
    else Ok (byte_of_Z (head_byte major 27) :: to_bytes_big 8 n).
Proof.
  intros [Hlo Hhi]. unfold head.
  apply Z.leb_le in Hlo as Hlo'. apply Z.leb_le in Hhi as Hhi'. rewrite Hlo', Hhi'.
  change U64 with 18446744073709551615 in Hhi. cbn -[Z.ltb to_bytes_big].
  change (Z.shiftl 1 (Z.of_nat 1 * 8)) with 256. change (Z.shiftl 1 (Z.of_nat 2 * 8)) with 65536.
  change (Z.shiftl 1 (Z.of_nat 4 * 8)) with 4294967296.
  change (Z.shiftl 1 (Z.of_nat 8 * 8)) with 18446744073709551616.
  rewrite (proj2 (Z.ltb_lt n 18446744073709551616)) by lia. done.
Qed.

Lemma head_range major n h : head major n = Ok h → 0 <= n <= U64.
Proof. unfold head. intros H. case_if H. zb. lia. Qed.

Lemma argument_wide ai w b r k :
  (ai, w) ∈ [(24, 1%nat); (25, 2%nat); (26, 4%nat); (27, 8%nat)] →
  length b = w → minimum_argument ai <= from_bytes_big b →
  argument ai (Dst (b ++ r) k) = Ok (from_bytes_big b, Dst r k).
Proof.
  intros Hin Hlen Hmin. unfold argument.
  repeat (apply elem_of_cons in Hin as [[= -> ->]|Hin]); [..|by apply not_elem_of_nil in Hin].
  all: apply Z.ltb_ge in Hmin; cbn -[take_bytes from_bytes_big Z.ltb minimum_argument].
  all: rewrite take_bytes_app by (unfold len; rewrite Hlen; vm_compute; reflexivity).
  all: cbn -[from_bytes_big Z.ltb minimum_argument]; by rewrite Hmin.
Qed.

(** Decoding a head gives its major type and argument back. *)
Lemma head_decode major n h :
  0 <= major < 8 → head major n = Ok h →
  ∃ b0 tl, h = b0 :: tl ∧ Z.shiftr (Z_of_byte b0) 5 = major ∧
    ∀ r k, argument (Z.land (Z_of_byte b0) 31) (Dst (tl ++ r) k) = Ok (n, Dst r k).
Proof.
  intros Hm Hh. pose proof (head_range _ _ _ Hh) as Hn.
  rewrite head_cases in Hh by done. change U64 with 18446744073709551615 in Hn.
  repeat case_match; zb; injection Hh as <-.
  all: eexists _, _; split; [done|].
  all: rewrite head_byte_major, head_byte_ai by lia; split; [done|]; intros r k.
  1: unfold argument; by rewrite (proj2 (Z.ltb_lt _ _)) by lia.
  all: erewrite argument_wide; [| |apply length_to_bytes_big|];
    [by rewrite from_to_bytes_big by (cbn; lia)
    |set_solver
    |rewrite from_to_bytes_big by (cbn; lia); cbn; lia].
Qed.

(** Evaluate the closed arithmetic of a bound. *)
Ltac eval_in H :=
  match type of H with
  | context [256 ^ ?e] => let p := eval vm_compute in (256 ^ e) in change (256 ^ e) with p in H
  | context [minimum_argument ?a] =>
      let p := eval vm_compute in (minimum_argument a) in change (minimum_argument a) with p in H
  end.

(** A successful [argument] is the canonical head of its value. *)
Lemma argument_head b0 s n s' :
  argument (Z.land (Z_of_byte b0) 31) s = Ok (n, s') →
  ∃ tl, d_rest s = tl ++ d_rest s' ∧ d_nodes s' = d_nodes s ∧
    head (Z.shiftr (Z_of_byte b0) 5) n = Ok (b0 :: tl).
Proof.
  pose proof (head_byte_of_byte b0) as Hb0.
  set (major := Z.shiftr (Z_of_byte b0) 5) in *.
  set (ai := Z.land (Z_of_byte b0) 31) in *.
  assert (0 <= ai < 32) as Hai.
  { subst ai. rewrite land_31. apply Z.mod_pos_bound. lia. }
  unfold argument. intros H. case_if H; zb.
  { simplify_eq. exists []. split_and!; try done. rewrite head_cases by (rewrite U64_val; lia).
    rewrite (proj2 (Z.ltb_lt _ _)) by done. by rewrite Hb0. }
  case_if H. case_if H. apply bind_Ok in H as ([b s1] & Ht & H). case_if H. simplify_eq. zb.
  apply take_bytes_inv in Ht as (Hrest & Hlen & Hnodes); [|apply Z.shiftl_nonneg; lia].
  exists b. split_and!; try done.
  pose proof (from_bytes_big_bound b) as Hbnd. pose proof (to_from_bytes_big b) as Hb.
  assert (length b = Z.to_nat (Z.shiftl 1 (ai - 24))) as Hl by (unfold len in *; lia).
  rewrite Hl in Hb. rewrite Hlen in Hbnd. clear Hlen Hl.
  assert (ai = 24 ∨ ai = 25 ∨ ai = 26 ∨ ai = 27) as Hcases by lia.
  clearbody ai major.
  assert (0 <= from_bytes_big b <= 18446744073709551615) by
    (destruct Hcases as [->|[->|[->| ->]]]; (split; [tauto|]);
     (eapply Z.le_trans; [apply Z.lt_le_pred, Hbnd|by vm_compute])).
  rewrite head_cases by done.
  set (z := from_bytes_big b) in *; clearbody z.
  destruct Hcases as [->|[->|[->| ->]]]; eval_in Hbnd; eval_in E2;
    decide_cmp; by rewrite Hb0, <- Hb.
Qed.

(** ** Decoding what was encoded *)

Section RoundTrip.
Context (max_bytes max_nodes : Z).
#[local] Abbreviation enc_item := (enc_item max_bytes max_nodes).
#[local] Abbreviation dec_item := (dec_item max_bytes max_nodes).
#[local] Abbreviation put := (put max_bytes).
#[local] Abbreviation put_head := (put_head max_bytes).

Lemma put_inv b s s' :
  put b s = Ok s' →
  s' = Est (e_out s ++ b) (e_nodes s) ∧ len (e_out s) + len b <= max_bytes.
Proof. unfold Codec.put. intros H. case_if H. zb. by simplify_eq. Qed.

Lemma put_head_inv m n s s' :
  put_head m n s = Ok s' →
  ∃ h, head m n = Ok h ∧ s' = Est (e_out s ++ h) (e_nodes s) ∧
    len (e_out s) + len h <= max_bytes.
Proof. intros (h & Hh & Hp)%bind_Ok. apply put_inv in Hp. eauto. Qed.

(** What the encoder owes the decoder for one item: the bytes it appended
    decode, whatever follows, to the canonical form of the value, and the node
    count of both sides advances alike. *)
Definition appended (s s' : est) (chunk : bytes) : Prop :=
  e_out s' = e_out s ++ chunk ∧ len (e_out s') <= max_bytes ∧
  e_nodes s' - e_nodes s <= len chunk.

Definition item_rt (enc : value → est → result est)
    (dec : dst → result (value * dst)) : Prop :=
  ∀ v s s', wf_value v → enc v s = Ok s' →
  ∃ chunk, appended s s' chunk ∧ e_nodes s < e_nodes s' ∧ e_nodes s' <= max_nodes ∧
    ∀ r, dec (Dst (chunk ++ r) (e_nodes s)) = Ok (norm v, Dst r (e_nodes s')).

(** Appending nothing, and appending twice. *)
Lemma appended_trans s1 s2 s3 c1 c2 :
  appended s1 s2 c1 → appended s2 s3 c2 → appended s1 s3 (c1 ++ c2).
Proof.
  intros (H1 & _ & N1) (H2 & L2 & N2). split_and!; [|done|len_lia].
  by rewrite H2, H1, app_assoc.
Qed.

Lemma items_rt enc dec l s s' :
  item_rt enc dec → Forall wf_value l → enc_items enc l s = Ok s' →
  len (e_out s) <= max_bytes → e_nodes s <= max_nodes →
  ∃ chunk, appended s s' chunk ∧ len l <= e_nodes s' - e_nodes s ∧
    e_nodes s' <= max_nodes ∧
    ∀ r, dec_list dec (length l) (Dst (chunk ++ r) (e_nodes s))
         = Ok (map norm l, Dst r (e_nodes s')).
Proof.
  intros Hrt. revert s. induction l as [|v l IH]; intros s Hwf H Hlen Hn.
  { injection H as <-. exists []. unfold appended. rewrite app_nil_r.
    split_and!; try done; len_lia. }
  apply Forall_cons in Hwf as [Hv Hwf]. apply bind_Ok in H as (s1 & H1 & H2).
  destruct (Hrt _ _ _ Hv H1) as (c1 & A1 & N1 & M1 & D1).
  destruct (IH s1 Hwf H2) as (c2 & A2 & N2 & M2 & D2);
    [by destruct A1 as (_ & ? & _)|done|].
  exists (c1 ++ c2). split_and!; [by eapply appended_trans|len_lia|done|].
  intros r. cbn. rewrite <- app_assoc, D1. cbn. by rewrite D2.
Qed.

Lemma dict_items_rt enc dec (f : Z → value) ks prev s s' :
  item_rt enc dec → (∀ k, wf_value (f k)) →
  StronglySorted Z.lt ks → Forall (Z.lt prev) ks →
  enc_items enc (flat_map (λ k, [VInt k; f k]) ks) s = Ok s' →
  len (e_out s) <= max_bytes → e_nodes s <= max_nodes →
  ∃ chunk, appended s s' chunk ∧ 2 * len ks <= e_nodes s' - e_nodes s ∧
    e_nodes s' <= max_nodes ∧
    ∀ r, dec_map dec (length ks) prev (Dst (chunk ++ r) (e_nodes s))
         = Ok (map (λ k, (KInt k, norm (f k))) ks, Dst r (e_nodes s')).
Proof.
  intros Hrt Hwf. revert prev s. induction ks as [|k ks IH]; intros prev s Hs Hp H Hlen Hn.
  { injection H as <-. exists []. unfold appended. rewrite app_nil_r.
    split_and!; try done; len_lia. }
  apply Forall_cons in Hp as [Hk Hp]. inversion_clear Hs as [|?? Hs' Hall].
  cbn [flat_map app] in H. apply bind_Ok in H as (s1 & H1 & (s2 & H2 & H3)%bind_Ok).
  destruct (Hrt (VInt k) _ _ I H1) as (c1 & A1 & N1 & M1 & D1).
  destruct (Hrt (f k) _ _ (Hwf k) H2) as (c2 & A2 & N2 & M2 & D2).
  destruct (IH k s2 Hs' Hall H3) as (c3 & A3 & N3 & M3 & D3);
    [by destruct A2 as (_ & ? & _)|done|].
  exists (c1 ++ c2 ++ c3).
  split_and!; [eapply appended_trans, appended_trans; eauto|len_lia|done|].
  intros r. cbn. rewrite <- !app_assoc, D1. cbn.
  rewrite (proj2 (Z.leb_gt _ _)) by lia. rewrite D2. cbn. by rewrite D3.
Qed.

(** One step of [dec_item] past the initial byte of a non-simple item. *)
Lemma dec_item_head fuel depth m n h r k :
  depth <= MAX_DEPTH → k < max_nodes → m ∈ [0; 2; 3; 4; 5] → head m n = Ok h →
  dec_item (S fuel) depth (Dst (h ++ r) k) =
    let s := Dst r (k + 1) in
    if m =? 0 then Ok (VInt n, s)
    else if max_bytes <? n then Err (wire "LIMIT")
    else if (m =? 2) || (m =? 3) then
      '(b, s) ← take_bytes n s;
      if m =? 2 then Ok (VBytes b, s)
      else t ← of_option (wire "UTF8") (utf8_decode b); Ok (VStr t, s)
    else
      let needed := n * (if m =? 5 then 2 else 1) in
      if len (d_rest s) <? needed then Err (wire "TRUNCATED")
      else if max_nodes <? d_nodes s + needed then Err (wire "RESOURCE_LIMIT")
      else if m =? 4 then
        '(l, s) ← dec_list (dec_item fuel (depth + 1)) (Z.to_nat n) s;
        Ok (VList l, s)
      else
        '(d, s) ← dec_map (dec_item fuel (depth + 1)) (Z.to_nat n) (-1) s;
        Ok (VDict d, s).
Proof.
  intros Hd Hk Hm Hh.
  assert (0 <= m < 8) as Hm8 by (set_unfold; lia).
  destruct (head_decode m n h Hm8 Hh) as (b0 & tl & -> & Hmaj & Harg).
  cbn [Codec.dec_item d_rest d_nodes].
  rewrite (proj2 (Z.ltb_ge MAX_DEPTH depth)) by lia.
  rewrite (proj2 (Z.ltb_ge max_nodes (k + 1))) by lia.
  change ((b0 :: tl) ++ r) with ([b0] ++ (tl ++ r)).
  rewrite take_bytes_app by done. cbn [mbind result_bind].
  rewrite from_bytes_big_one, Hmaj.
  assert ((m =? 7) = false ∧ ((m =? 1) || (m =? 6)) = false) as [-> ->] by (set_unfold; lia).
  by rewrite Harg.
Qed.

(** Simple values: one byte, no argument. *)
Lemma dec_item_simple fuel depth b v r k :
  depth <= MAX_DEPTH → k < max_nodes →
  (b, v) ∈ [(xf4, VBool false); (xf5, VBool true); (xf6, VNone)] →
  dec_item (S fuel) depth (Dst ([b] ++ r) k) = Ok (v, Dst r (k + 1)).
Proof.
  intros Hd Hk Hin. cbn [Codec.dec_item d_rest d_nodes].
  rewrite (proj2 (Z.ltb_ge MAX_DEPTH depth)) by lia.
  rewrite (proj2 (Z.ltb_ge max_nodes (k + 1))) by lia.
  rewrite take_bytes_app by done. cbn [mbind result_bind].
  repeat (apply elem_of_cons in Hin as [[= -> ->]|Hin]); [done..|].
  by apply not_elem_of_nil in Hin.
Qed.

Lemma key_ok_int_keys d :
  forallb (λ kv : pykey * value, key_ok kv.1) d = true →
  ∃ kvs, d = to_dict kvs ∧ Forall (λ kv, 0 <= kv.1 <= U64) kvs.
Proof.
  induction d as [|[[z| | | |] v] d IH]; cbn; try done; intros H.
  - by exists [].
  - apply andb_prop in H as [Hz H]. destruct (IH H) as (kvs & -> & Hall).
    exists ((z, v) :: kvs). split; [done|]. constructor; [cbn; zb; lia|done].
Qed.

Lemma wf_dict_get kvs k :
  Forall (λ kv, wf_value kv.2) (to_dict kvs) →
  wf_value (default VNone (dict_get (to_dict kvs) k)).
Proof.
  intros Hall. destruct (dict_get (to_dict kvs) k) as [v|] eqn:E; [|done]. cbn.
  apply dict_get_Some_elem in E. rewrite Forall_forall in Hall.
  apply (Hall (KInt k, v)). unfold to_dict. apply list_elem_of_fmap. by exists (k, v).
Qed.

Lemma Forall_sorted_keys (P : Z → Prop) ks : Forall P ks → Forall P (sorted_keys ks).
Proof. intros H. by rewrite sorted_keys_perm. Qed.

Lemma len_sorted_keys ks : len (sorted_keys ks) = len ks.
Proof. unfold len. by rewrite sorted_keys_perm. Qed.

Lemma head_nonempty m n h : head m n = Ok h → 1 <= len h.
Proof.
  intros Hh. rewrite head_cases in Hh by (by eapply head_range).
  repeat case_match; injection Hh as <-; len_lia.
Qed.

(** The conclusion of [item_rt] for one value. *)
Definition item_rt_for (dec : dst → result (value * dst)) (v : value) (s s' : est) : Prop :=
  ∃ chunk, appended s s' chunk ∧ e_nodes s < e_nodes s' ∧ e_nodes s' <= max_nodes ∧
    ∀ r, dec (Dst (chunk ++ r) (e_nodes s)) = Ok (norm v, Dst r (e_nodes s')).

Lemma list_round_trip fuel depth l s s' :
  item_rt (λ v s, enc_item fuel v (depth + 1) s) (dec_item fuel (depth + 1)) →
  depth <= MAX_DEPTH → e_nodes s < max_nodes → wf_value (VList l) →
  (s1 ← put_head 4 (len l) (Est (e_out s) (e_nodes s + 1));
   enc_items (λ c, enc_item fuel c (depth + 1)) l s1) = Ok s' →
  item_rt_for (dec_item (S fuel) depth) (VList l) s s'.
Proof.
  intros IH Hd Hn Hwf%wf_value_list (s1 & (h & Hh & -> & Hlen1)%put_head_inv & H)%bind_Ok.
  cbn [e_out e_nodes] in *. pose proof (head_nonempty _ _ _ Hh).
  edestruct items_rt as (c & (Ho & Hl & Hn2) & Hk & Hmax & Hdec);
    [exact IH|exact Hwf|exact H|cbn; len_lia|cbn; lia|]. cbn [e_out e_nodes] in *.
  exists (h ++ c). unfold appended. rewrite Ho, <- (app_assoc _ h c) in *.
  split_and!; try done; try len_lia.
  intros r. rewrite <- app_assoc. rewrite (dec_item_head _ _ 4 (len l)) by (done || lia || set_solver).
  cbn -[Z.mul]. rewrite Z.mul_1_r.
  rewrite (proj2 (Z.ltb_ge max_bytes _)), (proj2 (Z.ltb_ge (len (c ++ r)) _)),
    (proj2 (Z.ltb_ge max_nodes _)) by len_lia.
  unfold len at 1. rewrite Nat2Z.id, Hdec. done.
Qed.

Lemma dict_round_trip fuel depth d s s' :
  item_rt (λ v s, enc_item fuel v (depth + 1) s) (dec_item fuel (depth + 1)) →
  depth <= MAX_DEPTH → e_nodes s < max_nodes → wf_value (VDict d) →
  forallb (λ kv : pykey * value, key_ok kv.1) d = true →
  (s1 ← put_head 5 (len d) (Est (e_out s) (e_nodes s + 1));
   enc_items (λ c, enc_item fuel c (depth + 1)) (dict_items d) s1) = Ok s' →
  item_rt_for (dec_item (S fuel) depth) (VDict d) s s'.
Proof.
  intros IH Hd Hn [Hnd Hwf]%wf_value_dict (kvs & -> & Hks)%key_ok_int_keys
    (s1 & (h & Hh & -> & Hlen1)%put_head_inv & H)%bind_Ok.
  cbn [e_out e_nodes] in *. pose proof (head_nonempty _ _ _ Hh).
  unfold item_rt_for. rewrite norm_dict. unfold dict_items in H.
  rewrite int_keys_to_dict in *. cbn [default from_option id] in *.
  assert (len (to_dict kvs) = len (sorted_keys kvs.*1)) as Hld.
  { unfold to_dict. by rewrite len_map, len_sorted_keys, len_map. }
  rewrite Hld in *. apply NoDup_to_dict in Hnd.
  edestruct dict_items_rt as (c & (Ho & Hl & Hn2) & Hk & Hmax & Hdec);
    [exact IH|intros k; by apply wf_dict_get|by apply sorted_keys_strict
    |apply (Forall_sorted_keys (Z.lt (-1)))|exact H|cbn; len_lia|cbn; lia|].
  { apply Forall_fmap. eapply Forall_impl; [exact Hks|]. cbn. lia. }
  cbn [e_out e_nodes] in *. set (ks := sorted_keys kvs.*1) in *.
  exists (h ++ c). unfold appended. rewrite Ho, <- (app_assoc _ h c) in *.
  split_and!; try done; try len_lia.
  intros r. rewrite <- app_assoc. rewrite (dec_item_head _ _ 5 (len ks)) by (done || lia || set_solver).
  cbn -[Z.mul]. rewrite (proj2 (Z.ltb_ge max_bytes _)), (proj2 (Z.ltb_ge (len (c ++ r)) _)),
    (proj2 (Z.ltb_ge max_nodes _)) by len_lia.
  unfold len at 1. rewrite Nat2Z.id, Hdec. done.
Qed.

(** The encoder and the decoder agree on every item, at every depth. *)
Lemma item_round_trip fuel depth :
  item_rt (λ v s, enc_item fuel v depth s) (dec_item fuel depth).
Proof.
  revert depth. induction fuel as [|fuel IH]; intros depth v s s' Hwf H; [done|].
  cbn [Codec.enc_item] in H. case_if H. case_if H. cbn [e_nodes] in *. zb.
  unfold appended. destruct v as [|b|z|b|t|l|d|t]; cbn [norm].
  - apply put_inv in H as [-> Hlen]. cbn [e_out e_nodes] in *. exists [xf6].
    split_and!; try done; try len_lia.
    intros r. apply dec_item_simple; [lia..|set_solver].
  - apply put_inv in H as [-> Hlen]. cbn [e_out e_nodes] in *.
    exists (if b then [xf5] else [xf4]).
    split_and!; try done; try (destruct b; len_lia).
    intros r. destruct b; (apply dec_item_simple; [lia..|set_solver]).
  - case_if H. apply put_head_inv in H as (h & Hh & -> & Hlen). cbn [e_out e_nodes] in *.
    pose proof (head_nonempty _ _ _ Hh). exists h. split_and!; try done; try len_lia.
    intros r. by rewrite (dec_item_head _ _ 0 z) by (done || lia || set_solver).
  - apply bind_Ok in H as (s1 & (h & Hh & -> & Hlen1)%put_head_inv & [-> Hlen]%put_inv).
    cbn [e_out e_nodes] in *. pose proof (head_nonempty _ _ _ Hh).
    exists (h ++ b). rewrite <- (app_assoc _ h b). split_and!; try done; try len_lia.
    intros r. rewrite <- app_assoc. rewrite (dec_item_head _ _ 2 (len b)) by (done || lia || set_solver).
    cbn -[take_bytes]. rewrite (proj2 (Z.ltb_ge _ _)) by len_lia.
    by rewrite take_bytes_app.
  - case_if H. apply bind_Ok in H as (u & Hu & H).
    destruct (utf8_encode t) as [u'|] eqn:Eu; [injection Hu as ->|done].
    apply bind_Ok in H as (s1 & (h & Hh & -> & Hlen1)%put_head_inv & [-> Hlen]%put_inv).
    cbn [e_out e_nodes] in *. pose proof (head_nonempty _ _ _ Hh).
    exists (h ++ u). rewrite <- (app_assoc _ h u). split_and!; try done; try len_lia.
    intros r. rewrite <- app_assoc. rewrite (dec_item_head _ _ 3 (len u)) by (done || lia || set_solver).
    cbn -[take_bytes]. rewrite (proj2 (Z.ltb_ge _ _)) by len_lia.
    rewrite take_bytes_app by done. cbn. by rewrite (utf8_decode_encode _ _ Eu).
  - case_if H. apply list_round_trip in H; [|done|lia|lia|done]. done.
  - case_if H. case_if H. zb. apply dict_round_trip in H; [|done|lia|lia|done|done]. done.
  - done.
Qed.
End RoundTrip.

(** ** Encoding what was decoded *)

Section Canonical.
Context (max_bytes max_nodes : Z).
#[local] Abbreviation enc_item := (enc_item max_bytes max_nodes).
#[local] Abbreviation dec_item := (dec_item max_bytes max_nodes).

Lemma put_ok b o n :
  len o + len b <= max_bytes → put max_bytes b (Est o n) = Ok (Est (o ++ b) n).
Proof. intros H. unfold put. cbn. by rewrite (proj2 (Z.ltb_ge _ _)) by lia. Qed.

(** The values a decoder can return for one item. *)
Definition decoded (v : value) : Prop :=
  wf_value v ∧ ∀ z, v = VInt z → 0 <= z <= U64.

(** What the decoder owes the encoder for one item: the bytes it consumed are
    exactly those the encoder appends for the value it returned. *)
Definition item_tr_for (enc : value → est → result est) (s : dst) (v : value) (s' : dst)
    : Prop :=
  d_nodes s <= d_nodes s' ∧
  ∃ chunk, d_rest s = chunk ++ d_rest s' ∧ decoded v ∧
    ∀ o, len o + len chunk <= max_bytes →
      enc v (Est o (d_nodes s)) = Ok (Est (o ++ chunk) (d_nodes s')).

Definition item_tr (dec : dst → result (value * dst))
    (enc : value → est → result est) : Prop :=
  ∀ s v s', 0 <= d_nodes s → dec s = Ok (v, s') → item_tr_for enc s v s'.

Lemma dec_list_tr dec enc n s l s' :
  item_tr dec enc → 0 <= d_nodes s → dec_list dec n s = Ok (l, s') →
  d_nodes s <= d_nodes s' ∧
  ∃ chunk, d_rest s = chunk ++ d_rest s' ∧ Forall wf_value l ∧ length l = n ∧
    ∀ o, len o + len chunk <= max_bytes →
      enc_items enc l (Est o (d_nodes s)) = Ok (Est (o ++ chunk) (d_nodes s')).
Proof.
  intros Htr. revert s l. induction n as [|n IH]; intros s l Hpos H.
  { injection H as <- <-. split; [done|]. exists []. split_and!; try done. intros o _. by rewrite app_nil_r. }
  apply bind_Ok in H as ([v s1] & H1 & ([l' s2] & H2 & [= <- <-])%bind_Ok).
  destruct (Htr _ _ _ Hpos H1) as (N1 & c1 & R1 & [W1 _] & E1).
  destruct (IH s1 l') as (N2 & c2 & R2 & W2 & L2 & E2); [lia|exact H2|].
  split; [lia|]. exists (c1 ++ c2). split_and!; [by rewrite R1, R2, app_assoc|by constructor|cbn; lia|].
  intros o Ho. cbn. rewrite E1 by len_lia. cbn. rewrite E2 by len_lia.
  by rewrite <- app_assoc.
Qed.

Lemma dec_map_tr dec enc n prev s d s' :
  item_tr dec enc → 0 <= d_nodes s → dec_map dec n prev s = Ok (d, s') →
  d_nodes s <= d_nodes s' ∧
  ∃ kvs chunk, d = to_dict kvs ∧ d_rest s = chunk ++ d_rest s' ∧ length kvs = n ∧
    StronglySorted Z.lt kvs.*1 ∧ Forall (Z.lt prev) kvs.*1 ∧
    Forall (λ kv, 0 <= kv.1 <= U64) kvs ∧ Forall (λ kv, wf_value kv.2) kvs ∧
    ∀ o, len o + len chunk <= max_bytes →
      enc_items enc (flat_map (λ kv, [VInt kv.1; kv.2]) kvs) (Est o (d_nodes s))
      = Ok (Est (o ++ chunk) (d_nodes s')).
Proof.
  intros Htr. revert prev s d. induction n as [|n IH]; intros prev s d Hpos H.
  { injection H as <- <-. split; [done|]. exists [], []. split_and!; try done; try constructor.
    intros o _. by rewrite app_nil_r. }
  apply bind_Ok in H as ([key s1] & H1 & H). destruct key as [| |k| | | | |]; try discriminate.
  case_if H. zb. apply bind_Ok in H as ([v s2] & H2 & ([d' s3] & H3 & [= <- <-])%bind_Ok).
  destruct (Htr _ _ _ Hpos H1) as (N1 & c1 & R1 & [_ K1] & E1).
  destruct (Htr s1 v s2) as (N2 & c2 & R2 & [W2 _] & E2); [lia|exact H2|].
  destruct (IH k s2 d') as (N3 & kvs & c3 & -> & R3 & L3 & S3 & P3 & U3 & W3 & E3);
    [lia|exact H3|].
  split; [lia|]. exists ((k, v) :: kvs), (c1 ++ c2 ++ c3). split_and!; try done.
  - by rewrite R1, R2, R3, !app_assoc.
  - cbn. lia.
  - by constructor.
  - cbn. constructor; [lia|]. eapply Forall_impl; [exact P3|]. intros; lia.
  - constructor; [by apply K1|done].
  - by constructor.
  - intros o Ho. cbn. rewrite E1 by len_lia. cbn. rewrite E2 by len_lia. cbn.
    rewrite E3 by len_lia. by rewrite <- !app_assoc.
Qed.

(** A decoded dictionary is encoded in the order it was read. *)
Lemma dict_items_to_dict kvs :
  StronglySorted Z.lt kvs.*1 →
  dict_items (to_dict kvs) = flat_map (λ kv, [VInt kv.1; kv.2]) kvs.
Proof.
  intros Hs. unfold dict_items. rewrite int_keys_to_dict. cbn [default from_option id].
  rewrite sorted_keys_id by done.
  pose proof (strictly_sorted_NoDup _ Hs) as Hnd.
  assert (∀ l, l ⊆ kvs → flat_map (λ k, [VInt k; default VNone (dict_get (to_dict kvs) k)]) l.*1
          = flat_map (λ kv, [VInt kv.1; kv.2]) l) as Hgen; [|by apply Hgen].
  induction l as [|[k v] l IH]; intros Hl; [done|]. cbn.
  rewrite IH by (intros x Hx; apply Hl; by right).
  by rewrite (dict_get_elem _ k v) by (done || apply Hl; left).
Qed.

Lemma key_ok_to_dict kvs :
  Forall (λ kv, 0 <= kv.1 <= U64) kvs →
  forallb (λ kv : pykey * value, key_ok kv.1) (to_dict kvs) = true.
Proof.
  induction 1 as [|kv kvs H _ IH]; [done|]. unfold to_dict in *. cbn in *.
  rewrite IH. lia.
Qed.

(** The guards [enc_item] passes when [dec_item] passed its own. *)
Lemma put_head_ok m n h o k :
  head m n = Ok h → len o + len h <= max_bytes →
  put_head max_bytes m n (Est o k) = Ok (Est (o ++ h) k).
Proof. intros Hh Ho. unfold put_head. rewrite Hh. cbn. by apply put_ok. Qed.

Lemma dec_list_len item n s l s' : dec_list item n s = Ok (l, s') → length l = n.
Proof.
  revert s l s'. induction n as [|n IH]; intros s l s' H; [by injection H as <- <-|].
  apply bind_Ok in H as ([v s1] & _ & ([l' s2] & H2 & [= <- <-])%bind_Ok).
  cbn. f_equal. by eapply IH.
Qed.

(** [dec_item] split at the initial byte. *)
Lemma dec_item_inv fuel depth s v s' :
  dec_item (S fuel) depth s = Ok (v, s') →
  depth <= MAX_DEPTH ∧ d_nodes s < max_nodes ∧
  ((∃ b, d_rest s = [b] ++ d_rest s' ∧ d_nodes s' = d_nodes s + 1 ∧
      (b, v) ∈ [(xf4, VBool false); (xf5, VBool true); (xf6, VNone)])
   ∨ ∃ m n h s1, head m n = Ok h ∧ d_rest s = h ++ d_rest s1 ∧
       d_nodes s1 = d_nodes s + 1 ∧ (m = 0 ∨ m = 2 ∨ m = 3 ∨ m = 4 ∨ m = 5) ∧
       (if m =? 0 then Ok (VInt n, s1)
        else if max_bytes <? n then Err (wire "LIMIT")
        else if (m =? 2) || (m =? 3) then
          '(b, s) ← take_bytes n s1;
          if m =? 2 then Ok (VBytes b, s)
          else t ← of_option (wire "UTF8") (utf8_decode b); Ok (VStr t, s)
        else
          let needed := n * (if m =? 5 then 2 else 1) in
          if len (d_rest s1) <? needed then Err (wire "TRUNCATED")
          else if max_nodes <? d_nodes s1 + needed then Err (wire "RESOURCE_LIMIT")
          else if m =? 4 then
            '(l, s) ← dec_list (dec_item fuel (depth + 1)) (Z.to_nat n) s1;
            Ok (VList l, s)
          else
            '(d, s) ← dec_map (dec_item fuel (depth + 1)) (Z.to_nat n) (-1) s1;
            Ok (VDict d, s)) = Ok (v, s')).
Proof.
  intros H. cbn [Codec.dec_item] in H. case_if H. case_if H. cbn [d_rest d_nodes] in *. zb.
  split; [lia|]. split; [lia|].
  apply bind_Ok in H as ([bs s1] & (Hr & Hl & Hn1)%take_bytes_inv & H); [|done].
  cbn [d_rest d_nodes] in *. destruct bs as [|b0 [|??]]; try (exfalso; len_lia).
  rewrite from_bytes_big_one in H. pose proof (head_byte_of_byte b0) as Hb0.
  case_if H; zb.
  - left. rewrite E1 in Hb0. exists b0.
    repeat case_if H; zb; injection H as <- <-; (split; [done|split; [lia|]]);
      match goal with E : Z.land _ _ = _ |- _ => rewrite E in Hb0 end;
      vm_compute in Hb0; rewrite <- Hb0; set_solver.
  - case_if H. zb. right. apply bind_Ok in H as ([n s2] & Harg & H).
    apply argument_head in Harg as (tl & Htl & Hn2 & Hh).
    eexists _, n, _, s2. split; [exact Hh|]. rewrite Hr, Htl.
    split_and!; [done|lia| |exact H].
    pose proof (Z_of_byte_bound b0). rewrite shiftr_5 in *.
    assert (0 <= Z_of_byte b0 / 32 < 8) by div_lia. lia.
Qed.

Ltac enter_enc :=
  cbn [Codec.enc_item e_nodes e_out];
  rewrite (proj2 (Z.ltb_ge MAX_DEPTH _)), (proj2 (Z.ltb_ge max_nodes _)) by lia.

Lemma decoded_wf v : (∀ z, v ≠ VInt z) → wf_value v → decoded v.
Proof. intros Hz Hwf. split; [done|]. intros z ->. by destruct (Hz z). Qed.

Lemma bytes_transposed fuel depth n h s s1 b s' :
  depth <= MAX_DEPTH → d_nodes s < max_nodes → head 2 n = Ok h →
  d_rest s = h ++ d_rest s1 → d_nodes s1 = d_nodes s + 1 →
  take_bytes n s1 = Ok (b, s') →
  item_tr_for (λ v s, enc_item (S fuel) v depth s) s (VBytes b) s'.
Proof.
  intros Hd Hn Hh Hr Hn1 (Hr1 & Hl & Hn')%take_bytes_inv;
    [|pose proof (head_range _ _ _ Hh); lia].
  split; [lia|]. exists (h ++ b). split; [by rewrite Hr, Hr1, app_assoc|].
  split; [by apply decoded_wf|].
  intros o Ho. enter_enc. rewrite Hl. erewrite put_head_ok by (done || len_lia).
  cbn. rewrite put_ok by len_lia. by rewrite <- app_assoc, Hn', Hn1.
Qed.

Lemma str_transposed fuel depth n h s s1 b t s' :
  depth <= MAX_DEPTH → d_nodes s < max_nodes → head 3 n = Ok h →
  d_rest s = h ++ d_rest s1 → d_nodes s1 = d_nodes s + 1 →
  take_bytes n s1 = Ok (b, s') → utf8_decode b = Some t →
  item_tr_for (λ v s, enc_item (S fuel) v depth s) s (VStr t) s'.
Proof.
  intros Hd Hn Hh Hr Hn1 (Hr1 & Hl & Hn')%take_bytes_inv Ht%utf8_encode_decode;
    [|pose proof (head_range _ _ _ Hh); lia].
  pose proof (utf8_encode_len _ _ Ht).
  split; [lia|]. exists (h ++ b). split; [by rewrite Hr, Hr1, app_assoc|].
  split; [by apply decoded_wf|].
  intros o Ho. enter_enc. rewrite (proj2 (Z.ltb_ge max_bytes _)) by len_lia.
  rewrite Ht. cbn. rewrite Hl. erewrite put_head_ok by (done || len_lia).
  cbn. rewrite put_ok by len_lia. by rewrite <- app_assoc, Hn', Hn1.
Qed.

Lemma list_transposed fuel depth n h s s1 l s' :
  item_tr (dec_item fuel (depth + 1)) (λ v s, enc_item fuel v (depth + 1) s) →
  depth <= MAX_DEPTH → d_nodes s < max_nodes → head 4 n = Ok h →
  d_rest s = h ++ d_rest s1 → d_nodes s1 = d_nodes s + 1 →
  0 <= d_nodes s → d_nodes s1 + n <= max_nodes →
  dec_list (dec_item fuel (depth + 1)) (Z.to_nat n) s1 = Ok (l, s') →
  item_tr_for (λ v s, enc_item (S fuel) v depth s) s (VList l) s'.
Proof.
  intros IH Hd Hn Hh Hr Hn1 Hpos Hmax H. pose proof (head_range _ _ _ Hh).
  edestruct dec_list_tr as (Hnn & c & Hr1 & Hwf & Hl & Henc); [exact IH| |exact H|]; [lia|].
  split; [lia|]. exists (h ++ c). split; [by rewrite Hr, Hr1, app_assoc|].
  split; [by apply decoded_wf, wf_value_list|].
  intros o Ho. enter_enc.
  assert (len l = n) as -> by (unfold len; rewrite Hl; lia).
  rewrite (proj2 (Z.ltb_ge max_nodes _)) by lia.
  erewrite put_head_ok by (done || len_lia). cbn.
  rewrite <- Hn1, Henc by len_lia. by rewrite <- app_assoc.
Qed.

Lemma dict_transposed fuel depth n h s s1 d s' :
  item_tr (dec_item fuel (depth + 1)) (λ v s, enc_item fuel v (depth + 1) s) →
  depth <= MAX_DEPTH → d_nodes s < max_nodes → head 5 n = Ok h →
  d_rest s = h ++ d_rest s1 → d_nodes s1 = d_nodes s + 1 →
  0 <= d_nodes s → d_nodes s1 + n * 2 <= max_nodes →
  dec_map (dec_item fuel (depth + 1)) (Z.to_nat n) (-1) s1 = Ok (d, s') →
  item_tr_for (λ v s, enc_item (S fuel) v depth s) s (VDict d) s'.
Proof.
  intros IH Hd Hn Hh Hr Hn1 Hpos Hmax H. pose proof (head_range _ _ _ Hh).
  edestruct dec_map_tr as (Hnn & kvs & c & -> & Hr1 & Hl & Hs & _ & Hks & Hwf & Henc);
    [exact IH| |exact H|]; [lia|].
  split; [lia|]. exists (h ++ c). split; [by rewrite Hr, Hr1, app_assoc|].
  split.
  { apply decoded_wf; [done|]. apply wf_value_dict. rewrite NoDup_to_dict. split.
    - by apply strictly_sorted_NoDup.
    - unfold to_dict. by apply Forall_fmap. }
  intros o Ho. enter_enc.
  assert (len (to_dict kvs) = n) as ->
    by (unfold to_dict; rewrite len_map; unfold len; rewrite Hl; lia).
  rewrite (proj2 (Z.ltb_ge max_nodes _)) by lia.
  rewrite key_ok_to_dict by done. cbn [negb].
  erewrite put_head_ok by (done || len_lia). cbn.
  rewrite dict_items_to_dict, <- Hn1, Henc by (done || len_lia). by rewrite <- app_assoc.
Qed.

Lemma simple_transposed fuel depth b s v s' :
  depth <= MAX_DEPTH → d_nodes s < max_nodes →
  d_rest s = [b] ++ d_rest s' → d_nodes s' = d_nodes s + 1 →
  (b, v) ∈ [(xf4, VBool false); (xf5, VBool true); (xf6, VNone)] →
  item_tr_for (λ v s, enc_item (S fuel) v depth s) s v s'.
Proof.
  intros Hd Hn Hr Hn' Hin. split; [lia|]. exists [b]. split; [done|]. split.
  { repeat (apply elem_of_cons in Hin as [[= -> ->]|Hin]); try done.
    by apply not_elem_of_nil in Hin. }
  intros o Ho. enter_enc. rewrite Hn'.
  repeat (apply elem_of_cons in Hin as [[= -> ->]|Hin]); try by rewrite put_ok.
  by apply not_elem_of_nil in Hin.
Qed.

Lemma item_transposed fuel depth :
  item_tr (dec_item fuel depth) (λ v s, enc_item fuel v depth s).
Proof.
  revert depth. induction fuel as [|fuel IH]; intros depth s v s' Hpos H; [done|].
  apply dec_item_inv in H as (Hd & Hn & [(b & Hr & Hn' & Hin)|(m & n & h & s1 & Hh & Hr & Hn1 & Hm & H)]);
    [by eapply simple_transposed|].
  pose proof (head_range _ _ _ Hh) as Hrange.
  destruct Hm as [->|[->|[->|[->| ->]]]]; cbn -[take_bytes Z.mul] in H; repeat case_if H; zb.
  - injection H as <- <-. split; [lia|]. exists h. split; [done|].
    split; [split; [done|by intros z [= <-]]|].
    intros o Ho. enter_enc. rewrite (proj2 (Z.ltb_ge n _)) by lia.
    rewrite (put_head_ok _ _ _ _ _ Hh) by done. by rewrite Hn1.
  - apply bind_Ok in H as ([b s2] & Hb & [= <- <-]). by eapply bytes_transposed.
  - apply bind_Ok in H as ([b s2] & Hb & (t & Ht & [= <- <-])%bind_Ok).
    destruct (utf8_decode b) eqn:Eb; [injection Ht as ->|done]. by eapply str_transposed.
  - apply bind_Ok in H as ([l s2] & Hl & [= <- <-]).
    eapply list_transposed; try done. lia.
  - apply bind_Ok in H as ([d s2] & Hdd & [= <- <-]). by eapply dict_transposed.
Qed.
End Canonical.

(** ** The contract of the codec *)

(** What every message layer relies on: decoding inverts encoding up to the
    order of dict entries, a byte string is accepted only if it is the encoding
    of its value, and encodings are non-empty and within the byte budget. *)
Class CodecLaws (enc : value → result bytes) (dec : bytes → result value) (limit : Z) := {
  dec_enc v bs : wf_value v → enc v = Ok bs → dec bs = Ok (norm v);
  enc_dec bs v : dec bs = Ok v → enc v = Ok bs ∧ wf_value v;
  enc_len v bs : wf_value v → enc v = Ok bs → 1 <= len bs <= limit;
}.

Lemma valid_budget_inv {A} mb mn (k : result A) a :
  (if negb (valid_budget mb mn) then Err ValueError else k) = Ok a →
  1 <= mb <= MAX_BYTES ∧ 1 <= mn ∧ valid_budget mb mn = true ∧ k = Ok a.
Proof.
  intros H. destruct (valid_budget mb mn) eqn:E; [|done].
  pose proof E as E'. unfold valid_budget in E'. split_and!; try done; lia.
Qed.

(** [encode_with] as one run of [enc_item] on the empty buffer. *)
Lemma encode_with_Ok mb mn v bs :
  encode_with mb mn v = Ok bs →
  1 <= mb <= MAX_BYTES ∧ 1 <= mn ∧ valid_budget mb mn = true ∧
  ∃ s, enc_item mb mn FUEL v 0 (Est [] 0) = Ok s ∧ e_out s = bs.
Proof.
  intros (Hmb & Hmn & Hv & H)%valid_budget_inv. split_and!; try done; try lia.
  apply bind_Ok in H as (s & Hs & [= <-]). eauto.
Qed.

Lemma encode_item mb mn v bs :
  wf_value v → encode_with mb mn v = Ok bs →
  valid_budget mb mn = true ∧ 1 <= len bs <= mb ∧
  ∃ k, ∀ r, dec_item mb mn FUEL 0 (Dst (bs ++ r) 0) = Ok (norm v, Dst r k).
Proof.
  intros Hwf (Hmb & Hmn & Hv & s & Hs & <-)%encode_with_Ok.
  destruct (item_round_trip mb mn FUEL 0 v _ _ Hwf Hs) as (c & (Ho & Hl & Hn) & Hlt & Hmax & Hdec).
  cbn [e_out e_nodes app] in *. rewrite <- Ho in *. split; [done|]. split; [len_lia|]. eauto.
Qed.

Lemma decode_with_intro mb mn bs v k :
  valid_budget mb mn = true → len bs <= mb →
  dec_item mb mn FUEL 0 (Dst bs 0) = Ok (v, Dst [] k) → decode_with mb mn bs = Ok v.
Proof.
  intros Hv Hl H. unfold decode_with. rewrite Hv. cbn [negb].
  rewrite (proj2 (Z.ltb_ge _ _)) by lia. by rewrite H.
Qed.

Lemma decode_with_Ok mb mn bs v :
  decode_with mb mn bs = Ok v →
  valid_budget mb mn = true ∧ 1 <= mb <= MAX_BYTES ∧ len bs <= mb ∧
  ∃ k, dec_item mb mn FUEL 0 (Dst bs 0) = Ok (v, Dst [] k).
Proof.
  intros (Hmb & Hmn & Hv & H)%valid_budget_inv. case_if H. zb.
  apply bind_Ok in H as ([w s] & Hs & H). case_if H. zb. injection H as <-.
  split_and!; try done; try lia. exists (d_nodes s). rewrite Hs.
  apply len_zero in E0. rewrite <- E0. by destruct s.
Qed.

#[export] Instance codec_laws mb mn : CodecLaws (encode_with mb mn) (decode_with mb mn) mb.
Proof.
  split.
  - intros v bs Hwf H. apply encode_item in H as (Hv & Hl & k & Hdec); [|done].
    specialize (Hdec []). rewrite app_nil_r in Hdec. eapply decode_with_intro; [done|lia|done].
  - intros bs v (Hv & Hmb & Hl & k & Hdec)%decode_with_Ok.
    destruct (item_transposed mb mn FUEL 0 (Dst bs 0) v _ ltac:(done) Hdec)
      as (_ & c & Hr & [Hwf _] & Henc).
    cbn [d_rest] in Hr. rewrite app_nil_r in Hr. subst c. split; [|done].
    unfold encode_with. rewrite Hv. cbn [negb]. specialize (Henc []).
    cbn [d_nodes] in Henc. rewrite Henc by (len_lia). done.
  - intros v bs Hwf H. apply encode_item in H as (_ & Hl & _); done.
Qed.

Lemma decoded_norm mb mn bs v : decode_with mb mn bs = Ok v → norm v = v.
Proof.
  intros H. destruct (enc_dec _ _ H) as [He Hwf].
  pose proof (dec_enc _ _ Hwf He) as H'. rewrite H in H'. by injection H' as <-.
Qed.

(** ** Termination: the fuel is never exhausted, and every error is a [WireError] *)

Section Errors.
Context (mb mn : Z).

Lemma head_wire m n : wire_only (head m n).
Proof. unfold head. destruct (negb _) eqn:E; wire_only. cbn. wire_only. Qed.
#[local] Hint Resolve head_wire : wire_db.

Lemma put_wire b s : wire_only (put mb b s).
Proof. unfold put. wire_only. Qed.
#[local] Hint Resolve put_wire : wire_db.

Lemma put_head_wire m n s : wire_only (put_head mb m n s).
Proof. unfold put_head. wire_only. Qed.
#[local] Hint Resolve put_head_wire : wire_db.

Lemma enc_items_wire item l s :
  (∀ v s, wire_only (item v s)) → wire_only (enc_items item l s).
Proof. intros Hi. revert s. induction l as [|v l IH]; intros s; cbn [enc_items]; wire_only. Qed.

Lemma enc_item_wire fuel v depth s :
  depth <= MAX_DEPTH + 1 → MAX_DEPTH + 2 <= Z.of_nat fuel + depth →
  wire_only (enc_item mb mn fuel v depth s).
Proof.
  revert v depth s. induction fuel as [|fuel IH]; intros v depth s Hd Hf; [lia|].
  cbn [enc_item]. destruct (MAX_DEPTH <? depth) eqn:E; [wire_only|]. zb.
  assert (∀ l s, wire_only (enc_items (λ c, enc_item mb mn fuel c (depth + 1)) l s))
    as Hl by (intros l s'; apply enc_items_wire; intros; apply IH; lia).
  wire_only.
Qed.

Lemma take_bytes_wire n s : wire_only (take_bytes n s).
Proof. unfold take_bytes. wire_only. Qed.
#[local] Hint Resolve take_bytes_wire : wire_db.

Lemma argument_wire ai s : wire_only (argument ai s).
Proof. unfold argument. wire_only. Qed.
#[local] Hint Resolve argument_wire : wire_db.

Lemma dec_list_wire item n s :
  (∀ s, wire_only (item s)) → wire_only (dec_list item n s).
Proof. intros Hi. revert s. induction n as [|n IH]; intros s; cbn [dec_list]; wire_only. Qed.

Lemma dec_map_wire item n prev s :
  (∀ s, wire_only (item s)) → wire_only (dec_map item n prev s).
Proof.
  intros Hi. revert prev s. induction n as [|n IH]; intros prev s; cbn [dec_map]; wire_only.
Qed.

Lemma dec_item_wire fuel depth s :
  depth <= MAX_DEPTH + 1 → MAX_DEPTH + 2 <= Z.of_nat fuel + depth →
  wire_only (dec_item mb mn fuel depth s).
Proof.
  revert depth s. induction fuel as [|fuel IH]; intros depth s Hd Hf; [lia|].
  cbn [dec_item]. destruct (MAX_DEPTH <? depth) eqn:E; [wire_only|]. zb.
  assert (∀ s, wire_only (dec_item mb mn fuel (depth + 1) s)) as Hi
    by (intros; apply IH; lia).
  pose proof (λ n s, dec_list_wire _ n s Hi) as Hl.
  pose proof (λ n p s, dec_map_wire _ n p s Hi) as Hm.
  wire_only.
Qed.
End Errors.

Lemma encode_with_wire mb mn v : valid_budget mb mn = true → wire_only (encode_with mb mn v).
Proof.
  intros Hv. unfold encode_with. rewrite Hv. cbn [negb].
  apply wire_only_bind; [by apply enc_item_wire|wire_only].
Qed.

Lemma decode_with_wire mb mn bs : valid_budget mb mn = true → wire_only (decode_with mb mn bs).
Proof.
  intros Hv. unfold decode_with. rewrite Hv. cbn [negb].
  case_match; [wire_only|]. apply wire_only_bind; [by apply dec_item_wire|].
  intros [? ?] _. wire_only.
Qed.

Lemma encode_wire v : wire_only (encode v).
Proof. by apply encode_with_wire. Qed.
Lemma decode_wire bs : wire_only (decode bs).
Proof. by apply decode_with_wire. Qed.
#[export] Hint Resolve encode_wire decode_wire : wire_db.

(** ** An encoding that fits a smaller byte budget is made under it, too *)

Section Budget.
Context (mb mb' mn : Z).

Lemma put_budget b s s' :
  put mb b s = Ok s' → len (e_out s') <= mb' →
  put mb' b s = Ok s' ∧ len (e_out s) + len b = len (e_out s').
Proof.
  unfold put. intros H. case_if H. injection H as <-. cbn [e_out]. rewrite len_app.
  intros Hl. by rewrite (proj2 (Z.ltb_ge _ _)) by lia.
Qed.

Lemma put_head_budget m n s s' :
  put_head mb m n s = Ok s' → len (e_out s') <= mb' →
  put_head mb' m n s = Ok s' ∧ len (e_out s) <= len (e_out s').
Proof.
  unfold put_head. intros (h & -> & Hp)%bind_Ok Hl. cbn [mbind result_bind].
  destruct (put_budget _ _ _ Hp Hl) as [? <-]. split; [done|len_lia].
Qed.

Lemma enc_items_budget item item' l s s' :
  (∀ v s s', item v s = Ok s' → len (e_out s') <= mb' →
     item' v s = Ok s' ∧ len (e_out s) <= len (e_out s')) →
  enc_items item l s = Ok s' → len (e_out s') <= mb' →
  enc_items item' l s = Ok s' ∧ len (e_out s) <= len (e_out s').
Proof.
  intros Hi. revert s. induction l as [|v l IH]; intros s; cbn [enc_items].
  { intros [= <-] _. split; [done|lia]. }
  intros (s1 & H1 & H2)%bind_Ok Hl. destruct (IH _ H2 Hl) as [H2' Hle].
  destruct (Hi _ _ _ H1) as [-> ?]; [lia|]. cbn [mbind result_bind]. split; [done|lia].
Qed.

Lemma enc_item_budget fuel v depth s s' :
  enc_item mb mn fuel v depth s = Ok s' → len (e_out s') <= mb' →
  enc_item mb' mn fuel v depth s = Ok s' ∧ len (e_out s) <= len (e_out s').
Proof.
  revert v depth s s'. induction fuel as [|fuel IH]; intros v depth s s'; [done|].
  cbn [enc_item]. destruct (MAX_DEPTH <? depth); [done|].
  set (s0 := Est (e_out s) (e_nodes s + 1)). destruct (mn <? e_nodes s0); [done|].
  change (e_out s) with (e_out s0). generalize s0. clear s0 s. intros s0.
  assert (∀ b, put mb b s0 = Ok s' → len (e_out s') <= mb' →
    put mb' b s0 = Ok s' ∧ len (e_out s0) <= len (e_out s')) as Hput.
  { intros b H Hl. destruct (put_budget _ _ _ H Hl) as [? <-]. split; [done|len_lia]. }
  assert (∀ m n l, (s ← put_head mb m n s0; enc_items (λ c, enc_item mb mn fuel c (depth + 1)) l s)
      = Ok s' → len (e_out s') <= mb' →
    (s ← put_head mb' m n s0; enc_items (λ c, enc_item mb' mn fuel c (depth + 1)) l s) = Ok s'
    ∧ len (e_out s0) <= len (e_out s')) as Hitems.
  { intros m n l (s1 & H1 & H2)%bind_Ok Hl.
    destruct (enc_items_budget _ (λ c, enc_item mb' mn fuel c (depth + 1)) _ _ _ (λ v, IH v (depth + 1)) H2 Hl)
      as [H2' ?].
    destruct (put_head_budget _ _ _ _ H1) as [-> ?]; [lia|]. cbn [mbind result_bind]. split; [done|lia]. }
  assert (∀ m b, (s ← put_head mb m (len b) s0; put mb b s) = Ok s' → len (e_out s') <= mb' →
    (s ← put_head mb' m (len b) s0; put mb' b s) = Ok s' ∧ len (e_out s0) + len b <= len (e_out s'))
    as Hbytes.
  { intros m b (s1 & H1 & H2)%bind_Ok Hl. destruct (put_budget _ _ _ H2 Hl) as [H2' ?].
    pose proof (len_nonneg b).
    destruct (put_head_budget _ _ _ _ H1) as [-> ?]; [lia|]. cbn [mbind result_bind]. split; [done|lia]. }
  destruct v as [|b|z|b|t|l|d|tag]; [apply Hput|apply Hput| | | | | |done].
  - case_match; [done|]. apply put_head_budget.
  - intros Hp Hl. destruct (Hbytes _ _ Hp Hl). split; [done|len_lia].
  - case_match; [done|]. destruct (utf8_encode t) as [b|] eqn:Hu; cbn [of_option mbind result_bind]; [|done].
    intros Hp Hl. destruct (Hbytes _ _ Hp Hl) as [Hb ?]. pose proof (utf8_encode_len _ _ Hu).
    pose proof (len_nonneg (e_out s0)). pose proof (len_nonneg b).
    rewrite (proj2 (Z.ltb_ge _ _)) by lia. split; [done|lia].
  - case_match; [done|]. apply Hitems.
  - case_match; [done|]. case_match; [done|]. apply Hitems.
Qed.
End Budget.

Lemma encode_with_intro mb mn v s :
  valid_budget mb mn = true → enc_item mb mn FUEL v 0 (Est [] 0) = Ok s →
  encode_with mb mn v = Ok (e_out s).
Proof. intros Hv H. unfold encode_with. rewrite Hv. cbn [negb]. rewrite H. reflexivity. Qed.

Lemma encode_with_budget mb mb' mn v b :
  encode_with mb mn v = Ok b → len b <= mb' → 1 <= mb' <= MAX_BYTES → encode_with mb' mn v = Ok b.
Proof.
  intros (_ & Hmn & _ & s & H & <-)%encode_with_Ok Hl Hb.
  apply encode_with_intro; [|exact (proj1 (enc_item_budget _ _ _ _ _ _ _ _ H Hl))].
  unfold valid_budget. rewrite !andb_true_iff, !Z.leb_le. lia.
Qed.

(** The laws at the default budgets. *)
Lemma decode_encoded v bs :
  wf_value v → encode v = Ok bs → decode bs = Ok (norm v) ∧ 1 <= len bs <= MAX_BYTES.
Proof. intros Hwf He. split; [exact (dec_enc _ _ Hwf He)|exact (enc_len _ _ Hwf He)]. Qed.
Lemma encode_decoded bs v : decode bs = Ok v → encode v = Ok bs ∧ wf_value v ∧ norm v = v.
Proof.
  intros Hd. destruct (enc_dec _ _ Hd) as [He Hwf].
  split; [exact He|]. split; [exact Hwf|exact (decoded_norm _ _ _ _ Hd)].
Qed.

(** The code decodes what it encoded under smaller limits. *)
Lemma decode_limit limit v bs :
  wf_value v → encode v = Ok bs → len bs <= limit → limit <= MAX_BYTES →
  decode_with limit MAX_NODES bs = Ok (norm v).
Proof.
  intros Hwf He Hl Hm. destruct (decode_encoded _ _ Hwf He) as [_ ?].
  assert (encode_with limit MAX_NODES v = Ok bs) as He'
    by (unfold encode in He; apply (encode_with_budget MAX_BYTES); [exact He|lia|lia]).
  exact (dec_enc _ _ Hwf He').
Qed.

Lemma decoded_limit limit bs v :
  decode_with limit MAX_NODES bs = Ok v →
  encode v = Ok bs ∧ decode bs = Ok v ∧ wf_value v ∧ norm v = v ∧ 1 <= len bs <= limit.
Proof.
  intros Hd. destruct (enc_dec _ _ Hd) as [He Hwf]. pose proof (decoded_norm _ _ _ _ Hd) as Hn.
  pose proof (enc_len _ _ Hwf He) as Hl. destruct (decode_with_Ok _ _ _ _ Hd) as (_ & Hb & _ & _).
  assert (encode v = Ok bs) as He'
    by (unfold encode; apply (encode_with_budget limit); [exact He|lia|unfold MAX_BYTES; lia]).
  destruct (decode_encoded _ _ Hwf He') as [Hd' _]. rewrite Hn in Hd'.
  split; [exact He'|]. split; [exact Hd'|]. split; [exact Hwf|]. split; [exact Hn|exact Hl].
Qed.

(** ** The properties of the codec *)

(** C26. Decoding an encoding gives the value back with every dict in canonical
    (increasing key) order, within the same budgets; and the canonical value has
    the same encoding, so the insertion order of a dict is never observable. *)
Theorem codec_decode_encode mb mn v bs :
  wf_value v → encode_with mb mn v = Ok bs →
  decode_with mb mn bs = Ok (norm v) ∧ encode_with mb mn (norm v) = Ok bs.
Proof.
  intros Hwf He. assert (decode_with mb mn bs = Ok (norm v)) as Hd by (by eapply dec_enc).
  split; [done|]. by apply enc_dec in Hd as [? _].
Qed.

Definition sample_value : value :=
  VDict [(KInt 300, VStr (str "hi")); (KInt 1, VList [VBool true; VNone; VBytes (raw [7])])].

Lemma sample_value_wf : wf_value sample_value.
Proof.
  apply wf_value_dict. cbn. split; [|repeat constructor].
  repeat constructor; set_solver.
Qed.

Lemma codec_decode_encode_witness :
  wf_value sample_value ∧
  ∃ bs, encode_with MAX_BYTES MAX_NODES sample_value = Ok bs ∧
    decode_with MAX_BYTES MAX_NODES bs = Ok (norm sample_value) ∧
    encode_with MAX_BYTES MAX_NODES (norm sample_value) = Ok bs.
Proof.
  split; [exact sample_value_wf|]. eexists. split; [vm_compute; reflexivity|].
  apply (codec_decode_encode MAX_BYTES MAX_NODES sample_value); [exact sample_value_wf|].
  vm_compute. reflexivity.
Defined.

(** C27. The decoder accepts only canonical bytes: what decodes is the encoding
    of its value, so two byte strings never decode to the same value; the value
    is a well-formed object whose dicts are in canonical order. *)
Theorem codec_encode_decode mb mn bs v :
  decode_with mb mn bs = Ok v →
  encode_with mb mn v = Ok bs ∧ wf_value v ∧ norm v = v ∧
  ∀ bs', decode_with mb mn bs' = Ok v → bs' = bs.
Proof.
  intros Hd. pose proof (enc_dec _ _ Hd) as [He Hwf].
  split_and!; [done|done|by eapply decoded_norm|].
  intros bs' [He' _]%enc_dec. congruence.
Qed.

Lemma codec_encode_decode_witness :
  let bs := raw [0xA1; 1; 0x82; 0xF5; 0x41; 7] in
  let v := VDict [(KInt 1, VList [VBool true; VBytes (raw [7])])] in
  decode_with 64 10 bs = Ok v ∧ encode_with 64 10 v = Ok bs ∧ wf_value v ∧ norm v = v ∧
  ∀ bs', decode_with 64 10 bs' = Ok v → bs' = bs.
Proof.
  cbv zeta. split; [vm_compute; reflexivity|].
  apply (codec_encode_decode 64 10). vm_compute. reflexivity.
Defined.

(** The encoding and decoding recursions always end (the depth guard stops
    them before the fuel does) and raise nothing but a [WireError], for every value,
    every input and every budget; only a budget outside its range is a [ValueError]. *)
Theorem codec_errors mb mn :
  (∀ v e, encode_with mb mn v = Err e →
     if valid_budget mb mn then ∃ c p, e = WireError c p else e = ValueError) ∧
  (∀ bs e, decode_with mb mn bs = Err e →
     if valid_budget mb mn then ∃ c p, e = WireError c p else e = ValueError).
Proof.
  split; intros x e; destruct (valid_budget mb mn) eqn:Hv.
  - by apply encode_with_wire.
  - unfold encode_with. rewrite Hv. by intros [= <-].
  - by apply decode_with_wire.
  - unfold decode_with. rewrite Hv. by intros [= <-].
Qed.

(** No valid message is a proper prefix of another input: bytes after a
    complete item are refused with [TRAILING], not ignored. *)
Theorem decode_trailing mb mn bs extra v :
  decode_with mb mn bs = Ok v → extra ≠ [] → len (bs ++ extra) <= mb →
  decode_with mb mn (bs ++ extra) = Err (wire "TRAILING").
Proof.
  intros Hd Hx Hl. destruct (enc_dec _ _ Hd) as [He Hwf].
  apply encode_item in He as (Hv & _ & k & Hr); [|done].
  unfold decode_with. rewrite Hv. cbn [negb]. rewrite (proj2 (Z.ltb_ge _ _)) by lia.
  rewrite Hr. cbn. destruct extra as [|x extra]; [done|].
  rewrite (proj2 (Z.eqb_neq _ _)) by len_lia. done.
Qed.

Lemma decode_trailing_witness :
  decode_with 64 10 (raw [0x81; 5] ++ raw [0]) = Err (wire "TRAILING").
Proof.
  apply (decode_trailing 64 10 (raw [0x81; 5]) (raw [0]) (VList [VInt 5]));
    [vm_compute; reflexivity|done|vm_compute; done].
Defined.
