(* ===== verification/Flat.v ===== *)
(** * Flat values: dict literals and lists of scalars

    The bodies and signing inputs the code builds are lists or integer-keyed dicts of
    scalars.  Their encodings are injective, survive decoding unchanged, and have a
    length that their contents bound. *)

From S2P Require Import Prelude Bytes Value Codec.
Local Open Scope Z_scope.

(** A dict literal with integer keys. *)
Definition dict (kvs : list (Z * value)) : value := VDict (to_dict kvs).

(** ** Encodings are injective *)

Lemma encode_inj v v' b :
  wf_value v → wf_value v' → norm v = v → norm v' = v' →
  encode v = Ok b → encode v' = Ok b → v = v'.
Proof.
  intros W W' N N' [H _]%decode_encoded [H' _]%decode_encoded; [|done|done].
  rewrite H in H'. injection H' as E. congruence.
Qed.

(** Values without dictionaries are their own normal form. *)
Definition leaf (v : value) : Prop :=
  match v with VList _ | VDict _ => False | _ => True end.

Lemma leaf_wf v : leaf v → wf_value v ∧ norm v = v.
Proof. by destruct v. Qed.

Lemma leaves_list l : Forall leaf l → wf_value (VList l) ∧ norm (VList l) = VList l.
Proof.
  intros Hl. split.
  - apply wf_value_list. eapply Forall_impl; [exact Hl|]. intros v Hv. by apply leaf_wf.
  - cbn. f_equal. induction Hl as [|v l Hv _ IH]; [done|]. cbn. rewrite IH.
    by rewrite (proj2 (leaf_wf _ Hv)).
Qed.

(** Lists of values that are their own normal form. *)
Lemma normal_list l :
  Forall (λ v, wf_value v ∧ norm v = v) l → wf_value (VList l) ∧ norm (VList l) = VList l.
Proof.
  intros Hl. split.
  - apply wf_value_list. eapply Forall_impl; [exact Hl|]. by intros v [].
  - cbn. f_equal. induction Hl as [|v l [_ Hv] _ IH]; [done|]. cbn. by rewrite Hv, IH.
Qed.

Lemma norm_to_dict kvs :
  StronglySorted Z.lt kvs.*1 → Forall (λ kv, norm kv.2 = kv.2) kvs →
  norm (VDict (to_dict kvs)) = VDict (to_dict kvs).
Proof.
  intros Hs Hn. rewrite norm_dict, int_keys_to_dict. cbn [from_option id].
  rewrite sorted_keys_id by done. f_equal. unfold to_dict at 2.
  pose proof (strictly_sorted_NoDup _ Hs) as Hnd.
  assert (∀ l, (∀ kv, kv ∈ l → kv ∈ kvs) →
    map (λ k, (KInt k, norm (default VNone (dict_get (to_dict kvs) k)))) l.*1 =
    (λ kv : Z * value, (KInt kv.1, kv.2)) <$> l) as Hall; [|by apply Hall].
  induction l as [|[k v] l IH]; intros Hin; [done|]. cbn.
  rewrite (dict_get_elem kvs k v) by (done || (apply Hin; by left)). cbn.
  rewrite IH by (intros kv ?; apply Hin; by right). do 2 f_equal.
  rewrite Forall_forall in Hn. apply (Hn (k, v)), Hin. by left.
Qed.

Lemma wf_to_dict kvs :
  NoDup kvs.*1 → Forall (λ kv, wf_value kv.2) kvs → wf_value (VDict (to_dict kvs)).
Proof.
  intros Hnd Hall. apply wf_value_dict. split; [by apply NoDup_to_dict|].
  unfold to_dict. by rewrite Forall_fmap.
Qed.

Lemma flat_dict kvs :
  StronglySorted Z.lt kvs.*1 → Forall (λ kv, leaf kv.2) kvs →
  wf_value (dict kvs) ∧ norm (dict kvs) = dict kvs.
Proof.
  intros Hs Hl. split.
  - apply wf_to_dict; [by apply strictly_sorted_NoDup|].
    eapply Forall_impl; [exact Hl|]. intros kv Hkv. by apply leaf_wf.
  - apply norm_to_dict; [done|]. eapply Forall_impl; [exact Hl|]. intros kv Hkv. by apply leaf_wf.
Qed.

(** ** The length of an encoding *)

(** An upper bound of the encoding of a scalar. *)
Definition leaf_size (v : value) : Z :=
  match v with VBytes b => 9 + len b | VStr t => 9 + 4 * len t | _ => 9 end.

Lemma head_len m n h : head m n = Ok h → len h <= 9.
Proof.
  unfold head. destruct (negb _); [done|]. case_match; [intros [= <-]; done|].
  unfold head_widths. repeat (case_match; [intros [= <-]; rewrite len_cons, len_to_bytes_big; lia|]).
  done.
Qed.

Lemma put_len mb b s s' : put mb b s = Ok s' → len (e_out s') = len (e_out s) + len b.
Proof. unfold put. case_match; [done|]. intros [= <-]. cbn [e_out]. by rewrite len_app. Qed.

Lemma put_head_len mb m n s s' : put_head mb m n s = Ok s' → len (e_out s') <= len (e_out s) + 9.
Proof.
  unfold put_head. intros (h & Hh%head_len & Hp%put_len)%bind_Ok. lia.
Qed.

Lemma utf8_char_len4 c : len (utf8_char c) <= 4.
Proof. unfold utf8_char. repeat case_match; rewrite ?len_cons; len_nil; lia. Qed.

Lemma utf8_encode_len4 t b : utf8_encode t = Some b → len b <= 4 * len t.
Proof.
  revert b. induction t as [|c t IH]; intros b; cbn [utf8_encode]; [by intros [= <-]|].
  destruct (is_scalar c); [|done]. destruct (utf8_encode t) as [b'|]; [|done]. intros [= <-].
  specialize (IH b' eq_refl). pose proof (utf8_char_len4 c). rewrite len_app, len_cons. lia.
Qed.

Lemma leaf_len mb mn fuel v depth s s' :
  leaf v → enc_item mb mn fuel v depth s = Ok s' → len (e_out s') <= len (e_out s) + leaf_size v.
Proof.
  destruct fuel as [|fuel]; [done|]. cbn [enc_item].
  destruct (MAX_DEPTH <? depth); [done|]. case_match; [done|].
  destruct v as [|b|z|b|t|l|d|tag]; intros Hl H'; try done; cbn [leaf_size].
  - apply put_len in H'. cbn [e_out] in H'. change (len [xf6]) with 1 in H'. lia.
  - apply put_len in H'. assert (len (if b then [xf5] else [xf4]) = 1) as E by by destruct b.
    cbn [e_out] in H'. lia.
  - case_match; [done|]. apply put_head_len in H'. cbn [e_out] in H'. lia.
  - apply bind_Ok in H' as (s1 & H1%put_head_len & H2%put_len). cbn [e_out] in H1. lia.
  - case_match; [done|]. apply bind_Ok in H' as (b & Hu & H').
    apply bind_Ok in H' as (s1 & H1%put_head_len & H2%put_len).
    destruct (utf8_encode t) as [b'|] eqn:E; [|done]. injection Hu as ->.
    apply utf8_encode_len4 in E. cbn [e_out] in H1. lia.
Qed.

Lemma leaves_len mb mn fuel depth l s s' :
  Forall leaf l → enc_items (λ c, enc_item mb mn fuel c depth) l s = Ok s' →
  len (e_out s') <= len (e_out s) + fold_right Z.add 0 (leaf_size <$> l).
Proof.
  intros Hl. revert s. induction Hl as [|v l Hv _ IH]; intros s; cbn [enc_items].
  { intros [= <-]. cbn. lia. }
  intros (s1 & H1%leaf_len & H2%IH)%bind_Ok; [|done]. cbn. lia.
Qed.

Definition dict_size (kvs : list (Z * value)) : Z :=
  9 + fold_right Z.add 0 ((λ kv, 9 + leaf_size kv.2) <$> kvs).

Lemma encode_dict_len kvs b :
  StronglySorted Z.lt kvs.*1 → Forall (λ kv, leaf kv.2) kvs →
  encode (dict kvs) = Ok b → len b <= dict_size kvs.
Proof.
  intros Hs Hl. unfold encode. intros (_ & _ & _ & s & H & <-)%encode_with_Ok.
  revert H. generalize FUEL. intros [|fuel] H; [done|]. cbn [enc_item] in H.
  change (MAX_DEPTH <? 0) with false in H.
  cbn [e_out e_nodes] in H. unfold dict in H.
  do 3 (case_match; [done|]). apply bind_Ok in H as (s1 & Hh%put_head_len & Hitems).
  cbn [e_out] in Hh. len_nil.
  rewrite dict_items_to_dict in Hitems by done. apply leaves_len in Hitems.
  - unfold dict_size. enough (fold_right Z.add 0 (leaf_size <$> flat_map (λ kv : Z * value, [VInt kv.1; kv.2]) kvs) =
      fold_right Z.add 0 ((λ kv, 9 + leaf_size kv.2) <$> kvs)) by lia.
    clear. induction kvs as [|kv kvs IH]; [done|]. cbn in *. lia.
  - clear -Hl. induction Hl as [|kv kvs Hkv _ IH]; [constructor|]. cbn. by repeat constructor.
Qed.

(** ** The length of a nested value *)

(** A bound of the encoding of a nested value: nine bytes per head. *)
Inductive sized : value → Z → Prop :=
| sized_leaf v : leaf v → sized v (leaf_size v)
| sized_list l n : sized_all l n → sized (VList l) (9 + n)
| sized_dict kvs n :
    StronglySorted Z.lt kvs.*1 → sized_all (flat_map (λ kv : Z * value, [VInt kv.1; kv.2]) kvs) n →
    sized (dict kvs) (9 + n)
with sized_all : list value → Z → Prop :=
| sized_nil : sized_all [] 0
| sized_cons v l n m : sized v n → sized_all l m → sized_all (v :: l) (n + m).

Lemma sized_item_len mb mn fuel v n depth s s' :
  sized v n → enc_item mb mn fuel v depth s = Ok s' → len (e_out s') <= len (e_out s) + n.
Proof.
  revert v n depth s s'. induction fuel as [|fuel IH]; intros v n depth s s' Hv; [done|].
  assert (∀ l m t t', sized_all l m → enc_items (λ c, enc_item mb mn fuel c (depth + 1)) l t = Ok t' →
    len (e_out t') <= len (e_out t) + m) as Hitems.
  { intros l m t t' Hl. revert t. induction Hl as [|x l i m Hx Hl IHl]; intros t; cbn [enc_items].
    - intros [= <-]. lia.
    - intros (t1 & Hx1 & Hl1)%bind_Ok. apply IHl in Hl1. apply (IH _ _ _ _ _ Hx) in Hx1. lia. }
  destruct Hv as [v Hv|l m Hl|kvs m Hs Hl]; [by apply leaf_len|..]; cbn [enc_item]; unfold dict;
    repeat (case_match; [done|]); intros (s1 & Hh%put_head_len & Hi)%bind_Ok;
    rewrite ?dict_items_to_dict in Hi by done; apply (Hitems _ _ _ _ Hl) in Hi; cbn [e_out] in Hh; lia.
Qed.

Lemma encode_sized v n b : sized v n → encode v = Ok b → len b <= n.
Proof.
  intros Hv (_ & _ & _ & s & H & <-)%encode_with_Ok.
  apply (sized_item_len _ _ _ _ _ _ _ _ Hv) in H. cbn [e_out] in H. len_nil. lia.
Qed.
Lemma leaves_sized l : Forall leaf l → sized_all l (fold_right Z.add 0 (leaf_size <$> l)).
Proof. induction 1; cbn; by repeat constructor. Qed.
