(* ===== verification/Schema.v ===== *)
(** * The CDDL interpreter (experiments/g0-wire/par_wire/schema.py)

    [parse_cddl] (tokens, recursive descent, reference check), [Schema.validate]
    and [validate_frame], run on the real protocol text.  CDDL text is a string of
    8-bit characters.  Python iterates the set returned by [refs] in an
    unspecified order: the reference check takes that order as a parameter. *)

From stdpp Require Import pretty.
From S2P Require Import Prelude Bytes Value Codec CddlText.
Local Open Scope Z_scope.

(** ** Schema nodes *)

Inductive node :=
| NRef (name : string)
| NLit (n : Z)
| NRange (lo hi : Z)
| NSize (child : node) (lo hi : Z)
| NUnion (children : list node)
| NArray (lo hi : Z) (child : node)
| NMap (fields : list (Z * bool * node)).

(** The rules dict, in insertion order. *)
Abbreviation rules := (list (string * node)).

Fixpoint rule_get (rs : rules) (name : string) : option node :=
  match rs with
  | [] => None
  | (n, nd) :: rs' => if String.eqb name n then Some nd else rule_get rs' name
  end.

Definition primitives : list string := ["uint"; "bstr"; "tstr"; "bool"; "null"]%string.

(** ** Validation *)

Definition schema_error (path : string) : exn := WireError "SCHEMA" path.

(** The end of [_validate]: [if not valid: raise WireError('SCHEMA', path)]. *)
Definition check (valid : bool) (path : string) : result unit :=
  require valid (schema_error path).

(** [len(value)], a [str] measured in UTF-8 bytes; [None] where Python raises
    [UnicodeEncodeError] or [TypeError]. *)
Definition size_of (v : value) : option Z :=
  match v with
  | VStr s => len <$> utf8_encode s
  | VBytes b => Some (len b)
  | VList l => Some (len l)
  | VDict d => Some (len d)
  | _ => None
  end.

Definition is_schema_error (e : exn) : bool :=
  match e with WireError c _ => String.eqb c "SCHEMA" | _ => false end.

(** [for child in node[1]: try: ...; return] of the union case. *)
Fixpoint try_union (validate : node → result unit) (children : list node) (path : string)
    : result unit :=
  match children with
  | [] => Err (schema_error path)
  | c :: cs =>
      match validate c with
      | Ok _ => Ok tt
      | Err e => if is_schema_error e then try_union validate cs path else Err e
      end
  end.

Fixpoint each_item (validate : value → string → result unit) (l : list value) (i : nat)
    (path : string) : result unit :=
  match l with
  | [] => Ok tt
  | v :: l' =>
      _ ← validate v (path +:+ "[" +:+ pretty i +:+ "]");
      each_item validate l' (S i) path
  end.

Fixpoint field_get (fields : list (Z * bool * node)) (k : Z) : option (bool * node) :=
  match fields with
  | [] => None
  | (k', o, nd) :: fs => if k =? k' then Some (o, nd) else field_get fs k
  end.

(** [not set(value)-fields.keys() and all(o or k in value for k,(o,_) in fields)] *)
Definition map_shape (fields : list (Z * bool * node)) (d : list (pykey * value)) : bool :=
  forallb (λ kv, match kv.1 with
                 | KInt k => bool_decide (is_Some (field_get fields k))
                 | _ => false end) d
  && forallb (λ f : Z * bool * node, f.1.2 || bool_decide (is_Some (dict_get d f.1.1))) fields.

(** [for k,v in value.items(): self._validate(fields[k][1], v, ...)] *)
Fixpoint each_field (validate : node → value → string → result unit)
    (fields : list (Z * bool * node)) (d : list (pykey * value)) (path : string)
    : result unit :=
  match d with
  | [] => Ok tt
  | (KInt k, v) :: d' =>
      f ← of_option KeyError (field_get fields k);
      _ ← validate f.2 v (path +:+ "." +:+ pretty k);
      each_field validate fields d' path
  | _ :: _ => Err KeyError
  end.

Definition all_int_keys (d : list (pykey * value)) : bool :=
  forallb (λ kv, key_is_int kv.1) d.

Definition prim_valid (name : string) (v : value) : option bool :=
  if String.eqb name "uint" then
    Some (match v with VInt z => (0 <=? z) && (z <=? U64) | _ => false end)
  else if String.eqb name "bstr" then Some (is_bytes v)
  else if String.eqb name "tstr" then Some (is_str v)
  else if String.eqb name "bool" then Some (is_bool v)
  else if String.eqb name "null" then Some (is_none v)
  else None.

(** [name == 'app-id' and type(value) is str and '\0' in value] *)
Definition app_id_nul (name : string) (v : value) : bool :=
  String.eqb name "app-id" &&
  match v with VStr s => existsb (Z.eqb 0) s | _ => false end.

Definition MAX_VALIDATE_DEPTH : Z := 128.
Definition VALIDATE_FUEL : nat := 130.

(** [Schema._validate] *)
Fixpoint validate_node (rs : rules) (fuel : nat) (nd : node) (v : value) (path : string)
    (depth : Z) : result unit :=
  match fuel with
  | O => Err OutOfFuel
  | S fuel' =>
      if MAX_VALIDATE_DEPTH <? depth then Err (wire "RESOURCE_LIMIT")
      else
        match nd with
        | NRef name =>
            match prim_valid name v with
            | Some valid => check valid path
            | None =>
                match rule_get rs name with
                | None => Err (WireError "CDDL_REFERENCE" name)
                | Some body =>
                    if app_id_nul name v then Err (WireError "IDENTIFIER" path)
                    else validate_node rs fuel' body v path (depth + 1)
                end
            end
        | NLit n => check (match v with VInt z => z =? n | _ => false end) path
        | NRange lo hi =>
            check (match v with VInt z => (lo <=? z) && (z <=? hi) | _ => false end) path
        | NSize child lo hi =>
            _ ← validate_node rs fuel' child v path (depth + 1);
            n ← of_option (schema_error path) (size_of v);
            check ((lo <=? n) && (n <=? hi)) path
        | NUnion children =>
            try_union (λ c, validate_node rs fuel' c v path (depth + 1)) children path
        | NArray lo hi child =>
            match v with
            | VList l =>
                if (lo <=? len l) && (len l <=? hi) then
                  each_item (λ x p, validate_node rs fuel' child x p (depth + 1)) l 0 path
                else Err (schema_error path)
            | _ => Err (schema_error path)
            end
        | NMap fields =>
            match v with
            | VDict d =>
                if all_int_keys d && map_shape fields d then
                  each_field (λ c x p, validate_node rs fuel' c x p (depth + 1)) fields d path
                else Err (schema_error path)
            | _ => Err (schema_error path)
            end
        end
  end.

(** [Schema.validate] *)
Definition validate (rs : rules) (rule : string) (v : value) : result unit :=
  match rule_get rs rule with
  | None => Err (WireError "CDDL_REFERENCE" rule)
  | Some nd => validate_node rs VALIDATE_FUEL nd v rule 0
  end.

(** ** Tokens *)

Local Open Scope string_scope.

Definition code (a : Ascii.ascii) : Z := Z.of_N (Ascii.N_of_ascii a).
Definition in_range (lo hi : Z) (a : Ascii.ascii) : bool := (lo <=? code a)%Z && (code a <=? hi)%Z.

(** [\s] on 8-bit characters. *)
Definition is_space (a : Ascii.ascii) : bool :=
  in_range 9 13 a || in_range 28 32 a || (code a =? 133)%Z || (code a =? 160)%Z.
Definition is_digit (a : Ascii.ascii) : bool := in_range 48 57 a.
Definition is_letter (a : Ascii.ascii) : bool := in_range 65 90 a || in_range 97 122 a.
(** [[A-Za-z0-9-]] *)
Definition is_name_char (a : Ascii.ascii) : bool := is_letter a || is_digit a || (code a =? 45)%Z.
(** [[={}\[\]():,/*?]] *)
Definition is_punct (a : Ascii.ascii) : bool :=
  existsb (Z.eqb (code a)) [61; 123; 125; 91; 93; 40; 41; 58; 44; 47; 42; 63]%Z.
Definition not_newline (a : Ascii.ascii) : bool := negb (code a =? 10)%Z.

(** The longest prefix of characters satisfying [p], and the rest. *)
Fixpoint span (p : Ascii.ascii → bool) (s : string) : string * string :=
  match s with
  | String a s' => if p a then let '(x, r) := span p s' in (String a x, r) else ("", s)
  | EmptyString => ("", "")
  end.

(** [s[n:]] *)
Fixpoint str_drop (n : nat) (s : string) : string :=
  match n, s with S n', String _ s' => str_drop n' s' | _, _ => s end.

(** One match of [TOKEN] at the start of [s]: the token, unless it is white space
    or a comment, and the rest of the text. *)
Definition next_token (s : string) : option (option string * string) :=
  match s with
  | EmptyString => None
  | String a s' =>
      if is_space a then Some (None, (span is_space s').2)
      else if (code a =? 59)%Z then Some (None, (span not_newline s').2)
      else if String.prefix ".size" s then Some (Some ".size", str_drop 5 s)
      else if String.prefix ".." s then Some (Some "..", str_drop 2 s)
      else if is_letter a then
        let '(x, r) := span is_name_char s' in Some (Some (String a x), r)
      else if is_digit a then
        let '(x, r) := span is_digit s' in Some (Some (String a x), r)
      else if is_punct a then Some (Some (String a ""), s')
      else None
  end.

Fixpoint tokenize (fuel : nat) (s : string) : result (list string) :=
  match fuel with
  | O => Err OutOfFuel
  | S fuel' =>
      match s with
      | EmptyString => Ok []
      | _ =>
          match next_token s with
          | None => Err (wire "CDDL_UNSUPPORTED")
          | Some (t, r) =>
              ts ← tokenize fuel' r;
              Ok (match t with Some t => t :: ts | None => ts end)
          end
      end
  end.

(** ** Grammar *)

Fixpoint all_chars (p : Ascii.ascii → bool) (s : string) : bool :=
  match s with EmptyString => true | String a s' => p a && all_chars p s' end.

(** [t.isdigit()] for a token of [TOKEN]. *)
Definition is_number (t : string) : bool :=
  match t with EmptyString => false | _ => all_chars is_digit t end.

(** [re.fullmatch('[A-Za-z][A-Za-z0-9-]*', t)] *)
Definition is_name (t : string) : bool :=
  match t with EmptyString => false | String a s => is_letter a && all_chars is_name_char s end.

(** [int(t)] for a token of digits; Python refuses more than 4300 digits. *)
Fixpoint digits_value (acc : Z) (t : string) : Z :=
  match t with
  | EmptyString => acc
  | String a t' => digits_value (acc * 10 + (code a - 48))%Z t'
  end.
Definition py_int (t : string) : result Z :=
  if (4300 <? Z.of_nat (String.length t))%Z then Err ValueError else Ok (digits_value 0 t).

Abbreviation tokens := (list string).

Definition syntax_error : exn := wire "CDDL_SYNTAX".

Definition peek (ts : tokens) : option string := List.hd_error ts.
Definition peek_is (ts : tokens) (t : string) : bool :=
  match ts with t' :: _ => String.eqb t' t | [] => false end.
(** [pop()] and [pop(expected)] *)
Definition pop (ts : tokens) : result (string * tokens) :=
  match ts with t :: ts' => Ok (t, ts') | [] => Err syntax_error end.
Definition expect (t : string) (ts : tokens) : result tokens :=
  match ts with
  | t' :: ts' => if String.eqb t' t then Ok ts' else Err syntax_error
  | [] => Err syntax_error
  end.

Definition node_bounds (nd : node) : result (Z * Z) :=
  match nd with
  | NLit n => Ok (n, n)
  | NRange lo hi => Ok (lo, hi)
  | _ => Err (wire "CDDL_UNSUPPORTED")
  end.

(** [peek() and peek().isdigit()] *)
Definition peek_number (ts : tokens) : bool :=
  match ts with t :: _ => is_number t | [] => false end.

(** A numeric literal, or a range when [..] follows. *)
Definition number_node (t : string) (ts : tokens) : result (node * tokens) :=
  n ← py_int t;
  if peek_is ts ".." then
    ts ← expect ".." ts;
    '(e, ts) ← pop ts;
    if negb (is_number e) then Err syntax_error
    else
      hi ← py_int e;
      if (hi <? n)%Z then Err syntax_error else Ok (NRange n hi, ts)
  else Ok (NLit n, ts).

(** [expr], its loop over [/], [atom], and the loop over the fields of a map. *)
Fixpoint parse_expr (fuel : nat) (level : Z) (ts : tokens) : result (node * tokens) :=
  match fuel with
  | O => Err OutOfFuel
  | S f =>
      if (64 <? level)%Z then Err syntax_error
      else
        '(nd, ts) ← parse_atom f (level + 1) ts;
        '(nodes, ts) ← parse_alternatives f level ts;
        match nodes with
        | [] => Ok (nd, ts)
        | _ => Ok (NUnion (nd :: nodes), ts)
        end
  end
with parse_alternatives (fuel : nat) (level : Z) (ts : tokens) : result (list node * tokens) :=
  match fuel with
  | O => Err OutOfFuel
  | S f =>
      if peek_is ts "/" then
        ts ← expect "/" ts;
        '(nd, ts) ← parse_atom f (level + 1) ts;
        '(nodes, ts) ← parse_alternatives f level ts;
        Ok (nd :: nodes, ts)
      else Ok ([], ts)
  end
with parse_atom (fuel : nat) (level : Z) (ts : tokens) : result (node * tokens) :=
  match fuel with
  | O => Err OutOfFuel
  | S f =>
      '(t, ts) ← pop ts;
      '(nd, ts) ←
        (if String.eqb t "(" then
           '(nd, ts) ← parse_expr f (level + 1) ts;
           ts ← expect ")" ts; Ok (nd, ts)
         else if String.eqb t "{" then
           '(fields, ts) ← parse_fields f level [] ts;
           ts ← expect "}" ts; Ok (NMap fields, ts)
         else if String.eqb t "[" then
           '(lo, ts) ← (if peek_number ts
                        then '(t, ts) ← pop ts; lo ← py_int t; Ok (lo, ts)
                        else Ok (0%Z, ts));
           ts ← expect "*" ts;
           if negb (peek_number ts) then Err (wire "CDDL_UNSUPPORTED")
           else
             '(t, ts) ← pop ts; hi ← py_int t;
             '(child, ts) ← parse_expr f (level + 1) ts;
             ts ← expect "]" ts;
             if (hi <? lo)%Z then Err syntax_error else Ok (NArray lo hi child, ts)
         else if is_number t then number_node t ts
         else if is_name t then Ok (NRef t, ts)
         else Err syntax_error);
      if peek_is ts ".size" then
        ts ← expect ".size" ts;
        '(size, ts) ← parse_atom f (level + 1) ts;
        '(lo, hi) ← node_bounds size;
        Ok (NSize nd lo hi, ts)
      else Ok (nd, ts)
  end
with parse_fields (fuel : nat) (level : Z) (keys : list Z) (ts : tokens)
    : result (list (Z * bool * node) * tokens) :=
  match fuel with
  | O => Err OutOfFuel
  | S f =>
      if peek_is ts "}" then Ok ([], ts)
      else
        let opt := peek_is ts "?" in
        ts ← (if opt then expect "?" ts else Ok ts);
        '(t, ts) ← pop ts;
        if negb (is_number t) then Err syntax_error
        else
          k ← py_int t;
          if existsb (Z.eqb k) keys then Err syntax_error
          else
            ts ← expect ":" ts;
            '(child, ts) ← parse_expr f (level + 1) ts;
            ts ← (if peek_is ts "," then expect "," ts
                  else if negb (peek_is ts "}") then Err syntax_error else Ok ts);
            '(fields, ts) ← parse_fields f level (k :: keys) ts;
            Ok ((k, opt, child) :: fields, ts)
  end.

(** Enough for an expression of [n] tokens ([parse_fuel_enough]). *)
Definition parse_fuel (ts : tokens) : nat := 2 * length ts + 2.

(** [while i<len(tokens): ...] *)
Fixpoint parse_rules (fuel : nat) (rs : rules) (ts : tokens) : result rules :=
  match ts with
  | [] => Ok rs
  | _ =>
      match fuel with
      | O => Err OutOfFuel
      | S f =>
          '(name, ts) ← pop ts;
          if negb (is_name name) || bool_decide (is_Some (rule_get rs name)) then Err syntax_error
          else
            ts ← expect "=" ts;
            '(nd, ts) ← parse_expr (parse_fuel ts) 0 ts;
            parse_rules f (rs ++ [(name, nd)]) ts
      end
  end.

(** ** References *)

Fixpoint refs (nd : node) : list string :=
  match nd with
  | NRef name => [name]
  | NSize child _ _ => refs child
  | NArray _ _ child => refs child
  | NUnion children => flat_map refs children
  | NMap fields => flat_map (λ f, refs f.2) fields
  | _ => []
  end.

Definition mem (name : string) (l : list string) : bool := existsb (String.eqb name) l.

Section Walk.
(** The order in which Python iterates over the set of references. *)
Context (iter : list string → list string) (rs : rules).

Fixpoint walk_all (walk : string → list string → result (list string))
    (names : list string) (done : list string) : result (list string) :=
  match names with
  | [] => Ok done
  | n :: names' => done ← walk n done; walk_all walk names' done
  end.

(** [walk]: the result is the set [done] afterwards. *)
Fixpoint walk (fuel : nat) (visiting : list string) (name : string) (done : list string)
    : result (list string) :=
  match fuel with
  | O => Err OutOfFuel
  | S f =>
      if mem name done || mem name primitives then Ok done
      else if mem name visiting then Err (WireError "CDDL_UNSUPPORTED" "recursive rule")
      else
        match rule_get rs name with
        | None => Err (WireError "CDDL_REFERENCE" name)
        | Some nd =>
            done ← walk_all (walk f (name :: visiting)) (iter (refs nd)) done;
            Ok (name :: done)
        end
  end.

Definition check_references : result (list string) :=
  walk_all (walk (S (S (length rs))) []) (fst <$> rs) [].
End Walk.

Definition parse_cddl (iter : list string → list string) (text : string) : result rules :=
  if (131072 <? Z.of_nat (String.length text))%Z then Err (wire "LIMIT")
  else
    ts ← tokenize (S (String.length text)) text;
    rs ← parse_rules (length ts) [] ts;
    _ ← check_references iter rs;
    Ok rs.

(** ** The protocol schema and frames *)

(** One iteration order of a set: each element once. *)
Fixpoint dedup (l : list string) : list string :=
  match l with [] => [] | x :: l' => if mem x l' then dedup l' else x :: dedup l' end.

(** [default_schema()]: the rules of the frozen protocol text. *)
Definition default_schema :=
  Eval vm_compute in
    match parse_cddl dedup par_v1_cddl return rules with Ok rs => rs | Err _ => [] end.

(** [s.replace(old, new)] for a non-empty [old]: every non-overlapping occurrence,
    left to right; [skip] counts the characters of a match still to drop. *)
Fixpoint py_replace (old new : string) (skip : nat) (s : string) : string :=
  match s with
  | EmptyString => ""
  | String a s' =>
      match skip with
      | S k => py_replace old new k s'
      | O =>
          if String.prefix old s then new +:+ py_replace old new (String.length old - 1) s'
          else String a (py_replace old new 0 s')
      end
  end.

(** [entries[code]['body_type'].replace('-body','-frame')] *)
Definition frame_rule (code : Z) : option string :=
  py_replace "-body" "-frame" 0 <$>
    (snd <$> List.find (λ row, code =? row.1)%Z registry_messages).

(** [[A-Za-z0-9]] on a code point. *)
Definition alnum (c : Z) : bool :=
  ((48 <=? c) && (c <=? 57) || (65 <=? c) && (c <=? 90) || (97 <=? c) && (c <=? 122))%Z.

(** [label]: 1 to 63 letters, digits and hyphens, no hyphen at either end. *)
Definition is_label (l : pystr) : bool :=
  match l with
  | [] => false
  | a :: r =>
      alnum a && (len l <=? 63)%Z &&
      match List.rev r with
      | [] => true
      | z :: m => alnum z && forallb (λ c, alnum c || (c =? 45)%Z) m
      end
  end.

(** The pieces of a string between the code points [c]. *)
Fixpoint split_on (c : Z) (s : pystr) : list pystr :=
  match s with
  | [] => [[]]
  | a :: s' =>
      if (a =? c)%Z then [] :: split_on c s'
      else match split_on c s' with p :: ps => (a :: p) :: ps | [] => [[a]] end
  end.

(** [re.fullmatch(label + r'(?:\.' + label + r')+', s)]: at least two labels
    joined by dots (a label holds no dot, so the pieces are the labels). *)
Definition is_domain_name (s : pystr) : bool :=
  let labels := split_on 46 s in
  (2 <=? len labels)%Z && forallb is_label labels.

Definition as_list (v : value) : result (list value) :=
  match v with VList l => Ok l | _ => Err TypeError end.
Definition as_str (v : value) : result pystr :=
  match v with VStr s => Ok s | _ => Err TypeError end.

(** [len(l) != len(set(l))] on a list of hashable objects. *)
Definition has_dups (l : list value) : bool := negb (bool_decide (NoDup l)).

(** Python truth value of the objects a page flag or list can be. *)
Definition truthy (v : value) : bool :=
  match v with
  | VNone => false
  | VBool b => b
  | VInt z => negb (z =? 0)%Z
  | VBytes b => negb (len b =? 0)%Z
  | VStr s => negb (len s =? 0)%Z
  | VList l => negb (len l =? 0)%Z
  | VDict d => negb (len d =? 0)%Z
  | VOther _ => true
  end.

Definition page_fields (code : Z) : option (Z * Z * Z) :=
  (if code =? 13 then Some (1, 2, 3)
   else if code =? 20 then Some (2, 1, 3)
   else if code =? 41 then Some (2, 3, 4)
   else None)%Z.

(** The HELLO part of the semantic overlay. *)
Definition hello_overlay (b : value) : result unit :=
  app ← getitem b 0; app ← as_str app;
  _ ← require (is_domain_name app) (WireError "IDENTIFIER" "app-id");
  wires ← getitem b 3; wires ← as_list wires;
  suites ← getitem b 4; suites ← as_list suites;
  strs ← mapM as_str wires;
  require (negb (has_dups wires || has_dups suites
                 || existsb (λ x : pystr, (len x =? 0)%Z || existsb (Z.eqb 0) x) strs))
    (wire "NEGOTIATION").

(** The page part of the overlay: [done] exactly without a cursor, and a page that is not
    the last one is not empty. *)
Definition page_overlay (b : value) (fields : Z * Z * Z) : result unit :=
  let '(items, cursor, done_) := fields in
  done_ ← getitem b done_; cursor ← getitem b cursor; items ← getitem b items;
  require (negb (negb (bool_decide (done_ = VBool (is_none cursor)))
                 || (negb (truthy done_) && negb (truthy items))))
    (wire "PAGE_STATE").

Definition no_nul (b : value) (field : Z) (path : string) : result unit :=
  s ← getitem b field; s ← as_str s;
  require (negb (existsb (Z.eqb 0) s)) (WireError "IDENTIFIER" path).

Definition overlay (code : Z) (v b : value) : result unit :=
  _ ← (if (code =? 1)%Z then hello_overlay b else Ok tt);
  _ ← (if (code =? 10)%Z then
         s ← getitem v 3; s' ← getitem b 0;
         require (bool_decide (s = s')) (wire "SPACE_BINDING")
       else Ok tt);
  _ ← (match page_fields code with Some f => page_overlay b f | None => Ok tt end);
  _ ← (if (code =? 60)%Z then no_nul b 2 "handler" else Ok tt);
  if (code =? 255)%Z then no_nul b 1 "phase" else Ok tt.

Definition validate_frame (v : value) : result unit :=
  match v with
  | VDict d =>
      if negb (all_int_keys d) then Err (WireError "SCHEMA" "frame")
      else
        match dict_get d 1 with
        | Some (VInt code) =>
            match frame_rule code with
            | None => Err (wire "MESSAGE_TYPE")
            | Some name =>
                _ ← validate default_schema name v;
                b ← getitem v 4;
                overlay code v b
            end
        | _ => Err (WireError "SCHEMA" "message code")
        end
  | _ => Err (WireError "SCHEMA" "frame")
  end.

Example frame_rule_hello : frame_rule 1 = Some "hello-frame" ∧ frame_rule 45 = Some "retain-release-result-frame".
Proof. split; reflexivity. Qed.
