(* ===== verification/SchemaSpec.v ===== *)
(** * What the CDDL interpreter promises

    [conforms] is the meaning of a schema node as a relation between nodes and
    values; [validate] decides it.  The reference check of [parse_cddl] makes the
    parsed rules closed and acyclic. *)

From S2P Require Import Prelude Bytes Value Codec CddlText Schema.
Local Open Scope Z_scope.

Section Conforms.
Context (rs : rules).

Inductive conforms : node → value → Prop :=
| conf_prim name v : prim_valid name v = Some true → conforms (NRef name) v
| conf_ref name nd v :
    prim_valid name v = None → rule_get rs name = Some nd →
    app_id_nul name v = false → conforms nd v → conforms (NRef name) v
| conf_lit n : conforms (NLit n) (VInt n)
| conf_range lo hi z : lo <= z <= hi → conforms (NRange lo hi) (VInt z)
| conf_size child lo hi v n :
    conforms child v → size_of v = Some n → lo <= n <= hi →
    conforms (NSize child lo hi) v
| conf_union children c v : c ∈ children → conforms c v → conforms (NUnion children) v
| conf_array lo hi c l :
    lo <= len l <= hi → (∀ v, v ∈ l → conforms c v) → conforms (NArray lo hi c) (VList l)
| conf_map fields d :
    (∀ k v, (k, v) ∈ d → ∃ z, k = KInt z ∧ is_Some (field_get fields z)) →
    (∀ z v o c, (KInt z, v) ∈ d → field_get fields z = Some (o, c) → conforms c v) →
    (∀ z c, (z, false, c) ∈ fields → is_Some (dict_get d z)) →
    conforms (NMap fields) (VDict d).

Lemma check_Ok b p : check b p = Ok tt ↔ b = true.
Proof. apply require_Ok. Qed.


(** The shape test of a map, declaratively. *)
Lemma map_shape_spec fields d :
  all_int_keys d && map_shape fields d = true ↔
  (∀ k v, (k, v) ∈ d → ∃ z, k = KInt z ∧ is_Some (field_get fields z)) ∧
  (∀ z c, (z, false, c) ∈ fields → is_Some (dict_get d z)).
Proof.
  unfold all_int_keys, map_shape. rewrite !andb_true_iff, !forallb_forall. split.
  - intros (_ & Hd & Hf). split.
    + intros k v Hin%list_elem_of_In. specialize (Hd _ Hin). cbn in Hd.
      destruct k; try done. apply bool_decide_eq_true in Hd. eauto.
    + intros z c Hin%list_elem_of_In. specialize (Hf _ Hin). cbn in Hf.
      by apply bool_decide_eq_true in Hf.
  - intros [Hd Hf]. split_and!.
    + intros [k v] Hin%list_elem_of_In. destruct (Hd _ _ Hin) as (z & -> & _). done.
    + intros [k v] Hin%list_elem_of_In. destruct (Hd _ _ Hin) as (z & -> & Hz). cbn.
      by apply bool_decide_eq_true.
    + intros [[z [|]] c] Hin%list_elem_of_In; cbn; [done|].
      apply bool_decide_eq_true. by eapply Hf.
Qed.

Lemma try_union_Ok f cs path :
  try_union f cs path = Ok tt → ∃ c, c ∈ cs ∧ f c = Ok tt.
Proof.
  induction cs as [|c cs IH]; cbn; [done|].
  destruct (f c) as [[]|e] eqn:E; [intros _; exists c; split; [by left|done]|].
  case_match; [|done]. intros (c' & Hin & Hc')%IH. exists c'. split; [by right|done].
Qed.


Lemma each_item_Ok f l i path :
  each_item f l i path = Ok tt → ∀ v, v ∈ l → ∃ p, f v p = Ok tt.
Proof.
  revert i. induction l as [|x l IH]; intros i H v; [by intros ?%not_elem_of_nil|].
  apply bind_Ok in H as ([] & Hx & H). intros [->|Hin]%elem_of_cons; [eauto|by eapply IH].
Qed.

Lemma each_item_Err f l i path e :
  each_item f l i path = Err e → ∃ v p, v ∈ l ∧ f v p = Err e.
Proof.
  revert i. induction l as [|x l IH]; intros i H; [done|].
  apply bind_Err in H as [H|([] & _ & H)].
  - eexists _, _. split; [by left|done].
  - destruct (IH _ H) as (v & p & Hin & Hv). exists v, p. split; [by right|done].
Qed.

Lemma each_field_Ok f fields d path :
  each_field f fields d path = Ok tt →
  ∀ z v o c, (KInt z, v) ∈ d → field_get fields z = Some (o, c) → ∃ p, f c v p = Ok tt.
Proof.
  induction d as [|[k x] d IH]; cbn; [by intros _ ? ? ? ? ?%not_elem_of_nil|].
  destruct k; try done.
  intros ([o c] & Hf & ([] & Hx & H)%bind_Ok)%bind_Ok z' v' o' c' Hin Hz'; apply elem_of_cons in Hin as [[= -> ->]|Hin];
    [|by eapply IH].
  rewrite Hz' in Hf. cbn in Hf. injection Hf as <- <-. eauto.
Qed.

Lemma each_field_Err f fields d path e :
  each_field f fields d path = Err e →
  (∀ k v, (k, v) ∈ d → ∃ z, k = KInt z ∧ is_Some (field_get fields z)) →
  ∃ z v o c p, (KInt z, v) ∈ d ∧ field_get fields z = Some (o, c) ∧ f c v p = Err e.
Proof.
  induction d as [|[k x] d IH]; cbn; [done|]. intros H Hd.
  destruct (Hd k x) as (z & -> & [[o c] Hf]); [by left|].
  rewrite Hf in H. cbn in H. apply bind_Err in H as [H|([] & _ & H)].
  - eexists _, _, _, _, _. split; [by left|done].
  - destruct IH as (z' & v & o' & c' & p & Hin & Hf' & Hv); [done|intros k' v' Hin; apply (Hd k' v'); by right|].
    exists z', v, o', c', p. split; [by right|done].
Qed.

(** [validate_node] decides [conforms] whenever it answers. *)
Lemma validate_node_sound fuel nd v path depth :
  validate_node rs fuel nd v path depth = Ok tt → conforms nd v.
Proof.
  revert nd v path depth. induction fuel as [|fuel IH]; intros nd v path depth H; [done|].
  cbn in H. case_if H. destruct nd as [name|n|lo hi|c lo hi|cs|lo hi c|fields].
  - destruct (prim_valid name v) as [b|] eqn:Ep.
    + apply check_Ok in H as ->. by apply conf_prim.
    + destruct (rule_get rs name) as [nd|] eqn:Er; [|done]. case_if H.
      eapply conf_ref; eauto.
  - apply check_Ok in H. destruct v; try done. zb. subst. constructor.
  - apply check_Ok in H. destruct v; try done. zb. constructor. lia.
  - apply bind_Ok in H as ([] & Hc & (n & Hn & Hb%check_Ok)%bind_Ok).
    destruct (size_of v) as [n'|] eqn:Es; [|done]. injection Hn as ->. zb.
    eapply conf_size; eauto.
  - apply try_union_Ok in H as (c & Hin & Hc). eapply conf_union; eauto.
  - destruct v; try done. case_if H. zb. constructor; [lia|].
    intros v Hv. destruct (each_item_Ok _ _ _ _ H _ Hv) as [p Hp]. eauto.
  - destruct v; try done. case_if H. apply map_shape_spec in E0 as [Hk Hr].
    constructor; [done| |done]. intros z v o c Hin Hf.
    destruct (each_field_Ok _ _ _ _ H _ _ _ _ Hin Hf) as [p Hp]. eauto.
Qed.

End Conforms.

(** ** Closed and acyclic rules *)

Definition closed (rs : rules) (nd : node) : Prop :=
  ∀ r, r ∈ refs nd → r ∈ primitives ∨ is_Some (rule_get rs r).

Definition closed_rules (rs : rules) : Prop :=
  ∀ name nd, rule_get rs name = Some nd → name ∉ primitives → closed rs nd.

(** [ref_of rs r n]: the body of rule [n] mentions the rule [r]. *)
Definition ref_of (rs : rules) (r n : string) : Prop :=
  ∃ nd, rule_get rs n = Some nd ∧ r ∈ refs nd ∧ r ∉ primitives.

Lemma mem_spec x l : mem x l = true ↔ x ∈ l.
Proof.
  unfold mem. rewrite existsb_exists. split.
  - intros (y & Hin%list_elem_of_In & ->%String.eqb_eq). done.
  - intros Hin. exists x. split; [by apply list_elem_of_In|apply String.eqb_refl].
Qed.

Lemma mem_false x l : mem x l = false ↔ x ∉ l.
Proof. rewrite <- mem_spec. by destruct (mem x l). Qed.

Lemma rule_get_elem rs n nd : rule_get rs n = Some nd → n ∈ rs.*1.
Proof.
  induction rs as [|[m b] rs IH]; cbn; [done|].
  destruct (String.eqb_spec n m) as [->|]; [by left|]. right. auto.
Qed.

Lemma rule_get_is_Some rs n : n ∈ rs.*1 → is_Some (rule_get rs n).
Proof.
  induction rs as [|[m b] rs IH]; cbn; [by intros ?%not_elem_of_nil|].
  destruct (String.eqb_spec n m) as [->|]; [eauto|]. intros [?|?]%elem_of_cons; [done|auto].
Qed.

(** The rules already checked, the latest first: each one only mentions
    primitives and rules checked before it. *)
Inductive checked (rs : rules) : list string → Prop :=
| checked_nil : checked rs []
| checked_cons n nd D :
    rule_get rs n = Some nd → (∀ r, r ∈ refs nd → r ∈ primitives ∨ r ∈ D) →
    checked rs D → checked rs (n :: D).

Lemma checked_elem rs D n :
  checked rs D → n ∈ D →
  ∃ nd, rule_get rs n = Some nd ∧ ∀ r, r ∈ refs nd → r ∈ primitives ∨ r ∈ D.
Proof.
  induction 1 as [|m nd D Hm Hrefs HD IH]; [by intros ?%not_elem_of_nil|].
  intros [->|Hin]%elem_of_cons.
  - exists nd. split; [done|]. intros r [?|?]%Hrefs; [by left|right; by right].
  - destruct (IH Hin) as (nd' & ? & Hr). exists nd'. split; [done|].
    intros r [?|?]%Hr; [by left|right; by right].
Qed.

Lemma checked_acc rs D : checked rs D → ∀ n, n ∈ D → Acc (ref_of rs) n.
Proof.
  induction 1 as [|m nd D Hm Hrefs HD IH]; intros n; [by intros ?%not_elem_of_nil|].
  intros [->|Hin]%elem_of_cons; [|auto]. constructor.
  intros r (nd' & Hnd' & Hr & Hp). rewrite Hm in Hnd'. injection Hnd' as <-.
  destruct (Hrefs r Hr); [done|auto].
Qed.

Section WalkProofs.
Context (iter : list string → list string) (rs : rules).
(** Iterating over a set visits exactly its elements. *)
Hypothesis iter_elem : ∀ l x, x ∈ iter l ↔ x ∈ l.

Definition walk_ok (walk : string → list string → result (list string)) : Prop :=
  ∀ n D D', checked rs D → walk n D = Ok D' →
    checked rs D' ∧ D ⊆ D' ∧ (n ∈ primitives ∨ n ∈ D').

Lemma walk_all_ok walk names D D' :
  walk_ok walk → checked rs D → walk_all walk names D = Ok D' →
  checked rs D' ∧ D ⊆ D' ∧ ∀ n, n ∈ names → n ∈ primitives ∨ n ∈ D'.
Proof.
  intros Hw. revert D. induction names as [|n names IH]; intros D HD H.
  { injection H as <-. split_and!; [done|done|by intros ? ?%not_elem_of_nil]. }
  apply bind_Ok in H as (D1 & H1 & H2).
  destruct (Hw _ _ _ HD H1) as (HD1 & S1 & N1).
  destruct (IH _ HD1 H2) as (HD2 & S2 & N2).
  split_and!; [done|set_solver|]. intros m [->|?]%elem_of_cons; [|auto].
  destruct N1; [by left|right; by apply S2].
Qed.

Lemma walk_correct fuel visiting : walk_ok (walk iter rs fuel visiting).
Proof.
  revert visiting. induction fuel as [|fuel IH]; intros visiting n D D' HD H; [done|].
  cbn [walk] in H. case_if H.
  { injection H as <-. split_and!; [done|done|].
    apply orb_prop in E as [?%mem_spec|?%mem_spec]; [by right|by left]. }
  case_if H. destruct (rule_get rs n) as [nd|] eqn:En; [|done].
  apply bind_Ok in H as (D1 & H1 & [= <-]).
  eapply walk_all_ok in H1 as (HD1 & S1 & N1); [|apply IH|done].
  split_and!; [|set_solver|right; by left].
  eapply checked_cons; [done| |done]. intros r Hr. apply N1. by apply iter_elem.
Qed.

Lemma check_references_correct D :
  check_references iter rs = Ok D →
  closed_rules rs ∧ ∀ n, n ∈ rs.*1 → n ∉ primitives → Acc (ref_of rs) n.
Proof.
  unfold check_references. intros H.
  eapply walk_all_ok in H as (HD & _ & HN); [|apply walk_correct|constructor].
  split.
  - intros n nd Hn Hp r Hr.
    destruct (HN n) as [?|Hin]; [by eapply rule_get_elem|done|].
    destruct (checked_elem _ _ _ HD Hin) as (nd' & Hnd' & Hrefs). simplify_eq.
    destruct (Hrefs r Hr) as [?|Hin']; [by left|right].
    destruct (checked_elem _ _ _ HD Hin') as (nd' & ? & _). eauto.
  - intros n Hn Hp. destruct (HN n Hn) as [?|Hin]; [done|]. by eapply checked_acc.
Qed.

(** The walk's fuel is enough: the rules being visited are distinct. *)
Lemma walk_all_not_fuel walk names D :
  (∀ n D, walk n D ≠ Err OutOfFuel) → walk_all walk names D ≠ Err OutOfFuel.
Proof.
  intros Hw. revert D. induction names as [|n names IH]; intros D; [done|].
  intros [H|(D1 & _ & H)]%bind_Err; [by eapply Hw|by eapply IH].
Qed.

Lemma walk_not_fuel fuel visiting n D :
  NoDup visiting → (∀ m, m ∈ visiting → m ∈ rs.*1) →
  (length rs < fuel + length visiting)%nat → walk iter rs fuel visiting n D ≠ Err OutOfFuel.
Proof.
  revert visiting n D. induction fuel as [|fuel IH]; intros visiting n D Hnd Hsub Hf.
  { pose proof (submseteq_length visiting rs.*1) as Hlen.
    rewrite length_fmap in Hlen. rewrite Nat.add_0_l in Hf.
    exfalso. apply (Nat.lt_irrefl (length rs)). eapply Nat.lt_le_trans; [exact Hf|].
    apply Hlen. by apply NoDup_submseteq. }
  cbn [walk]. case_match; [done|]. destruct (mem n visiting) eqn:Ev; [done|].
  destruct (rule_get rs n) as [nd|] eqn:En; [|done].
  intros [H'|(D1 & _ & H')]%bind_Err; [|done]. revert H'.
  apply walk_all_not_fuel. intros m D'. apply IH.
  - constructor; [by apply mem_false|done].
  - intros k [->|?]%elem_of_cons; [by eapply rule_get_elem|auto].
  - cbn. lia.
Qed.
End WalkProofs.

(** Validation against closed rules never meets an undeclared name. *)
Section Closed.
Context (rs : rules) (Hrs : closed_rules rs).

Definition no_reference_error (r : result unit) : Prop :=
  ∀ p, r ≠ Err (WireError "CDDL_REFERENCE" p).

Lemma closed_children nd nd' :
  (∀ r, r ∈ refs nd' → r ∈ refs nd) → closed rs nd → closed rs nd'.
Proof. unfold closed. auto. Qed.

Lemma prim_valid_None name v : prim_valid name v = None → name ∉ primitives.
Proof.
  unfold prim_valid, primitives. intros H. repeat case_match; try done.
  repeat match goal with E : String.eqb _ _ = false |- _ => apply String.eqb_neq in E end.
  set_solver.
Qed.

Lemma check_no_reference b p : no_reference_error (check b p).
Proof. intros q [_ H]%require_Err. discriminate. Qed.

Lemma refs_child_of_union c cs r : c ∈ cs → r ∈ refs c → r ∈ refs (NUnion cs).
Proof.
  intros Hc Hr. cbn. apply list_elem_of_In, in_flat_map. exists c.
  split; by apply list_elem_of_In.
Qed.

Lemma refs_child_of_map fields z o c r :
  field_get fields z = Some (o, c) → r ∈ refs c → r ∈ refs (NMap fields).
Proof.
  intros Hf Hr. cbn. apply list_elem_of_In, in_flat_map.
  assert (∃ f, f ∈ fields ∧ f.2 = c) as (f & Hin & <-).
  { clear Hr. induction fields as [|[[z' o'] c'] fields IH]; cbn in Hf; [done|].
    destruct (z =? z'); [simplify_eq; eexists; split; [by left|done]|].
    destruct (IH Hf) as (f & ? & ?). exists f. split; [by right|done]. }
  exists f. split; by apply list_elem_of_In.
Qed.

Lemma try_union_no_reference f cs path :
  (∀ c, c ∈ cs → no_reference_error (f c)) → no_reference_error (try_union f cs path).
Proof.
  induction cs as [|c cs IH]; intros Hc p; cbn; [done|].
  destruct (f c) as [|e] eqn:E; [done|]. case_match.
  - apply IH. intros c' Hc'. apply Hc. by right.
  - intros [= ->]. eapply Hc; [by left|done].
Qed.

Lemma validate_node_no_reference fuel nd v path depth :
  closed rs nd → no_reference_error (validate_node rs fuel nd v path depth).
Proof.
  revert nd v path depth. induction fuel as [|fuel IH]; intros nd v path depth Hc p; [done|].
  cbn. case_match; [done|]. destruct nd as [name|n|lo hi|c lo hi|cs|lo hi c|fields].
  - destruct (prim_valid name v) as [b|] eqn:Ep; [apply check_no_reference|].
    apply prim_valid_None in Ep. destruct (rule_get rs name) as [nd|] eqn:Er.
    + case_match; [done|]. apply IH. by eapply Hrs.
    + destruct (Hc name) as [?|[? ?]]; [by left|done|congruence].
  - apply check_no_reference.
  - apply check_no_reference.
  - intros [H'|([] & _ & [H'|(n & _ & H')]%bind_Err)]%bind_Err.
    + by eapply IH in H'.
    + destruct (size_of v); [done|]. cbn in H'. discriminate.
    + by apply check_no_reference in H'.
  - apply try_union_no_reference. intros c Hin. apply IH.
    eapply closed_children; [|exact Hc]. intros r. by apply refs_child_of_union.
  - destruct v; try done. case_match; [|done].
    intros H'. apply each_item_Err in H' as (x & q & _ & H'). by eapply IH in H'.
  - destruct v; try done. destruct (all_int_keys d && map_shape fields d) eqn:E; [|done].
    apply map_shape_spec in E as [Hk _]. intros H'.
    apply each_field_Err in H' as (z & x & o & c & q & _ & Hf & H'); [|done].
    eapply IH in H'; [done|]. eapply closed_children; [|exact Hc].
    intros r. by eapply refs_child_of_map.
Qed.
End Closed.

(** ** Termination of the parser *)

Lemma span_length p s : (String.length (span p s).2 <= String.length s)%nat.
Proof.
  induction s as [|a s IH]; cbn; [lia|]. destruct (p a); cbn; [|lia].
  destruct (span p s); cbn in *; lia.
Qed.

Lemma str_drop_length n s : (String.length (str_drop n s) = String.length s - n)%nat.
Proof. revert s. induction n; intros [|a s]; cbn; try lia. apply IHn. Qed.

Lemma next_token_shorter s t r :
  next_token s = Some (t, r) → (String.length r < String.length s)%nat.
Proof.
  destruct s as [|a s]; [done|]. unfold next_token.
  pose proof (span_length is_space s). pose proof (span_length not_newline s).
  pose proof (span_length is_name_char s). pose proof (span_length is_digit s).
  destruct (span is_name_char s) as [x1 y1], (span is_digit s) as [x2 y2].
  pose proof (str_drop_length 5 (String a s)). pose proof (str_drop_length 2 (String a s)).
  generalize dependent (str_drop 5 (String a s)). generalize dependent (str_drop 2 (String a s)).
  intros d2 Hd2 d5 Hd5. cbn [String.length snd] in *.
  repeat (case_match; [intros [= <- <-]; lia|]). done.
Qed.

Lemma tokenize_not_fuel fuel s :
  (String.length s < fuel)%nat → tokenize fuel s ≠ Err OutOfFuel.
Proof.
  revert s. induction fuel as [|fuel IH]; intros s Hf; [lia|]. cbn [tokenize].
  destruct s as [|a s]; [done|].
  destruct (next_token (String a s)) as [[t r]|] eqn:E; [|done].
  apply next_token_shorter in E. intros [H|(ts & _ & H)]%bind_Err; [|done].
  revert H. apply IH. lia.
Qed.

Lemma expect_Ok t ts ts' : expect t ts = Ok ts' → length ts = S (length ts').
Proof. destruct ts as [|t' ts]; cbn; [done|]. case_match; [|done]. by intros [= ->]. Qed.

Lemma pop_Ok ts t ts' : pop ts = Ok (t, ts') → length ts = S (length ts').
Proof. destruct ts; cbn; [done|]. by intros [= -> ->]. Qed.

Lemma number_node_Ok t ts nd ts' :
  number_node t ts = Ok (nd, ts') → (length ts' <= length ts)%nat.
Proof.
  unfold number_node. intros (n & _ & H)%bind_Ok. case_if H; [|by simplify_eq].
  apply bind_Ok in H as (ts1 & H1%expect_Ok & ([e ts2] & H2%pop_Ok & H)%bind_Ok).
  case_if H. apply bind_Ok in H as (hi & _ & H). case_if H. simplify_eq. lia.
Qed.

(** The steps of a parser consume tokens. *)
Ltac parse_step H :=
  match type of H with
  | expect _ _ = Ok _ => apply expect_Ok in H
  | pop _ = Ok _ => apply pop_Ok in H
  | number_node _ _ = Ok _ => apply number_node_Ok in H
  | Ok _ = Ok _ => injection H as H; subst
  | Err _ = Ok _ => discriminate H
  | (_ ≫= _) = Ok _ =>
      let x := fresh "x" in let E := fresh "E" in
      apply bind_Ok in H as (x & E & H);
      match type of x with (_ * _)%type => destruct x as [? ?] | _ => idtac end;
      cbn beta iota in H;
      parse_step E
  | (if ?b then _ else _) = Ok _ => destruct b eqn:?; parse_step H
  | _ => idtac
  end.
Ltac parse_steps := repeat match goal with H : _ = Ok _ |- _ => progress parse_step H end.

Definition shrinks (f : nat) : Prop :=
  (∀ level ts nd ts', parse_expr f level ts = Ok (nd, ts') → length ts' < length ts)%nat ∧
  (∀ level ts l ts', parse_alternatives f level ts = Ok (l, ts') → length ts' <= length ts)%nat ∧
  (∀ level ts nd ts', parse_atom f level ts = Ok (nd, ts') → length ts' < length ts)%nat ∧
  (∀ level ks ts l ts', parse_fields f level ks ts = Ok (l, ts') → length ts' <= length ts)%nat.

Ltac shrink_with He Ha Ht Hf :=
  repeat match goal with
  | H : parse_expr _ _ _ = Ok _ |- _ => apply He in H
  | H : parse_alternatives _ _ _ = Ok _ |- _ => apply Ha in H
  | H : parse_atom _ _ _ = Ok _ |- _ => apply Ht in H
  | H : parse_fields _ _ _ _ = Ok _ |- _ => apply Hf in H
  end.

Lemma parse_shrinks f : shrinks f.
Proof.
  induction f as [|f (He & Ha & Ht & Hf)]; [by repeat split|].
  split_and!.
  - intros level ts nd ts' H. cbn [parse_expr] in H. case_if H. parse_steps;
      shrink_with He Ha Ht Hf; lia.
  - intros level ts l ts' H. cbn [parse_alternatives] in H. parse_steps;
      shrink_with He Ha Ht Hf; lia.
  - intros level ts nd ts' H. cbn [parse_atom] in H. parse_steps;
      shrink_with He Ha Ht Hf; lia.
  - intros level ks ts l ts' H. cbn [parse_fields] in H. parse_steps;
      shrink_with He Ha Ht Hf; lia.
Qed.

(** Every step of a parser that is given enough fuel answers. *)
Lemma expect_not_fuel t ts : expect t ts ≠ Err OutOfFuel.
Proof. unfold expect. by repeat case_match. Qed.
Lemma pop_not_fuel ts : pop ts ≠ Err OutOfFuel.
Proof. by destruct ts. Qed.
Lemma py_int_not_fuel t : py_int t ≠ Err OutOfFuel.
Proof. unfold py_int. by case_match. Qed.
Lemma node_bounds_not_fuel nd : node_bounds nd ≠ Err OutOfFuel.
Proof. by destruct nd. Qed.

Ltac fuel_step H :=
  match type of H with
  | expect _ _ = Err OutOfFuel => by apply expect_not_fuel in H
  | pop _ = Err OutOfFuel => by apply pop_not_fuel in H
  | py_int _ = Err OutOfFuel => by apply py_int_not_fuel in H
  | node_bounds _ = Err OutOfFuel => by apply node_bounds_not_fuel in H
  | Ok _ = Err _ => discriminate H
  | Err _ = Err _ => discriminate H
  | (_ ≫= _) = Err _ =>
      let x := fresh "x" in let E := fresh "E" in
      apply bind_Err in H as [H|(x & E & H)];
      [|match type of x with (_ * _)%type => destruct x as [? ?] | _ => idtac end];
      cbn beta iota in H; fuel_step H
  | (if ?b then _ else _) = Err _ => destruct b eqn:?; fuel_step H
  | _ => idtac
  end.

Lemma number_node_not_fuel t ts : number_node t ts ≠ Err OutOfFuel.
Proof. unfold number_node. intros H. fuel_step H. Qed.

Definition answers (f : nat) : Prop :=
  (∀ level ts, 2 * length ts + 2 <= f → parse_expr f level ts ≠ Err OutOfFuel)%nat ∧
  (∀ level ts, 2 * length ts + 1 <= f → parse_alternatives f level ts ≠ Err OutOfFuel)%nat ∧
  (∀ level ts, 2 * length ts + 1 <= f → parse_atom f level ts ≠ Err OutOfFuel)%nat ∧
  (∀ level ks ts, 2 * length ts + 1 <= f → parse_fields f level ks ts ≠ Err OutOfFuel)%nat.

Ltac answer_with He Ha Ht Hf :=
  match goal with
  | H : parse_expr _ _ _ = Err OutOfFuel |- _ => revert H; apply He
  | H : parse_alternatives _ _ _ = Err OutOfFuel |- _ => revert H; apply Ha
  | H : parse_atom _ _ _ = Err OutOfFuel |- _ => revert H; apply Ht
  | H : parse_fields _ _ _ _ = Err OutOfFuel |- _ => revert H; apply Hf
  | H : number_node _ _ = Err OutOfFuel |- _ => by apply number_node_not_fuel in H
  end.

Lemma parse_answers f : answers f.
Proof.
  induction f as [|f (He & Ha & Ht & Hf)];
    [repeat split; intros; try lia|].
  destruct (parse_shrinks f) as (Se & Sa & St & Sf). split_and!.
  - intros level ts Hfu H. cbn [parse_expr] in H.
    fuel_step H; parse_steps; shrink_with Se Sa St Sf; answer_with He Ha Ht Hf; lia.
  - intros level ts Hfu H. cbn [parse_alternatives] in H.
    fuel_step H; parse_steps; shrink_with Se Sa St Sf; answer_with He Ha Ht Hf; lia.
  - intros level ts Hfu H. cbn [parse_atom] in H.
    fuel_step H; parse_steps; shrink_with Se Sa St Sf; answer_with He Ha Ht Hf; lia.
  - intros level ks ts Hfu H. cbn [parse_fields] in H.
    fuel_step H; parse_steps; shrink_with Se Sa St Sf; answer_with He Ha Ht Hf; lia.
Qed.

Lemma parse_rules_not_fuel fuel rs ts :
  (length ts <= fuel)%nat → parse_rules fuel rs ts ≠ Err OutOfFuel.
Proof.
  revert rs ts. induction fuel as [|fuel IH]; intros rs [|t ts] Hf; cbn [parse_rules]; try done.
  { cbn in Hf. lia. }
  cbn [pop mbind result_bind]. case_match; [done|].
  intros [H'|(ts1 & H1%expect_Ok & H')]%bind_Err; [by apply expect_not_fuel in H'|].
  apply bind_Err in H' as [H'|([nd ts2] & H2 & H')].
  - revert H'. apply (proj1 (parse_answers _)). unfold parse_fuel. lia.
  - apply (proj1 (parse_shrinks _)) in H2. revert H'. apply IH. cbn in Hf. lia.
Qed.

Lemma parse_cddl_not_fuel iter text : parse_cddl iter text ≠ Err OutOfFuel.
Proof.
  unfold parse_cddl. case_match; [done|].
  intros [H'|(ts & _ & [H'|(rs & _ & [H'|(D & _ & H')]%bind_Err)]%bind_Err)]%bind_Err.
  - revert H'. apply tokenize_not_fuel. lia.
  - revert H'. by apply parse_rules_not_fuel.
  - revert H'. apply walk_all_not_fuel. intros n D. apply walk_not_fuel.
    + constructor.
    + by intros m ?%not_elem_of_nil.
    + cbn. lia.
  - done.
Qed.

Lemma parse_cddl_Ok iter text rs :
  parse_cddl iter text = Ok rs → ∃ D, check_references iter rs = Ok D.
Proof.
  unfold parse_cddl. intros H. case_if H.
  by apply bind_Ok in H as (ts & _ & (rs' & _ & (D & HD & [= <-])%bind_Ok)%bind_Ok); eauto.
Qed.

(** ** Validation answers with [Ok] or a [WireError] *)

Lemma try_union_wire f cs path e :
  (∀ c e, f c = Err e → wire_error e) → try_union f cs path = Err e → wire_error e.
Proof.
  intros Hf. induction cs as [|c cs IH]; cbn.
  - intros [= <-]. by eexists _, _.
  - destruct (f c) eqn:E; [done|]. case_match; [done|]. intros [= <-]. by eapply Hf.
Qed.

Lemma validate_node_wire rs fuel nd v path depth e :
  depth <= MAX_VALIDATE_DEPTH + 1 → MAX_VALIDATE_DEPTH + 2 <= Z.of_nat fuel + depth →
  validate_node rs fuel nd v path depth = Err e → wire_error e.
Proof.
  revert nd v path depth e. induction fuel as [|fuel IH]; intros nd v path depth e Hd Hf; [lia|].
  cbn [validate_node]. destruct (MAX_VALIDATE_DEPTH <? depth) eqn:E; zb.
  { intros [= <-]. by eexists _, _. }
  assert (∀ nd v path e, validate_node rs fuel nd v path (depth + 1) = Err e → wire_error e)
    as Hi by (intros ????; apply IH; lia).
  assert (∀ b p e, check b p = Err e → wire_error e) as Hcheck.
  { intros b p e' [_ ->]%require_Err. by eexists _, _. }
  destruct nd as [name|n|lo hi|c lo hi|cs|lo hi c|fields]; [|by eauto..| | | |].
  - destruct (prim_valid name v); [by eauto|].
    destruct (rule_get rs name); [case_match; [|by eauto]|]; intros [= <-]; by eexists _, _.
  - intros [H|([] & _ & [H|(n & _ & H)]%bind_Err)]%bind_Err; [by eauto| |by eauto].
    destruct (size_of v); [done|]. cbn in H. injection H as <-. by eexists _, _.
  - apply try_union_wire. by eauto.
  - destruct v; try (intros [= <-]; by eexists _, _). case_match.
    + intros (x & q & _ & Hx)%each_item_Err. by eauto.
    + intros [= <-]; by eexists _, _.
  - destruct v; try (intros [= <-]; by eexists _, _).
    destruct (all_int_keys d && map_shape fields d) eqn:Es.
    + apply map_shape_spec in Es as [Hk _].
      intros (z & x & o & c & q & _ & _ & H)%each_field_Err; [by eauto|done].
    + intros [= <-]; by eexists _, _.
Qed.

Lemma validate_wire rs rule v e : validate rs rule v = Err e → wire_error e.
Proof.
  unfold validate. case_match; [|intros [= <-]; by eexists _, _].
  by apply validate_node_wire.
Qed.

Lemma validate_conforms rs rule v :
  validate rs rule v = Ok tt → ∃ nd, rule_get rs rule = Some nd ∧ conforms rs nd v.
Proof.
  unfold validate. case_match; [|done]. intros H'%validate_node_sound. eauto.
Qed.

(** ** Reading conforming values *)

Section Reading.
Context (rs : rules).

Lemma conforms_map fields v :
  conforms rs (NMap fields) v →
  ∃ d, v = VDict d ∧ ∀ z c, (z, false, c) ∈ fields → field_get fields z = Some (false, c) →
    ∃ x, dict_get d z = Some x ∧ conforms rs c x.
Proof.
  intros H. inversion H as [| | | | | | |fs d Hk Hc Hr]; subst.
  exists d. split; [done|]. intros z c Hin Hf.
  destruct (Hr z c Hin) as [x Hx]. exists x. split; [done|].
  eapply Hc; [|exact Hf]. clear -Hx.
  induction d as [|[[k| | | |] y] d IH]; cbn in Hx; try (by right; apply IH); [done|].
  destruct (Z.eqb_spec z k) as [->|]; [injection Hx as ->; by left|]. right. auto.
Qed.

Lemma conforms_named name nd v :
  name ∉ primitives → rule_get rs name = Some nd → conforms rs (NRef name) v →
  conforms rs nd v.
Proof.
  intros Hp Hr H. inversion H as [? ? Hv|? nd' ? _ Hr' _ Hc| | | | | |]; subst.
  - exfalso. apply Hp. clear -Hv. unfold prim_valid in Hv.
    repeat (case_match; [match goal with E : String.eqb _ _ = true |- _ =>
      apply String.eqb_eq in E; subst; set_solver end|]). done.
  - congruence.
Qed.

Lemma conforms_sized_str lo hi v : conforms rs (NSize (NRef "tstr") lo hi) v → ∃ s, v = VStr s.
Proof.
  intros H. inversion H as [| | | |? ? ? ? n Hc| | |]; subst.
  inversion Hc as [? ? Hv|? ? ? Hv| | | | | |]; subst; [|done].
  destruct v; try done. eauto.
Qed.

Lemma conforms_list lo hi c v :
  conforms rs (NArray lo hi c) v → ∃ l, v = VList l ∧ ∀ x, x ∈ l → conforms rs c x.
Proof. intros H. inversion H; subst. eauto. Qed.
End Reading.

(** ** Frames *)

#[local] Abbreviation ds := default_schema.

Lemma field_get_elem fields z o c : field_get fields z = Some (o, c) → (z, o, c) ∈ fields.
Proof.
  induction fields as [|[[z' o'] c'] fields IH]; cbn; [done|].
  destruct (Z.eqb_spec z z') as [->|]; [intros [= -> ->]; by left|]. right. auto.
Qed.

(** The required field [z] of the map rule [name] of the protocol. *)
Definition field_node (name : string) (z : Z) : option node :=
  match rule_get ds name with
  | Some (NMap fields) =>
      match field_get fields z with Some (false, c) => Some c | _ => None end
  | _ => None
  end.

Lemma read_field name v :
  mem name primitives = false → (∃ z, is_Some (field_node name z)) →
  conforms ds (NRef name) v →
  ∃ d, v = VDict d ∧ ∀ z c, field_node name z = Some c →
    ∃ x, dict_get d z = Some x ∧ conforms ds c x.
Proof.
  intros Hp%mem_false [z0 Hz0] Hv. unfold field_node in *.
  destruct (rule_get ds name) as [[| | | | | |fields]|] eqn:Er; try by destruct Hz0.
  apply (conforms_named _ _ _ _ Hp Er), conforms_map in Hv as (d & -> & Hd).
  exists d. split; [done|]. intros z c Hz.
  destruct (field_get fields z) as [[[|] c']|] eqn:Ef; try done. injection Hz as ->.
  apply Hd; [by apply field_get_elem|done].
Qed.

(** The rows of the registry, with the frame rule of each code. *)
Definition frame_rows : list (Z * string) :=
  Eval vm_compute in map (λ r, (r.1, py_replace "-body" "-frame" 0 r.2)) registry_messages.

Lemma frame_rule_row code name : frame_rule code = Some name → (code, name) ∈ frame_rows.
Proof.
  unfold frame_rule. destruct (List.find _ _) as [[c b]|] eqn:E; [|done].
  apply List.find_some in E as [Hin Hc]. apply Z.eqb_eq in Hc. cbn in *. subst c.
  intros [= <-]. change frame_rows with
    (map (λ r, (r.1, py_replace "-body" "-frame" 0 r.2)) registry_messages).
  apply list_elem_of_In. by apply (in_map (λ r, (r.1, py_replace "-body" "-frame" 0 r.2)) _ (code, b)).
Qed.

Definition row_ok (row : Z * string) : bool :=
  negb (mem row.2 primitives) &&
  bool_decide (is_Some (field_node row.2 3)) &&
  match field_node row.2 4 with
  | Some (NRef body) =>
      String.eqb row.2 (py_replace "-body" "-frame" 0 body) && negb (mem body primitives)
      && bool_decide (is_Some (rule_get ds body))
  | _ => false
  end.

(** Every message code of the registry has a frame rule in the protocol, whose field 4
    is the matching body rule. *)
Lemma registry_rows_ok : forallb row_ok frame_rows = true.
Proof. vm_compute. reflexivity. Qed.

Lemma frame_read code name v :
  frame_rule code = Some name → conforms ds (NRef name) v →
  ∃ d b body x, v = VDict d ∧ dict_get d 3 = Some x ∧ dict_get d 4 = Some b ∧
    field_node name 4 = Some (NRef body) ∧ mem body primitives = false ∧
    conforms ds (NRef body) b.
Proof.
  intros Hrow%frame_rule_row Hv.
  assert (row_ok (code, name) = true) as Hok.
  { pose proof registry_rows_ok as H. rewrite forallb_forall in H.
    apply H. by apply list_elem_of_In. }
  unfold row_ok in Hok. cbn [snd] in Hok.
  destruct (field_node name 4) as [[body| | | | | |]|] eqn:E4;
    try (by rewrite andb_false_r in Hok).
  rewrite !andb_true_iff, !negb_true_iff, !bool_decide_eq_true in Hok.
  destruct Hok as ((Hp & [c3 H3]) & ((_ & Hb) & _)).
  destruct (read_field name v Hp) as (d & -> & Hd); [by eauto|done|].
  destruct (Hd _ _ H3) as (x & Hx & _). destruct (Hd _ _ E4) as (b & Hb4 & Hcb).
  by exists d, b, body, x.
Qed.

Lemma getitem_dict d z x : dict_get d z = Some x → getitem (VDict d) z = Ok x.
Proof. intros H. cbn. by rewrite H. Qed.

Lemma mapM_as_str_total l :
  (∀ x, x ∈ l → ∃ s, x = VStr s) → ∃ ss, mapM as_str l = Ok ss.
Proof.
  induction l as [|x l IH]; intros H; cbn; [by eexists|].
  destruct (H x) as [s ->]; [by left|]. cbn.
  destruct IH as [ss ->]; [intros; apply H; by right|]. by eexists.
Qed.

Lemma require_wire b e' e : wire_error e' → require b e' = Err e → wire_error e.
Proof. by intros Hw [_ ->]%require_Err. Qed.

Lemma hello_overlay_wire b e :
  conforms ds (NRef "hello-body") b → hello_overlay b = Err e → wire_error e.
Proof.
  intros Hc. apply read_field in Hc as (d & -> & Hd);
    [|done|by exists 0; eexists; vm_compute; reflexivity].
  destruct (Hd 0 _ eq_refl) as (x0 & H0 & C0). destruct (Hd 3 _ eq_refl) as (x3 & H3 & C3).
  destruct (Hd 4 _ eq_refl) as (x4 & H4 & C4).
  eapply conforms_named in C0; [|by apply mem_false|vm_compute; reflexivity].
  apply conforms_sized_str in C0 as [s ->].
  apply conforms_list in C3 as (l3 & -> & C3). apply conforms_list in C4 as (l4 & -> & _).
  unfold hello_overlay. rewrite (getitem_dict _ _ _ H0), (getitem_dict _ _ _ H3),
    (getitem_dict _ _ _ H4). cbn.
  destruct (is_domain_name s); [|intros [= <-]; by eexists _, _]. cbn.
  destruct (mapM_as_str_total l3) as [ss ->].
  { intros x Hx. apply C3 in Hx.
    eapply conforms_named in Hx; [|by apply mem_false|vm_compute; reflexivity].
    by apply conforms_sized_str in Hx. }
  cbn. apply require_wire. by eexists _, _.
Qed.

Lemma page_overlay_wire code name body b f e :
  page_fields code = Some f → frame_rule code = Some name →
  field_node name 4 = Some (NRef body) → conforms ds (NRef body) b →
  page_overlay b f = Err e → wire_error e.
Proof.
  intros Hf Hr Hbody Hc.
  assert (mem body primitives = false ∧ is_Some (field_node body f.1.1)
          ∧ is_Some (field_node body f.1.2) ∧ is_Some (field_node body f.2))
    as (Hp & [c1 H1] & [c2 H2] & [c3 H3]).
  { unfold page_fields in Hf. repeat case_match; zb; try done; subst; injection Hf as <-;
      vm_compute in Hr; injection Hr as <-; vm_compute in Hbody; injection Hbody as <-;
      (split_and!; [reflexivity|eexists; vm_compute; reflexivity..]). }
  apply read_field in Hc as (d & -> & Hd); [|done|by eauto].
  destruct (Hd _ _ H1) as (x1 & G1 & _). destruct (Hd _ _ H2) as (x2 & G2 & _).
  destruct (Hd _ _ H3) as (x3 & G3 & _). destruct f as [[i c] dn]. cbn [fst snd] in *.
  unfold page_overlay. rewrite (getitem_dict _ _ _ G1), (getitem_dict _ _ _ G2),
    (getitem_dict _ _ _ G3). cbn.
  apply require_wire. by eexists _, _.
Qed.

Lemma no_nul_wire name z p lo hi b e :
  mem name primitives = false → field_node name z = Some (NSize (NRef "tstr") lo hi) →
  conforms ds (NRef name) b → no_nul b z p = Err e → wire_error e.
Proof.
  intros Hp Hz Hc. apply read_field in Hc as (d & -> & Hd); [|done|by eauto].
  destruct (Hd _ _ Hz) as (x & Hx & [s ->]%conforms_sized_str).
  unfold no_nul. rewrite (getitem_dict _ _ _ Hx). cbn.
  apply require_wire. by eexists _, _.
Qed.

(** The body rule of the codes whose overlay reads single fields. *)
Lemma body_of_code code name body b0 :
  frame_rule code = Some name → field_node name 4 = Some (NRef body) →
  frame_rule code = Some (py_replace "-body" "-frame" 0 b0) →
  (match field_node (py_replace "-body" "-frame" 0 b0) 4 with
   | Some (NRef b) => b = b0 | _ => False end) → body = b0.
Proof. intros -> Hb [= ->]. by rewrite Hb. Qed.

Lemma overlay_wire code name body d b x3 e :
  frame_rule code = Some name → field_node name 4 = Some (NRef body) →
  mem body primitives = false → dict_get d 3 = Some x3 → conforms ds (NRef body) b →
  overlay code (VDict d) b = Err e → wire_error e.
Proof.
  intros Hr Hb Hp H3 Hc. unfold overlay.
  intros [H|([] & _ & [H|([] & _ & [H|([] & _ & [H|([] & _ & H)]%bind_Err)]%bind_Err)]%bind_Err)]%bind_Err.
  - case_match; [|done]. zb; subst. eapply hello_overlay_wire; [|exact H].
    by rewrite <- (body_of_code _ _ _ "hello-body" Hr Hb) by (vm_compute; reflexivity).
  - case_match; [|done]. zb; subst. rewrite (getitem_dict _ _ _ H3) in H. cbn [mbind result_bind] in H.
    rewrite (body_of_code _ _ _ "space-open-body" Hr Hb) in Hc by (vm_compute; reflexivity).
    apply read_field in Hc as (d' & -> & Hd); [|done|by exists 0; eexists; vm_compute; reflexivity].
    destruct (Hd 0 _ eq_refl) as (x0 & H0 & _). rewrite (getitem_dict _ _ _ H0) in H.
    cbn [mbind result_bind] in H. eapply require_wire; [|exact H]. by eexists _, _.
  - case_match; [|done]. by eapply page_overlay_wire.
  - case_match; [|done]. zb; subst. eapply (no_nul_wire "rpc-call-body"); [..|exact H];
      [done|vm_compute; reflexivity|].
    by rewrite <- (body_of_code _ _ _ "rpc-call-body" Hr Hb) by (vm_compute; reflexivity).
  - case_match; [|done]. zb; subst. eapply (no_nul_wire "error-body"); [..|exact H];
      [done|vm_compute; reflexivity|].
    by rewrite <- (body_of_code _ _ _ "error-body" Hr Hb) by (vm_compute; reflexivity).
Qed.

Lemma prim_valid_other name v : mem name primitives = false → prim_valid name v = None.
Proof.
  unfold prim_valid, mem, primitives. cbn. intros H.
  repeat match goal with |- context [String.eqb name ?p] => destruct (String.eqb name p); [done|] end.
  done.
Qed.

Lemma frame_rows_not_primitive code name :
  frame_rule code = Some name → mem name primitives = false.
Proof.
  intros Hrow%frame_rule_row. pose proof registry_rows_ok as H. rewrite forallb_forall in H.
  specialize (H (code, name)). unfold row_ok in H. cbn [snd] in H.
  rewrite !andb_true_iff, negb_true_iff in H. apply H. by apply list_elem_of_In.
Qed.

(** What a successful structural check of a frame establishes. *)
Lemma frame_conforms code name d :
  frame_rule code = Some name → validate ds name (VDict d) = Ok tt →
  conforms ds (NRef name) (VDict d).
Proof.
  intros Hr%frame_rows_not_primitive (nd & Hnd & Hc)%validate_conforms.
  eapply conf_ref; [by apply prim_valid_other|done| |done].
  unfold app_id_nul. by rewrite andb_false_r.
Qed.

Lemma validate_frame_wire v e : validate_frame v = Err e → wire_error e.
Proof.
  assert (∀ c p e, Err (A:=unit) (WireError c p) = Err e → wire_error e) as Hw.
  { intros c p e' [= <-]. by eexists _, _. }
  unfold validate_frame. destruct v as [| | | | | |d|]; try apply Hw.
  case_match; [apply Hw|].
  destruct (dict_get d 1) as [[| |code| | | | |]|]; try apply Hw.
  destruct (frame_rule code) as [name|] eqn:Er; [|apply Hw].
  intros [H'|([] & Hv & H')]%bind_Err; [by eapply validate_wire|].
  eapply frame_read in Er as Hread; [|by eapply frame_conforms].
  destruct Hread as (d' & b & body & x3 & [= <-] & H3 & H4 & Hb & Hp & Hc).
  rewrite (getitem_dict _ _ _ H4) in H'. cbn [mbind result_bind] in H'.
  by eapply overlay_wire.
Qed.

(** What a valid frame is made of. *)
Lemma valid_frame v :
  validate_frame v = Ok tt →
  ∃ d code name b body x, v = VDict d ∧ dict_get d 1 = Some (VInt code) ∧
    dict_get d 3 = Some x ∧ dict_get d 4 = Some b ∧ frame_rule code = Some name ∧
    field_node name 4 = Some (NRef body) ∧ conforms ds (NRef body) b ∧
    overlay code v b = Ok tt.
Proof.
  unfold validate_frame. destruct v as [| | | | | |d|]; try done.
  destruct (negb (all_int_keys d)); [done|].
  destruct (dict_get d 1) as [[| |code| | | | |]|] eqn:E1; try done.
  destruct (frame_rule code) as [name|] eqn:Er; [|done].
  intros ([] & Hv & H)%bind_Ok.
  eapply frame_read in Er as Hread; [|by eapply frame_conforms].
  destruct Hread as (d' & b & body & x3 & [= <-] & H3 & H4 & Hb & Hp & Hc).
  rewrite (getitem_dict _ _ _ H4) in H. cbn [mbind result_bind] in H.
  by exists d, code, name, b, body, x3.
Qed.

(** The body of a valid frame with a known message code, field by field. *)
Lemma valid_body v code body :
  validate_frame v = Ok tt → getitem v 1 = Ok (VInt code) →
  frame_rule code = Some (py_replace "-body" "-frame" 0 body) →
  (match field_node (py_replace "-body" "-frame" 0 body) 4 with
   | Some (NRef b) => b = body | _ => False end) →
  mem body primitives = false → (∃ z, is_Some (field_node body z)) →
  ∃ d x db, v = VDict d ∧ dict_get d 3 = Some x ∧ getitem v 3 = Ok x ∧
    getitem v 4 = Ok (VDict db) ∧ overlay code v (VDict db) = Ok tt ∧
    ∀ z c, field_node body z = Some c →
      ∃ y, getitem (VDict db) z = Ok y ∧ conforms ds c y.
Proof.
  intros Hv H1 Hr Hn Hp Hz.
  apply valid_frame in Hv as (d & code' & name & b & body' & x & -> & Hd1 & H3 & H4 & Hr' & Hb & Hc & Ho).
  rewrite (getitem_dict _ _ _ Hd1) in H1. injection H1 as ->.
  rewrite (body_of_code _ _ _ body Hr' Hb) in Hc by done.
  apply read_field in Hc as (db & -> & Hdb); [|done|done].
  exists d, x, db. split_and!; [done|done|by apply getitem_dict|by apply getitem_dict|done|].
  intros z c Hzc. destruct (Hdb _ _ Hzc) as (y & Hy & Hcy).
  exists y. split; [by apply getitem_dict|done].
Qed.

Lemma conforms_prim name v b : prim_valid name v = Some b → conforms ds (NRef name) v → b = true.
Proof. intros Hp Hc. inversion Hc; subst; congruence. Qed.

Lemma conforms_sized_bytes lo hi v :
  conforms ds (NSize (NRef "bstr") lo hi) v → ∃ b, v = VBytes b ∧ lo <= len b <= hi.
Proof.
  intros H. inversion H as [| | | |? ? ? ? n Hc Hs Hl| | |]; subst.
  apply (conforms_prim _ _ (is_bytes v)) in Hc; [|done].
  destruct v; try done. injection Hs as <-. eauto.
Qed.

Lemma conforms_id32 v : conforms ds (NRef "id32") v → ∃ b, v = VBytes b ∧ len b = 32.
Proof.
  intros H. eapply conforms_named in H; [|by apply mem_false|vm_compute; reflexivity].
  apply conforms_sized_bytes in H as (b & -> & ?). exists b. split; [done|lia].
Qed.

(** ** The properties of the schema layer *)

Lemma dict_get_in d k v : dict_get d k = Some v → (KInt k, v) ∈ d.
Proof.
  induction d as [|[[z| | | |] x] d IH]; cbn; try done; try (intros H; right; by apply IH).
  destruct (Z.eqb_spec k z) as [->|]; [intros [= ->]; by left|intros H; right; by apply IH].
Qed.

(** A required field of a validated map, by its node. *)
Lemma validated_field rule fields v k o nd x :
  validate default_schema rule v = Ok tt → rule_get default_schema rule = Some (NMap fields) →
  field_get fields k = Some (o, nd) → getitem v k = Ok x → conforms default_schema nd x.
Proof.
  intros Hv Hr Hf Hx. apply validate_conforms in Hv as (nd' & Hr' & Hc).
  rewrite Hr in Hr'. injection Hr' as <-. inversion Hc as [| | | | | | |fs d H1 H2 H3]; subst.
  cbn [getitem] in Hx. destruct (dict_get d k) as [y|] eqn:Hd; [|done]. injection Hx as ->.
  by eapply H2, Hf; apply dict_get_in.
Qed.


(** C31. Parsing a schema text always ends, and the rules it returns are closed (a
    rule mentions only primitives and declared rules) and acyclic, so validating
    against a declared rule never meets an undeclared name, whatever the value. *)
Theorem parse_cddl_correct iter text
    (Hiter : ∀ l x, x ∈ iter l ↔ x ∈ l) :
  parse_cddl iter text ≠ Err OutOfFuel ∧
  ∀ rs, parse_cddl iter text = Ok rs →
    closed_rules rs ∧
    (∀ n, n ∈ rs.*1 → n ∉ primitives → Acc (ref_of rs) n) ∧
    ∀ n v p, n ∈ rs.*1 → n ∉ primitives →
      validate rs n v ≠ Err (WireError "CDDL_REFERENCE" p).
Proof.
  split; [apply parse_cddl_not_fuel|]. intros rs [D HD]%parse_cddl_Ok.
  destruct (check_references_correct _ _ Hiter _ HD) as [Hcl Hacc].
  split_and!; [done|done|]. intros n v p Hn Hp.
  destruct (rule_get_is_Some _ _ Hn) as [nd Hnd]. unfold validate. rewrite Hnd.
  apply validate_node_no_reference; [done|]. by eapply Hcl.
Qed.

Lemma dedup_elem l x : x ∈ dedup l ↔ x ∈ l.
Proof.
  induction l as [|y l IH]; cbn; [done|]. destruct (mem y l) eqn:E.
  - apply mem_spec in E. rewrite IH. set_solver.
  - set_solver.
Qed.

(** The frozen protocol text parses to [default_schema]. *)
Lemma default_schema_parsed : parse_cddl dedup par_v1_cddl = Ok default_schema.
Proof. vm_compute. reflexivity. Qed.

Lemma parse_cddl_correct_witness :
  parse_cddl dedup par_v1_cddl = Ok default_schema ∧ closed_rules default_schema ∧
  ∀ v p, validate default_schema "change-header" v ≠ Err (WireError "CDDL_REFERENCE" p).
Proof.
  destruct (parse_cddl_correct dedup par_v1_cddl dedup_elem) as [_ H].
  split; [exact default_schema_parsed|].
  destruct (H _ default_schema_parsed) as (Hc & _ & Hv). split; [exact Hc|].
  intros v p. apply Hv; [|apply mem_false; reflexivity].
  apply mem_spec. vm_compute. reflexivity.
Defined.

(** [validate_frame] is total: on any object it returns or raises a
    [WireError]; none of the semantic checks after the structural one can hit a
    missing key or an object of the wrong type, for any of the 26 message codes. *)
Theorem validate_frame_total v e :
  validate_frame v = Err e → ∃ c p, e = WireError c p.
Proof. apply validate_frame_wire. Qed.

Lemma validate_frame_total_witness :
  let v := VDict [(KInt 1, VInt 999)] in
  validate_frame v = Err (wire "MESSAGE_TYPE") ∧ ∃ c p, wire "MESSAGE_TYPE" = WireError c p.
Proof.
  cbv zeta. split; [vm_compute; reflexivity|].
  apply (validate_frame_total (VDict [(KInt 1, VInt 999)])). vm_compute. reflexivity.
Defined.
