(* ===== verification/Json.v ===== *)
(** * JSON text and other byte formats of the standard library

    [canonical] is [json.dumps(value, ensure_ascii=False, sort_keys=True,
    separators=(',', ':'), allow_nan=False).encode('utf-8')], which the product layers
    hash and compare; [hex] is [bytes.hex], [b64encode] is [base64.b64encode]. *)

From S2P Require Import Prelude Bytes Value.
From stdpp Require Import pretty.
Local Open Scope Z_scope.

(** ** Strings *)

(** The order of [str]: lexicographic on code points. *)
Fixpoint str_leb (a b : pystr) : bool :=
  match a, b with
  | [], _ => true
  | _ :: _, [] => false
  | x :: a', y :: b' => if x <? y then true else if y <? x then false else str_leb a' b'
  end.
Definition str_le (a b : pystr) : Prop := str_leb a b = true.
#[export] Instance str_le_dec : RelDecision str_le.
Proof. intros a b. unfold str_le. apply _. Defined.
Definition sorted_strs (l : list pystr) : list pystr := merge_sort str_le l.

(** [str(z)] *)
Definition dec (z : Z) : pystr := str (pretty z).

Definition hex_digit (z : Z) : Z := if z <? 10 then 48 + z else 87 + z.
Definition hex_byte (b : byte) : pystr :=
  [hex_digit (Z_of_byte b / 16); hex_digit (Z_of_byte b mod 16)].
(** [b.hex()] *)
Definition hex (b : bytes) : pystr := b ≫= hex_byte.

Definition is_hex (c : Z) : bool :=
  ((48 <=? c) && (c <=? 57)) || ((97 <=? c) && (c <=? 102)).

(** [bytes.fromhex], on lower-case digits only (upper case and spaces are refused by
    the round-trip test that follows every use). *)
Definition hex_value (c : Z) : option Z :=
  if (48 <=? c) && (c <=? 57) then Some (c - 48)
  else if (97 <=? c) && (c <=? 102) then Some (c - 87) else None.
Fixpoint unhex (s : pystr) : option bytes :=
  match s with
  | [] => Some []
  | a :: b :: s' =>
      x ← hex_value a; y ← hex_value b; r ← unhex s'; Some (byte_of_Z (16 * x + y) :: r)
  | [_] => None
  end.

Lemma hex_digit_value z : 0 <= z < 16 → hex_value (hex_digit z) = Some z.
Proof.
  intros Hz. unfold hex_digit, hex_value. destruct (z <? 10) eqn:E; zb.
  - replace (48 <=? 48 + z) with true by lia. replace (48 + z <=? 57) with true by lia.
    cbn [andb]. f_equal. lia.
  - replace (87 + z <=? 57) with false by lia. rewrite andb_false_r.
    replace (97 <=? 87 + z) with true by lia. replace (87 + z <=? 102) with true by lia.
    cbn [andb]. f_equal. lia.
Qed.

(** [bytes.fromhex(b.hex()) == b] *)
Lemma unhex_hex b : unhex (hex b) = Some b.
Proof.
  unfold hex. induction b as [|x b IH]; [done|]. cbn [mbind list_bind app hex_byte unhex].
  pose proof (Z_of_byte_bound x).
  rewrite !hex_digit_value by (split; [apply Z.div_pos||apply Z.mod_pos_bound|
    apply Z.div_lt_upper_bound||apply Z.mod_pos_bound]; lia).
  cbn [mbind option_bind]. change (list_bind byte Z hex_byte b) with (b ≫= hex_byte).
  rewrite IH. cbn [mbind option_bind]. rewrite <-Z.div_mod by lia. by rewrite byte_of_Z_of_byte.
Qed.

Lemma hex_inj a b : hex a = hex b → a = b.
Proof. intros E. apply (inj Some). rewrite <-!unhex_hex. by rewrite E. Qed.

Lemma len_hex b : len (hex b) = 2 * len b.
Proof.
  induction b as [|x b IH]; [done|].
  change (hex (x :: b)) with (hex_digit (Z_of_byte x / 16) :: hex_digit (Z_of_byte x mod 16) :: hex b).
  rewrite !len_cons, IH. lia.
Qed.

Lemma hex_is_hex b : forallb is_hex (hex b) = true.
Proof.
  induction b as [|x b IH]; [done|].
  change (hex (x :: b)) with (hex_digit (Z_of_byte x / 16) :: hex_digit (Z_of_byte x mod 16) :: hex b).
  cbn [forallb]. rewrite IH, andb_true_r. pose proof (Z_of_byte_bound x).
  assert (∀ z, 0 <= z < 16 → is_hex (hex_digit z) = true) as H16.
  { intros z Hz. unfold is_hex, hex_digit. destruct (z <? 10) eqn:E; zb.
    - replace (48 <=? 48 + z) with true by lia. by replace (48 + z <=? 57) with true by lia.
    - replace (97 <=? 87 + z) with true by lia. replace (87 + z <=? 102) with true by lia.
      apply orb_true_r. }
  rewrite !H16; [done|..].
  - apply Z.mod_pos_bound. lia.
  - split; [apply Z.div_pos; lia|apply Z.div_lt_upper_bound; lia].
Qed.

(** ** Base 64 *)

Definition b64_char (z : Z) : Z :=
  if z <? 26 then 65 + z else if z <? 52 then 71 + z else if z <? 62 then z - 4
  else if z =? 62 then 43 else 47.
Fixpoint b64encode (b : bytes) : pystr :=
  match b with
  | [] => []
  | [x] => let n := Z_of_byte x in [b64_char (n / 4); b64_char (n mod 4 * 16); 61; 61]
  | [x; y] =>
      let n := Z_of_byte x * 256 + Z_of_byte y in
      [b64_char (n / 1024); b64_char (n / 16 mod 64); b64_char (n mod 16 * 4); 61]
  | x :: y :: z :: b' =>
      let n := (Z_of_byte x * 256 + Z_of_byte y) * 256 + Z_of_byte z in
      b64_char (n / 262144) :: b64_char (n / 4096 mod 64) :: b64_char (n / 64 mod 64)
        :: b64_char (n mod 64) :: b64encode b'
  end.

(** ** [json.dumps] *)

Definition json_char (c : Z) : pystr :=
  if c =? 34 then [92; 34]
  else if c =? 92 then [92; 92]
  else if c =? 10 then [92; 110]
  else if c =? 13 then [92; 114]
  else if c =? 9 then [92; 116]
  else if c =? 8 then [92; 98]
  else if c =? 12 then [92; 102]
  else if c <? 32 then [92; 117; 48; 48; hex_digit (c / 16); hex_digit (c mod 16)]
  else [c].
Definition json_string (s : pystr) : pystr := 34 :: (s ≫= json_char) ++ [34].

Fixpoint join (sep : Z) (l : list pystr) : pystr :=
  match l with
  | [] => []
  | [x] => x
  | x :: l' => x ++ sep :: join sep l'
  end.

(** [sort_keys]: the entries in the order of their string keys. *)
Definition item_le {A} (a b : pystr * A) : Prop := str_le a.1 b.1.
#[export] Instance item_le_dec {A} : RelDecision (@item_le A).
Proof. intros a b. unfold item_le. apply _. Defined.

(** The texts of the entries; [None] for a key that is no [str] (the code's dicts have
    string keys). *)
Definition json_entry (kt : pykey * option pystr) : option (pystr * pystr) :=
  match kt with (KStr k, Some t) => Some (k, json_string k ++ 58 :: t) | _ => None end.

Fixpoint json_dumps (v : value) : option pystr :=
  match v with
  | VNone => Some (str "null")
  | VBool true => Some (str "true")
  | VBool false => Some (str "false")
  | VInt z => Some (dec z)
  | VStr s => Some (json_string s)
  | VList l =>
      ts ← mapM id ((fix go l := match l with [] => [] | x :: l' => json_dumps x :: go l' end) l);
      Some (91 :: join 44 ts ++ [93])
  | VDict d =>
      es ← mapM json_entry
        ((fix go d := match d with [] => [] | kv :: d' => (kv.1, json_dumps kv.2) :: go d' end) d);
      Some (123 :: join 44 (merge_sort item_le es).*2 ++ [125])
  | VBytes _ | VOther _ => None
  end.

(** [None]: [TypeError], [ValueError] or [UnicodeError]. *)
Definition json_bytes (v : value) : option bytes := json_dumps v ≫= utf8_encode.

(** ** Dicts with string keys *)

Fixpoint dict_sget (d : list (pykey * value)) (k : pystr) : option value :=
  match d with
  | [] => None
  | (KStr k', v) :: d' => if bool_decide (k = k') then Some v else dict_sget d' k
  | _ :: d' => dict_sget d' k
  end.

(** [v['k']] *)
Definition sitem (v : value) (k : string) : result value :=
  match v with
  | VDict d => of_option KeyError (dict_sget d (str k))
  | _ => Err TypeError
  end.

(** [a == b] on Python objects: dicts up to order, [True == 1], [False == 0]. *)
Definition as_number (v : value) : option Z :=
  match v with VInt z => Some z | VBool b => Some (if b then 1 else 0) | _ => None end.
Definition key_number (k : pykey) : option Z :=
  match k with KInt z => Some z | KBool b => Some (if b then 1 else 0) | _ => None end.
Definition key_eq (a b : pykey) : bool :=
  match key_number a, key_number b with
  | Some x, Some y => x =? y
  | _, _ => bool_decide (a = b)
  end.

Fixpoint py_eq (a b : value) : bool :=
  match a, b with
  | VList l, VList k =>
      (fix go (l k : list value) : bool :=
         match l, k with
         | [], [] => true
         | x :: l', y :: k' => py_eq x y && go l' k'
         | _, _ => false
         end) l k
  | VDict d, VDict e =>
      (len d =? len e)
      && (fix go (d : list (pykey * value)) : bool :=
            match d with
            | [] => true
            | (k, x) :: d' =>
                match List.find (λ ky, key_eq k ky.1) e with
                | Some ky => py_eq x ky.2
                | None => false
                end && go d'
            end) d
  | _, _ =>
      match as_number a, as_number b with
      | Some x, Some y => x =? y
      | _, _ => bool_decide (a = b)
      end
  end.

(** [set(v) == {keys}] on a dict. *)
Definition str_keys (keys : list string) (d : list (pykey * value)) : bool :=
  forallb (λ k, bool_decide (KStr (str k) ∈ d.*1)) keys
  && forallb (λ kv, bool_decide (kv.1 ∈ (λ k, KStr (str k)) <$> keys)) d.

Definition sdict (kvs : list (string * value)) : value :=
  VDict ((λ kv, (KStr (str kv.1), kv.2)) <$> kvs).

Example json_sample :
  json_dumps (sdict [("b"%string, VList [VInt (-7); VNone; VBool true]); ("a"%string, VStr [233; 10])])
  = Some ([123; 34; 97; 34; 58; 34; 233; 92; 110; 34; 44; 34; 98; 34; 58; 91; 45; 55; 44]
          ++ str "null,true]}").
Proof. vm_compute. reflexivity. Qed.

(** ** Reflexivity of [==] *)

Definition atom (v : value) : bool := match v with VList _ | VDict _ => false | _ => true end.
Lemma py_eq_atom v : atom v = true → py_eq v v = true.
Proof.
  destruct v; try done; intros _; cbn.
  - apply Z.eqb_refl.
  - apply Z.eqb_refl.
  - by apply bool_decide_eq_true.
  - by apply bool_decide_eq_true.
  - by apply bool_decide_eq_true.
Qed.

Lemma key_eq_str a b : key_eq (KStr a) (KStr b) = bool_decide (a = b).
Proof. unfold key_eq. cbn. apply bool_decide_ext. naive_solver. Qed.

Lemma find_key (d : list (pystr * value)) k v :
  NoDup d.*1 → (k, v) ∈ d →
  List.find (λ ky, key_eq (KStr k) ky.1) ((λ kv, (KStr kv.1, kv.2)) <$> d) = Some (KStr k, v).
Proof.
  induction d as [|[k' v'] d IH]; [by intros _ ?%not_elem_of_nil|].
  cbn [fmap list_fmap List.find fst snd]. intros [Hk Hn]%NoDup_cons. rewrite key_eq_str.
  intros [[= -> ->]|Hin]%elem_of_cons; [by rewrite bool_decide_true|].
  rewrite bool_decide_false; [by apply IH|]. intros ->. apply Hk. apply list_elem_of_fmap. by exists (k', v).
Qed.

(** A dict with distinct string keys equals itself when its values do. *)
Lemma py_eq_str_dict (d : list (pystr * value)) :
  NoDup d.*1 → Forall (λ kv, py_eq kv.2 kv.2 = true) d →
  py_eq (VDict ((λ kv, (KStr kv.1, kv.2)) <$> d)) (VDict ((λ kv, (KStr kv.1, kv.2)) <$> d)) = true.
Proof.
  intros Hn Hf. cbn [py_eq]. rewrite Z.eqb_refl. cbn [andb].
  assert (∀ kv, kv ∈ d → List.find (λ ky, key_eq (KStr kv.1) ky.1) ((λ kv, (KStr kv.1, kv.2)) <$> d)
            = Some (KStr kv.1, kv.2)) as Hfind.
  { intros [k v] Hin. by apply find_key. }
  revert Hfind. generalize ((λ kv : pystr * value, (KStr kv.1, kv.2)) <$> d) at 1 2 as e. intros e He.
  revert He. clear Hn. induction Hf as [|[k v] d Hv Hf IH]; [done|].
  intros He. pose proof (He (k, v) ltac:(by left)) as Hk. cbn in Hk, Hv |- *. rewrite Hk. cbn. rewrite Hv. apply IH.
  intros kv Hkv. apply He. by right.
Qed.

Lemma py_eq_sdict kvs :
  bool_decide (NoDup ((λ kv : string * value, str kv.1) <$> kvs)) = true →
  Forall (λ kv, py_eq kv.2 kv.2 = true) kvs → py_eq (sdict kvs) (sdict kvs) = true.
Proof.
  intros Hn%bool_decide_eq_true Hf. pose proof (py_eq_str_dict ((λ kv, (str kv.1, kv.2)) <$> kvs)) as H.
  rewrite <-!list_fmap_compose in H. apply H; [exact Hn|]. by apply Forall_fmap.
Qed.
