(* ===== verification/Clock.v ===== *)
(** * Python numbers used as time

    The code reads the time as a Python [int] or [float] and only tests it for
    finiteness, compares it, adds to it and subtracts from it.  A [Clock] is such a
    numeric type; [ClockLaws] is what the theorems need of its order.  Python [int]s
    are the instance at [Z]. *)

From S2P Require Import Prelude.
Local Open Scope Z_scope.

Class Clock (T : Type) := {
  clk_finite : T → bool;
  clk_ltb : T → T → bool;
  clk_leb : T → T → bool;
  clk_add : T → T → T;
  clk_sub : T → T → T;
}.

Class ClockLaws (T : Type) `{Clock T} := {
  clk_ltb_irrefl a : clk_ltb a a = false;
  clk_ltb_trans a b c : clk_ltb a b = true → clk_ltb b c = true → clk_ltb a c = true;
  clk_ltb_cotrans a b c :
    clk_finite c = true → clk_ltb a b = true → clk_ltb a c = true ∨ clk_ltb c b = true;
  clk_leb_ltb a b :
    clk_finite a = true → clk_finite b = true → clk_leb a b = negb (clk_ltb b a);
}.

#[export] Instance Z_clock : Clock Z := {
  clk_finite _ := true;
  clk_ltb := Z.ltb;
  clk_leb := Z.leb;
  clk_add := Z.add;
  clk_sub := Z.sub;
}.

#[export] Instance Z_clock_laws : ClockLaws Z.
Proof. split; intros; cbn in *; lia. Qed.
