(* ===== verification/Hash.v ===== *)
(** * Hash functions

    The code calls [hashlib.sha256] and [hmac.digest].  Theorems are stated for any
    function with SHA-256's output length (class [Hash]); [sha256_hash] is the FIPS
    180-4 function itself, on 32-bit words kept as [Z]. *)

From S2P Require Import Prelude Bytes.
Local Open Scope Z_scope.

Class Hash := {
  sha256 : bytes → bytes;
  sha256_len b : len (sha256 b) = 32;
}.

(** ** HMAC over a hash with 64-byte blocks ([hmac.digest(key, msg, 'sha256')]) *)

Definition xor_pad (pad : Z) (key : bytes) : bytes :=
  (λ b, byte_of_Z (Z.lxor (Z_of_byte b) pad)) <$> key.

Definition hmac_key `{Hash} (key : bytes) : bytes :=
  let k := if 64 <? len key then sha256 key else key in
  k ++ repeat x00 (64 - length k).

Definition hmac `{Hash} (key msg : bytes) : bytes :=
  let k := hmac_key key in
  sha256 (xor_pad 0x5c k ++ sha256 (xor_pad 0x36 k ++ msg)).

Lemma hmac_len `{Hash} key msg : len (hmac key msg) = 32.
Proof. apply sha256_len. Qed.

(** ** SHA-256 *)

Definition W32 : Z := 4294967296.
Definition add32 (a b : Z) : Z := (a + b) mod W32.
Definition rotr (n x : Z) : Z := Z.lor (Z.shiftr x n) (Z.shiftl x (32 - n) mod W32).

Definition ch (x y z : Z) : Z := Z.lxor (Z.land x y) (Z.land (W32 - 1 - x) z).
Definition maj (x y z : Z) : Z := Z.lxor (Z.land x y) (Z.lxor (Z.land x z) (Z.land y z)).
Definition big_sigma0 (x : Z) : Z := Z.lxor (rotr 2 x) (Z.lxor (rotr 13 x) (rotr 22 x)).
Definition big_sigma1 (x : Z) : Z := Z.lxor (rotr 6 x) (Z.lxor (rotr 11 x) (rotr 25 x)).
Definition small_sigma0 (x : Z) : Z := Z.lxor (rotr 7 x) (Z.lxor (rotr 18 x) (Z.shiftr x 3)).
Definition small_sigma1 (x : Z) : Z := Z.lxor (rotr 17 x) (Z.lxor (rotr 19 x) (Z.shiftr x 10)).

(** The constants are the first 32 bits of the fractional parts of roots of the primes. *)
Definition is_prime (n : Z) : bool :=
  forallb (λ d, negb (n mod Z.of_nat d =? 0)) (seq 2 (Z.to_nat (Z.sqrt n) - 1)).
Definition primes (n : nat) : list Z :=
  firstn n (List.filter is_prime (Z.of_nat <$> seq 2 (8 * n))).

(** The integer cube root below [2 ^ bits], one bit at a time. *)
Fixpoint cube_root (bits : nat) (n r : Z) : Z :=
  match bits with
  | O => r
  | S b => let r' := r + 2 ^ Z.of_nat b in cube_root b n (if r' ^ 3 <=? n then r' else r)
  end.

Definition round_constants : list Z :=
  Eval vm_compute in (λ p, cube_root 36 (p * 2 ^ 96) 0 mod W32) <$> primes 64.
Definition initial_state : list Z :=
  Eval vm_compute in (λ p, Z.sqrt (p * 2 ^ 64) mod W32) <$> primes 8.

(** Padding: a one bit, zeros, the bit length on 8 bytes. *)
Definition sha_pad (m : bytes) : bytes :=
  let l := len m in
  m ++ byte_of_Z 0x80 :: repeat x00 (Z.to_nat ((55 - l) mod 64)) ++ to_bytes_big 8 (8 * l).

Fixpoint words (m : bytes) : list Z :=
  match m with
  | a :: b :: c :: d :: m' => from_bytes_big [a; b; c; d] :: words m'
  | _ => []
  end.

(** The message schedule, newest word first: [n] more words. *)
Fixpoint schedule (n : nat) (w : list Z) : list Z :=
  match n with
  | O => w
  | S n' =>
      let word := add32 (add32 (small_sigma1 (nth 1 w 0)) (nth 6 w 0))
                    (add32 (small_sigma0 (nth 14 w 0)) (nth 15 w 0)) in
      schedule n' (word :: w)
  end.

Definition sha_round (s : list Z) (kw : Z * Z) : list Z :=
  match s with
  | [a; b; c; d; e; f; g; h] =>
      let t1 := add32 (add32 h (big_sigma1 e)) (add32 (ch e f g) (add32 kw.1 kw.2)) in
      let t2 := add32 (big_sigma0 a) (maj a b c) in
      [add32 t1 t2; a; b; c; add32 d t1; e; f; g]
  | _ => s
  end.

Definition compress (s block : list Z) : list Z :=
  zip_with add32 s
    (fold_left sha_round (zip round_constants (rev (schedule 48 (rev block)))) s).

Fixpoint sha_blocks (fuel : nat) (s ws : list Z) : list Z :=
  match fuel, ws with
  | S f, _ :: _ => sha_blocks f (compress s (firstn 16 ws)) (skipn 16 ws)
  | _, _ => s
  end.

(** The digest; the final [take]/[zip] shape makes its length evident. *)
Definition sha256_digest (m : bytes) : bytes :=
  let ws := words (sha_pad m) in
  let s := sha_blocks (length ws) initial_state ws in
  concat ((λ i, to_bytes_big 4 (nth i s 0)) <$> [0; 1; 2; 3; 4; 5; 6; 7]%nat).

Lemma sha256_digest_len m : len (sha256_digest m) = 32.
Proof.
  unfold sha256_digest. generalize (sha_blocks (length (words (sha_pad m))) initial_state (words (sha_pad m))).
  intros s. cbn [fmap list_fmap concat]. rewrite !len_app, !len_to_bytes_big. reflexivity.
Qed.

#[export] Instance sha256_hash : Hash :=
  {| sha256 := sha256_digest; sha256_len := sha256_digest_len |}.

(** The test vectors of FIPS 180-4 and RFC 4231. *)
Example sha256_abc : from_bytes_big (sha256 (raw [97; 98; 99])) =
  0xba7816bf8f01cfea414140de5dae2223b00361a396177a9cb410ff61f20015ad.
Proof. vm_compute. reflexivity. Qed.

Example hmac_case1 : from_bytes_big (hmac (repeat x0b 20) (raw [72; 105; 32; 84; 104; 101; 114; 101])) =
  0xb0344c61d8db38535ca8afceaf0bf12b881dc200c9833da726e9376c2e32cff7.
Proof. vm_compute. reflexivity. Qed.
