(* ===== verification/Sodium.v ===== *)
(** * The cryptographic provider (experiments/g0-crypto/par_crypto/provider.py)

    libsodium is the parameter: class [Sodium] has one operation per C function the
    provider binds, [None] standing for a non-zero return code, and [SodiumLaws] is
    libsodium's documented behaviour the theorems use: output lengths, a signature
    verifies, decryption undoes encryption, Diffie-Hellman commutes.  No secrecy or
    unforgeability is assumed.  The methods of [SodiumProvider] with their Python
    checks are definitions. *)

From S2P Require Import Prelude Bytes.
Local Open Scope Z_scope.

Definition crypto (code : string) : exn := CryptoError code.

Definition MAX_INPUT : Z := 1048576.

Definition fixed (b : bytes) (size : Z) : result unit :=
  require (len b =? size) (crypto "INVALID_INPUT").

Definition bounded (b : bytes) (limit minimum : Z) : result unit :=
  require ((minimum <=? len b) && (len b <=? limit)) (crypto "INVALID_INPUT").

Class Sodium := {
  sodium_keypair : bytes → option bytes;                       (* seed to public key *)
  sodium_sign : bytes → bytes → option bytes;                  (* seed, message *)
  sodium_verify : bytes → bytes → bytes → bool;                (* signature, message, key *)
  sodium_base : bytes → option bytes;
  sodium_scalarmult : bytes → bytes → option bytes;
  sodium_encrypt : bool → bytes → bytes → bytes → bytes → option bytes; (* ietf key nonce aad *)
  sodium_decrypt : bool → bytes → bytes → bytes → bytes → option bytes;
}.

Definition from_bytes_little (b : bytes) : Z := from_bytes_big (rev b).

(** The order of the Ed25519 group. *)
Definition L : Z := 2 ^ 252 + 27742317777372353535851937790883648493.

Class SodiumLaws `{Sodium} := {
  keypair_len seed pk : sodium_keypair seed = Some pk → len pk = 32;
  base_len secret pk : sodium_base secret = Some pk → len pk = 32;
  sign_len seed m s : sodium_sign seed m = Some s → len s = 64 ∧ from_bytes_little (drop 32 s) < L;
  sign_verifies seed pk m s :
    sodium_keypair seed = Some pk → sodium_sign seed m = Some s → sodium_verify s m pk = true;
  encrypt_len ietf k n a m c : sodium_encrypt ietf k n a m = Some c → len c = len m + 16;
  decrypt_encrypt ietf k n a m c :
    sodium_encrypt ietf k n a m = Some c → sodium_decrypt ietf k n a c = Some m;
  dh_commutes a b pa pb s :
    sodium_base a = Some pa → sodium_base b = Some pb →
    sodium_scalarmult a pb = Some s → sodium_scalarmult b pa = Some s;
}.

Section Provider.
Context `{Sodium}.

Definition sign_public (seed : bytes) : result bytes :=
  _ ← fixed seed 32; of_option (crypto "PROVIDER_FAILURE") (sodium_keypair seed).

Definition sign (seed message : bytes) : result bytes :=
  _ ← fixed seed 32; _ ← bounded message MAX_INPUT 0;
  _ ← of_option (crypto "PROVIDER_FAILURE") (sodium_keypair seed);
  of_option (crypto "PROVIDER_FAILURE") (sodium_sign seed message).

Definition verify (public_key message signature : bytes) : result unit :=
  _ ← fixed public_key 32; _ ← fixed signature 64; _ ← bounded message MAX_INPUT 0;
  if L <=? from_bytes_little (drop 32 signature) then Err (crypto "SIGNATURE_INVALID")
  else require (sodium_verify signature message public_key) (crypto "SIGNATURE_INVALID").

Definition dh_public (secret : bytes) : result bytes :=
  _ ← fixed secret 32; of_option (crypto "KEM_INVALID") (sodium_base secret).

Definition dh (secret public_key : bytes) : result bytes :=
  _ ← fixed secret 32; _ ← fixed public_key 32;
  of_option (crypto "KEM_INVALID") (sodium_scalarmult secret public_key).

Definition crypt (decrypt ietf : bool) (key nonce aad data : bytes) : result bytes :=
  _ ← fixed key 32; _ ← fixed nonce (if ietf then 12 else 24); _ ← bounded aad MAX_INPUT 0;
  _ ← bounded data MAX_INPUT (if decrypt then 16 else 0);
  let out_size := if decrypt then len data - 16 else len data + 16 in
  out ← (if decrypt
         then of_option (crypto "AEAD_INVALID") (sodium_decrypt ietf key nonce aad data)
         else of_option (crypto "PROVIDER_FAILURE") (sodium_encrypt ietf key nonce aad data));
  _ ← require (len out =? out_size) (crypto "PROVIDER_FAILURE");
  Ok out.

Definition seal : bytes → bytes → bytes → bytes → result bytes := crypt false false.
Definition open : bytes → bytes → bytes → bytes → result bytes := crypt true false.
Definition seal_ietf : bytes → bytes → bytes → bytes → result bytes := crypt false true.
Definition open_ietf : bytes → bytes → bytes → bytes → result bytes := crypt true true.
End Provider.

(** ** What the checks give *)

Lemma fixed_Ok b n : fixed b n = Ok tt ↔ len b = n.
Proof. unfold fixed. by rewrite require_Ok, Z.eqb_eq. Qed.

Lemma bounded_Ok b l m : bounded b l m = Ok tt ↔ m <= len b <= l.
Proof. unfold bounded. by rewrite require_Ok, andb_true_iff, !Z.leb_le. Qed.

Lemma of_option_Ok {A} e (o : option A) a : of_option e o = Ok a ↔ o = Some a.
Proof. destruct o; cbn; naive_solver. Qed.

Section ProviderLaws.
Context `{SodiumLaws}.

Lemma sign_public_Ok seed pk :
  sign_public seed = Ok pk ↔ len seed = 32 ∧ sodium_keypair seed = Some pk.
Proof.
  unfold sign_public. rewrite bind_Ok. split.
  - by intros ([] & ?%fixed_Ok & ?%of_option_Ok).
  - intros [Hs Hk]. exists tt. by rewrite fixed_Ok, of_option_Ok.
Qed.

Lemma sign_Ok seed m s :
  sign seed m = Ok s →
  len seed = 32 ∧ len m <= MAX_INPUT ∧ len s = 64 ∧ ∃ pk, sign_public seed = Ok pk ∧
    verify pk m s = Ok tt.
Proof.
  unfold sign. intros ([] & Hs & ([] & Hm & (pk & Hpk & Hsig)%bind_Ok)%bind_Ok)%bind_Ok.
  apply fixed_Ok in Hs. apply of_option_Ok in Hpk, Hsig. pose proof Hm as Hm'%bounded_Ok.
  destruct (sign_len _ _ _ Hsig) as [Hl Hlt]. split_and!; [done|lia|done|].
  exists pk. split; [by apply sign_public_Ok|].
  unfold verify. rewrite (proj2 (fixed_Ok _ _) (keypair_len _ _ Hpk)), (proj2 (fixed_Ok _ _) Hl), Hm.
  cbn [mbind result_bind]. rewrite (proj2 (Z.leb_gt _ _) Hlt).
  by rewrite (sign_verifies _ _ _ _ Hpk Hsig).
Qed.

Lemma verify_inputs pk m s : verify pk m s = Ok tt → len pk = 32 ∧ len s = 64 ∧ len m <= MAX_INPUT
  ∧ sodium_verify s m pk = true.
Proof.
  unfold verify. intros ([] & ?%fixed_Ok & ([] & ?%fixed_Ok & ([] & ?%bounded_Ok & Hv)%bind_Ok)%bind_Ok)%bind_Ok.
  case_match; [done|]. apply require_Ok in Hv. split_and!; try done; lia.
Qed.

Lemma open_seal ietf key nonce aad m c :
  crypt false ietf key nonce aad m = Ok c → len m <= MAX_INPUT - 16 →
  crypt true ietf key nonce aad c = Ok m ∧ len c = len m + 16.
Proof.
  unfold crypt. intros ([] & Hk & ([] & Hn & ([] & Ha & ([] & Hm & Hc)%bind_Ok)%bind_Ok)%bind_Ok)%bind_Ok Hl.
  apply bind_Ok in Hc as (out & Hout & ([] & Hlen%require_Ok & [= ->])%bind_Ok).
  apply of_option_Ok in Hout. zb. rewrite Hk, Hn, Ha. cbn [mbind result_bind].
  assert (bounded c MAX_INPUT 16 = Ok tt) as -> by (apply bounded_Ok; len_lia).
  cbn [mbind result_bind]. rewrite (decrypt_encrypt _ _ _ _ _ _ Hout). cbn [of_option mbind result_bind].
  rewrite (proj2 (Z.eqb_eq _ _)) by lia. by split.
Qed.
End ProviderLaws.
