(* ===== verification/Toy.v ===== *)
(** * A concrete hash and provider for the witnesses

    A polynomial hash stands for SHA-256, whose definition in Hash is too slow for long
    inputs under the independent checker.
    Deterministic functions that satisfy [SodiumLaws]: a public key is its padded seed, a
    signature a digest under it, the shared secret an exclusive or, encryption appends a
    constant tag.  They have no security; they show that the laws are consistent and let
    the witnesses run. *)

From S2P Require Import Prelude Bytes Value Hash Sodium.
Local Open Scope Z_scope.

Definition toy_hash_step (h : Z) (b : byte) : Z := Z.land (h * 37 + Z_of_byte b + 1) (Z.ones 48).

#[export] Instance toy_hash : Hash := {
  sha256 b := to_bytes_big 32 (fold_left toy_hash_step b 7);
  sha256_len b := len_to_bytes_big 32 _;
}.

Definition zeros (n : nat) : bytes := replicate n (byte_of_Z 0).
Definition pad32 (b : bytes) : bytes := take 32 (b ++ zeros 32).

Lemma pad32_len b : len (pad32 b) = 32.
Proof.
  unfold pad32, len. rewrite length_take, length_app. unfold zeros. rewrite length_replicate. lia.
Qed.

Lemma pad32_id b : len b = 32 → pad32 b = b.
Proof. intros H. unfold pad32. rewrite take_app_length'; [done|]. unfold len in H. lia. Qed.

Definition toy_mac (pk m : bytes) : bytes := sha256 (pk ++ m) ++ zeros 32.

Lemma toy_mac_range pk m :
  len (toy_mac pk m) = 64 ∧ from_bytes_little (drop 32 (toy_mac pk m)) < L.
Proof.
  assert (length (sha256 (pk ++ m)) = 32%nat) as Hl.
  { pose proof (sha256_len (pk ++ m)) as H. unfold len in H. lia. }
  unfold toy_mac. split; [unfold len; rewrite length_app, Hl; done|].
  rewrite drop_app_length' by done. vm_compute. done.
Qed.

Definition xor_byte (a b : byte) : byte := byte_of_Z (Z.lxor (Z_of_byte a) (Z_of_byte b)).

#[export] Instance toy_sodium : Sodium := {
  sodium_keypair seed := Some (pad32 seed);
  sodium_sign seed m := Some (toy_mac (pad32 seed) m);
  sodium_verify s m pk := bool_decide (s = toy_mac pk m);
  sodium_base secret := Some (pad32 secret);
  sodium_scalarmult a pb := Some (zip_with xor_byte (pad32 a) (pad32 pb));
  sodium_encrypt _ _ _ _ m := Some (m ++ zeros 16);
  sodium_decrypt _ _ _ _ c := Some (take (length c - 16) c);
}.

#[export] Instance toy_laws : SodiumLaws.
Proof.
  split.
  - intros seed pk E. injection E as <-. apply pad32_len.
  - intros secret pk E. injection E as <-. apply pad32_len.
  - intros seed m s E. assert (s = toy_mac (pad32 seed) m) as -> by by injection E.
    apply toy_mac_range.
  - intros seed pk m s E1 E2. assert (pk = pad32 seed) as -> by by injection E1.
    assert (s = toy_mac (pad32 seed) m) as -> by by injection E2. by apply bool_decide_eq_true.
  - intros ietf k n a m c E. assert (c = m ++ zeros 16) as -> by by injection E. by rewrite len_app.
  - intros ietf k n a m c E. assert (c = m ++ zeros 16) as -> by by injection E.
    change (Some (take (length (m ++ zeros 16) - 16) (m ++ zeros 16)) = Some m). f_equal.
    rewrite length_app.
    replace (length m + length (zeros 16) - 16)%nat with (length m)
      by (unfold zeros; rewrite length_replicate; lia).
    apply take_app_length.
  - intros a b pa pb s E1 E2 E3.
    assert (pa = pad32 a) as -> by by injection E1. assert (pb = pad32 b) as -> by by injection E2.
    assert (s = zip_with xor_byte (pad32 a) (pad32 (pad32 b))) as -> by by injection E3.
    change (Some (zip_with xor_byte (pad32 b) (pad32 (pad32 a)))
            = Some (zip_with xor_byte (pad32 a) (pad32 (pad32 b)))). f_equal.
    rewrite !(pad32_id (pad32 _)) by apply pad32_len.
    rewrite <-zip_with_flip. apply zip_with_ext; [|done|done].
    intros x y. unfold flip, xor_byte. by rewrite Z.lxor_comm.
Qed.
