(* ===== verification/Primitives.v ===== *)
(** * Domains, key derivation and HPKE
    (experiments/g0-crypto/par_crypto/primitives.py and hpke.py)

    The source of randomness ([os.urandom] or the injected function) is the argument
    [random] of the operations that draw from it. *)

From S2P Require Import Prelude Bytes Value Codec Hash Sodium.
Local Open Scope Z_scope.

Definition random_bytes (random : Z → option bytes) (size : Z) : result bytes :=
  if negb ((1 <=? size) && (size <=? 1024)) then Err (crypto "INVALID_INPUT")
  else
    b ← of_option (crypto "RNG_FAILURE") (random size);
    _ ← require (len b =? size) (crypto "RNG_FAILURE");
    Ok b.

(** ** Labels: [[a-z][a-z0-9/-]{0,63}] and [[a-z0-9][a-z0-9.-]{0,127}] *)

Definition lower (c : Z) : bool := (97 <=? c) && (c <=? 122).
Definition digit (c : Z) : bool := (48 <=? c) && (c <=? 57).

Definition label_ok (label : pystr) : bool :=
  match label with
  | [] => false
  | c :: cs =>
      lower c && forallb (λ c, lower c || digit c || (c =? 47) || (c =? 45)) cs
      && (len cs <=? 63)
  end.

Definition key_app_ok (app : pystr) : bool :=
  match app with
  | [] => false
  | c :: cs =>
      (lower c || digit c)
      && forallb (λ c, lower c || digit c || (c =? 46) || (c =? 45)) cs && (len cs <=? 127)
  end.

Definition domain (label : string) (parts : list value) : result bytes :=
  if negb (label_ok (str label)) then Err (crypto "INVALID_INPUT")
  else catch_wire (crypto "INVALID_INPUT")
         (encode (VList [VStr (str "PAR"); VInt 1; VStr (str label); VList parts])).

Section Derivation.
Context `{Hash}.

Definition hkdf_extract (salt ikm : bytes) : result bytes :=
  _ ← bounded salt MAX_INPUT 0; _ ← bounded ikm MAX_INPUT 0;
  Ok (hmac (if len salt =? 0 then repeat x00 32 else salt) ikm).

(** The loop of [hkdf_expand]: [n] blocks from index [i]. *)
Fixpoint expand_blocks (n : nat) (prk info last : bytes) (i : Z) : bytes :=
  match n with
  | O => []
  | S n' =>
      let block := hmac prk (last ++ info ++ [byte_of_Z i]) in
      block ++ expand_blocks n' prk info block (i + 1)
  end.

Definition hkdf_expand (prk info : bytes) (length : Z) : result bytes :=
  _ ← fixed prk 32; _ ← bounded info MAX_INPUT 0;
  if negb ((0 <=? length) && (length <=? 255 * 32)) then Err (crypto "INVALID_INPUT")
  else Ok (take (Z.to_nat length)
             (expand_blocks (Z.to_nat ((length + 31) / 32)) prk info [] 1)).

Definition hashed (label : string) (parts : list value) : result bytes :=
  d ← domain label parts; Ok (sha256 d).

Definition object_key (epoch_secret : bytes) (app_id : pystr) (space_id : bytes) (epoch kind : Z)
    (object_id : bytes) (key_generation : Z) : result bytes :=
  _ ← fixed epoch_secret 32; _ ← fixed space_id 32; _ ← fixed object_id 32;
  _ ← require (key_app_ok app_id) (crypto "INVALID_INPUT");
  _ ← require ((0 <=? epoch) && (epoch <? 2 ^ 64) && (0 <=? key_generation)
               && (key_generation <? 2 ^ 64)) (crypto "INVALID_INPUT");
  _ ← require ((1 <=? kind) && (kind <=? 7)) (crypto "INVALID_INPUT");
  salt ← hashed "epoch-salt" [VStr app_id; VBytes space_id; VInt epoch];
  prk ← hkdf_extract salt epoch_secret;
  info ← domain "object-key" [VInt kind; VBytes object_id; VInt key_generation];
  hkdf_expand prk info 32.

(** ** HPKE, base mode, single shot *)

Definition ascii (s : string) : bytes := raw (str s).

Definition KEM : bytes := ascii "KEM" ++ raw [0; 0x20].
Definition SUITE : bytes := ascii "HPKE" ++ raw [0; 0x20; 0; 1; 0; 3].

Definition extract (suite salt label ikm : bytes) : result bytes :=
  hkdf_extract salt (ascii "HPKE-v1" ++ suite ++ label ++ ikm).

Definition expand (suite prk label info : bytes) (size : Z) : result bytes :=
  hkdf_expand prk (to_bytes_big 2 size ++ ascii "HPKE-v1" ++ suite ++ label ++ info) size.

Context `{Sodium}.

Definition derive_keypair (ikm : bytes) : result (bytes * bytes) :=
  _ ← bounded ikm 1024 32;
  prk ← extract KEM [] (ascii "dkp_prk") ikm;
  sk ← expand KEM prk (ascii "sk") [] 32;
  pk ← dh_public sk;
  Ok (sk, pk).

Definition shared_secret (dh_ : bytes) (context : bytes) : result bytes :=
  prk ← extract KEM [] (ascii "eae_prk") dh_;
  expand KEM prk (ascii "shared_secret") context 32.

(** [_schedule]: the AEAD key and base nonce. *)
Definition key_schedule (shared info : bytes) : result (bytes * bytes) :=
  _ ← fixed shared 32; _ ← bounded info 65536 0;
  psk_id ← extract SUITE [] (ascii "psk_id_hash") [];
  info_hash ← extract SUITE [] (ascii "info_hash") info;
  let context := x00 :: psk_id ++ info_hash in
  secret ← extract SUITE shared (ascii "secret") [];
  key ← expand SUITE secret (ascii "key") context 32;
  nonce ← expand SUITE secret (ascii "base_nonce") context 12;
  Ok (key, nonce).

Definition hpke_seal (random : Z → option bytes) (recipient_public info aad plaintext : bytes)
    : result (bytes * bytes) :=
  _ ← fixed recipient_public 32; _ ← bounded info 65536 0; _ ← bounded aad 65536 0;
  _ ← bounded plaintext 4080 0;
  ikm ← random_bytes random 32;
  '(sk, enc) ← derive_keypair ikm;
  z ← dh sk recipient_public;
  shared ← shared_secret z (enc ++ recipient_public);
  '(key, nonce) ← key_schedule shared info;
  ct ← seal_ietf key nonce aad plaintext;
  Ok (enc, ct).

Definition hpke_open (recipient_secret enc info aad ciphertext : bytes) : result bytes :=
  _ ← fixed recipient_secret 32; _ ← fixed enc 32; _ ← bounded info 65536 0;
  _ ← bounded aad 65536 0; _ ← bounded ciphertext 4096 16;
  recipient_public ← dh_public recipient_secret;
  z ← dh recipient_secret enc;
  shared ← shared_secret z (enc ++ recipient_public);
  '(key, nonce) ← key_schedule shared info;
  open_ietf key nonce aad ciphertext.
End Derivation.

(** ** Lemmas *)

#[local] Opaque encode.

Lemma domain_Ok label parts d :
  domain label parts = Ok d →
  encode (VList [VStr (str "PAR"); VInt 1; VStr (str label); VList parts]) = Ok d.
Proof.
  unfold domain, catch_wire. case_match; [done|]. by destruct (encode _) as [|[]].
Qed.

Section Lengths.
Context `{Hash}.

Lemma hashed_Ok label parts h :
  hashed label parts = Ok h → ∃ d, domain label parts = Ok d ∧ h = sha256 d.
Proof. unfold hashed. intros (d & Hd & [= <-])%bind_Ok. eauto. Qed.

Lemma hashed_len label parts h : hashed label parts = Ok h → len h = 32.
Proof. intros (d & _ & ->)%hashed_Ok. apply sha256_len. Qed.

Lemma expand_blocks_len n prk info last i : len (expand_blocks n prk info last i) = 32 * Z.of_nat n.
Proof.
  revert last i. induction n as [|n IH]; intros last i; [done|].
  cbn [expand_blocks]. rewrite len_app, hmac_len, IH. lia.
Qed.

(** RFC 5869: the output has the requested length. *)
Lemma hkdf_expand_len prk info n out : hkdf_expand prk info n = Ok out → len out = n.
Proof.
  unfold hkdf_expand. intros ([] & _ & ([] & _ & H')%bind_Ok)%bind_Ok.
  destruct (negb _) eqn:E; [done|]. injection H' as <-. zb.
  pose proof (expand_blocks_len (Z.to_nat ((n + 31) / 32)) prk info [] 1) as Hl.
  assert (n <= 32 * ((n + 31) / 32)) by (Z.div_mod_to_equations; lia).
  assert (0 <= (n + 31) / 32) by (apply Z.div_pos; lia).
  unfold len in *. rewrite length_take. lia.
Qed.

Lemma object_key_len s a sp e k o g out : object_key s a sp e k o g = Ok out → len out = 32.
Proof.
  unfold object_key. intros E.
  do 9 apply bind_Ok in E as (? & _ & E). by apply hkdf_expand_len in E.
Qed.
End Lengths.

Section HpkeLaws.
Context `{Hash} `{SodiumLaws}.

(** Opening undoes sealing for the holder of the recipient's secret. *)
Lemma hpke_open_seal random secret pk info aad plain enc ct :
  dh_public secret = Ok pk →
  hpke_seal random pk info aad plain = Ok (enc, ct) →
  hpke_open secret enc info aad ct = Ok plain ∧ len enc = 32 ∧ len ct = len plain + 16.
Proof.
  intros Hpk E. unfold hpke_seal in E.
  apply bind_Ok in E as ([] & Hpl & E). apply bind_Ok in E as ([] & Hi & E).
  apply bind_Ok in E as ([] & Ha & E). apply bind_Ok in E as ([] & Hp & E).
  apply bind_Ok in E as (ikm & Hikm & E). apply bind_Ok in E as ([sk enc'] & Hsk & E).
  apply bind_Ok in E as (z & Hz & E). apply bind_Ok in E as (sh & Hsh & E).
  apply bind_Ok in E as ([key nonce] & Hks & E). apply bind_Ok in E as (c & Hc & E).
  injection E as -> ->. apply bounded_Ok in Hp.
  unfold seal_ietf in Hc. apply open_seal in Hc as [Ho Hlen]; [|unfold MAX_INPUT; lia].
  unfold derive_keypair in Hsk. apply bind_Ok in Hsk as ([] & _ & Hsk).
  apply bind_Ok in Hsk as (prk & _ & Hsk). apply bind_Ok in Hsk as (sk' & Hexp & Hsk).
  apply bind_Ok in Hsk as (pk' & Henc & Hsk). injection Hsk as -> ->.
  unfold dh_public in Henc, Hpk.
  apply bind_Ok in Henc as ([] & Hskl & Henc). apply of_option_Ok in Henc.
  pose proof Hpk as Hpk'. apply bind_Ok in Hpk' as ([] & Hsl & Hpk'). apply of_option_Ok in Hpk'.
  pose proof (base_len _ _ Henc) as Hel.
  unfold dh in Hz. apply bind_Ok in Hz as ([] & _ & Hz). apply bind_Ok in Hz as ([] & _ & Hz).
  apply of_option_Ok in Hz. pose proof (dh_commutes _ _ _ _ _ Henc Hpk' Hz) as Hz'.
  split; [|split; [done|lia]].
  unfold hpke_open, dh, dh_public. rewrite Hsl, Hi, Ha, Hpk', (proj2 (fixed_Ok _ _) Hel).
  assert (bounded ct 4096 16 = Ok tt) as -> by (apply bounded_Ok; lia).
  cbn [mbind result_bind of_option]. rewrite Hz'. cbn [mbind result_bind of_option].
  rewrite Hsh. cbn [mbind result_bind]. rewrite Hks. cbn [mbind result_bind]. exact Ho.
Qed.
End HpkeLaws.

Lemma random_bytes_len random n b : random_bytes random n = Ok b → len b = n.
Proof.
  unfold random_bytes. destruct (negb _); [done|]. intros E.
  apply bind_Ok in E as (x & _ & E). apply bind_Ok in E as ([] & Hl%require_Ok%Z.eqb_eq & E). by injection E as <-.
Qed.
