(* ===== verification/Objects.v ===== *)
(** * Typed cryptographic objects (experiments/g0-crypto/par_crypto/objects.py)

    Headers and bodies stay CBOR values, read field by field as the code does.  An
    argument of the wrong type fails like the size checks of the provider do. *)

From S2P Require Import Prelude Bytes Value Codec Flat CddlText Schema SchemaSpec Hash Sodium Primitives.
Local Open Scope Z_scope.

(** ** Argument types and small helpers *)

Definition bytes_arg (v : value) : result bytes :=
  match v with VBytes b => Ok b | _ => Err (crypto "INVALID_INPUT") end.
Definition str_arg (v : value) : result pystr :=
  match v with VStr s => Ok s | _ => Err (crypto "INVALID_INPUT") end.
Definition int_arg (v : value) : result Z :=
  match v with VInt z => Ok z | _ => Err (crypto "INVALID_INPUT") end.

(** [v[k]] at type bytes, str, int. *)
Definition bytes_at (v : value) (k : Z) : result bytes := x ← getitem v k; bytes_arg x.
Definition str_at (v : value) (k : Z) : result pystr := x ← getitem v k; str_arg x.
Definition int_at (v : value) (k : Z) : result Z := x ← getitem v k; int_arg x.

(** Python equality of two dicts: insertion order does not count. *)
Definition same_value (a b : value) : bool := bool_decide (norm a = norm b).

(** [sorted] on bytes. *)
Definition bytes_le (a b : bytes) : Prop := bytes_ltb b a = false.
#[export] Instance bytes_le_dec : RelDecision bytes_le.
Proof. intros a b. unfold bytes_le. apply _. Defined.
Definition sorted_bytes (l : list bytes) : list bytes := merge_sort bytes_le l.

Definition app_label_ok (l : pystr) : bool :=
  let ok c := lower c || digit c in
  match l with
  | [] => false
  | c :: _ => ok c && ok (List.last l 0) && forallb (λ c, ok c || (c =? 45)) l
  end.

(** [APP]: lower-case labels, at least two, joined by dots. *)
Definition app_name_ok (s : pystr) : bool :=
  let labels := split_on 46 s in
  (2 <=? len labels) && forallb app_label_ok labels && (len s <=? 128).

Definition object_schema : exn := crypto "OBJECT_SCHEMA".

Definition app_id (v : value) : result pystr :=
  match v with
  | VStr s => _ ← require (app_name_ok s) object_schema; Ok s
  | _ => Err object_schema
  end.

Definition checked (rule : string) (v : value) : result value :=
  _ ← catch_wire object_schema (validate default_schema rule v); Ok v.

Definition parse (rule : string) (raw_ : bytes) (limit : Z) : result value :=
  _ ← bounded raw_ limit 1;
  v ← catch_wire object_schema (decode_with limit MAX_NODES raw_);
  checked rule v.

Definition is_distinct (v : value) : bool :=
  match v with VList l => negb (has_dups l) | _ => false end.

Definition change_header (v : value) : result bytes :=
  _ ← checked "change-header" v;
  app ← getitem v 0; _ ← app_id app;
  seq ← int_at v 7; deps ← getitem v 10;
  _ ← require (negb ((seq <? 1) || negb (is_distinct deps))) object_schema;
  encode v.

Definition block_header (v : value) : result bytes :=
  _ ← checked "block-header" v; app ← getitem v 0; _ ← app_id app; encode v.

Section Objects.
Context `{Hash} `{Sodium}.

Definition header_key (secret : bytes) (h : value) (block : bool) : result bytes :=
  app ← str_at h 0; space ← bytes_at h 1; epoch ← int_at h 2; kind ← int_at h 4;
  obj ← bytes_at h 3; gen ← int_at h (if block then 6 else 15);
  object_key secret app space epoch kind obj gen.

Definition envelope_id (r : bytes) : result bytes :=
  _ ← bounded r 786432 1; hashed "envelope-id" [VBytes r].
Definition block_id (r : bytes) : result bytes :=
  _ ← bounded r 270336 1; hashed "block-id" [VBytes r].
Definition package_id (r : bytes) : result bytes :=
  _ ← bounded r 65536 1; hashed "key-package-id" [VBytes r].
Definition certificate_id (r : bytes) : result bytes :=
  _ ← bounded r 65536 1; hashed "certificate-id" [VBytes r].

Definition author (pk : bytes) (h : value) : result unit :=
  _ ← fixed pk 32;
  app ← getitem h 0; device ← getitem h 5;
  did ← hashed "device-id" [app; VBytes pk];
  require (bool_decide (device = VBytes did)) (crypto "AUTHOR_MISMATCH").

Definition seal_change (epoch_secret signing_seed : bytes) (header : value) (payload nonce : bytes)
    : result bytes :=
  hb ← change_header header;
  header ← decode hb;
  _ ← bounded payload 524288 0; _ ← fixed nonce 24;
  n ← int_at header 11;
  _ ← require (n =? len payload) (crypto "LENGTH_MISMATCH");
  pk ← sign_public signing_seed;
  _ ← author pk header;
  key ← header_key epoch_secret header false;
  aad ← domain "envelope-aad" [VBytes hb];
  ct ← seal key nonce aad payload;
  m ← domain "envelope-sign" [VBytes hb; VBytes nonce; VBytes ct];
  sig ← sign signing_seed m;
  encode (dict [(0, VBytes hb); (1, VBytes nonce); (2, VBytes ct); (3, VBytes sig)]).

Definition open_change (epoch_secret signer_public : bytes) (expected_header : value) (r : bytes)
    : result bytes :=
  expected ← change_header expected_header;
  o ← parse "change-envelope" r 786432;
  hb ← bytes_at o 0;
  h ← parse "change-header" hb 16384;
  _ ← change_header h;
  _ ← require (bool_decide (hb = expected)) (crypto "CONTEXT_MISMATCH");
  _ ← author signer_public h;
  nonce ← bytes_at o 1; ct ← bytes_at o 2; sig ← bytes_at o 3;
  m ← domain "envelope-sign" [VBytes hb; VBytes nonce; VBytes ct];
  _ ← verify signer_public m sig;
  n ← int_at h 11;
  _ ← require (len ct =? n + 16) (crypto "LENGTH_MISMATCH");
  key ← header_key epoch_secret h false;
  aad ← domain "envelope-aad" [VBytes hb];
  plain ← open key nonce aad ct;
  _ ← require (len plain =? n) (crypto "LENGTH_MISMATCH");
  Ok plain.

Definition seal_block (epoch_secret : bytes) (header : value) (payload nonce : bytes)
    : result bytes :=
  hb ← block_header header;
  header ← decode hb;
  _ ← bounded payload 262144 0; _ ← fixed nonce 24;
  n ← int_at header 7;
  _ ← require (n =? len payload) (crypto "LENGTH_MISMATCH");
  key ← header_key epoch_secret header true;
  aad ← domain "block-aad" [VBytes hb];
  ct ← seal key nonce aad payload;
  encode (dict [(0, VBytes hb); (1, VBytes nonce); (2, VBytes ct)]).

Definition open_block (epoch_secret : bytes) (expected_header : value) (r : bytes) : result bytes :=
  hb ← block_header expected_header;
  o ← parse "sealed-block" r 270336;
  ob ← bytes_at o 0;
  h ← parse "block-header" ob 4096;
  _ ← block_header h;
  _ ← require (bool_decide (ob = hb)) (crypto "CONTEXT_MISMATCH");
  key ← header_key epoch_secret h true;
  nonce ← bytes_at o 1; ct ← bytes_at o 2;
  aad ← domain "block-aad" [VBytes ob];
  plain ← open key nonce aad ct;
  n ← int_at h 7;
  _ ← require (len plain =? n) (crypto "LENGTH_MISMATCH");
  Ok plain.

(** ** Signed objects *)

Definition signed (seed : bytes) (label : string) (body : value) : result bytes :=
  r ← encode body;
  _ ← bounded r 65536 1;
  pk ← sign_public seed;
  m ← domain label [VBytes r];
  sig ← sign seed m;
  encode (dict [(0, VBytes r); (1, VBytes pk); (2, VBytes sig)]).

Definition verify_signed (pk : bytes) (label rule : string) (r : bytes) : result value :=
  _ ← fixed pk 32;
  o ← parse "signed-object" r 66000;
  signer ← getitem o 1;
  _ ← require (bool_decide (signer = VBytes pk)) (crypto "SIGNER_MISMATCH");
  body ← bytes_at o 0; sig ← bytes_at o 2;
  m ← domain label [VBytes body];
  _ ← verify pk m sig;
  parse rule body 65536.

Definition create_certificate (account_seed : bytes) (app : value)
    (device_public recipient_public serial : bytes) : result bytes :=
  _ ← app_id app;
  pk ← sign_public account_seed;
  let body := dict [(0, VInt 1); (1, app); (2, VBytes pk); (3, VBytes device_public);
                    (4, VBytes recipient_public); (5, VBytes serial)] in
  _ ← checked "certificate-body" body;
  _ ← require (negb (bool_decide (pk = device_public) || bool_decide (pk = recipient_public)
               || bool_decide (device_public = recipient_public))) (crypto "KEY_ROLE_REUSE");
  signed account_seed "certificate-sign" body.

Definition verify_certificate (app : value) (expected_account_public r : bytes) : result value :=
  _ ← app_id app;
  body ← verify_signed expected_account_public "certificate-sign" "certificate-body" r;
  b1 ← getitem body 1; b2 ← getitem body 2; b3 ← getitem body 3; b4 ← getitem body 4;
  _ ← require (bool_decide (b1 = app) && bool_decide (b2 = VBytes expected_account_public))
        (crypto "CONTEXT_MISMATCH");
  _ ← require (bool_decide (NoDup [b2; b3; b4])) (crypto "KEY_ROLE_REUSE");
  Ok body.

(** ** Key packages *)

(** [set(c) == set(range(n))]: exactly the integer keys [0 .. n-1]. *)
Definition keys_exactly (n : nat) (d : list (pykey * value)) : bool :=
  match int_keys d with
  | Some ks => bool_decide (sorted_keys ks = Z.of_nat <$> seq 0 n)
  | None => false
  end.

Definition package_context (c : value) : result value :=
  match c with
  | VDict d =>
      if negb (keys_exactly 7 d) then Err object_schema
      else
        _ ← checked "key-package-body"
              (VDict (d ++ [(KInt 7, VInt 1); (KInt 8, VBytes (repeat x30 32));
                            (KInt 9, VBytes (repeat x30 16))]));
        app ← getitem c 0; _ ← app_id app;
        b ← encode c; decode b
  | _ => Err object_schema
  end.

(** [domain(label, [c[k] for k in keys])] *)
Definition fields (c : value) (keys : list Z) : result (list value) := mapM (getitem c) keys.

Definition package_info (c : value) : result bytes :=
  vs ← fields c [0; 1; 2; 3; 5]; domain "key-package-info" vs.
Definition package_aad (c : value) : result bytes :=
  vs ← fields c [4; 6]; domain "key-package-aad" (VInt 1 :: vs).
Definition secret_body (secret : bytes) (c : value) : result value :=
  vs ← fields c [0; 1; 2; 3; 4];
  Ok (dict (zip [0; 1; 2; 3; 4; 5] (VBytes secret :: vs))).

(** [dict(c) | extra] for keys that [c] does not have. *)
Definition extend (c : value) (extra : list (Z * value)) : value :=
  match c with VDict d => VDict (d ++ to_dict extra) | _ => c end.

Definition seal_package (random : Z → option bytes) (authority_seed recipient_public : bytes)
    (context : value) (epoch_secret : bytes) : result bytes :=
  c ← package_context context;
  _ ← fixed epoch_secret 32;
  info ← package_info c; aad ← package_aad c;
  sb ← secret_body epoch_secret c; plain ← encode sb;
  '(enc, ct) ← hpke_seal random recipient_public info aad plain;
  let body := extend c [(7, VInt 1); (8, VBytes enc); (9, VBytes ct)] in
  _ ← checked "key-package-body" body;
  signed authority_seed "key-package-sign" body.

Definition package_root (package_ids : list bytes) : result bytes :=
  _ ← require ((1 <=? len package_ids) && (len package_ids <=? 1024)
               && forallb (λ i, len i =? 32) package_ids && bool_decide (NoDup package_ids))
        (crypto "PACKAGE_ROOT_INVALID");
  hashed "package-root" [VList (VBytes <$> sorted_bytes package_ids)].

Definition open_package (recipient_secret authority_public : bytes) (expected_context : value)
    (r : bytes) (package_ids : list bytes) (trusted_root : bytes) : result bytes :=
  c ← package_context expected_context;
  _ ← fixed trusted_root 32;
  root ← package_root package_ids;
  _ ← require (bool_decide (root = trusted_root)) (crypto "PACKAGE_ROOT_INVALID");
  pid ← package_id r;
  _ ← require (bool_decide (pid ∈ package_ids)) (crypto "PACKAGE_ROOT_INVALID");
  body ← verify_signed authority_public "key-package-sign" "key-package-body" r;
  cs ← fields c [0; 1; 2; 3; 4; 5; 6]; bs ← fields body [0; 1; 2; 3; 4; 5; 6];
  _ ← require (bool_decide (bs = cs)) (crypto "CONTEXT_MISMATCH");
  enc ← bytes_at body 8; ct ← bytes_at body 9;
  info ← package_info c; aad ← package_aad c;
  plain ← hpke_open recipient_secret enc info aad ct;
  res ← parse "epoch-secret-plaintext" plain 4096;
  secret ← bytes_at res 0;
  sb ← secret_body secret c;
  _ ← require (same_value res sb) (crypto "CONTEXT_MISMATCH");
  Ok secret.
End Objects.
