(* ===== verification/SharedChange.v ===== *)
(** * Single-change admission contracts (product/wp04/contracts.py)

    A change names its causal dependencies by hash; [core_request] accepts a candidate
    with a set of dependencies exactly when they are its causal past.  Headers are read
    once into [hdr], where the code decodes [header_bytes] at every use. *)

From S2P Require Import Prelude Bytes Value Codec Flat CddlText Schema SchemaSpec Json Hash Sodium Primitives Objects.
Local Open Scope Z_scope.

Definition PROFILE : string := "par-shared-change-local-0032".
Definition MAX_CHANGE : Z := 524288.
Definition MAX_CLOSURE : Z := 128.
Definition MAX_CLOSURE_BYTES : Z := 4 * 1024 * 1024.
Definition MAX_TEXT : Z := 1024 * 1024.
Definition MAX_SAFE_INTEGER : Z := 2 ^ 53 - 1.

Definition SharedChangeError (code : string) : exn := Raised "SharedChangeError" code.

(** [contracts.require]; the default code is [INVALID_INPUT]. *)
Definition need (ok : bool) (code : string) : result unit := require ok (SharedChangeError code).

Definition canonical (v : value) : result bytes :=
  of_option (SharedChangeError "INVALID_INPUT") (json_bytes v).

Section Hashes.
Context `{Hash}.
Definition request_digest (v : value) : result pystr :=
  b ← canonical v; Ok (hex (sha256 b)).
End Hashes.

Definition hex32 (v : value) : bool :=
  match v with VStr s => (len s =? 64) && forallb is_hex s | _ => false end.

Definition ids (v : value) (limit : Z) : bool :=
  match v with
  | VList l => (len l <=? limit) && forallb hex32 l && bool_decide (NoDup l)
  | _ => false
  end.

Definition text (v : value) (limit : Z) : result unit :=
  match v with
  | VStr s =>
      match utf8_encode s with
      | Some b => need (len b <=? limit) "RESOURCE_LIMIT"
      | None => Err (SharedChangeError "INVALID_INPUT")
      end
  | _ => Err (SharedChangeError "INVALID_INPUT")
  end.

(** ** Changes *)

(** The fields of a [change-header]. *)
Record hdr := Hdr {
  h_app : pystr;
  h_space : bytes;
  h_epoch : Z;
  h_object : bytes;
  h_kind : Z;
  h_device : bytes;
  h_actor_generation : bytes;
  h_sequence : Z;
  h_previous : option bytes;
  h_schema : bytes;
  h_deps : list bytes;
  h_length : Z;
  h_hash : bytes;
  h_control : bytes;
  h_codec : Z;
  h_generation : Z;
}.

Definition read_hdr (v : value) : result hdr :=
  a ← str_at v 0; s ← bytes_at v 1; e ← int_at v 2; o ← bytes_at v 3; k ← int_at v 4;
  d ← bytes_at v 5; g ← bytes_at v 6; n ← int_at v 7;
  p ← (x ← getitem v 8; match x with VNone => Ok None | _ => b ← bytes_arg x; Ok (Some b) end);
  sc ← bytes_at v 9;
  ds ← (x ← getitem v 10; l ← as_list x; mapM bytes_arg l);
  l ← int_at v 11; h ← bytes_at v 12; c ← bytes_at v 13; co ← int_at v 14; gen ← int_at v 15;
  Ok (Hdr a s e o k d g n p sc ds l h c co gen).

(** [ChangeInput]; [ci_header] is the property [header]. *)
Record change_input := ChangeInput {
  ci_header_bytes : bytes;
  ci_header : hdr;
  ci_payload : bytes;
  ci_actor : bytes;
}.

(** [descriptor()] *)
Record descriptor := Descriptor {
  ds_actor : pystr;
  ds_sequence : pystr;
  ds_hash : pystr;
  ds_dependencies : list pystr;
  ds_change : pystr;
}.

Definition change_descriptor (c : change_input) : descriptor :=
  let h := ci_header c in
  Descriptor (hex (ci_actor c)) (dec (h_sequence h)) (hex (h_hash h))
    (sorted_strs (hex <$> h_deps h)) (b64encode (ci_payload c)).

Definition descriptor_value (d : descriptor) : value :=
  sdict [("actor"%string, VStr (ds_actor d)); ("sequence"%string, VStr (ds_sequence d));
         ("hash"%string, VStr (ds_hash d));
         ("dependencies"%string, VList (VStr <$> ds_dependencies d));
         ("change"%string, VStr (ds_change d))].

Section Create.
Context `{Hash}.

Definition create_change (header : value) (payload schema_id : bytes) : result change_input :=
  _ ← need ((0 <? len payload) && (len payload <=? MAX_CHANGE)) "INVALID_INPUT";
  _ ← need (len schema_id =? 32) "INVALID_INPUT";
  hbh ← catch_any (SharedChangeError "INVALID_HEADER")
          (hb ← change_header header; v ← decode hb; h ← read_hdr v; Ok (hb, h));
  let '(hb, h) := hbh in
  _ ← need (h_kind h =? 1) "UNSUPPORTED_KIND";
  _ ← need (h_codec h =? 1) "UNSUPPORTED_CODEC";
  _ ← need (h_sequence h <=? MAX_SAFE_INTEGER) "UNSUPPORTED_INTEGER_RANGE";
  _ ← need (bool_decide (h_schema h = schema_id)) "SCHEMA_MISMATCH";
  _ ← need (h_length h =? len payload) "LENGTH_MISMATCH";
  _ ← need (negb (bool_decide (h_hash h ∈ h_deps h))) "SELF_DEPENDENCY";
  _ ← need ((h_sequence h =? 1) && bool_decide (h_previous h = None)
            || (1 <? h_sequence h) && negb (bool_decide (h_previous h = None))) "PREVIOUS_MISMATCH";
  actor ← hashed "actor-id" [VBytes (h_space h); VInt (h_epoch h); VBytes (h_object h);
                             VBytes (h_device h); VBytes (h_actor_generation h)];
  Ok (ChangeInput hb h payload actor).
End Create.

(** [Dependency] *)
Record dependency := Dependency {
  dp_envelope : bytes;
  dp_change : change_input;
}.

Definition dep_hash (d : dependency) : bytes := h_hash (ci_header (dp_change d)).
Definition dep_parents (d : dependency) : list bytes := h_deps (ci_header (dp_change d)).

(** ** The causal closure *)

(** The fields [(0,1,2,3,4,9,14,15)] on which a dependency agrees with the candidate. *)
Definition same_scope (a b : hdr) : bool :=
  bool_decide (h_app a = h_app b) && bool_decide (h_space a = h_space b)
  && (h_epoch a =? h_epoch b) && bool_decide (h_object a = h_object b)
  && (h_kind a =? h_kind b) && bool_decide (h_schema a = h_schema b)
  && (h_codec a =? h_codec b) && (h_generation a =? h_generation b).

(** [nodes], [by_envelope] and [total]. *)
Record index := Index {
  ix_nodes : gmap bytes dependency;
  ix_envelopes : gmap bytes dependency;
  ix_total : Z;
}.

Definition add_dependency (h : hdr) (d : dependency) (ix : index) : result index :=
  _ ← need (len (dp_envelope d) =? 32) "INVALID_INPUT";
  _ ← need (same_scope (ci_header (dp_change d)) h) "DEPENDENCY_SCOPE_MISMATCH";
  _ ← need (bool_decide (ix_nodes ix !! dep_hash d = None)
            && bool_decide (ix_envelopes ix !! dp_envelope d = None)) "DEPENDENCY_EQUIVOCATION";
  Ok (Index (<[dep_hash d := d]> (ix_nodes ix)) (<[dp_envelope d := d]> (ix_envelopes ix))
        (ix_total ix + len (ci_payload (dp_change d)))).

(** [visit]: depth first, parents in order.  [visiting] is the path of the recursion, the
    state is [seen] with [ordered]; fuel bounds the path, which has no repetition. *)
Definition walk := (gset bytes * list dependency)%type.

Fixpoint visit (fuel : nat) (nodes : gmap bytes dependency) (visiting : gset bytes) (cid : bytes)
    (st : walk) : result walk :=
  match fuel with
  | O => Err OutOfFuel
  | S fuel' =>
      match nodes !! cid with
      | None => Err (SharedChangeError "DEPENDENCIES_MISSING")
      | Some d =>
          if bool_decide (cid ∈ visiting) then Err (SharedChangeError "DEPENDENCY_CYCLE")
          else if bool_decide (cid ∈ st.1) then Ok st
          else
            st' ← iter (visit fuel' nodes ({[cid]} ∪ visiting)) (sorted_bytes (dep_parents d)) st;
            Ok ({[cid]} ∪ st'.1, st'.2 ++ [d])
      end
  end.

(** The worklist [todo] (its top first) collecting [reachable]. *)
Fixpoint reach (fuel : nat) (nodes : gmap bytes dependency) (todo : list bytes)
    (reachable : gset bytes) : result (gset bytes) :=
  match todo with
  | [] => Ok reachable
  | x :: todo' =>
      match fuel with
      | O => Err OutOfFuel
      | S fuel' =>
          if bool_decide (x ∈ reachable) then reach fuel' nodes todo' reachable
          else
            match nodes !! x with
            | None => Err (SharedChangeError "DEPENDENCIES_MISSING")
            | Some d => reach fuel' nodes (rev (dep_parents d) ++ todo') ({[x]} ∪ reachable)
            end
      end
  end.

(** Enough fuel for [reach]: every hash is pushed at most once per edge. *)
Definition reach_fuel (nodes : gmap bytes dependency) (todo : list bytes) : nat :=
  length todo + sum_list ((λ kd, length (dep_parents kd.2)) <$> map_to_list nodes).

(** The author's previous change is in the causal past of [c]. *)
Definition check_previous (ix : index) (c : change_input) : result unit :=
  let h := ci_header c in
  if h_sequence h =? 1 then Ok tt
  else
    match h_previous h ≫= λ e, ix_envelopes ix !! e with
    | None => Err (SharedChangeError "PREVIOUS_MISMATCH")
    | Some p =>
        _ ← need (bool_decide (ci_actor (dp_change p) = ci_actor c)
                  && (h_sequence (ci_header (dp_change p)) =? h_sequence h - 1)) "PREVIOUS_MISMATCH";
        past ← reach (reach_fuel (ix_nodes ix) (h_deps h)) (ix_nodes ix) (rev (h_deps h)) ∅;
        need (bool_decide (dep_hash p ∈ past)) "PREVIOUS_MISMATCH"
    end.

(** [slots]: the change at each position of each author. *)
Definition check_slot (c : change_input) (slots : gmap (bytes * Z) bytes)
    : result (gmap (bytes * Z) bytes) :=
  let slot := (ci_actor c, h_sequence (ci_header c)) in
  let cid := h_hash (ci_header c) in
  _ ← need (match slots !! slot with None => true | Some x => bool_decide (x = cid) end)
        "ACTOR_EQUIVOCATION";
  Ok (<[slot := cid]> slots).

Record request := Request {
  rq_candidate : descriptor;
  rq_closure : list descriptor;
}.

Definition request_value (r : request) : value :=
  sdict [("profile"%string, VStr (str PROFILE)); ("schema"%string, VStr (str "note-v1-local"));
         ("candidate"%string, descriptor_value (rq_candidate r));
         ("closure"%string, VList (descriptor_value <$> rq_closure r))].

Definition core_request (candidate : change_input) (closure : list dependency) : result request :=
  _ ← need (len closure <=? MAX_CLOSURE) "RESOURCE_LIMIT";
  let h := ci_header candidate in
  ix ← iter (add_dependency h) closure (Index ∅ ∅ (len (ci_payload candidate)));
  _ ← need (ix_total ix <=? MAX_CLOSURE_BYTES) "RESOURCE_LIMIT";
  st ← iter (visit (S (size (ix_nodes ix))) (ix_nodes ix) ∅) (sorted_bytes (h_deps h)) (∅, []);
  _ ← need (bool_decide (st.1 = dom (ix_nodes ix))) "EXTRANEOUS_DEPENDENCY";
  _ ← need (bool_decide (ix_nodes ix !! h_hash h = None)) "CHANGE_ALREADY_PRESENT";
  let changes := (dp_change <$> st.2) ++ [candidate] in
  _ ← iter (λ c _, check_previous ix c) changes tt;
  _ ← iter check_slot changes ∅;
  Ok (Request (change_descriptor candidate) (change_descriptor ∘ dp_change <$> st.2)).

(** ** Reports of the core *)

Record checked_report := CheckedReport {
  cr_request_hash : pystr;
  cr_engine_json : bytes;
  cr_note_json : bytes;
  cr_semantic_validated : bool;
}.

Definition keys_check (v : value) (keys : list string) : result unit :=
  need (match v with VDict d => str_keys keys d | _ => false end) "CORE_REPORT_INVALID".

Definition is_text (v : value) (s : string) : bool := bool_decide (v = VStr (str s)).

(** The strings of an [ids] list. *)
Definition id_strs (v : value) : list pystr :=
  match v with VList l => omap (λ x, match x with VStr s => Some s | _ => None end) l | _ => [] end.

Definition check_engine (e expected_engine : value) (allow_contract_double : bool) : result bool :=
  _ ← keys_check e ["name"; "version"; "kind"; "digest"]%string;
  digest ← sitem e "digest";
  _ ← need (hex32 digest) "CORE_REPORT_INVALID";
  _ ← need (py_eq e expected_engine) "CORE_IDENTITY_CHANGED";
  name ← sitem e "name"; version ← sitem e "version"; kind ← sitem e "kind";
  _ ← need (is_text name "@automerge/automerge" && is_text version "3.4.1") "CORE_IDENTITY_CHANGED";
  _ ← need (is_text kind "automerge" || allow_contract_double && is_text kind "contract-test-double")
        "CORE_NOT_REAL";
  Ok (is_text kind "automerge").

(** The one reported change is the candidate's. *)
Definition check_change (r : request) (changes : value) : result unit :=
  c ← match changes with VList [c] => Ok c | _ => Err (SharedChangeError "NOT_SINGLE_CHANGE") end;
  _ ← keys_check c ["actor"; "sequence"; "hash"; "dependencies"]%string;
  deps ← sitem c "dependencies"; sequence ← sitem c "sequence";
  _ ← need (ids deps MAX_CLOSURE && is_str sequence) "CORE_REPORT_INVALID";
  actor ← sitem c "actor"; hash ← sitem c "hash";
  let d := rq_candidate r in
  need (bool_decide (actor = VStr (ds_actor d)) && bool_decide (sequence = VStr (ds_sequence d))
        && bool_decide (hash = VStr (ds_hash d))
        && bool_decide (sorted_strs (id_strs deps) = ds_dependencies d)) "INNER_OUTER_MISMATCH".

Definition check_note (note : value) : result unit :=
  _ ← keys_check note ["title"; "body"; "titleConflicts"]%string;
  title ← sitem note "title"; _ ← text title 1024;
  body ← sitem note "body"; _ ← text body MAX_TEXT;
  conflicts ← sitem note "titleConflicts";
  l ← match conflicts with VList l => Ok l | _ => Err (SharedChangeError "RESOURCE_LIMIT") end;
  _ ← need (len l <=? 32) "RESOURCE_LIMIT";
  iter (λ v _, text v 1024) l tt.

Section Report.
Context `{Hash}.

Definition check_report (r : request) (report expected_engine : value) (allow_contract_double : bool)
    : result checked_report :=
  _ ← keys_check report ["profile"; "requestDigest"; "engine"; "changes"; "appliedHashes"; "missing";
                         "note"; "schema"]%string;
  profile ← sitem report "profile"; schema ← sitem report "schema";
  digest ← sitem report "requestDigest";
  rd ← request_digest (request_value r);
  _ ← need (is_text profile PROFILE && is_text schema "note-v1-local"
            && bool_decide (digest = VStr rd)) "CORE_CONTEXT_MISMATCH";
  e ← sitem report "engine";
  real ← check_engine e expected_engine allow_contract_double;
  missing ← sitem report "missing";
  _ ← need (ids missing MAX_CLOSURE) "CORE_REPORT_INVALID";
  _ ← need (bool_decide (missing = VList [])) "DEPENDENCIES_MISSING";
  changes ← sitem report "changes";
  _ ← check_change r changes;
  applied ← sitem report "appliedHashes";
  _ ← need (ids applied (MAX_CLOSURE + 1)) "APPLIED_SET_MISMATCH";
  let expected := ds_hash (rq_candidate r) :: (ds_hash <$> rq_closure r) in
  _ ← need (bool_decide ((list_to_set (id_strs applied) : gset pystr) = list_to_set expected))
        "APPLIED_SET_MISMATCH";
  note ← sitem report "note";
  _ ← check_note note;
  ej ← canonical e; nj ← canonical note;
  Ok (CheckedReport rd ej nj real).
End Report.
