(* ===== verification/SharedChangeSpec.v ===== *)
(** * [core_request] accepts exactly the causal past

    A dependency graph is read off the closure; [visit] is a depth-first search whose
    result is a topological order, and [reach] computes the reachable set.  Both always
    have enough fuel. *)

From S2P Require Import Prelude Bytes Value Codec Flat CddlText Schema SchemaSpec Json Hash Sodium Primitives Objects SharedChange.
Local Open Scope Z_scope.

Lemma elem_of_rev {A} (x : A) l : x ∈ rev l ↔ x ∈ l.
Proof. by rewrite <-Permutation_rev. Qed.

Lemma tc_mono {A} (R S : relation A) x y : (∀ x y, R x y → S x y) → tc R x y → tc S x y.
Proof. intros H. induction 1; [apply tc_once|eapply tc_l]; eauto. Qed.

(** Every dependency follows its parents. *)
Definition topological (l : list dependency) : Prop :=
  ∀ l1 d l2, l = l1 ++ d :: l2 → ∀ p, p ∈ dep_parents d → p ∈ dep_hash <$> l1.

Lemma topological_snoc l d :
  topological l → (∀ p, p ∈ dep_parents d → p ∈ dep_hash <$> l) → topological (l ++ [d]).
Proof.
  intros Hl Hd l1 e l2 E p Hp. destruct l2 as [|x l2 _] using rev_ind.
  - apply app_inj_tail in E as [<- <-]. by apply Hd.
  - rewrite app_comm_cons, app_assoc in E. apply app_inj_tail in E as [-> _]. by eapply Hl.
Qed.

Section Graph.
Variable nodes : gmap bytes dependency.
Hypothesis nodes_hash : ∀ x d, nodes !! x = Some d → dep_hash d = x.
Implicit Types (x y : bytes) (d : dependency) (st : walk) (vis : gset bytes).

(** [x] names [y] as a dependency. *)
Definition edge x y : Prop := ∃ d, nodes !! x = Some d ∧ y ∈ dep_parents d.

Definition acyclic : Prop := ∀ x, ¬ tc edge x x.

(** ** Depth-first search *)

Record good st : Prop := {
  gd_seen x : x ∈ st.1 ↔ x ∈ dep_hash <$> st.2;
  gd_nodes d : d ∈ st.2 → nodes !! dep_hash d = Some d;
  gd_nodup : NoDup (dep_hash <$> st.2);
  gd_topo : topological st.2;
}.

Lemma good_nil : good (∅, []).
Proof using Type. clear nodes_hash. split; [set_solver|set_solver|constructor|]. by intros [] ? ?. Qed.

Lemma in_sorted (p : bytes) l : p ∈ sorted_bytes l ↔ p ∈ l.
Proof using Type. clear nodes_hash. unfold sorted_bytes. by rewrite merge_sort_Permutation. Qed.

(** What one visit adds. *)
Record extends vis (roots : list bytes) st st' : Prop := {
  ex_good : good st';
  ex_seen : st.1 ⊆ st'.1;
  ex_roots x : x ∈ roots → x ∈ st'.1;
  ex_vis x : x ∈ vis → x ∈ st'.1 → x ∈ st.1;
  ex_past x : x ∈ st'.1 → x ∈ st.1 ∨ ∃ r, r ∈ roots ∧ rtc edge r x;
}.

Lemma iter_extends (f : bytes → walk → result walk) vis roots st st' :
  (∀ x s s', x ∈ roots → good s → f x s = Ok s' → extends vis [x] s s') →
  good st → iter f roots st = Ok st' → extends vis roots st st'.
Proof using Type. clear nodes_hash.
  revert st. induction roots as [|r roots IH]; intros st Hf Hg E; cbn [iter] in E.
  { injection E as <-. split; [done|done|set_solver|done|by left]. }
  destruct (f r st) as [s|] eqn:Hr; [|done].
  destruct (Hf r st s) as [Hgs H1 H2 H3 H4]; [left; done|done|done|].
  destruct (IH s) as [Hg' K1 K2 K3 K4]; [|done|done|].
  { intros x t t' Hx. apply Hf. by right. }
  split; [done|set_solver|set_solver|set_solver|].
  intros x [Hx|(q & Hq & Hx)]%K4; [|right; exists q; split; [by right|done]].
  apply H4 in Hx as [Hx|(q & ->%list_elem_of_singleton & Hx)]; [by left|].
  right. exists r. split; [by left|done].
Qed.

Lemma visit_extends fuel vis cid st st' :
  good st → visit fuel nodes vis cid st = Ok st' → extends vis [cid] st st'.
Proof.
  revert vis cid st st'. induction fuel as [|fuel IH]; intros vis cid st st' Hg E; [done|].
  cbn [visit] in E. destruct (nodes !! cid) as [d|] eqn:Hd; [|done].
  case_bool_decide as Hv; [done|]. case_bool_decide as Hs.
  { injection E as <-. split; [done|done|set_solver|done|by left]. }
  apply bind_Ok in E as (s & Hi & E). injection E as <-.
  destruct (iter_extends _ ({[cid]} ∪ vis) _ _ _ (λ x s s' _, IH _ x s s') Hg Hi)
    as [Hgs H1 H2 H3 H4].
  assert (cid ∉ s.1) as Hn by (intros Hc; apply Hs, H3; [set_solver|done]).
  pose proof (nodes_hash _ _ Hd) as Hh. split; cbn [fst snd].
  - destruct Hgs as [G1 G2 G3 G4]. split; cbn [fst snd].
    + intros x. rewrite fmap_app, elem_of_app, <-G1. cbn. rewrite list_elem_of_singleton, Hh. set_solver.
    + intros e [He| ->%list_elem_of_singleton]%elem_of_app; [by apply G2|by rewrite Hh].
    + rewrite fmap_app. apply NoDup_app. split; [done|]. split; [|apply NoDup_singleton].
      intros x Hx ->%list_elem_of_singleton. apply Hn, G1. by rewrite <-Hh.
    + apply topological_snoc; [done|]. intros p Hp. apply G1, H2. by apply in_sorted.
  - set_solver.
  - set_solver.
  - intros x Hx. rewrite elem_of_union, elem_of_singleton. intros [->|Hx']; [|apply H3; set_solver].
    by destruct Hv.
  - intros x. rewrite elem_of_union, elem_of_singleton. intros [->|[Hx|(p & Hp & Hx)]%H4].
    + right. exists cid. split; [by left|done].
    + by left.
    + right. exists cid. split; [by left|]. eapply rtc_l; [|done]. exists d. split; [done|].
      by apply in_sorted.
Qed.

(** The path never repeats, so [size nodes] bounds the depth. *)
Lemma size_path vis cid d fuel :
  nodes !! cid = Some d → vis ⊆ dom nodes → cid ∉ vis → (size nodes < S fuel + size vis)%nat →
  {[cid]} ∪ vis ⊆ dom nodes ∧ (size nodes < fuel + size ({[cid]} ∪ vis))%nat.
Proof using Type. clear nodes_hash.
  intros Hd Hv Hn Hf. split.
  - apply union_subseteq. split; [|done]. apply singleton_subseteq_l, elem_of_dom. by eexists.
  - rewrite size_union by set_solver. rewrite size_singleton. lia.
Qed.

Lemma fuel_pos vis : vis ⊆ dom nodes → (size vis ≤ size nodes)%nat.
Proof using Type. clear nodes_hash. intros H. rewrite <-size_dom. by apply subseteq_size. Qed.

Lemma visit_fuel fuel vis cid st :
  vis ⊆ dom nodes → (size nodes < fuel + size vis)%nat →
  visit fuel nodes vis cid st ≠ Err OutOfFuel.
Proof using Type. clear nodes_hash.
  revert vis cid st. induction fuel as [|fuel IH]; intros vis cid st Hv Hf.
  { pose proof (fuel_pos _ Hv). lia. }
  cbn [visit]. destruct (nodes !! cid) as [d|] eqn:Hd; [|done].
  case_bool_decide; [done|]. case_bool_decide; [done|].
  destruct (size_path vis cid d fuel) as [Hv' Hf']; [done..|].
  assert (∀ l s, iter (visit fuel nodes ({[cid]} ∪ vis)) l s ≠ Err OutOfFuel) as Hi.
  { induction l as [|x l IHl]; intros s; cbn [iter]; [done|].
    destruct (visit fuel nodes _ x s) as [s'|e] eqn:E; [apply IHl|].
    intros [= ->]. by apply (IH _ x s Hv' Hf'). }
  intros [E|(s & _ & E)]%bind_Err; [by apply Hi in E|done].
Qed.

Lemma visit_complete fuel vis cid st :
  acyclic → good st → (∀ x, rtc edge cid x → is_Some (nodes !! x)) →
  (∀ v, v ∈ vis → tc edge v cid) →
  vis ⊆ dom nodes → (size nodes < fuel + size vis)%nat →
  ∃ st', visit fuel nodes vis cid st = Ok st'.
Proof.
  intros Ha. revert vis cid st.
  induction fuel as [|fuel IH]; intros vis cid st Hg Hr Hp Hv Hf.
  { pose proof (fuel_pos _ Hv). lia. }
  cbn [visit]. destruct (Hr cid (rtc_refl _ _)) as [d Hd]. rewrite Hd.
  rewrite bool_decide_eq_false_2 by (intros Hc; by apply (Ha cid), Hp).
  case_bool_decide as Hs; [eauto|].
  assert (cid ∉ vis) as Hn by (intros Hc; by apply (Ha cid), Hp).
  destruct (size_path vis cid d fuel) as [Hv' Hf']; [done..|].
  assert (∀ l s, (∀ p, p ∈ l → edge cid p) → good s →
    ∃ s', iter (visit fuel nodes ({[cid]} ∪ vis)) l s = Ok s') as Hi.
  { induction l as [|p l IHl]; intros s Hl Hgs; cbn [iter]; [eauto|].
    assert (edge cid p) as He by (apply Hl; by left).
    destruct (IH ({[cid]} ∪ vis) p s) as [s' Hs']; [done| | |done|done|].
    - intros x Hx. apply Hr. by eapply rtc_l.
    - intros v [->%elem_of_singleton|Hvv]%elem_of_union; [by apply tc_once|].
      eapply tc_r; [by apply Hp|done].
    - rewrite Hs'. apply IHl; [intros q Hq; apply Hl; by right|].
      by eapply ex_good, visit_extends. }
  destruct (Hi (sorted_bytes (dep_parents d)) st) as [s' ->]; [|done|by eexists].
  intros p Hpp. exists d. split; [done|]. by rewrite in_sorted in Hpp.
Qed.

(** Dependencies of a list without repeated hashes are determined by their hash. *)
Lemma same_hash l d e : NoDup (dep_hash <$> l) → d ∈ l → e ∈ l → dep_hash e = dep_hash d → e = d.
Proof using Type. clear nodes_hash.
  induction l as [|f l IH]; intros Hn Hd He E; [by apply not_elem_of_nil in Hd|].
  cbn in Hn. apply NoDup_cons in Hn as [Hf Hn].
  apply elem_of_cons in Hd as [->|Hd], He as [->|He]; [done| | |by apply IH];
    exfalso; apply Hf, list_elem_of_fmap; [exists e|exists d]; done.
Qed.

(** A topological order of all nodes excludes cycles. *)
Lemma topological_acyclic l :
  topological l → NoDup (dep_hash <$> l) → (∀ x d, nodes !! x = Some d → d ∈ l) → acyclic.
Proof.
  intros Ht Hnd Hall.
  assert (∀ x y, edge x y → ∀ l1 d l2, l = l1 ++ d :: l2 → dep_hash d = x → y ∈ dep_hash <$> l1)
    as Hstep.
  { intros x y (e & He & Hy) l1 d l2 El <-. assert (e = d) as ->; [|by apply (Ht l1 d l2)].
    eapply same_hash; [done| |by eapply Hall|by apply nodes_hash]. subst l.
    apply elem_of_app. right. by left. }
  assert (∀ x y, tc edge x y → ∀ l1 d l2, l = l1 ++ d :: l2 → dep_hash d = x → y ∈ dep_hash <$> l1)
    as Hbefore.
  { intros x y Hxy. induction Hxy as [x y Hxy|x y z Hxy _ IH]; intros l1 d l2 El Ed.
    - by eapply Hstep.
    - pose proof (Hstep _ _ Hxy _ _ _ El Ed) as Hy.
      apply list_elem_of_fmap in Hy as (f & Ef & Hf).
      apply list_elem_of_split in Hf as (k1 & k2 & ->).
      rewrite fmap_app. apply elem_of_app. left.
      apply (IH k1 f (k2 ++ d :: l2)); [by rewrite El, <-app_assoc|done]. }
  intros x Hx.
  assert (∃ d, nodes !! x = Some d) as [d Hd].
  { inversion Hx as [? ? (d & Hd & _)|? ? ? (d & Hd & _)]; eauto. }
  pose proof (Hall _ _ Hd) as (l1 & l2 & El)%list_elem_of_split.
  pose proof (Hbefore x x Hx l1 d l2 El (nodes_hash _ _ Hd)) as Hin.
  rewrite El, fmap_app in Hnd. cbn in Hnd. apply NoDup_app in Hnd as (_ & Hd1 & _).
  apply (Hd1 x Hin). rewrite (nodes_hash _ _ Hd). by left.
Qed.

(** ** The worklist *)

Definition edges_out (m : gmap bytes dependency) : nat :=
  sum_list ((λ kd, length (dep_parents kd.2)) <$> map_to_list m).

(** The edges out of nodes not yet reached. *)
Definition pending (r : gset bytes) : nat := edges_out (filter (λ kd, kd.1 ∉ r) nodes).

Lemma edges_out_insert m x d :
  m !! x = None → edges_out (<[x := d]> m) = (length (dep_parents d) + edges_out m)%nat.
Proof using Type. clear nodes_hash.
  intros H. unfold edges_out.
  assert (map_to_list (<[x := d]> m) ≡ₚ (x, d) :: map_to_list m) as -> by by apply map_to_list_insert.
  done.
Qed.

Lemma pending_add x d r :
  nodes !! x = Some d → x ∉ r → pending r = (length (dep_parents d) + pending ({[x]} ∪ r))%nat.
Proof using Type. clear nodes_hash.
  intros Hd Hx. unfold pending. rewrite <-edges_out_insert with (x := x).
  - f_equal. apply map_eq. intros y. destruct (decide (y = x)) as [->|Hy].
    + rewrite lookup_insert_eq. by apply map_lookup_filter_Some_2.
    + rewrite lookup_insert_ne by done. apply option_eq. intros e.
      rewrite !map_lookup_filter_Some. cbn. set_solver.
  - apply map_lookup_filter_None_2. right. intros e _ H. cbn in H. set_solver.
Qed.

Lemma pending_empty : pending ∅ = edges_out nodes.
Proof using Type. clear nodes_hash. unfold pending. f_equal. apply map_filter_id. intros; set_solver. Qed.

Lemma reach_fuel_ok fuel todo r :
  (length todo + pending r ≤ fuel)%nat → reach fuel nodes todo r ≠ Err OutOfFuel.
Proof using Type. clear nodes_hash.
  revert todo r. induction fuel as [|fuel IH]; intros [|x todo] r Hf; cbn [reach]; try done.
  { cbn [length] in Hf. lia. }
  cbn [length] in Hf. case_bool_decide; [apply IH; lia|].
  destruct (nodes !! x) as [d|] eqn:Hd; [|done]. apply IH.
  rewrite length_app, length_rev. rewrite (pending_add _ _ _ Hd) in Hf by done. lia.
Qed.

Lemma reach_spec fuel todo r r' :
  (∀ x y, x ∈ r → edge x y → y ∈ r ∨ y ∈ todo) → reach fuel nodes todo r = Ok r' →
  r ⊆ r' ∧ (∀ x, x ∈ todo → x ∈ r') ∧ (∀ x y, x ∈ r' → edge x y → y ∈ r') ∧
  (∀ x, x ∈ r' → x ∈ r ∨ ∃ t, t ∈ todo ∧ rtc edge t x).
Proof using Type. clear nodes_hash.
  revert todo r. induction fuel as [|fuel IH]; intros [|x todo] r Hr E; cbn [reach] in E; try done.
  1,2: injection E as <-; split_and!; [done|set_solver| |by left];
    intros y z Hy Hz; by destruct (Hr y z Hy Hz) as [|?%elem_of_nil].
  case_bool_decide as Hx.
  - apply IH in E as (H1 & H2 & H3 & H4); [|set_solver]. split_and!; [done|set_solver|done|].
    intros y [Hy|(t & Ht & Hy)]%H4; [by left|]. right. exists t. split; [by right|done].
  - destruct (nodes !! x) as [d|] eqn:Hd; [|done].
    assert (∀ y, edge x y ↔ y ∈ dep_parents d) as Hedge.
    { intros y. split; [by intros (e & He & Hy); simplify_eq|]. intros Hy. by exists d. }
    apply IH in E as (H1 & H2 & H3 & H4).
    + split_and!; [set_solver|set_solver|done|].
      intros y [[->%elem_of_singleton|Hy]%elem_of_union|(t & Ht & Hy)]%H4; [|by left|].
      * right. exists x. split; [by left|done].
      * right. apply elem_of_app in Ht as [Ht|Ht]; [|exists t; split; [by right|done]].
        exists x. split; [by left|]. eapply rtc_l; [|done]. apply Hedge. by rewrite elem_of_rev in Ht.
    + intros y z [->%elem_of_singleton|Hy]%elem_of_union Hz.
      * right. apply elem_of_app. left. rewrite elem_of_rev. by apply Hedge.
      * destruct (Hr y z Hy Hz) as [Hz'|[->|Hz']%elem_of_cons]; [set_solver..|].
        right. apply elem_of_app. by right.
Qed.

Lemma reach_complete fuel todo r :
  (length todo + pending r ≤ fuel)%nat →
  (∀ t x, t ∈ todo → rtc edge t x → is_Some (nodes !! x)) →
  ∃ r', reach fuel nodes todo r = Ok r'.
Proof using Type. clear nodes_hash.
  revert todo r. induction fuel as [|fuel IH]; intros [|x todo] r Hf Hc; cbn [reach]; eauto.
  { cbn [length] in Hf. lia. }
  cbn [length] in Hf. case_bool_decide.
  { apply IH; [lia|]. intros t y Ht. apply Hc. by right. }
  destruct (Hc x x) as [d Hd]; [by left|done|]. rewrite Hd. apply IH.
  - rewrite length_app, length_rev. rewrite (pending_add _ _ _ Hd) in Hf by done. lia.
  - intros t y [Ht|Ht]%elem_of_app Hy; [|eapply Hc; [by right|done]].
    rewrite elem_of_rev in Ht. apply (Hc x); [by left|]. eapply rtc_l; [by exists d|done].
Qed.

(** The set [reach] computes is the past of its roots. *)
Lemma reach_past roots x r :
  reach (reach_fuel nodes roots) nodes (rev roots) ∅ = Ok r →
  x ∈ r ↔ ∃ t, t ∈ roots ∧ rtc edge t x.
Proof using Type. clear nodes_hash.
  intros E. apply reach_spec in E as (_ & H2 & H3 & H4); [|set_solver]. split.
  - intros [Hx|(t & Ht & Hx)]%H4; [set_solver|]. exists t. by rewrite elem_of_rev in Ht.
  - intros (t & Ht & Hx). assert (t ∈ r) as Htr by (apply H2; by rewrite elem_of_rev).
    clear Ht. induction Hx as [|t y x Hty _ IH]; [done|]. eauto.
Qed.
End Graph.

(** ** The specification *)

(** [x] names [y], for the dependencies of a closure. *)
Definition depends (closure : list dependency) (x y : bytes) : Prop :=
  ∃ d, d ∈ closure ∧ dep_hash d = x ∧ y ∈ dep_parents d.

(** The causal past of a change. *)
Definition in_past (closure : list dependency) (c : change_input) (x : bytes) : Prop :=
  ∃ t, t ∈ h_deps (ci_header c) ∧ rtc (depends closure) t x.

(** The author's previous change is in the past of [x]. *)
Definition linked (closure : list dependency) (x : change_input) : Prop :=
  h_sequence (ci_header x) = 1 ∨
  ∃ p, p ∈ closure ∧ h_previous (ci_header x) = Some (dp_envelope p) ∧
    ci_actor (dp_change p) = ci_actor x ∧
    h_sequence (ci_header (dp_change p)) = h_sequence (ci_header x) - 1 ∧
    in_past closure x (dep_hash p).

Definition slot (x : change_input) : bytes * Z := (ci_actor x, h_sequence (ci_header x)).
Definition change_hash (x : change_input) : bytes := h_hash (ci_header x).
Definition payload_bytes (closure : list dependency) : Z :=
  fold_right Z.add 0 ((λ d, len (ci_payload (dp_change d))) <$> closure).
Definition changes_of (c : change_input) (closure : list dependency) : list change_input :=
  (dp_change <$> closure) ++ [c].

Record admissible (c : change_input) (closure : list dependency) : Prop := {
  ad_count : len closure <= MAX_CLOSURE;
  ad_bytes : len (ci_payload c) + payload_bytes closure <= MAX_CLOSURE_BYTES;
  ad_scope d : d ∈ closure →
    len (dp_envelope d) = 32 ∧ same_scope (ci_header (dp_change d)) (ci_header c) = true;
  ad_hashes : NoDup (dep_hash <$> closure);
  ad_envelopes : NoDup (dp_envelope <$> closure);
  ad_past x : x ∈ dep_hash <$> closure ↔ in_past closure c x;
  ad_acyclic x : ¬ tc (depends closure) x x;
  ad_new : change_hash c ∉ dep_hash <$> closure;
  ad_linked x : x ∈ changes_of c closure → linked closure x;
  ad_slots x y : x ∈ changes_of c closure → y ∈ changes_of c closure →
    slot x = slot y → change_hash x = change_hash y;
}.

(** ** The index *)

Record indexes (closure : list dependency) (n : Z) (ix : index) : Prop := {
  in_nodes x d : ix_nodes ix !! x = Some d ↔ d ∈ closure ∧ dep_hash d = x;
  in_envelopes e d : ix_envelopes ix !! e = Some d ↔ d ∈ closure ∧ dp_envelope d = e;
  in_total : ix_total ix = n + payload_bytes closure;
}.

Lemma need_Ok b code : need b code = Ok tt ↔ b = true.
Proof. apply require_Ok. Qed.

Lemma payload_bytes_snoc l d :
  payload_bytes (l ++ [d]) = payload_bytes l + len (ci_payload (dp_change d)).
Proof.
  unfold payload_bytes. induction l as [|x l IH]; cbn in *; lia.
Qed.

Lemma lookup_insert_snoc (m : gmap bytes dependency) (f : dependency → bytes) (l : list dependency) d :
  (∀ x e, m !! x = Some e ↔ e ∈ l ∧ f e = x) → m !! f d = None →
  ∀ x e, <[f d := d]> m !! x = Some e ↔ e ∈ l ++ [d] ∧ f e = x.
Proof.
  intros Hm Hn x e. rewrite elem_of_app, list_elem_of_singleton.
  destruct (decide (x = f d)) as [->|Hx].
  - rewrite lookup_insert_eq. split; [intros [= <-]; split; [by right|done]|].
    intros [[He| ->] Hf]; [|done]. assert (m !! f d = Some e) by by apply Hm. congruence.
  - rewrite lookup_insert_ne by done. rewrite Hm. naive_solver.
Qed.

Lemma fresh_key (m : gmap bytes dependency) (f : dependency → bytes) (l : list dependency) d :
  (∀ x e, m !! x = Some e ↔ e ∈ l ∧ f e = x) → m !! f d = None ↔ f d ∉ f <$> l.
Proof.
  intros Hm. rewrite list_elem_of_fmap. split.
  - intros Hn (e & He & Hin). assert (m !! f d = Some e) by by apply Hm. congruence.
  - intros Hn. destruct (m !! f d) as [e|] eqn:E; [|done]. exfalso. apply Hn.
    apply Hm in E as [? ?]. by exists e.
Qed.

Lemma index_sound h n closure ix :
  iter (add_dependency h) closure (Index ∅ ∅ n) = Ok ix →
  indexes closure n ix ∧ NoDup (dep_hash <$> closure) ∧ NoDup (dp_envelope <$> closure) ∧
  ∀ d, d ∈ closure → len (dp_envelope d) = 32 ∧ same_scope (ci_header (dp_change d)) h = true.
Proof.
  revert ix. induction closure as [|d l IH] using rev_ind; intros ix E.
  { injection E as <-. split_and!; [|constructor|constructor|set_solver].
    split; cbn; [intros; rewrite lookup_empty; set_solver..|unfold payload_bytes; cbn; lia]. }
  rewrite iter_app in E. apply bind_Ok in E as (ix0 & E0 & E).
  destruct (IH _ E0) as ([I1 I2 I3] & Hn1 & Hn2 & Hall). cbn [iter] in E.
  destruct (add_dependency h d ix0) as [ix1|] eqn:Ea; [|done]. injection E as ->.
  unfold add_dependency in Ea.
  apply bind_Ok in Ea as ([] & H1%need_Ok%Z.eqb_eq & Ea).
  apply bind_Ok in Ea as ([] & H2%need_Ok & Ea).
  apply bind_Ok in Ea as ([] & H3%need_Ok & Ea). injection Ea as <-.
  apply andb_prop in H3 as [H3%bool_decide_eq_true H4%bool_decide_eq_true].
  split_and!.
  - split; cbn; [by apply lookup_insert_snoc..|]. rewrite I3, payload_bytes_snoc. lia.
  - rewrite fmap_app. apply NoDup_app. split_and!; [done| |apply NoDup_singleton].
    intros x Hx ->%list_elem_of_singleton. by apply (fresh_key _ _ _ _ I1) in H3.
  - rewrite fmap_app. apply NoDup_app. split_and!; [done| |apply NoDup_singleton].
    intros x Hx ->%list_elem_of_singleton. by apply (fresh_key _ _ _ _ I2) in H4.
  - intros e [He| ->%list_elem_of_singleton]%elem_of_app; [by apply Hall|done].
Qed.

Lemma index_complete h n closure :
  NoDup (dep_hash <$> closure) → NoDup (dp_envelope <$> closure) →
  (∀ d, d ∈ closure → len (dp_envelope d) = 32 ∧ same_scope (ci_header (dp_change d)) h = true) →
  ∃ ix, iter (add_dependency h) closure (Index ∅ ∅ n) = Ok ix.
Proof.
  induction closure as [|d l IH] using rev_ind; intros Hn1 Hn2 Hall; [by eexists|].
  rewrite fmap_app in Hn1, Hn2. apply NoDup_app in Hn1 as (Hn1 & Hd1 & _).
  apply NoDup_app in Hn2 as (Hn2 & Hd2 & _).
  destruct IH as [ix Hix]; [done..| |].
  { intros e He. apply Hall, elem_of_app. by left. }
  destruct (Hall d) as [H1 H2]; [apply elem_of_app; right; by left|].
  pose proof (index_sound _ _ _ _ Hix) as ([I1 I2 _] & _).
  eexists. rewrite iter_app, Hix. cbn [mbind result_bind iter]. unfold add_dependency.
  rewrite (proj2 (Z.eqb_eq _ _) H1), H2. cbn [need require mbind result_bind].
  rewrite (bool_decide_eq_true_2 (ix_nodes ix !! _ = None)),
    (bool_decide_eq_true_2 (ix_envelopes ix !! _ = None)); [done|..].
  - apply (fresh_key _ dp_envelope _ _ I2). intros H. eapply Hd2; [done|by left].
  - apply (fresh_key _ dep_hash _ _ I1). intros H. eapply Hd1; [done|by left].
Qed.

(** ** The search *)

Section Search.
Context (closure : list dependency) (n : Z) (ix : index) (Hix : indexes closure n ix).
Notation nodes := (ix_nodes ix).

Lemma ix_hash x d : nodes !! x = Some d → dep_hash d = x.
Proof. by intros [_ ?]%(in_nodes _ _ _ Hix). Qed.

Lemma edge_depends x y : edge nodes x y ↔ depends closure x y.
Proof.
  unfold edge, depends. split; intros (d & H); exists d; rewrite (in_nodes _ _ _ Hix) in *; tauto.
Qed.

Lemma rtc_depends x y : rtc (edge nodes) x y ↔ rtc (depends closure) x y.
Proof. split; apply rtc_subrel; intros ? ?; apply edge_depends. Qed.

Lemma acyclic_depends : acyclic nodes ↔ ∀ x, ¬ tc (depends closure) x x.
Proof.
  split; intros H x Hx; apply (H x); (eapply tc_mono; [|exact Hx]); intros ? ?; apply edge_depends.
Qed.

Lemma in_dom x : x ∈ dom nodes ↔ x ∈ dep_hash <$> closure.
Proof.
  rewrite elem_of_dom, list_elem_of_fmap. split.
  - intros [d [? ?]%(in_nodes _ _ _ Hix)]. by exists d.
  - intros (d & -> & Hd). exists d. by apply (in_nodes _ _ _ Hix).
Qed.

Definition search (roots : list bytes) : result walk :=
  iter (visit (S (size nodes)) nodes ∅) (sorted_bytes roots) (∅, []).

(** A search that covers the nodes orders them, and they are the past of the roots. *)
Lemma search_sound roots st :
  search roots = Ok st → st.1 = dom nodes → NoDup (dep_hash <$> closure) →
  st.2 ≡ₚ closure ∧ topological st.2 ∧ acyclic nodes ∧
  ∀ x, x ∈ dep_hash <$> closure ↔ ∃ t, t ∈ roots ∧ rtc (depends closure) t x.
Proof.
  intros E Hdom Hnd. unfold search in E.
  assert (extends nodes ∅ (sorted_bytes roots) (∅, []) st) as [Hg _ H2 _ H4].
  { eapply iter_extends; [|apply good_nil|exact E]. intros x s s' _ Gs Hs.
    exact (visit_extends nodes ix_hash _ _ _ _ _ Gs Hs). }
  pose proof Hg as [G1 G2 G3 G4].
  assert (∀ d, d ∈ st.2 ↔ d ∈ closure) as Hin.
  { intros d. split; [intros Hd%G2; by apply (in_nodes _ _ _ Hix) in Hd as [? _]|]. intros Hd.
    assert (dep_hash d ∈ st.1) as Hs
      by (rewrite Hdom; apply in_dom, list_elem_of_fmap; by exists d).
    apply G1, list_elem_of_fmap in Hs as (e & He & Hin). pose proof (G2 _ Hin) as Hl.
    apply (in_nodes _ _ _ Hix) in Hl as [Hl _].
    by rewrite (same_hash _ e d Hnd Hl Hd He). }
  assert (acyclic nodes) as Hac.
  { apply (topological_acyclic nodes ix_hash st.2); [done|done|].
    intros x d Hd. apply Hin. by apply (in_nodes _ _ _ Hix) in Hd as [? _]. }
  split_and!; [|done|done|].
  - apply NoDup_Permutation; [by eapply NoDup_fmap_1|by eapply NoDup_fmap_1|done].
  - intros x. rewrite <-in_dom, <-Hdom. split.
    + intros [Hx|(t & Ht & Hx)]%H4; [set_solver|]. exists t. rewrite in_sorted in Ht.
      by rewrite rtc_depends in Hx.
    + intros (t & Ht & Hx). assert (t ∈ st.1) as Hts by (apply H2; by rewrite in_sorted).
      clear Ht. induction Hx as [|t y x (d & Hd & <- & Hy) _ IH]; [done|]. apply IH.
      rewrite <-Hin in Hd. apply list_elem_of_split in Hd as (l1 & l2 & El).
      apply G1. rewrite El, fmap_app, elem_of_app. left. by eapply G4.
Qed.

Lemma search_complete roots :
  (∀ x, ¬ tc (depends closure) x x) →
  (∀ x, x ∈ dep_hash <$> closure ↔ ∃ t, t ∈ roots ∧ rtc (depends closure) t x) →
  ∃ st, search roots = Ok st ∧ st.1 = dom nodes.
Proof.
  intros Hac Hpast. rewrite <-acyclic_depends in Hac. unfold search.
  assert (∀ l st, (∀ r, r ∈ l → r ∈ roots) → good nodes st →
    ∃ st', iter (visit (S (size nodes)) nodes ∅) l st = Ok st') as Hi.
  { induction l as [|r l IH]; intros st Hl Hg; cbn [iter]; [eauto|].
    destruct (visit_complete nodes ix_hash (S (size nodes)) ∅ r st) as [s Hs];
      [done|done| |set_solver|set_solver|rewrite size_empty; lia|].
    - intros x Hx. apply elem_of_dom, in_dom, Hpast. exists r. rewrite <-rtc_depends.
      split; [apply Hl; by left|done].
    - rewrite Hs. apply IH; [intros q Hq; apply Hl; by right|].
      exact (ex_good _ _ _ _ _ (visit_extends nodes ix_hash _ _ _ _ _ Hg Hs)). }
  destruct (Hi (sorted_bytes roots) (∅, [])) as [st Hst];
    [intros r; by rewrite in_sorted|apply good_nil|].
  exists st. split; [done|]. apply set_eq. intros x.
  assert (extends nodes ∅ (sorted_bytes roots) (∅, []) st) as [[G1 G2 G3 G4] _ H2 _ H4].
  { eapply iter_extends; [|apply good_nil|exact Hst]. intros y s s' _ Gs Hs.
    exact (visit_extends nodes ix_hash _ _ _ _ _ Gs Hs). }
  rewrite in_dom. split.
  - intros [Hx|(t & Ht & Hx)]%H4; [set_solver|]. apply Hpast. exists t. rewrite in_sorted in Ht.
    by rewrite rtc_depends in Hx.
  - intros (t & Ht & Hx)%Hpast. assert (t ∈ st.1) as Hts by (apply H2; by rewrite in_sorted).
    clear Ht. induction Hx as [|t y x (d & Hd & <- & Hy) _ IH]; [done|]. apply IH.
    apply G1, list_elem_of_fmap in Hts as (e & He & Hts). pose proof (G2 _ Hts) as Hl.
    assert (e = d) as ->.
    { assert (nodes !! dep_hash d = Some d) by by apply (in_nodes _ _ _ Hix). congruence. }
    apply list_elem_of_split in Hts as (l1 & l2 & El).
    apply G1. rewrite El, fmap_app, elem_of_app. left. by eapply G4.
Qed.

(** ** Authors *)

Lemma previous_linked x :
  (∀ t y, t ∈ h_deps (ci_header x) → rtc (depends closure) t y → y ∈ dep_hash <$> closure) →
  check_previous ix x = Ok tt ↔ linked closure x.
Proof.
  intros Hclosed. unfold check_previous, linked.
  destruct (Z.eqb_spec (h_sequence (ci_header x)) 1) as [H1|H1]; [tauto|].
  destruct (h_previous (ci_header x)) as [e|] eqn:He; cbn [mbind option_bind].
  2: split; [done|by intros [?|(p & _ & ? & _)]].
  destruct (ix_envelopes ix !! e) as [p|] eqn:Hp.
  2: { split; [done|]. intros [?|(p & Hin & [= ->] & _)]; [done|].
       assert (ix_envelopes ix !! dp_envelope p = Some p) by by apply (in_envelopes _ _ _ Hix).
       congruence. }
  apply (in_envelopes _ _ _ Hix) in Hp as Hpe. destruct Hpe as [Hin <-].
  destruct (reach_complete nodes (reach_fuel nodes (h_deps (ci_header x)))
              (rev (h_deps (ci_header x))) ∅) as [r Hr].
  { unfold reach_fuel. rewrite length_rev, pending_empty. unfold edges_out. lia. }
  { intros t y Ht Hy. rewrite elem_of_rev in Ht. rewrite rtc_depends in Hy.
    apply elem_of_dom, in_dom. by eapply Hclosed. }
  assert (dep_hash p ∈ r ↔ in_past closure x (dep_hash p)) as Hpast.
  { rewrite (reach_past _ _ _ _ Hr). unfold in_past. by setoid_rewrite rtc_depends. }
  split.
  - intros E. apply bind_Ok in E as ([] & [Ha Hs]%need_Ok%andb_prop & E).
    apply bool_decide_eq_true in Ha. apply Z.eqb_eq in Hs.
    rewrite Hr in E. cbn in E. apply need_Ok, bool_decide_eq_true in E.
    right. exists p. split_and!; [done|done|done|done|by apply Hpast].
  - intros [?|(q & Hq & [= Eq] & Ha & Hs & Hqp)]; [done|].
    assert (q = p) as ->.
    { assert (ix_envelopes ix !! dp_envelope q = Some q) by by apply (in_envelopes _ _ _ Hix).
      congruence. }
    rewrite bool_decide_eq_true_2 by done. rewrite (proj2 (Z.eqb_eq _ _) Hs).
    cbn [andb need require mbind result_bind]. rewrite Hr. cbn [mbind result_bind].
    apply need_Ok, bool_decide_eq_true. by apply Hpast.
Qed.
End Search.

(** The same, without the index: every change of an admitted set is within the closure. *)
Definition closed_under (closure : list dependency) (x : change_input) : Prop :=
  ∀ t y, t ∈ h_deps (ci_header x) → rtc (depends closure) t y → y ∈ dep_hash <$> closure.

(** [slots] after a run of [check_slot]. *)
Lemma slots_sound l m :
  iter check_slot l ∅ = Ok m →
  (∀ x, x ∈ l → m !! slot x = Some (change_hash x)) ∧
  ∀ k v, m !! k = Some v → ∃ x, x ∈ l ∧ slot x = k ∧ change_hash x = v.
Proof.
  revert m. induction l as [|c l IH] using rev_ind; intros m E.
  { injection E as <-. split; [set_solver|]. intros k v. by rewrite lookup_empty. }
  rewrite iter_app in E. apply bind_Ok in E as (m0 & E0 & E). destruct (IH _ E0) as [I1 I2].
  cbn [iter] in E. destruct (check_slot c m0) as [m1|] eqn:Ec; [|done]. injection E as ->.
  unfold check_slot in Ec. apply bind_Ok in Ec as ([] & H%need_Ok & Ec). injection Ec as <-.
  change (ci_actor c, h_sequence (ci_header c)) with (slot c) in *.
  change (h_hash (ci_header c)) with (change_hash c) in *. split.
  - intros x [Hx| ->%list_elem_of_singleton]%elem_of_app; [|by rewrite lookup_insert_eq].
    destruct (decide (slot x = slot c)) as [Es|Es].
    + rewrite Es, lookup_insert_eq. specialize (I1 x Hx). rewrite Es in I1. rewrite I1 in H.
      by apply bool_decide_eq_true in H as ->.
    + rewrite lookup_insert_ne by done. by apply I1.
  - intros k v. destruct (decide (slot c = k)) as [<-|Hk].
    + rewrite lookup_insert_eq. intros [= <-]. exists c. split_and!; [|done|done].
      apply elem_of_app. right. by left.
    + rewrite lookup_insert_ne by done. intros (x & Hx & ? & ?)%I2. exists x.
      split_and!; [|done|done]. apply elem_of_app. by left.
Qed.

Lemma slots_complete l :
  (∀ x y, x ∈ l → y ∈ l → slot x = slot y → change_hash x = change_hash y) →
  ∃ m, iter check_slot l ∅ = Ok m.
Proof.
  induction l as [|c l IH] using rev_ind; intros Hl; [by eexists|].
  destruct IH as [m Hm]. { intros x y Hx Hy. apply Hl; apply elem_of_app; by left. }
  destruct (slots_sound _ _ Hm) as [_ I2]. rewrite iter_app, Hm. cbn [mbind result_bind iter].
  unfold check_slot. change (ci_actor c, h_sequence (ci_header c)) with (slot c).
  change (h_hash (ci_header c)) with (change_hash c).
  destruct (m !! slot c) as [v|] eqn:E; [|by eexists].
  apply I2 in E as (x & Hx & Es & Ev).
  rewrite bool_decide_eq_true_2; [by eexists|]. rewrite <-Ev.
  apply Hl; [apply elem_of_app; by left|apply elem_of_app; right; by left|done].
Qed.

(** ** The properties *)

Lemma changes_perm c order closure x :
  order ≡ₚ closure → x ∈ (dp_change <$> order) ++ [c] ↔ x ∈ changes_of c closure.
Proof. intros Hp. unfold changes_of. by rewrite Hp. Qed.

(** Every change of the set stays within the closure. *)
Lemma changes_closed c closure x :
  (∀ y, y ∈ dep_hash <$> closure ↔ in_past closure c y) →
  x ∈ changes_of c closure → closed_under closure x.
Proof.
  intros Hpast Hx t y Ht Hy. apply Hpast.
  apply elem_of_app in Hx as [(d & -> & Hd)%list_elem_of_fmap| ->%list_elem_of_singleton].
  - assert (dep_hash d ∈ dep_hash <$> closure) as (r & Hr & Hrd)%Hpast
      by (apply list_elem_of_fmap; by exists d).
    exists r. split; [done|]. etrans; [done|]. eapply rtc_l; [|done]. by exists d.
  - by exists t.
Qed.

Lemma core_request_inv c closure r :
  core_request c closure = Ok r →
  admissible c closure ∧ ∃ order, order ≡ₚ closure ∧ topological order ∧
    r = Request (change_descriptor c) (change_descriptor ∘ dp_change <$> order).
Proof.
  intros E. unfold core_request in E.
  apply bind_Ok in E as ([] & H1%need_Ok%Z.leb_le & E).
  apply bind_Ok in E as (ix & Hi & E).
  apply bind_Ok in E as ([] & H2%need_Ok%Z.leb_le & E).
  apply bind_Ok in E as (st & Hs & E).
  apply bind_Ok in E as ([] & H3%need_Ok%bool_decide_eq_true & E).
  apply bind_Ok in E as ([] & H4%need_Ok%bool_decide_eq_true & E).
  apply bind_Ok in E as ([] & H5 & E). rewrite iter_check in H5.
  apply bind_Ok in E as (m & H6 & E). injection E as <-.
  apply index_sound in Hi as (Hix & Hn1 & Hn2 & Hall).
  destruct (search_sound _ _ _ Hix _ _ Hs H3 Hn1) as (Hperm & Htopo & Hac & Hpast).
  split; [|by exists st.2]. split; try done.
  - rewrite (in_total _ _ _ Hix) in H2. done.
  - by apply (acyclic_depends _ _ _ Hix).
  - unfold change_hash. rewrite <-(in_dom _ _ _ Hix). by apply not_elem_of_dom.
  - intros x Hx. rewrite <-(changes_perm c st.2) in Hx by done.
    apply (previous_linked _ _ _ Hix); [|by apply H5].
    eapply changes_closed; [done|]. by rewrite <-(changes_perm c st.2).
  - intros x y Hx Hy Hxy. rewrite <-(changes_perm c st.2) in Hx, Hy by done.
    apply slots_sound in H6 as [H6 _]. apply H6 in Hx. apply H6 in Hy. congruence.
Qed.

(** C17. [core_request] accepts a candidate with a list of dependencies exactly when the list is
    the candidate's causal past: within the budgets, of one scope, without equivocation
    or cycle, complete and without anything extraneous, and with every author's previous
    change in the causal past of the next. *)
Theorem core_request_exact c closure :
  (∃ r, core_request c closure = Ok r) ↔ admissible c closure.
Proof.
  split; [by intros (r & [? _]%core_request_inv)|].
  intros [A1 A2 A3 A4 A5 A6 A7 A8 A9 A10]. unfold core_request.
  run_ex (proj2 (need_Ok _ "RESOURCE_LIMIT") (proj2 (Z.leb_le _ _) A1)).
  destruct (index_complete (ci_header c) (len (ci_payload c)) closure) as [ix Hi]; [done..|].
  pose proof (index_sound _ _ _ _ Hi) as (Hix & _). run_ex Hi.
  rewrite (in_total _ _ _ Hix).
  run_ex (proj2 (need_Ok _ "RESOURCE_LIMIT") (proj2 (Z.leb_le _ _) A2)).
  destruct (search_complete _ _ _ Hix (h_deps (ci_header c)) A7 A6) as (st & Hs & Hd). run_ex Hs.
  destruct (search_sound _ _ _ Hix _ _ Hs Hd A4) as (Hperm & _).
  run_ex (proj2 (need_Ok _ "EXTRANEOUS_DEPENDENCY") (bool_decide_eq_true_2 _ Hd)).
  assert (ix_nodes ix !! h_hash (ci_header c) = None) as Hnew
    by (apply not_elem_of_dom; by rewrite (in_dom _ _ _ Hix)).
  run_ex (proj2 (need_Ok _ "CHANGE_ALREADY_PRESENT") (bool_decide_eq_true_2 _ Hnew)).
  refine (bind_step_ex _ _ tt _ _); cbv beta.
  { apply iter_check. intros x Hx. apply (previous_linked _ _ _ Hix).
    - eapply changes_closed; [done|]. by rewrite <-(changes_perm c st.2).
    - apply A9. by rewrite <-(changes_perm c st.2). }
  destruct (slots_complete ((dp_change <$> st.2) ++ [c])) as [m Hm].
  { intros x y Hx Hy. apply A10; by rewrite <-(changes_perm c st.2). }
 run_ex Hm. by eexists.
Qed.

(** The closure of an accepted request is the given one, every change after the changes it
    names. *)
Theorem core_request_order c closure r :
  core_request c closure = Ok r →
  rq_candidate r = change_descriptor c ∧
  ∃ order, rq_closure r = (change_descriptor ∘ dp_change <$> order) ∧ order ≡ₚ closure ∧
    topological order.
Proof.
  intros (_ & order & Hp & Ht & ->)%core_request_inv. split; [done|]. by exists order.
Qed.

(** C35. The search, the reachability worklists and the checks always end within their bounds: no
    input, cyclic or incomplete, makes [core_request] run out of fuel. *)
Theorem core_request_terminates c closure : core_request c closure ≠ Err OutOfFuel.
Proof.
  intros E. unfold core_request in E.
  apply bind_Err in E as [[_ ?]%require_Err|([] & _ & E)]; [done|].
  apply bind_Err in E as [(d & ix & _ & E)%iter_Err|(ix & Hi & E)].
  { unfold add_dependency in E.
    do 3 (apply bind_Err in E as [[_ ?]%require_Err|([] & _ & E)]; [done|]). done. }
  apply index_sound in Hi as (Hix & _).
  apply bind_Err in E as [[_ ?]%require_Err|([] & _ & E)]; [done|].
  apply bind_Err in E as [(x & st & _ & E)%iter_Err|(st & _ & E)].
  { apply visit_fuel in E; [done|set_solver|rewrite size_empty; lia]. }
  do 2 (apply bind_Err in E as [[_ ?]%require_Err|([] & _ & E)]; [done|]).
  apply bind_Err in E as [(x & [] & _ & E)%iter_Err|([] & _ & E)].
  { unfold check_previous in E. destruct (_ =? 1); [done|].
    destruct (h_previous _ ≫= _) as [p|]; [|done].
    apply bind_Err in E as [[_ ?]%require_Err|([] & _ & E)]; [done|].
    apply bind_Err in E as [E|(past & _ & [_ ?]%require_Err)]; [|done].
    apply reach_fuel_ok in E; [done|]. unfold reach_fuel.
    rewrite length_rev, pending_empty. unfold edges_out. lia. }
  apply bind_Err in E as [(x & m & _ & E)%iter_Err|(m & _ & E)]; [|done].
  unfold check_slot in E. by apply bind_Err in E as [[_ ?]%require_Err|([] & _ & E)].
Qed.

(** ** A concrete history *)

Definition sample_hash (i : Z) : bytes := raw (repeat i 32).

(** Change [i] of one author, its dependencies and its previous envelope. *)
Definition sample_change (i sequence : Z) (previous : option Z) (deps : list Z) : change_input :=
  ChangeInput [] (Hdr [97] (sample_hash 1) 1 (sample_hash 2) 1 (sample_hash 3) [] sequence
                    (sample_hash <$> previous) (sample_hash 4) (sample_hash <$> deps) 1
                    (sample_hash (100 + i)) (sample_hash 5) 1 0) (raw [i]) (sample_hash 6).
Definition sample_dependency (i sequence : Z) (previous : option Z) (deps : list Z) : dependency :=
  Dependency (sample_hash (200 + i)) (sample_change i sequence previous deps).

Definition sample_closure : list dependency :=
  [sample_dependency 2 2 (Some 201) [101]; sample_dependency 1 1 None []].
Definition sample_candidate : change_input := sample_change 3 3 (Some 202) [102; 101].

Definition sample_request : request :=
  Request (change_descriptor sample_candidate)
    (change_descriptor ∘ dp_change <$> rev sample_closure).

Lemma core_request_order_witness :
  rq_candidate sample_request = change_descriptor sample_candidate ∧
  ∃ order, rq_closure sample_request = (change_descriptor ∘ dp_change <$> order) ∧
    order ≡ₚ sample_closure ∧ topological order.
Proof.
  apply (core_request_order sample_candidate sample_closure sample_request).
  vm_compute. reflexivity.
Defined.
