(* ===== verification/Membership.v ===== *)
(** * Bounded parsing and Space membership
    (experiments/space-auth/par_auth/common.py and membership.py)

    The lower layers' errors are translated: [auth_parse] turns a [WireError] into
    [SCHEMA_INVALID], [crypto_call] a [CryptoError] into [CRYPTO_INVALID]. *)

From S2P Require Import Prelude Bytes Value Codec Flat CddlText Schema SchemaSpec Hash Sodium Primitives Objects.
Local Open Scope Z_scope.

Definition auth (code : string) : exn := AuthError code.

(** ** common.py *)

Definition auth_fixed (b : bytes) (length : Z) : result unit :=
  require (len b =? length) (auth "SCHEMA_INVALID").

(** [blob] on an untrusted object: its bytes. *)
Definition blob (v : value) (maximum minimum : Z) : result bytes :=
  match v with
  | VBytes b =>
      _ ← require ((minimum <=? len b) && (len b <=? maximum)) (auth "SCHEMA_INVALID"); Ok b
  | _ => Err (auth "SCHEMA_INVALID")
  end.

Definition schema (rule : string) (v : value) : result value :=
  _ ← catch_wire (auth "SCHEMA_INVALID") (validate default_schema rule v); Ok v.

Definition auth_parse (rule : string) (v : value) (limit : Z) : result value :=
  b ← blob v limit 1;
  x ← catch_wire (auth "SCHEMA_INVALID") (decode_with limit MAX_NODES b);
  schema rule x.

Definition auth_app (v : value) : result pystr := catch_crypto (auth "SCHEMA_INVALID") (app_id v).

Definition auth_canonical (v : value) (limit : Z) : result bytes :=
  catch_wire (auth "RESOURCE_BLOCKED") (encode_with limit MAX_NODES v).

Definition crypto_call {A} (m : result A) : result A := catch_crypto (auth "CRYPTO_INVALID") m.

(** ** membership.py *)

Definition PAGE_ENTRIES : Z := 64.
Definition MAX_MEMBERS : Z := 256.

Record member := Member { m_device : bytes; m_certificate : bytes; m_role : Z }.

#[export] Instance member_eq_dec : EqDecision member.
Proof. solve_decision. Defined.

Record membership := Membership {
  ms_root : bytes;
  ms_pages : list bytes;
  ms_members : list member;
}.

(** [Membership.get] *)
Definition find_member (device : bytes) (l : list member) : option member :=
  List.find (λ m, bool_decide (m_device m = device)) l.
Definition ms_get (ms : membership) (device : bytes) : option member :=
  find_member device (ms_members ms).

Definition content_members (ms : membership) : list member :=
  List.filter (λ m, (m_role m =? 1) || (m_role m =? 2)) (ms_members ms).

(** [Member(m[0], m[1], m[2])] *)
Definition read_member (e : value) : result member :=
  d ← bytes_at e 0; c ← bytes_at e 1; r ← int_at e 2; Ok (Member d c r).

(** [[values[i:i+n] for i in range(0, len(values), n)]] *)
Fixpoint chunks {A} (fuel : nat) (n : nat) (l : list A) : list (list A) :=
  match fuel, l with
  | S f, _ :: _ => take n l :: chunks f n (drop n l)
  | _, _ => []
  end.

Definition entry_le (a b : bytes * value) : Prop := bytes_le a.1 b.1.
#[export] Instance entry_le_dec : RelDecision entry_le.
Proof. intros a b. unfold entry_le. apply _. Defined.

Definition build_membership (entries : list value) : result (list bytes) :=
  if MAX_MEMBERS <? len entries then Err (auth "RESOURCE_BLOCKED")
  else
    _ ← mapM (schema "member-entry") entries;
    keys ← mapM (λ e, bytes_at e 0) entries;
    let values := merge_sort entry_le (zip keys entries) in
    _ ← require (bool_decide (NoDup values.*1)) (auth "MEMBERSHIP_ORDER");
    mapM (λ page, auth_canonical (VList page) MAX_BYTES)
      (chunks (length values) (Z.to_nat PAGE_ENTRIES) values.*2).

(** The inner loop: the members of one page, strictly increasing after [previous]. *)
Fixpoint page_members (previous : option bytes) (page : list value) : result (list member) :=
  match page with
  | [] => Ok []
  | e :: page' =>
      m ← read_member e;
      if match previous with Some p => negb (bytes_ltb p (m_device m)) | None => false end
      then Err (auth "MEMBERSHIP_ORDER")
      else ms ← page_members (Some (m_device m)) page'; Ok (m :: ms)
  end.

(** The outer loop; [last] tells the page at index [len(owned)-1]. *)
Fixpoint pages_members (previous : option bytes) (pages : list value) : result (list member) :=
  match pages with
  | [] => Ok []
  | p :: pages' =>
      page ← auth_parse "member-page" p 32768; page ← as_list page;
      if negb ((1 <=? len page) && (len page <=? PAGE_ENTRIES))
         || (negb (len pages' =? 0) && negb (len page =? PAGE_ENTRIES))
      then Err (auth "MEMBERSHIP_LAYOUT")
      else
        ms ← page_members previous page;
        rest ← pages_members (match last ms with Some m => Some (m_device m) | None => previous end)
                 pages';
        Ok (ms ++ rest)
  end.

Section Membership.
Context `{Hash} `{Sodium}.

Definition membership_root (pages : list value) : result bytes :=
  ids ← mapM (λ p, hashed "member-page-id" [p]) pages;
  hashed "membership-root" [VList (VBytes <$> ids)].

Definition verify_membership (expected_root : bytes) (pages : value) : result membership :=
  _ ← auth_fixed expected_root 32;
  match pages with
  | VList owned =>
      if MAX_MEMBERS / PAGE_ENTRIES <? len owned then Err (auth "RESOURCE_BLOCKED")
      else
        members ← pages_members None owned;
        root ← membership_root owned;
        _ ← require (bool_decide (root = expected_root)) (auth "MEMBERSHIP_ROOT");
        raws ← mapM bytes_arg owned;
        Ok (Membership root raws members)
  | _ => Err (auth "SCHEMA_INVALID")
  end.

Definition device_id (app : pystr) (pk : value) : result bytes :=
  hashed "device-id" [VStr app; pk].

(** The certificate's body, once its digest is the one the authority committed to. *)
Definition member_certificate (app : pystr) (ms : membership) (r : bytes) : result value :=
  _ ← auth_app (VStr app);
  outer ← auth_parse "signed-object" (VBytes r) 66000;
  inner ← getitem outer 0;
  body ← auth_parse "certificate-body" inner 66000;
  b1 ← getitem body 1;
  _ ← require (bool_decide (b1 = VStr app)) (auth "CONTEXT_MISMATCH");
  pk ← getitem body 3;
  did ← device_id app pk;
  match ms_get ms did with
  | None => Err (auth "NOT_AUTHORIZED")
  | Some m =>
      cid ← certificate_id r;
      _ ← require (bool_decide (cid = m_certificate m)) (auth "CERTIFICATE_BINDING");
      account ← bytes_at body 2;
      crypto_call (verify_certificate (VStr app) account r)
  end.
End Membership.
