(* ===== verification/Authority.v ===== *)
(** * The Space authority state (experiments/space-auth/par_auth/chain.py and activation.py)

    [authority] is the object's state; each method returns the object it leaves with
    its result.  A [Control] keeps its decoded body next to its bytes.  Two things of
    the code have no counterpart, since the model runs on one thread and the provider
    is a function: the owning-thread test, and the [_busy] flag against re-entrancy. *)

From S2P Require Import Prelude Bytes Value Codec Flat CddlText Schema SchemaSpec Hash Sodium Primitives Objects Membership.
Local Open Scope Z_scope.

Definition MAX_HISTORY_BYTES : Z := 768 * 1024.

(** ** Bodies *)

(** [control-body], field by field. *)
Record cbody := CBody {
  cb_app : pystr;
  cb_space : bytes;
  cb_seq : Z;
  cb_epoch : Z;
  cb_parent : bytes;
  cb_action : Z;
  cb_members : bytes;
  cb_policy : bytes;
  cb_packages : option bytes;
  cb_seeds : option bytes;
  cb_set : option bytes;
  cb_signer : bytes;
  cb_next : option bytes;
  cb_features : bytes;
}.

(** [genesis-body]. *)
Record gbody := GBody {
  gb_app : pystr;
  gb_authority : bytes;
  gb_members : bytes;
  gb_policy : bytes;
}.

Definition opt_bytes_at (v : value) (k : Z) : result (option bytes) :=
  x ← getitem v k;
  match x with VNone => Ok None | _ => b ← bytes_arg x; Ok (Some b) end.

Definition read_control (v : value) : result cbody :=
  b0 ← str_at v 0; b1 ← bytes_at v 1; b2 ← int_at v 2; b3 ← int_at v 3; b4 ← bytes_at v 4;
  b5 ← int_at v 5; b6 ← bytes_at v 6; b7 ← bytes_at v 7; b8 ← opt_bytes_at v 8;
  b9 ← opt_bytes_at v 9; b10 ← opt_bytes_at v 10; b11 ← bytes_at v 11;
  b12 ← opt_bytes_at v 12; b13 ← bytes_at v 13;
  Ok (CBody b0 b1 b2 b3 b4 b5 b6 b7 b8 b9 b10 b11 b12 b13).

Definition read_genesis (v : value) : result gbody :=
  b1 ← str_at v 1; b2 ← bytes_at v 2; b4 ← bytes_at v 4; b5 ← bytes_at v 5;
  Ok (GBody b1 b2 b4 b5).

Record control := Control {
  c_raw : bytes;
  c_body_bytes : bytes;
  c_body : cbody;
  c_id : bytes;
  c_after : bytes;
  c_anchor : bytes;
}.

(** [ActiveMaterial] *)
Record material := Material {
  am_epoch : Z;
  am_anchor : bytes;
  am_recipient : bytes;
  am_secret : bytes;
  am_seeds : list (bytes * bytes);
  am_cut : list bytes;
}.

(** An entry of the event history: a control, or the pages of a membership. *)
Inductive event :=
| EControl (r : bytes)
| EMembers (pages : list bytes).

Record authority := Authority {
  a_owner : Z;                      (* the identity of the Python object *)
  a_app : pystr;
  a_space : bytes;
  a_genesis : bytes;
  a_genesis_body : bytes;
  a_initial : gbody;
  a_max_controls : Z;
  a_nodes : gmap bytes control;
  a_sequences : gmap Z bytes;
  a_memberships : gmap bytes membership;
  a_resolved : gset bytes;
  a_head : bytes;
  a_revision : Z;
  a_stamp : Z;                      (* the identity of the current [_stamp] object *)
  a_events : list event;
  a_event_bytes : Z;
  a_fork : option (bytes * bytes);
  a_invalid : bool;
  a_active : option material;
  a_key_checks : gmap Z bytes;
  a_permit_key : bytes;
}.

(** Functional updates of the fields the methods assign. *)
Definition bump (a : authority) : authority :=
  Authority (a_owner a) (a_app a) (a_space a) (a_genesis a) (a_genesis_body a) (a_initial a)
    (a_max_controls a) (a_nodes a) (a_sequences a) (a_memberships a) (a_resolved a) (a_head a)
    (a_revision a + 1) (a_stamp a + 1) (a_events a) (a_event_bytes a) (a_fork a) (a_invalid a)
    (a_active a) (a_key_checks a) (a_permit_key a).

Definition record_event (e : event) (weight : Z) (a : authority) : authority :=
  Authority (a_owner a) (a_app a) (a_space a) (a_genesis a) (a_genesis_body a) (a_initial a)
    (a_max_controls a) (a_nodes a) (a_sequences a) (a_memberships a) (a_resolved a) (a_head a)
    (a_revision a) (a_stamp a) (a_events a ++ [e]) (a_event_bytes a + weight) (a_fork a)
    (a_invalid a) (a_active a) (a_key_checks a) (a_permit_key a).

Definition set_fork (f : bytes * bytes) (a : authority) : authority :=
  Authority (a_owner a) (a_app a) (a_space a) (a_genesis a) (a_genesis_body a) (a_initial a)
    (a_max_controls a) (a_nodes a) (a_sequences a) (a_memberships a) (a_resolved a) (a_head a)
    (a_revision a) (a_stamp a) (a_events a) (a_event_bytes a) (Some f) (a_invalid a)
    (a_active a) (a_key_checks a) (a_permit_key a).

Definition set_invalid (a : authority) : authority :=
  Authority (a_owner a) (a_app a) (a_space a) (a_genesis a) (a_genesis_body a) (a_initial a)
    (a_max_controls a) (a_nodes a) (a_sequences a) (a_memberships a) (a_resolved a) (a_head a)
    (a_revision a) (a_stamp a) (a_events a) (a_event_bytes a) (a_fork a) true
    (a_active a) (a_key_checks a) (a_permit_key a).

Definition add_node (n : control) (a : authority) : authority :=
  Authority (a_owner a) (a_app a) (a_space a) (a_genesis a) (a_genesis_body a) (a_initial a)
    (a_max_controls a) (<[c_id n := n]> (a_nodes a))
    (<[cb_seq (c_body n) := c_id n]> (a_sequences a)) (a_memberships a) (a_resolved a) (c_id n)
    (a_revision a) (a_stamp a) (a_events a) (a_event_bytes a) (a_fork a) (a_invalid a)
    (a_active a) (a_key_checks a) (a_permit_key a).

Definition add_view (v : membership) (a : authority) : authority :=
  Authority (a_owner a) (a_app a) (a_space a) (a_genesis a) (a_genesis_body a) (a_initial a)
    (a_max_controls a) (a_nodes a) (a_sequences a) (<[ms_root v := v]> (a_memberships a))
    (a_resolved a) (a_head a) (a_revision a) (a_stamp a) (a_events a) (a_event_bytes a) (a_fork a)
    (a_invalid a) (a_active a) (a_key_checks a) (a_permit_key a).

Definition resolve_head (a : authority) : authority :=
  Authority (a_owner a) (a_app a) (a_space a) (a_genesis a) (a_genesis_body a) (a_initial a)
    (a_max_controls a) (a_nodes a) (a_sequences a) (a_memberships a) ({[a_head a]} ∪ a_resolved a)
    (a_head a) (a_revision a) (a_stamp a) (a_events a) (a_event_bytes a) (a_fork a) (a_invalid a)
    (a_active a) (a_key_checks a) (a_permit_key a).

Definition set_active (m : material) (check : bytes) (a : authority) : authority :=
  Authority (a_owner a) (a_app a) (a_space a) (a_genesis a) (a_genesis_body a) (a_initial a)
    (a_max_controls a) (a_nodes a) (a_sequences a) (a_memberships a) (a_resolved a) (a_head a)
    (a_revision a) (a_stamp a) (a_events a) (a_event_bytes a) (a_fork a) (a_invalid a)
    (Some m) (<[am_epoch m := check]> (a_key_checks a)) (a_permit_key a).

(** ** Queries *)

Definition frozen (a : authority) : bool := bool_decide (is_Some (a_fork a)).
Definition sequence (a : authority) : Z := Z.of_nat (size (a_sequences a)).
Definition has_nodes (a : authority) : bool := negb (bool_decide (a_nodes a = ∅)).

(** [self._nodes[id]] *)
Definition node_at (a : authority) (id : bytes) : result control :=
  of_option KeyError (a_nodes a !! id).

Definition epoch (a : authority) : result Z :=
  if has_nodes a then n ← node_at a (a_head a); Ok (cb_epoch (c_body n)) else Ok 0.

Definition authority_public (a : authority) : result bytes :=
  if has_nodes a then n ← node_at a (a_head a); Ok (c_after n) else Ok (gb_authority (a_initial a)).

Definition active_epoch (a : authority) : option Z := am_epoch <$> a_active a.

(** The property [membership]. *)
Definition current_membership (a : authority) : result membership :=
  if negb (bool_decide (a_head a ∈ a_resolved a)) then Err (auth "MEMBERSHIP_REQUIRED")
  else
    n ← node_at a (a_head a);
    of_option KeyError (a_memberships a !! cb_members (c_body n)).

Definition epoch_anchor (a : authority) : result control :=
  if negb (has_nodes a) then Err (auth "CONTROL_REQUIRED")
  else n ← node_at a (a_head a); node_at a (c_anchor n).

Definition control_at (a : authority) (head : bytes) : result control :=
  _ ← auth_fixed head 32; of_option (auth "CONTROL_REQUIRED") (a_nodes a !! head).

Definition membership_at (a : authority) (head : bytes) : result membership :=
  n ← control_at a head;
  if negb (bool_decide (head ∈ a_resolved a)) then Err (auth "MEMBERSHIP_REQUIRED")
  else of_option KeyError (a_memberships a !! cb_members (c_body n)).

Definition blocked (a : authority) : result unit :=
  if frozen a then Err (auth "CONTROL_FORK")
  else if a_invalid a then Err (auth "CONTROL_INVALID") else Ok tt.

Definition capacity_ok (a : authority) (weight : Z) : bool :=
  a_event_bytes a + weight <=? MAX_HISTORY_BYTES.

Section Chain.
Context `{Hash} `{Sodium}.

Definition new_authority (owner : Z) (app : value) (space genesis : bytes) (max_controls : Z)
    (random : Z → option bytes) : result authority :=
  app ← auth_app app;
  _ ← auth_fixed space 32;
  _ ← require ((1 <=? max_controls) && (max_controls <=? 1024)) (auth "SCHEMA_INVALID");
  o ← auth_parse "signed-object" (VBytes genesis) 66000;
  raw_body ← bytes_at o 0;
  b ← auth_parse "genesis-body" (VBytes raw_body) 66000;
  gb ← read_genesis b;
  sid ← hashed "space-id" [VBytes raw_body];
  signer ← bytes_at o 1;
  _ ← require (bool_decide (gb_app gb = app) && bool_decide (sid = space)
               && bool_decide (signer = gb_authority gb)) (auth "TRUST_ANCHOR");
  sig ← bytes_at o 2;
  m ← domain "genesis-sign" [VBytes raw_body];
  _ ← crypto_call (verify (gb_authority gb) m sig);
  key ← crypto_call (random_bytes random 32);
  Ok (Authority owner app space genesis raw_body gb max_controls ∅ ∅ ∅ ∅ space 0 0 []
        (len genesis) None false None ∅ key).

(** ** Observing a control entry *)

(** The material fields two bodies must not (or must) share. *)
Definition share_material (b p : cbody) : bool :=
  bool_decide (cb_packages b = cb_packages p) || bool_decide (cb_seeds b = cb_seeds p)
  || bool_decide (cb_set b = cb_set p).

(** The bodies of the controls [1 .. position-1]. *)
Definition history (a : authority) (position : Z) : result (list cbody) :=
  mapM (λ i, id ← of_option KeyError (a_sequences a !! i); n ← node_at a id; Ok (c_body n))
    (Z.of_nat <$> seq 1 (Z.to_nat (position - 1))).

(** The rules that depend on the action and the parent. *)
Definition check_action (a : authority) (b : cbody) (old : option cbody) : result unit :=
  if cb_seq b =? 1 then
    let gb := a_initial a in
    _ ← require (cb_action b =? 1) (auth "ACTION_INVALID");
    _ ← require (cb_epoch b =? 1) (auth "EPOCH_SEQUENCE");
    require (bool_decide (cb_members b = gb_members gb) && bool_decide (cb_policy b = gb_policy gb))
      (auth "GENESIS_ROOT")
  else
    _ ← require (negb (cb_action b =? 1)) (auth "ACTION_INVALID");
    old ← of_option TypeError old;
    _ ← require (cb_epoch b =? cb_epoch old + (if cb_action b =? 3 then 1 else 0))
          (auth "EPOCH_SEQUENCE");
    if cb_action b =? 3 then
      past ← history a (cb_seq b);
      require (negb (existsb (share_material b) past)) (auth "EPOCH_MATERIAL_REUSED")
    else
      require (bool_decide (cb_packages b = cb_packages old) && bool_decide (cb_seeds b = cb_seeds old)
               && bool_decide (cb_set b = cb_set old) && bool_decide (cb_features b = cb_features old)
               && (negb ((cb_action b =? 4) || (cb_action b =? 5))
                   || bool_decide (cb_members b = cb_members old)
                      && bool_decide (cb_policy b = cb_policy old)))
        (auth "ROOT_CHANGED").

(** The authority key after the entry. *)
Definition next_authority (o : value) (raw_body : bytes) (b : cbody) (pk : bytes) : result bytes :=
  let proof := match getitem o 2 with Ok _ => true | Err _ => false end in
  if cb_action b =? 4 then
    match cb_next b with
    | Some next =>
        _ ← require (negb (bool_decide (next = pk)) && proof) (auth "ROTATION_PROOF");
        m ← domain "authority-possession" [VBytes raw_body];
        sig ← bytes_at o 2;
        _ ← crypto_call (verify next m sig);
        Ok next
    | None => Err (auth "ROTATION_PROOF")
    end
  else
    _ ← require (bool_decide (cb_next b = None) && negb proof) (auth "ROTATION_PROOF");
    Ok pk.

Definition inspect (a : authority) (raw_ : value) : result control :=
  o ← auth_parse "control-entry" raw_ 66000;
  raw_body ← bytes_at o 0;
  v ← auth_parse "control-body" (VBytes raw_body) 66000;
  b ← read_control v;
  _ ← require (bool_decide (cb_app b = a_app a) && bool_decide (cb_space b = a_space a))
        (auth "CONTEXT_MISMATCH");
  _ ← require (1 <=? cb_seq b) (auth "CONTROL_SEQUENCE");
  _ ← require (cb_seq b <=? sequence a + 1) (auth "CONTROL_GAP");
  let parent_id := if cb_seq b =? 1 then Some (a_space a) else a_sequences a !! (cb_seq b - 1) in
  _ ← require (bool_decide (Some (cb_parent b) = parent_id)) (auth "CONTROL_PARENT");
  let parent := a_nodes a !! cb_parent b in
  let pk := match parent with Some p => c_after p | None => gb_authority (a_initial a) end in
  _ ← require (bool_decide (cb_signer b = pk)) (auth "AUTHORITY_MISMATCH");
  sig ← bytes_at o 1;
  m ← domain "control-sign" [VBytes raw_body];
  _ ← crypto_call (verify pk m sig);
  _ ← require (bool_decide (is_Some (cb_packages b)) && bool_decide (is_Some (cb_seeds b))
               && bool_decide (is_Some (cb_set b))) (auth "MISSING_EPOCH_MATERIAL");
  _ ← check_action a b (c_body <$> parent);
  after ← next_authority o raw_body b pk;
  raw_bytes ← bytes_arg raw_;
  cid ← hashed "control-id" [raw_];
  anchor ← (if (cb_action b =? 1) || (cb_action b =? 3) then Ok cid
            else p ← of_option TypeError parent; Ok (c_anchor p));
  Ok (Control raw_bytes raw_body b cid after anchor).

Definition known_raw (a : authority) (raw_ : value) : bool :=
  match raw_ with
  | VBytes r => existsb (λ kn, bool_decide (c_raw kn.2 = r)) (map_to_list (a_nodes a))
  | _ => false
  end.

Definition observe (a : authority) (raw_ : value) : authority * result string :=
  if known_raw a raw_ then (a, Ok "DUPLICATE"%string)
  else
    match blocked a with
    | Err e => (a, Err e)
    | Ok _ =>
        match inspect a raw_ with
        | Err e => (a, Err e)
        | Ok n =>
            let weight := len (c_raw n) in
            match a_sequences a !! cb_seq (c_body n) with
            | Some id =>
                match a_nodes a !! id with
                | None => (a, Err KeyError)
                | Some old =>
                    (bump (record_event (EControl (c_raw n)) weight (set_fork (c_raw old, c_raw n) a)),
                     Err (auth "CONTROL_FORK"))
                end
            | None =>
                if negb (capacity_ok a weight) then (a, Err (auth "RESOURCE_BLOCKED"))
                else if has_nodes a && negb (bool_decide (a_head a ∈ a_resolved a))
                then (a, Err (auth "MEMBERSHIP_REQUIRED"))
                else if a_max_controls a <=? Z.of_nat (size (a_nodes a))
                then (a, Err (auth "RESOURCE_BLOCKED"))
                else (bump (record_event (EControl (c_raw n)) weight (add_node n a)),
                      Ok "OBSERVED"%string)
            end
        end
    end.

(** ** Providing the membership of the head *)

Definition provide_membership (a : authority) (pages : value) : authority * result string :=
  match blocked a with
  | Err e => (a, Err e)
  | Ok _ =>
      if negb (has_nodes a) then (a, Err (auth "CONTROL_REQUIRED"))
      else
        match (n ← node_at a (a_head a); v ← verify_membership (cb_members (c_body n)) pages; Ok (n, v)) with
        | Err e => (a, Err e)
        | Ok (n, v) =>
            if bool_decide (a_head a ∈ a_resolved a) then (a, Ok "DUPLICATE"%string)
            else
              let b := c_body n in
              let weight := fold_right Z.add 0 (len <$> ms_pages v) in
              if negb (capacity_ok a weight) then (a, Err (auth "RESOURCE_BLOCKED"))
              else
                let a := add_view v (record_event (EMembers (ms_pages v)) weight a) in
                if ((cb_action b =? 1) || (cb_action b =? 3)) && bool_decide (content_members v = [])
                then (bump (set_invalid a), Err (auth "NO_CONTENT_RECIPIENT"))
                else if cb_action b =? 2 then
                  match membership_at a (cb_parent b) with
                  | Err e => (a, Err e)
                  | Ok previous =>
                      if negb (bool_decide (content_members v = content_members previous))
                      then (bump (set_invalid a), Err (auth "CONTENT_MEMBERSHIP_CHANGED"))
                      else (bump (resolve_head a), Ok "VERIFIED"%string)
                  end
                else (bump (resolve_head a), Ok "VERIFIED"%string)
        end
  end.
End Chain.
