(* ===== verification/Activation.v ===== *)
(** * Permits and epoch activation
    (experiments/space-auth/par_auth/chain.py, lines 169-205, and activation.py) *)

From S2P Require Import Prelude Bytes Value Codec Flat CddlText Schema SchemaSpec Hash Sodium Primitives Objects Membership Authority.
Local Open Scope Z_scope.

(** ** Permits *)

Record permit := Permit {
  pm_device : bytes;
  pm_role : Z;
  pm_operation : string;
  pm_head : bytes;
  pm_epoch : Z;
  pm_revision : Z;
  pm_owner : Z;
  pm_stamp : Z;
  pm_seal : bytes;
}.

(** The roles an operation needs. *)
Definition operation_roles (operation : string) : option (list Z) :=
  if String.eqb operation "read" then Some [1; 2]
  else if String.eqb operation "write" then Some [2]
  else if String.eqb operation "retain" then Some [3]
  else None.

Section Permits.
Context `{Hash} `{Sodium}.

Definition permit_seal (a : authority) (device : bytes) (role : Z) (operation : string)
    (head : bytes) (epoch revision : Z) : result bytes :=
  m ← encode (VList [VBytes device; VInt role; VStr (str operation); VBytes head; VInt epoch;
                     VInt revision]);
  Ok (hmac (a_permit_key a) m).

(** The current epoch has been activated. *)
Definition epoch_active (a : authority) : result bool :=
  match a_active a with
  | None => Ok false
  | Some m => anchor ← epoch_anchor a; Ok (bool_decide (am_anchor m = c_id anchor))
  end.

Definition authorize (a : authority) (certificate : bytes) (operation : string) : result permit :=
  _ ← blocked a;
  roles ← of_option (auth "OPERATION_INVALID") (operation_roles operation);
  view ← current_membership a;
  body ← member_certificate (a_app a) view certificate;
  pk ← getitem body 3;
  did ← device_id (a_app a) pk;
  m ← of_option TypeError (ms_get view did);
  _ ← require (existsb (Z.eqb (m_role m)) roles) (auth "NOT_AUTHORIZED");
  ok ← (if String.eqb operation "retain" then Ok true else epoch_active a);
  _ ← require ok (auth "EPOCH_PENDING");
  e ← epoch a;
  seal ← permit_seal a did (m_role m) operation (a_head a) e (a_revision a);
  Ok (Permit did (m_role m) operation (a_head a) e (a_revision a) (a_owner a) (a_stamp a) seal).

Definition validate_permit (a : authority) (p : permit) : result unit :=
  _ ← blocked a;
  e ← epoch a;
  _ ← require (bool_decide (pm_owner p = a_owner a) && bool_decide (pm_stamp p = a_stamp a)
               && bool_decide (pm_head p = a_head a) && (pm_epoch p =? e)
               && (pm_revision p =? a_revision a)) (auth "STALE_DECISION");
  match permit_seal a (pm_device p) (pm_role p) (pm_operation p) (pm_head p) (pm_epoch p)
          (pm_revision p) with
  | Err _ => Err (auth "STALE_DECISION")
  | Ok expected => require (bool_decide (pm_seal p = expected)) (auth "STALE_DECISION")
  end.
End Permits.

(** ** Seed manifests (activation.py) *)

(** [_keys]: exactly the integer keys [0 .. n-1]. *)
Definition manifest_keys (v : value) (n : nat) : result unit :=
  match v with
  | VDict d => require (keys_exactly n d) (auth "SCHEMA_INVALID")
  | _ => Err (auth "SCHEMA_INVALID")
  end.

Definition manifest_uint (v : value) (maximum : Z) : result Z :=
  match v with
  | VInt z => _ ← require ((0 <=? z) && (z <=? maximum)) (auth "SCHEMA_INVALID"); Ok z
  | _ => Err (auth "SCHEMA_INVALID")
  end.

Definition manifest_fixed (v : value) (n : Z) : result bytes :=
  match v with
  | VBytes b => _ ← auth_fixed b n; Ok b
  | _ => Err (auth "SCHEMA_INVALID")
  end.

Definition auth_list (v : value) : result (list value) :=
  match v with VList l => Ok l | _ => Err (auth "SCHEMA_INVALID") end.

(** One entry of [m[5]]: object, block, generation, plain length, plain digest. *)
Record seed := Seed {
  sd_object : bytes;
  sd_block : bytes;
  sd_generation : Z;
  sd_length : Z;
  sd_digest : bytes;
}.

Record manifest := Manifest {
  mf_app : pystr;
  mf_space : bytes;
  mf_epoch : Z;
  mf_set : bytes;
  mf_seeds : list seed;
  mf_cut : list bytes;
}.

Definition read_seed (item : value) : result seed :=
  _ ← manifest_keys item 5;
  v0 ← getitem item 0; o ← manifest_fixed v0 32;
  v1 ← getitem item 1; b ← manifest_fixed v1 32;
  v2 ← getitem item 2; g ← manifest_uint v2 (2 ^ 64 - 1);
  v3 ← getitem item 3; n ← manifest_uint v3 262144;
  v4 ← getitem item 4; d ← manifest_fixed v4 32;
  Ok (Seed o b g n d).

(** The loop over [m[5]]: objects strictly increasing, blocks distinct. *)
Fixpoint read_seeds (previous : option bytes) (blocks : list bytes) (items : list value)
    : result (list seed) :=
  match items with
  | [] => Ok []
  | item :: items' =>
      s ← read_seed item;
      if match previous with Some p => negb (bytes_ltb p (sd_object s)) | None => false end
         || bool_decide (sd_block s ∈ blocks)
      then Err (auth "SEED_LAYOUT")
      else
        rest ← read_seeds (Some (sd_object s)) (sd_block s :: blocks) items';
        Ok (s :: rest)
  end.

(** Strictly increasing: [m[6] == sorted(set(m[6]))]. *)
Fixpoint increasing (l : list bytes) : bool :=
  match l with
  | a :: (b :: _) as l' => bytes_ltb a b && increasing l'
  | _ => true
  end.

Definition parse_seed_manifest (r : value) : result manifest :=
  b ← blob r 65536 1;
  m ← catch_wire (auth "SCHEMA_INVALID") (decode_with 65536 MAX_NODES b);
  _ ← manifest_keys m 7;
  v0 ← getitem m 0; v1 ← getitem m 1;
  _ ← require (bool_decide (v0 = VInt 1) && is_str v1) (auth "SCHEMA_INVALID");
  app ← as_str v1;
  v2 ← getitem m 2; space ← manifest_fixed v2 32;
  v3 ← getitem m 3; ep ← manifest_uint v3 (2 ^ 64 - 1);
  v4 ← getitem m 4; set_ ← manifest_fixed v4 16;
  v5 ← getitem m 5; v6 ← getitem m 6;
  l5 ← auth_list v5; l6 ← auth_list v6;
  _ ← require ((len l5 <=? 256) && (len l6 <=? 256)) (auth "RESOURCE_BLOCKED");
  seeds ← read_seeds None [] l5;
  _ ← require (fold_right Z.add 0 (sd_length <$> seeds) <=? 4194304) (auth "RESOURCE_BLOCKED");
  cut ← mapM (λ v, manifest_fixed v 32) l6;
  _ ← require (increasing cut) (auth "SEED_LAYOUT");
  Ok (Manifest app space ep set_ seeds cut).

(** ** Activation *)

Section Activation.
Context `{Hash} `{Sodium}.

Definition content_role (m : member) : bool := (m_role m =? 1) || (m_role m =? 2).

(** The header a seed block must carry. *)
Definition seed_header (a : authority) (ep : Z) (s : seed) : value :=
  dict [(0, VStr (a_app a)); (1, VBytes (a_space a)); (2, VInt ep); (3, VBytes (sd_object s));
        (4, VInt 5); (5, VInt 0); (6, VInt (sd_generation s)); (7, VInt (sd_length s))].

(** The loop over the seeds: every block is opened and its plaintext digest checked. *)
Fixpoint open_seeds (a : authority) (secret : bytes) (ep : Z) (supplied : gmap bytes value)
    (seeds : list seed) : result (list (bytes * bytes)) :=
  match seeds with
  | [] => Ok []
  | s :: seeds' =>
      v ← of_option KeyError (supplied !! sd_block s);
      r ← blob v 270336 1;
      bid ← block_id r;
      _ ← require (bool_decide (bid = sd_block s)) (auth "SEED_DIGEST");
      plain ← crypto_call (open_block secret (seed_header a ep s) r);
      _ ← require (bool_decide (sha256 plain = sd_digest s)) (auth "SEED_PLAINTEXT");
      rest ← open_seeds a secret ep supplied seeds';
      Ok ((sd_object s, plain) :: rest)
  end.

Definition verify_activation (a : authority) (certificate recipient_secret package : bytes)
    (package_ids : list bytes) (manifest_ : value) (seeds : gmap bytes value) : result material :=
  current ← current_membership a;
  anchor ← epoch_anchor a;
  let ab := c_body anchor in
  cert ← member_certificate (a_app a) current certificate;
  pk ← getitem cert 3;
  did ← device_id (a_app a) pk;
  me ← of_option TypeError (ms_get current did);
  _ ← require (content_role me) (auth "NOT_AUTHORIZED");
  historical ← membership_at a (c_id anchor);
  old ← of_option (auth "CERTIFICATE_BINDING") (ms_get historical did);
  _ ← require (content_role old && bool_decide (m_certificate old = m_certificate me))
        (auth "CERTIFICATE_BINDING");
  _ ← auth_fixed recipient_secret 32;
  rp ← crypto_call (dh_public recipient_secret);
  v4 ← getitem cert 4;
  _ ← require (bool_decide (v4 = VBytes rp)) (auth "CRYPTO_INVALID");
  set_ ← of_option TypeError (cb_set ab);
  packages ← of_option TypeError (cb_packages ab);
  root ← of_option TypeError (cb_seeds ab);
  let ctx := dict [(0, VStr (a_app a)); (1, VBytes (a_space a)); (2, VInt (cb_epoch ab));
                   (3, VBytes set_); (4, VBytes did); (5, VBytes (m_certificate old));
                   (6, VBytes (cb_members ab))] in
  secret ← crypto_call (open_package recipient_secret (cb_signer ab) ctx package package_ids packages);
  _ ← blob manifest_ 65536 1;
  sroot ← hashed "auth-local/seed-root" [manifest_];
  _ ← require (bool_decide (sroot = root)) (auth "SEED_ROOT");
  m ← parse_seed_manifest manifest_;
  _ ← require (bool_decide (mf_app m = a_app a) && bool_decide (mf_space m = a_space a)
               && (mf_epoch m =? cb_epoch ab) && bool_decide (mf_set m = set_))
        (auth "CONTEXT_MISMATCH");
  _ ← require (Z.of_nat (size seeds) <=? 256) (auth "SEED_SET");
  _ ← require (bool_decide ((dom seeds : gset bytes) = list_to_set (sd_block <$> mf_seeds m))) (auth "SEED_SET");
  plains ← open_seeds a secret (cb_epoch ab) seeds (mf_seeds m);
  Ok (Material (cb_epoch ab) (c_id anchor) did secret plains (mf_cut m)).

(** [activate]; the result is the number of seed objects. *)
Definition activate (a : authority) (certificate recipient_secret package : bytes)
    (package_ids : list bytes) (manifest_ : value) (seeds : gmap bytes value)
    : authority * result Z :=
  match (_ ← blocked a;
         m ← verify_activation a certificate recipient_secret package package_ids manifest_ seeds;
         check ← hashed "auth-local/epoch-key-check" [VBytes (am_secret m)];
         Ok (m, check)) with
  | Err e => (a, Err e)
  | Ok (m, check) =>
      if match a_key_checks a !! am_epoch m with
         | Some c => negb (bool_decide (c = check)) | None => false end
      then (a, Err (auth "EPOCH_SECRET_CONFLICT"))
      else if existsb (λ ec, negb (ec.1 =? am_epoch m) && bool_decide (ec.2 = check))
                (map_to_list (a_key_checks a))
      then (a, Err (auth "EPOCH_SECRET_REUSED"))
      else (bump (set_active m check a), Ok (len (am_seeds m)))
  end.

(** ** Status *)

Definition status_name (a : authority) : result string :=
  if frozen a then Ok "CONTROL_FORK"%string
  else if a_invalid a then Ok "CONTROL_INVALID"%string
  else if negb (has_nodes a) then Ok "CONTROL_REQUIRED"%string
  else if negb (bool_decide (a_head a ∈ a_resolved a)) then Ok "MEMBERSHIP_PENDING"%string
  else active ← epoch_active a; Ok (if (active : bool) then "ACTIVE" else "EPOCH_PENDING")%string.
End Activation.
