(* ===== verification/Enrolment.v ===== *)
(** * Joining, admission, receiving and replay
    (experiments/space-auth/par_auth/admission.py, receiver.py and replay.py) *)

From S2P Require Import Prelude Bytes Value Codec Flat CddlText Schema SchemaSpec Hash Sodium Primitives Objects Membership Authority Activation.
Local Open Scope Z_scope.

(** ** admission.py *)

Record verified_join := VerifiedJoin {
  vj_app : pystr;
  vj_space : bytes;
  vj_device : bytes;
  vj_certificate : bytes;
  vj_nonce : bytes;
  vj_role : value;
  vj_raw : bytes;
}.

(** [scope] and [maximum_reply_bytes] keep their defaults. *)
Record retrieval_admission := RetrievalAdmission {
  ra_device : bytes;
  ra_minimum_sequence : Z;
  ra_role : value;
  ra_scope : string;
  ra_maximum_reply_bytes : Z;
}.

Section Admission.
Context `{Hash} `{Sodium}.

(** [_certificate] *)
Definition self_certificate (app : pystr) (r : value) : result value :=
  outer ← auth_parse "signed-object" r 66000;
  inner ← getitem outer 0;
  body ← auth_parse "certificate-body" inner 66000;
  b1 ← getitem body 1;
  _ ← require (bool_decide (b1 = VStr app)) (auth "JOIN_CONTEXT");
  account ← bytes_at body 2;
  r ← bytes_arg r;
  crypto_call (verify_certificate (VStr app) account r).

Definition join_body (app : pystr) (space cid nonce : bytes) (role : value) : value :=
  dict [(0, VStr app); (1, VBytes space); (2, VBytes cid); (3, VBytes nonce); (4, role)].

Definition create_join (device_seed : bytes) (app : value) (space : bytes) (certificate : value)
    (nonce : bytes) (role : value) : result bytes :=
  app ← auth_app app;
  _ ← auth_fixed space 32;
  _ ← auth_fixed nonce 32;
  body ← self_certificate app certificate;
  pk ← crypto_call (sign_public device_seed);
  b3 ← getitem body 3;
  _ ← require (bool_decide (b3 = VBytes pk)) (auth "JOIN_CONTEXT");
  c ← bytes_arg certificate;
  cid ← certificate_id c;
  request ← schema "join-request-body" (join_body app space cid nonce role);
  crypto_call (signed device_seed "join-request" request).

Definition verify_join (app : value) (space : bytes) (certificate raw_ : value)
    (expected_nonce : bytes) (expected_role : value) : result verified_join :=
  app ← auth_app app;
  _ ← auth_fixed space 32;
  _ ← auth_fixed expected_nonce 32;
  cert ← self_certificate app certificate;
  o ← auth_parse "signed-object" raw_ 66000;
  raw_body ← getitem o 0;
  b ← auth_parse "join-request-body" raw_body 66000;
  c ← bytes_arg certificate;
  cid ← certificate_id c;
  expected ← schema "join-request-body" (join_body app space cid expected_nonce expected_role);
  signer ← getitem o 1;
  device ← bytes_at cert 3;
  _ ← require (same_value b expected && bool_decide (signer = VBytes device)) (auth "JOIN_CONTEXT");
  m ← domain "join-request" [raw_body];
  sig ← bytes_at o 2;
  _ ← crypto_call (verify device m sig);
  did ← device_id app (VBytes device);
  r ← bytes_arg raw_;
  Ok (VerifiedJoin app space did cid expected_nonce expected_role r).

Definition admission_body (req : verified_join) (minimum_sequence : Z) : value :=
  dict [(0, VStr (vj_app req)); (1, VBytes (vj_space req)); (2, VBytes (vj_device req));
        (3, VBytes (vj_certificate req)); (4, VBytes (vj_nonce req)); (5, VInt minimum_sequence);
        (6, vj_role req)].

(** The final revision test compares the same state with itself: nothing runs in between. *)
Definition issue_admission (a : authority) (authority_seed : bytes) (certificate request : value)
    (expected_nonce : bytes) (expected_role : value) (minimum_sequence : Z) : result bytes :=
  _ ← blocked a;
  pk ← crypto_call (sign_public authority_seed);
  current ← authority_public a;
  _ ← require (bool_decide (pk = current)) (auth "AUTHORITY_MISMATCH");
  _ ← require ((Z.max 1 (sequence a) <=? minimum_sequence) && (minimum_sequence <? 2 ^ 64))
        (auth "ADMISSION_SEQUENCE");
  let revision := a_revision a in
  req ← verify_join (VStr (a_app a)) (a_space a) certificate request expected_nonce expected_role;
  body ← schema "admission-body" (admission_body req minimum_sequence);
  out ← crypto_call (signed authority_seed "admission-sign" body);
  _ ← require (a_revision a =? revision) (auth "STALE_DECISION");
  Ok out.

(** The loop over [expected]: each field of the body is the request's. *)
Definition fields_match (b : value) (expected : list (Z * value)) : result unit :=
  oks ← mapM (λ kv, x ← getitem b kv.1; Ok (same_value x kv.2)) expected;
  require (forallb id oks) (auth "ADMISSION_CONTEXT").

Definition verify_admission (trusted_authority : bytes) (request : verified_join) (raw_ : value)
    : result retrieval_admission :=
  _ ← auth_fixed trusted_authority 32;
  o ← auth_parse "signed-object" raw_ 66000;
  raw_body ← getitem o 0;
  b ← auth_parse "admission-body" raw_body 66000;
  signer ← getitem o 1;
  _ ← require (bool_decide (signer = VBytes trusted_authority)) (auth "AUTHORITY_MISMATCH");
  m ← domain "admission-sign" [raw_body];
  sig ← bytes_at o 2;
  _ ← crypto_call (verify trusted_authority m sig);
  _ ← fields_match b [(0, VStr (vj_app request)); (1, VBytes (vj_space request));
        (2, VBytes (vj_device request)); (3, VBytes (vj_certificate request));
        (4, VBytes (vj_nonce request)); (6, vj_role request)];
  n ← int_at b 5;
  _ ← require (1 <=? n) (auth "ADMISSION_SEQUENCE");
  device ← bytes_at b 2;
  role ← getitem b 6;
  Ok (RetrievalAdmission device n role "BOUNDED_CONTROL_RETRIEVAL_ONLY" 131072).
End Admission.

(** ** receiver.py *)

(** [inner_validated] and [applied] keep their default [False]. *)
Record received_candidate := ReceivedCandidate {
  rc_envelope : bytes;
  rc_device : bytes;
  rc_object : bytes;
  rc_epoch : Z;
  rc_payload : bytes;
  rc_inner_validated : bool;
  rc_applied : bool;
  rc_permit : permit;
}.

Section Receiver.
Context `{Hash} `{Sodium}.

Definition recheck (rc : received_candidate) (a : authority) : result unit :=
  validate_permit a (rc_permit rc).

Definition receive_change (a : authority) (raw_ : value) (certificate expected_object expected_schema : bytes)
    : result received_candidate :=
  _ ← blocked a;
  _ ← auth_fixed expected_object 32;
  _ ← auth_fixed expected_schema 32;
  let revision := a_revision a in
  _ ← current_membership a;
  o ← auth_parse "change-envelope" raw_ 786432;
  raw_header ← getitem o 0;
  h ← auth_parse "change-header" raw_header 16384;
  _ ← crypto_call (change_header h);
  h0 ← getitem h 0; h1 ← getitem h 1; h3 ← getitem h 3; h9 ← getitem h 9;
  _ ← require (bool_decide (h0 = VStr (a_app a)) && bool_decide (h1 = VBytes (a_space a))
               && bool_decide (h3 = VBytes expected_object)
               && bool_decide (h9 = VBytes expected_schema)) (auth "CONTEXT_MISMATCH");
  head ← bytes_at h 13;
  at_ ← control_at a head;
  historical ← membership_at a (c_id at_);
  cert ← member_certificate (a_app a) historical certificate;
  device ← bytes_at cert 3;
  did ← device_id (a_app a) (VBytes device);
  h5 ← getitem h 5;
  _ ← require (bool_decide (h5 = VBytes did)) (auth "CERTIFICATE_BINDING");
  m ← of_option TypeError (ms_get historical did);
  _ ← require (m_role m =? 2) (auth "NOT_AUTHORIZED");
  h2 ← int_at h 2;
  _ ← require (h2 =? cb_epoch (c_body at_)) (auth "CONTEXT_MISMATCH");
  nonce ← getitem o 1; ct ← getitem o 2; sig ← bytes_at o 3;
  message ← domain "envelope-sign" [raw_header; nonce; ct];
  _ ← crypto_call (verify device message sig);
  e ← epoch a;
  _ ← require (negb (h2 <? e)) (auth "REBASE_REQUIRED");
  _ ← require (h2 =? e) (auth "CONTROL_REQUIRED");
  p ← authorize a certificate "write";
  active ← of_option TypeError (a_active a);
  r ← bytes_arg raw_;
  plain ← crypto_call (open_change (am_secret active) device h r);
  _ ← require (a_revision a =? revision) (auth "STALE_DECISION");
  _ ← validate_permit a p;
  eid ← envelope_id r;
  object ← bytes_arg h3;
  Ok (ReceivedCandidate eid did object h2 plain false false p).
End Receiver.

(** ** replay.py *)

Definition MAX_EXPORT : Z := 900000.

Definition event_value (e : event) : value :=
  match e with
  | EControl r => VList [VInt 1; VBytes r]
  | EMembers pages => VList [VInt 2; VList (VBytes <$> pages)]
  end.

(** The codes of correctly signed terminal faults. *)
Definition terminal_fault (e : exn) : bool :=
  bool_decide (e = auth "CONTROL_FORK") || bool_decide (e = auth "CONTENT_MEMBERSHIP_CHANGED")
  || bool_decide (e = auth "NO_CONTENT_RECIPIENT").

Section Replay.
Context `{Hash} `{Sodium}.

Definition export_public_replay (a : authority) : result bytes :=
  auth_canonical (dict [(0, VInt 1); (1, VStr (a_app a)); (2, VBytes (a_space a));
                        (3, VBytes (a_genesis a)); (4, VList (event_value <$> a_events a))])
    MAX_EXPORT.

(** The body of the loop over [v[4]]; [last] tells the last position. *)
Definition replay_event (a : authority) (item : value) (last : bool) : result authority :=
  match item with
  | VList [VInt code; x] =>
      if (code =? 1) || (code =? 2) then
        match (if code =? 1 then observe a x else provide_membership a x) with
        | (a', Ok _) => Ok a'
        | (a', Err e) => if terminal_fault e && last then Ok a' else Err e
        end
      else Err (auth "REPLAY_SCHEMA")
  | _ => Err (auth "REPLAY_SCHEMA")
  end.

Fixpoint replay_events (a : authority) (items : list value) : result authority :=
  match items with
  | [] => Ok a
  | item :: items' => a ← replay_event a item (len items' =? 0); replay_events a items'
  end.

Definition restore_public_replay (owner : Z) (random : Z → option bytes) (app : value)
    (space expected_head expected_digest : bytes) (raw_ : value) (minimum_sequence : Z)
    : result authority :=
  _ ← auth_fixed expected_head 32;
  _ ← auth_fixed expected_digest 32;
  r ← blob raw_ MAX_EXPORT 1;
  _ ← require ((0 <=? minimum_sequence) && (minimum_sequence <? 2 ^ 64)) (auth "REPLAY_SCHEMA");
  digest ← hashed "auth-local/replay" [raw_];
  _ ← require (bool_decide (digest = expected_digest)) (auth "REPLAY_DIGEST");
  v ← catch_wire (auth "REPLAY_SCHEMA") (decode_with MAX_EXPORT MAX_NODES r);
  _ ← match v with VDict d => require (keys_exactly 5 d) (auth "REPLAY_SCHEMA")
      | _ => Err (auth "REPLAY_SCHEMA") end;
  v0 ← getitem v 0;
  _ ← require (bool_decide (v0 = VInt 1)) (auth "REPLAY_SCHEMA");
  v1 ← getitem v 1; v2 ← getitem v 2;
  _ ← require (same_value v1 app && bool_decide (v2 = VBytes space)) (auth "TRUST_ANCHOR");
  v4 ← getitem v 4;
  items ← match v4 with VList l => Ok l | _ => Err (auth "RESOURCE_BLOCKED") end;
  _ ← require (len items <=? 2049) (auth "RESOURCE_BLOCKED");
  v3 ← getitem v 3;
  genesis ← match v3 with VBytes g => Ok g | _ => Err (auth "SCHEMA_INVALID") end;
  fresh ← new_authority owner app space genesis 1024 random;
  a ← replay_events fresh items;
  _ ← require (bool_decide (a_head a = expected_head) && (minimum_sequence <=? sequence a))
        (auth "REPLAY_STALE");
  Ok a.
End Replay.
