(* ===== verification/Sample.v ===== *)
(** * A concrete Space, for the witnesses

    One authority, one editor device, the genesis and the first control, built by the
    modelled functions over SHA-256 and the toy provider, with the first epoch active. *)

From S2P Require Import Prelude Bytes Value Codec Flat CddlText Schema SchemaSpec Json Hash Sodium Toy Primitives Objects Membership Authority Activation Enrolment.
Local Open Scope Z_scope.

Definition key_of (i : Z) : bytes := raw (repeat i 32).
Definition sample_app : pystr := str "a.b".
Definition authority_seed : bytes := key_of 1.
Definition account_seed : bytes := key_of 2.
Definition device_seed : bytes := key_of 3.
Definition recipient_key : bytes := key_of 4.
Definition policy_digest : bytes := key_of 5.
Definition feature_digest : bytes := key_of 6.

Definition ok_or {A} (d : A) (m : result A) : A := match m with Ok a => a | Err _ => d end.

Definition sample_certificate : bytes :=
  ok_or [] (create_certificate account_seed (VStr sample_app) (pad32 device_seed) recipient_key
              (raw (repeat 7 16))).

Definition sample_device : bytes := ok_or [] (device_id sample_app (VBytes (pad32 device_seed))).

Definition sample_pages : list bytes :=
  ok_or [] (cid ← certificate_id sample_certificate;
            build_membership [dict [(0, VBytes sample_device); (1, VBytes cid); (2, VInt 2)]]).

Definition sample_root : bytes := ok_or [] (membership_root (VBytes <$> sample_pages)).

Definition sample_genesis_body : value :=
  dict [(0, VInt 1); (1, VStr sample_app); (2, VBytes (pad32 authority_seed)); (3, VBytes (key_of 8));
        (4, VBytes sample_root); (5, VBytes policy_digest)].
Definition sample_space : bytes := ok_or [] (b ← encode sample_genesis_body; hashed "space-id" [VBytes b]).
Definition sample_genesis : bytes := ok_or [] (signed authority_seed "genesis-sign" sample_genesis_body).

(** The entry of a control body. *)
Definition control_entry (seed : bytes) (body : value) : result bytes :=
  b ← encode body;
  m ← domain "control-sign" [VBytes b];
  sig ← sign seed m;
  encode (dict [(0, VBytes b); (1, VBytes sig)]).

Definition control_body (sequence epoch action material : Z) (parent : bytes) : value :=
  dict [(0, VStr sample_app); (1, VBytes sample_space); (2, VInt sequence); (3, VInt epoch);
        (4, VBytes parent); (5, VInt action); (6, VBytes sample_root); (7, VBytes policy_digest);
        (8, VBytes (key_of material)); (9, VBytes (key_of (material + 1)));
        (10, VBytes (raw (repeat (material + 2) 16))); (11, VBytes (pad32 authority_seed)); (12, VNone);
        (13, VBytes feature_digest)].

Definition sample_control : bytes :=
  ok_or [] (control_entry authority_seed (control_body 1 1 1 10 sample_space)).

Definition sample_random (n : Z) : option bytes := Some (raw (repeat 9 (Z.to_nat n))).

Definition no_authority : authority :=
  Authority 0 [] [] [] [] (GBody [] [] [] []) 0 ∅ ∅ ∅ ∅ [] 0 0 [] 0 None false None ∅ [].

Definition sample_fresh : authority :=
  ok_or no_authority (new_authority 0 (VStr sample_app) sample_space sample_genesis 8 sample_random).
Definition sample_observed : authority := (observe sample_fresh (VBytes sample_control)).1.
Definition sample_resolved : authority :=
  (provide_membership sample_observed (VList (VBytes <$> sample_pages))).1.

Definition sample_material : material :=
  Material 1 (a_head sample_resolved) sample_device (key_of 20) [] [].
Definition sample_active : authority := set_active sample_material (key_of 21) sample_resolved.

Example sample_runs :
  (observe sample_fresh (VBytes sample_control)).2 = Ok "OBSERVED"%string ∧
  (provide_membership sample_observed (VList (VBytes <$> sample_pages))).2 = Ok "VERIFIED"%string ∧
  is_ok (authorize sample_active sample_certificate "write") = true.
Proof. vm_compute. done. Qed.

(** A change of the editor, its envelope and what opens it. *)
Definition sample_payload : bytes := raw [104; 105].
Definition sample_header : value :=
  dict [(0, VStr sample_app); (1, VBytes sample_space); (2, VInt 1); (3, VBytes (key_of 30)); (4, VInt 1);
        (5, VBytes sample_device); (6, VBytes (raw (repeat 7 16))); (7, VInt 1); (8, VNone);
        (9, VBytes (key_of 31)); (10, VList []); (11, VInt 2); (12, VBytes (key_of 40));
        (13, VBytes (a_head sample_active)); (14, VInt 1); (15, VInt 0)].
Definition sample_envelope : bytes :=
  ok_or [] (seal_change (key_of 20) device_seed sample_header sample_payload (raw (repeat 5 24))).

Example sample_change_runs :
  open_change (key_of 20) (pad32 device_seed) sample_header sample_envelope = Ok sample_payload ∧
  is_ok (receive_change sample_active (VBytes sample_envelope) sample_certificate (key_of 30) (key_of 31)) = true.
Proof. vm_compute. done. Qed.
