(* ===== verification/ObjectsSpec.v ===== *)
(** * What sealed and signed objects promise *)

From S2P Require Import Prelude Bytes Value Codec Flat CddlText Schema SchemaSpec Json Hash Sodium Toy Primitives Objects Membership Authority Activation Enrolment Sample.
Local Open Scope Z_scope.

#[local] Opaque encode decode decode_with validate crypt domain verify header_key hashed.

(** Evaluates the frozen schema on a body whose sizes are only known by inequalities. *)
Ltac schema_ok :=
  with_strategy transparent [validate] cbv -[len Z.leb andb];
  repeat match goal with |- context [?a <=? ?b] => rewrite (proj2 (Z.leb_le a b)) by lia end;
  reflexivity.

Lemma catch_wire_Ok {A} e (m : result A) a : catch_wire e m = Ok a ↔ m = Ok a.
Proof. unfold catch_wire. destruct m as [|[]]; naive_solver. Qed.

(** ** Parsing *)

Lemma checked_Ok rule v w : checked rule v = Ok w ↔ w = v ∧ validate default_schema rule v = Ok tt.
Proof.
  unfold checked. rewrite bind_Ok. split.
  - by intros ([] & ?%catch_wire_Ok & [= <-]).
  - intros [-> H]. exists tt. by rewrite catch_wire_Ok.
Qed.

Lemma parse_Ok rule r limit v :
  parse rule r limit = Ok v →
  encode v = Ok r ∧ decode r = Ok v ∧ wf_value v ∧ norm v = v ∧ 1 <= len r <= limit ∧
  validate default_schema rule v = Ok tt.
Proof.
  unfold parse. intros ([] & Hb%bounded_Ok & (v' & Hd%catch_wire_Ok & [-> Hv]%checked_Ok)%bind_Ok)%bind_Ok.
  destruct (decoded_limit _ _ _ Hd) as (? & ? & ? & ? & ?). split_and!; try done; lia.
Qed.

Lemma parse_intro rule v r limit :
  wf_value v → norm v = v → encode v = Ok r → len r <= limit → limit <= MAX_BYTES →
  validate default_schema rule v = Ok tt → parse rule r limit = Ok v.
Proof.
  intros Hwf Hn He Hl Hm Hv. unfold parse.
  destruct (decode_encoded _ _ Hwf He) as [_ ?].
  rewrite (proj2 (bounded_Ok _ _ _)) by lia. cbn [mbind result_bind].
  rewrite (decode_limit limit v r), Hn by done. cbn [catch_wire mbind result_bind].
  by apply checked_Ok.
Qed.

(** A dict literal of scalars comes back from its encoding. *)
Lemma parse_dict rule kvs r limit :
  StronglySorted Z.lt kvs.*1 → Forall (λ kv, leaf kv.2) kvs → encode (dict kvs) = Ok r →
  dict_size kvs <= limit → limit <= MAX_BYTES → validate default_schema rule (dict kvs) = Ok tt →
  parse rule r limit = Ok (dict kvs).
Proof.
  intros Hs Hl He Hz Hm Hv. destruct (flat_dict kvs Hs Hl) as [Hwf Hn].
  apply parse_intro; [done..| |done|done].
  pose proof (encode_dict_len kvs r Hs Hl He). lia.
Qed.

Lemma bytes_at_Ok v k b : bytes_at v k = Ok b ↔ getitem v k = Ok (VBytes b).
Proof.
  unfold bytes_at. rewrite bind_Ok. split; [|by intros H; exists (VBytes b)].
  by intros ([] & Hx & [= <-]).
Qed.

Lemma int_at_Ok v k z : int_at v k = Ok z ↔ getitem v k = Ok (VInt z).
Proof.
  unfold int_at. rewrite bind_Ok. split; [|by intros H; exists (VInt z)].
  by intros ([] & Hx & [= <-]).
Qed.

(** ** Change envelopes *)

Section Changes.
Context `{Hash} `{SodiumLaws}.

Lemma change_header_Ok v hb :
  change_header v = Ok hb → validate default_schema "change-header" v = Ok tt ∧ encode v = Ok hb.
Proof.
  unfold change_header. intros E. apply bind_Ok in E as (? & [_ Hv]%checked_Ok & E).
  do 5 apply bind_Ok in E as (? & _ & E). done.
Qed.

(** The decoded header of a canonical one is that header. *)
Lemma change_header_parse v hb :
  wf_value v → norm v = v → change_header v = Ok hb → len hb <= 16384 →
  decode hb = Ok v ∧ parse "change-header" hb 16384 = Ok v.
Proof.
  intros Hwf Hn [Hv He]%change_header_Ok Hl. split.
  - destruct (decode_encoded _ _ Hwf He) as [Hd _]. by rewrite Hn in Hd.
  - by apply parse_intro.
Qed.

Lemma envelope_valid hb nonce ct sig :
  1 <= len hb <= 16384 → len nonce = 24 → 16 <= len ct <= 524304 → len sig = 64 →
  validate default_schema "change-envelope"
    (dict [(0, VBytes hb); (1, VBytes nonce); (2, VBytes ct); (3, VBytes sig)]) = Ok tt.
Proof. intros. schema_ok. Qed.

(** What [open_change] has checked when it returns. *)
Lemma open_change_inv es pk header r plain :
  open_change es pk header r = Ok plain →
  ∃ o hb nonce ct sig m h key aad did app,
    change_header header = Ok hb ∧ encode o = Ok r ∧ decode r = Ok o ∧ getitem o 0 = Ok (VBytes hb) ∧
    getitem o 1 = Ok (VBytes nonce) ∧ getitem o 2 = Ok (VBytes ct) ∧ getitem o 3 = Ok (VBytes sig) ∧
    decode hb = Ok h ∧ getitem h 0 = Ok app ∧ hashed "device-id" [app; VBytes pk] = Ok did ∧
    getitem h 5 = Ok (VBytes did) ∧
    domain "envelope-sign" [VBytes hb; VBytes nonce; VBytes ct] = Ok m ∧ verify pk m sig = Ok tt ∧
    header_key es h false = Ok key ∧ domain "envelope-aad" [VBytes hb] = Ok aad ∧
    open key nonce aad ct = Ok plain ∧ getitem h 11 = Ok (VInt (len plain)).
Proof.
  unfold open_change. intros E.
  apply bind_Ok in E as (ex & Hex & E). apply bind_Ok in E as (o & Ho & E).
  apply bind_Ok in E as (hb & Hhb & E). apply bind_Ok in E as (h & Hh & E).
  apply bind_Ok in E as (hb' & Hch & E).
  apply bind_Ok in E as ([] & ->%require_Ok%bool_decide_eq_true & E).
  apply bind_Ok in E as ([] & Ha & E). apply bind_Ok in E as (nonce & Hno & E).
  apply bind_Ok in E as (ct & Hct & E). apply bind_Ok in E as (sig & Hsig & E).
  apply bind_Ok in E as (m & Hm & E). apply bind_Ok in E as ([] & Hv & E).
  apply bind_Ok in E as (n & Hn & E). apply bind_Ok in E as ([] & Hl%require_Ok & E).
  apply bind_Ok in E as (key & Hk & E). apply bind_Ok in E as (aad & Haad & E).
  apply bind_Ok in E as (pl & Hopen & E). apply bind_Ok in E as ([] & Hlp%require_Ok & E).
  injection E as ->. zb. subst n.
  apply parse_Ok in Ho as (He & Hdo & _).
  apply parse_Ok in Hh as (_ & Hd & _).
  unfold author in Ha. apply bind_Ok in Ha as ([] & _ & Ha).
  apply bind_Ok in Ha as (app & Happ & Ha). apply bind_Ok in Ha as (dev & Hdev & Ha).
  apply bind_Ok in Ha as (did & Hdid & Ha). apply require_Ok, bool_decide_eq_true in Ha as ->.
  rewrite bytes_at_Ok in Hhb, Hno, Hct, Hsig. apply int_at_Ok in Hn.
  by exists o, ex, nonce, ct, sig, m, h, key, aad, did, app.
Qed.

(** ** Signed objects *)

Lemma signed_object_valid body pk sig :
  1 <= len body <= 65536 → len pk = 32 → len sig = 64 →
  validate default_schema "signed-object"
    (dict [(0, VBytes body); (1, VBytes pk); (2, VBytes sig)]) = Ok tt.
Proof. intros. schema_ok. Qed.

(** What a signer signs verifies under its public key. *)
Lemma verify_signed_signed seed pk label rule body r :
  wf_value body → norm body = body → validate default_schema rule body = Ok tt →
  sign_public seed = Ok pk → signed seed label body = Ok r →
  verify_signed pk label rule r = Ok body.
Proof.
  intros Hwf Hn Hval Hpk E. unfold signed in E.
  apply bind_Ok in E as (b & Hb & E). apply bind_Ok in E as ([] & Hbl%bounded_Ok & E).
  apply bind_Ok in E as (pk' & Hpk' & E). rewrite Hpk in Hpk'. injection Hpk' as <-.
  apply bind_Ok in E as (m & Hm & E). apply bind_Ok in E as (sig & Hsig & E).
  apply sign_Ok in Hsig as (_ & _ & Hsl & pk' & Hpk' & Hver).
  rewrite Hpk in Hpk'. injection Hpk' as <-.
  assert (len pk = 32) as Hpl by (by apply sign_public_Ok in Hpk as [_ ?%keypair_len]).
  assert (parse "signed-object" r 66000 =
    Ok (dict [(0, VBytes b); (1, VBytes pk); (2, VBytes sig)])) as Ho.
  { apply parse_dict; [by repeat constructor|by repeat constructor|done| |done|].
    - unfold dict_size. cbn [fmap list_fmap fold_right snd leaf_size]. lia.
    - apply signed_object_valid; lia. }
  set (o := dict _) in Ho. unfold verify_signed.
  run (proj2 (fixed_Ok pk 32) Hpl). run Ho.
  run (eq_refl : getitem o 1 = Ok (VBytes pk)).
  run (proj2 (require_Ok _ (crypto "SIGNER_MISMATCH")) (bool_decide_eq_true_2 (VBytes pk = VBytes pk) eq_refl)).
  run (proj2 (bytes_at_Ok o 0 b) eq_refl). run (proj2 (bytes_at_Ok o 2 sig) eq_refl).
  run Hm. run Hver. apply parse_intro; try done. lia.
Qed.

(** What verification has checked. *)
Lemma verify_signed_inv pk label rule r body :
  verify_signed pk label rule r = Ok body →
  ∃ o b sig m, encode o = Ok r ∧ getitem o 0 = Ok (VBytes b) ∧ getitem o 1 = Ok (VBytes pk) ∧
    getitem o 2 = Ok (VBytes sig) ∧ domain label [VBytes b] = Ok m ∧ verify pk m sig = Ok tt ∧
    encode body = Ok b ∧ validate default_schema rule body = Ok tt ∧ wf_value body ∧ norm body = body.
Proof.
  unfold verify_signed. intros E.
  apply bind_Ok in E as ([] & _ & E). apply bind_Ok in E as (o & Ho & E).
  apply bind_Ok in E as (s & Hs & E). apply bind_Ok in E as ([] & ->%require_Ok%bool_decide_eq_true & E).
  apply bind_Ok in E as (b & Hb%bytes_at_Ok & E). apply bind_Ok in E as (sig & Hsig%bytes_at_Ok & E).
  apply bind_Ok in E as (m & Hm & E). apply bind_Ok in E as ([] & Hv & E).
  apply parse_Ok in Ho as (He & _). apply parse_Ok in E as (Heb & _ & Hwf & Hn & _ & Hval).
  by exists o, b, sig, m.
Qed.

Lemma app_id_Ok v s : app_id v = Ok s → v = VStr s ∧ app_name_ok s = true.
Proof. destruct v; try done. cbn. by intros ([] & ?%require_Ok & [= ->])%bind_Ok. Qed.
End Changes.

(** ** Properties *)

(** A sealed change opens to its payload, under the same header, epoch secret and
    author, for every provider that keeps libsodium's contract. *)
Theorem change_round_trip `{Hash} `{SodiumLaws} es seed pk header payload nonce hb r
    (Hwf : wf_value header) (Hnorm : norm header = header)
    (Hhb : change_header header = Ok hb) (Hlen : len hb <= 16384)
    (Hpk : sign_public seed = Ok pk)
    (Hseal : seal_change es seed header payload nonce = Ok r) :
  open_change es pk header r = Ok payload.
Proof.
  destruct (change_header_parse _ _ Hwf Hnorm Hhb Hlen) as [Hd Hparse].
  unfold seal_change in Hseal. rewrite Hhb in Hseal. cbn [mbind result_bind] in Hseal.
  rewrite Hd in Hseal. cbn [mbind result_bind] in Hseal.
  apply bind_Ok in Hseal as ([] & Hpl%bounded_Ok & E). apply bind_Ok in E as ([] & Hno%fixed_Ok & E).
  apply bind_Ok in E as (n & Hn & E). apply bind_Ok in E as ([] & Heq%require_Ok & E). zb. subst n.
  rewrite Hpk in E. cbn [mbind result_bind] in E. apply bind_Ok in E as ([] & Hauth & E).
  apply bind_Ok in E as (key & Hkey & E). apply bind_Ok in E as (aad & Haad & E).
  apply bind_Ok in E as (ct & Hct & E). apply bind_Ok in E as (m & Hm & E).
  apply bind_Ok in E as (sig & Hsig & He).
  destruct (open_seal _ _ _ _ _ _ Hct) as [Hopen Hctl]; [unfold MAX_INPUT; lia|].
  apply sign_Ok in Hsig as (_ & _ & Hsl & pk' & Hpk' & Hver).
  rewrite Hpk in Hpk'. injection Hpk' as <-.
  destruct (decode_encoded _ _ Hwf (proj2 (change_header_Ok _ _ Hhb))) as [_ [Hhb1 _]].
  pose proof (len_nonneg payload).
  assert (parse "change-envelope" r 786432 = Ok (dict
    [(0, VBytes hb); (1, VBytes nonce); (2, VBytes ct); (3, VBytes sig)])) as Ho.
  { apply parse_dict; [by repeat constructor|by repeat constructor|done| |done|].
    - unfold dict_size. cbn [fmap list_fmap fold_right snd leaf_size]. lia.
    - apply envelope_valid; lia. }
  set (o := dict _) in Ho.
  unfold open_change. run Hhb. run Ho.
  run (proj2 (bytes_at_Ok o 0 hb) eq_refl). run Hparse. run Hhb.
  run (proj2 (require_Ok _ (crypto "CONTEXT_MISMATCH")) (bool_decide_eq_true_2 (hb = hb) eq_refl)).
  run Hauth. run (proj2 (bytes_at_Ok o 1 nonce) eq_refl).
  run (proj2 (bytes_at_Ok o 2 ct) eq_refl). run (proj2 (bytes_at_Ok o 3 sig) eq_refl).
  run Hm. run Hver. run Hn.
  run (proj2 (require_Ok _ (crypto "LENGTH_MISMATCH")) (proj2 (Z.eqb_eq _ _) Hctl)).
  run Hkey. run Haad. run Hopen.
  run (proj2 (require_Ok _ (crypto "LENGTH_MISMATCH")) (Z.eqb_refl (len payload))). done.
Qed.

(** C25. Opening is authentication: a change that opens is canonical, carries exactly the
    expected header, was signed over header, nonce and ciphertext by the given key,
    whose device the header names as author, and has the announced length; so the same
    envelope opens under no other header. *)
Theorem open_change_authentic `{Hash} `{Sodium} es pk header r plain
    (Hwf : wf_value header) (Hopen : open_change es pk header r = Ok plain) :
  (∃ o hb nonce ct sig m did, encode o = Ok r ∧ encode header = Ok hb ∧
     getitem o 0 = Ok (VBytes hb) ∧ getitem o 1 = Ok (VBytes nonce) ∧
     getitem o 2 = Ok (VBytes ct) ∧ getitem o 3 = Ok (VBytes sig) ∧
     domain "envelope-sign" [VBytes hb; VBytes nonce; VBytes ct] = Ok m ∧ verify pk m sig = Ok tt ∧
     (∃ app, getitem (norm header) 0 = Ok app ∧ hashed "device-id" [app; VBytes pk] = Ok did) ∧
     getitem (norm header) 5 = Ok (VBytes did) ∧
     getitem (norm header) 11 = Ok (VInt (len plain))) ∧
  ∀ es' pk' header' plain', wf_value header' → open_change es' pk' header' r = Ok plain' →
    norm header' = norm header.
Proof.
  apply open_change_inv in Hopen as (o & hb & nonce & ct & sig & m & h & key & aad & did & app &
    [_ He]%change_header_Ok & Ho & Hdo & F0 & F1 & F2 & F3 & Hd & Ha & Hdid & F5 & Hm & Hv & _ & _ & _ & F11).
  destruct (decode_encoded _ _ Hwf He) as [Hd' _]. rewrite Hd in Hd'. injection Hd' as ->.
  split.
  - exists o, hb, nonce, ct, sig, m, did. split_and!; try done. by exists app.
  - intros es' pk' header' plain' Hwf' Hopen'.
    apply open_change_inv in Hopen' as (o' & hb' & ? & ? & ? & ? & h' & ? & ? & ? & ? &
      [_ He']%change_header_Ok & _ & Hdo' & F0' & _ & _ & _ & Hd' & _).
    destruct (decode_encoded _ _ Hwf' He') as [Hdn _]. congruence.
Qed.

(** A certificate made for an account verifies under the account's key and gives
    back the three distinct keys it binds. *)
Theorem certificate_round_trip `{Hash} `{SodiumLaws} seed pk app dp rp serial r
    (Hpk : sign_public seed = Ok pk)
    (Hmake : create_certificate seed app dp rp serial = Ok r) :
  ∃ body, verify_certificate app pk r = Ok body ∧ getitem body 1 = Ok app ∧
    getitem body 2 = Ok (VBytes pk) ∧ getitem body 3 = Ok (VBytes dp) ∧
    getitem body 4 = Ok (VBytes rp) ∧ getitem body 5 = Ok (VBytes serial) ∧ NoDup [pk; dp; rp].
Proof.
  unfold create_certificate in Hmake. apply bind_Ok in Hmake as (s & Happ & E).
  apply bind_Ok in E as (pk' & Hpk' & E). rewrite Hpk in Hpk'. injection Hpk' as <-.
  apply bind_Ok in E as (? & [_ Hval]%checked_Ok & E). apply bind_Ok in E as ([] & Hne%require_Ok & E).
  rewrite negb_true_iff, !orb_false_iff, !bool_decide_eq_false in Hne. destruct Hne as [[N1 N2] N3].
  pose proof Happ as [-> _]%app_id_Ok.
  set (kvs := [(0, VInt 1); _; _; _; _; _]) in *.
  destruct (flat_dict kvs) as [Hwf Hn]; [by repeat constructor|by repeat constructor|].
  pose proof (verify_signed_signed _ _ _ "certificate-body" _ _ Hwf Hn Hval Hpk E) as Hv.
  assert (NoDup [VBytes pk; VBytes dp; VBytes rp]) as Hnd
    by (repeat constructor; set_solver).
  exists (dict kvs). split; [|split_and!; try done; repeat constructor; set_solver].
  unfold verify_certificate. run Happ. run Hv.
  run (eq_refl : getitem (dict kvs) 1 = Ok (VStr s)). run (eq_refl : getitem (dict kvs) 2 = Ok (VBytes pk)).
  run (eq_refl : getitem (dict kvs) 3 = Ok (VBytes dp)). run (eq_refl : getitem (dict kvs) 4 = Ok (VBytes rp)).
  rewrite !bool_decide_eq_true_2 by done. done.
Qed.

(** ** A change and a certificate of the concrete Space *)

#[local] Transparent encode decode decode_with validate crypt domain verify header_key hashed.

Definition sample_header_bytes : bytes := ok_or [] (change_header sample_header).

Lemma sample_header_wf : wf_value sample_header ∧ norm sample_header = sample_header.
Proof.
  split; [|vm_compute; reflexivity].
  apply wf_to_dict; [apply (bool_decide_unpack _); vm_compute; done|by repeat constructor].
Qed.

Lemma change_round_trip_witness :
  open_change (key_of 20) (pad32 device_seed) sample_header sample_envelope = Ok sample_payload.
Proof.
  apply (change_round_trip (key_of 20) device_seed (pad32 device_seed) sample_header sample_payload
           (raw (repeat 5 24)) sample_header_bytes);
    [apply sample_header_wf|apply sample_header_wf|vm_compute..]; done.
Defined.

Lemma open_change_authentic_witness :
  ∃ o sig m, encode o = Ok sample_envelope ∧ getitem o 3 = Ok (VBytes sig) ∧
    verify (pad32 device_seed) m sig = Ok tt.
Proof.
  destruct (open_change_authentic (key_of 20) (pad32 device_seed) sample_header sample_envelope
              sample_payload) as [(o & hb & nonce & ct & sig & m & did & Ho & _ & _ & _ & _ & Hs & _ & Hv & _) _].
  - apply sample_header_wf.
  - vm_compute. done.
  - exists o, sig, m. exact (conj Ho (conj Hs Hv)).
Defined.

Lemma certificate_round_trip_witness :
  ∃ body, verify_certificate (VStr sample_app) (pad32 account_seed) sample_certificate = Ok body ∧
    getitem body 1 = Ok (VStr sample_app) ∧ getitem body 2 = Ok (VBytes (pad32 account_seed)) ∧
    getitem body 3 = Ok (VBytes (pad32 device_seed)) ∧ getitem body 4 = Ok (VBytes recipient_key) ∧
    getitem body 5 = Ok (VBytes (raw (repeat 7 16))) ∧
    NoDup [pad32 account_seed; pad32 device_seed; recipient_key].
Proof.
  apply (certificate_round_trip account_seed (pad32 account_seed) (VStr sample_app) (pad32 device_seed)
           recipient_key (raw (repeat 7 16))); vm_compute; done.
Defined.
