(* ===== verification/Inbox.v ===== *)
(** * The durable inbox of pending encrypted changes (product/wp04/inbox.py)

    The directory [records/] is a map from file names to contents, [staging/] the sizes of
    its leftovers.  [owner] is what the inbox reads of the authority store: the loaded
    authority state, its status, its audit, and the rows its queries return.  Permission
    and ownership tests on paths, process identity and the file lock are outside. *)

From S2P Require Import Prelude Bytes Value Codec Flat CddlText Schema SchemaSpec Json Hash Sodium Primitives Objects SharedChange Membership Authority Activation Enrolment.
Local Open Scope Z_scope.

Definition RECORD_MAX : Z := 800 * 1024.
Definition DEFAULT_BYTES : Z := 8 * 1024 * 1024.
Definition DEFAULT_RECORDS : Z := 64.

Definition InboxError (code : string) : exn := Raised "InboxError" code.
Definition ineed (ok : bool) (code : string) : result unit := require ok (InboxError code).

(** The exception classes the code tells apart. *)
Definition of_class (cls : string) (e : exn) : option string :=
  match e with Raised c code => if String.eqb c cls then Some code else None | _ => None end.

(** [except InboxError: raise / except Exception: raise InboxError(code)]. *)
Definition inbox_or {A} (code : string) (m : result A) : result A :=
  match m with
  | Ok a => Ok a
  | Err e => match of_class "InboxError" e with Some _ => Err e | None => Err (InboxError code) end
  end.

(** ** The owner *)

(** A row of [envelopes JOIN commit_ledger JOIN auth_commits]. *)
Record row := Row {
  r_space : bytes;
  r_object : bytes;
  r_epoch : Z;
  r_change_hash : bytes;
  r_envelope : bytes;
  r_bytes : bytes;
  r_certificate : bytes;
}.

Record owner := Owner {
  ow_state : authority;
  ow_status : string;
  ow_valid : bool;
  ow_rows : list row;
  ow_envelopes : gset bytes;
  ow_pin : value;
}.

(** ** The inbox *)

Record inbox := Inbox {
  ib_app : pystr;
  ib_space : bytes;
  ib_doc : bytes;
  ib_epoch : Z;
  ib_schema : bytes;
  ib_generation : pystr;
  ib_max_records : Z;
  ib_max_bytes : Z;
  ib_files : gmap pystr bytes;
  ib_staging : list Z;
  ib_seen : gmap pystr bytes;
  ib_closed : bool;
  ib_uncertain : bool;
}.

Definition set_seen (seen : gmap pystr bytes) (ib : inbox) : inbox :=
  Inbox (ib_app ib) (ib_space ib) (ib_doc ib) (ib_epoch ib) (ib_schema ib) (ib_generation ib)
    (ib_max_records ib) (ib_max_bytes ib) (ib_files ib) (ib_staging ib) seen (ib_closed ib)
    (ib_uncertain ib).
Definition add_file (name : pystr) (data : bytes) (ib : inbox) : inbox :=
  Inbox (ib_app ib) (ib_space ib) (ib_doc ib) (ib_epoch ib) (ib_schema ib) (ib_generation ib)
    (ib_max_records ib) (ib_max_bytes ib) (<[name := data]> (ib_files ib)) (ib_staging ib)
    (ib_seen ib) (ib_closed ib) (ib_uncertain ib).
Definition set_uncertain (ib : inbox) : inbox :=
  Inbox (ib_app ib) (ib_space ib) (ib_doc ib) (ib_epoch ib) (ib_schema ib) (ib_generation ib)
    (ib_max_records ib) (ib_max_bytes ib) (ib_files ib) (ib_staging ib) (ib_seen ib)
    (ib_closed ib) true.
Definition set_closed (ib : inbox) : inbox :=
  Inbox (ib_app ib) (ib_space ib) (ib_doc ib) (ib_epoch ib) (ib_schema ib) (ib_generation ib)
    (ib_max_records ib) (ib_max_bytes ib) (ib_files ib) (ib_staging ib) (ib_seen ib) true
    (ib_uncertain ib).

Definition enter (ib : inbox) : result unit :=
  _ ← ineed (negb (ib_closed ib)) "CLOSED";
  ineed (negb (ib_uncertain ib)) "INBOX_OUTCOME_UNKNOWN".

Definition close_inbox (ib : inbox) : inbox := set_closed ib.

(** [_scope] *)
Definition scope_ok (app : pystr) (space doc : bytes) (epoch : Z) (schema : bytes) : result unit :=
  _ ← ineed ((0 <? len app) && (len app <=? 128)) "INVALID_INPUT";
  _ ← ineed ((len space =? 32) && (len doc =? 32) && (len schema =? 32)) "INVALID_INPUT";
  ineed ((1 <=? epoch) && (epoch <? 2 ^ 64)) "INVALID_INPUT".

(** [_disk]: the retained leftovers of staging are bounded. *)
Definition disk_ok (ib : inbox) : result unit :=
  _ ← ineed (len (ib_staging ib) <=? DEFAULT_RECORDS) "RESOURCE_BLOCKED";
  _ ← ineed (forallb (λ n, n <=? RECORD_MAX) (ib_staging ib)) "INBOX_CORRUPT";
  ineed (fold_right Z.add 0 (ib_staging ib) <=? DEFAULT_BYTES) "RESOURCE_BLOCKED".

(** A record of the inbox: the envelope, the certificate and the envelope's header. *)
Record entry := Entry {
  en_id : bytes;
  en_raw : bytes;
  en_certificate : bytes;
  en_header : hdr;
}.

Definition file_name (eid : bytes) : pystr := hex eid ++ str ".cbor".

(** The stem of a well-formed record name: the envelope id. *)
Definition name_id (name : pystr) : option bytes :=
  if (len name =? 69) && bool_decide (drop 64 name = str ".cbor")
  then eid ← unhex (take 64 name); if bool_decide (hex eid = take 64 name) then Some eid else None
  else None.

Definition record_value (r cert : bytes) : value :=
  dict [(0, VInt 1); (1, VBytes r); (2, VBytes cert)].

Definition author_slot (h : hdr) : bytes * bytes * Z :=
  (h_device h, h_actor_generation h, h_sequence h).

(** [_conflict]: two records claim one author slot or one change hash. *)
Fixpoint conflict_in (slots : list (bytes * bytes * Z)) (inner : list bytes) (es : list entry) : bool :=
  match es with
  | [] => false
  | e :: es' =>
      bool_decide (author_slot (en_header e) ∈ slots) || bool_decide (h_hash (en_header e) ∈ inner)
      || conflict_in (author_slot (en_header e) :: slots) (h_hash (en_header e) :: inner) es'
  end.
Definition conflict (es : list entry) : bool := conflict_in [] [] es.

Section Inbox.
Context `{Hash} `{Sodium}.

(** [_outer]: the envelope is of the scope, and signed by an editor of its control. *)
Definition outer (ib : inbox) (r certificate : bytes) (a : authority) : result hdr :=
  _ ← ineed ((0 <? len r) && (len r <=? RECORD_MAX) && (0 <? len certificate)
             && (len certificate <=? 4096)) "INVALID_INPUT";
  inbox_or "AUTH_REJECTED"
    (out ← decode r;
     _ ← ineed (match out with VDict d => keys_exactly 4 d | _ => false end) "AUTH_REJECTED";
     hb ← bytes_at out 0;
     head ← decode hb;
     _ ← change_header head;
     h ← read_hdr head;
     _ ← ineed (bool_decide (h_app h = ib_app ib) && bool_decide (h_space h = ib_space ib)
                && (h_epoch h =? ib_epoch ib) && bool_decide (h_object h = ib_doc ib)
                && bool_decide (h_schema h = ib_schema ib)) "SCOPE_MISMATCH";
     _ ← ineed ((h_kind h =? 1) && (h_codec h =? 1) && (0 <? h_length h) && (h_length h <=? MAX_CHANGE))
           "AUTH_REJECTED";
     c ← control_at a (h_control h);
     _ ← ineed (cb_epoch (c_body c) =? h_epoch h) "AUTH_REJECTED";
     members ← membership_at a (c_id c);
     cert ← member_certificate (a_app a) members certificate;
     pk ← bytes_at cert 3;
     did ← device_id (a_app a) (VBytes pk);
     m ← of_option TypeError (ms_get members did);
     _ ← ineed (bool_decide (did = h_device h) && (m_role m =? 2)) "AUTH_REJECTED";
     nonce ← getitem out 1; ct ← getitem out 2; sig ← bytes_at out 3;
     msg ← domain "envelope-sign" [VBytes hb; nonce; ct];
     _ ← verify pk msg sig;
     Ok h).

(** One file of [records/]. *)
Definition read_record (ib : inbox) (a : authority) (name : pystr) (data : bytes) : result entry :=
  catch_any (InboxError "INBOX_CORRUPT")
    (eid ← of_option (InboxError "INBOX_CORRUPT") (name_id name);
     _ ← ineed ((0 <? len data) && (len data <=? RECORD_MAX)) "INBOX_CORRUPT";
     rec ← decode data;
     _ ← ineed (match rec with VDict d => keys_exactly 3 d | _ => false end) "INBOX_CORRUPT";
     v0 ← getitem rec 0;
     _ ← ineed (bool_decide (v0 = VInt 1)) "INBOX_CORRUPT";
     r ← bytes_at rec 1; cert ← bytes_at rec 2;
     id ← envelope_id r;
     _ ← ineed (bool_decide (id = eid)) "INBOX_CORRUPT";
     h ← outer ib r cert a;
     Ok (Entry eid r cert h)).

(** The names of [records/], sorted. *)
Definition names (ib : inbox) : list pystr := sorted_strs (map_to_list (ib_files ib)).*1.
Definition file_at (ib : inbox) (name : pystr) : bytes := default [] (ib_files ib !! name).
Definition digests (ib : inbox) : gmap pystr bytes := sha256 <$> ib_files ib.
Definition record_bytes (ib : inbox) : Z :=
  fold_right Z.add 0 ((λ n, len (file_at ib n)) <$> names ib).

(** [_records]; success also replaces [_seen]. *)
Definition load_records (ib : inbox) (ow : owner) : result (inbox * list entry) :=
  _ ← enter ib;
  _ ← disk_ok ib;
  _ ← ineed (len (names ib) <=? ib_max_records ib + 1) "INBOX_CORRUPT";
  es ← mapM (λ n, read_record ib (ow_state ow) n (file_at ib n)) (names ib);
  _ ← ineed (record_bytes ib <=? ib_max_bytes ib + RECORD_MAX) "INBOX_CORRUPT";
  _ ← ineed (forallb (λ kv, bool_decide (digests ib !! kv.1 = Some kv.2)) (map_to_list (ib_seen ib)))
        "PIN_MISMATCH";
  Ok (set_seen (digests ib) ib, es).

Definition find_entry (es : list entry) (eid : bytes) : option entry :=
  List.find (λ e, bool_decide (en_id e = eid)) es.

(** The rows of the document in this epoch. *)
Definition doc_rows (ib : inbox) (ow : owner) : list row :=
  List.filter (λ r, bool_decide (r_space r = ib_space ib) && bool_decide (r_object r = ib_doc ib)
                    && (r_epoch r =? ib_epoch ib)) (ow_rows ow).

(** The header of a stored envelope, [decode(decode(raw)[0])]. *)
Definition stored_header (r : bytes) : result value :=
  out ← decode r; hb ← bytes_at out 0; decode hb.
Definition stored_hdr (r : bytes) : result hdr := v ← stored_header r; read_hdr v.

(** The inner loop of [_store_conflict]: a row of another envelope with the same slot or hash. *)
Fixpoint row_conflict (ib : inbox) (a : authority) (eid : bytes) (h : hdr) (rows : list row)
    : result bool :=
  match rows with
  | [] => Ok false
  | r :: rows' =>
      if bool_decide (r_envelope r = eid) then row_conflict ib a eid h rows'
      else
        oh ← stored_hdr (r_bytes r);
        if bool_decide (author_slot oh = author_slot h) || bool_decide (h_hash oh = h_hash h)
        then _ ← outer ib (r_bytes r) (r_certificate r) a; Ok true
        else row_conflict ib a eid h rows'
  end.

Fixpoint store_conflict (ib : inbox) (ow : owner) (es : list entry) : result bool :=
  match es with
  | [] => _ ← ineed (ow_valid ow) "STORE_VERIFICATION_FAILED"; Ok false
  | e :: es' =>
      _ ← ineed (ow_valid ow) "STORE_VERIFICATION_FAILED";
      c ← row_conflict ib (ow_state ow) (en_id e) (en_header e) (doc_rows ib ow);
      if (c : bool) then Ok true else store_conflict ib ow es'
  end.

(** [_current]: the envelope is acceptable now. *)
Definition current (ib : inbox) (ow : owner) (r certificate : bytes) : result change_input :=
  _ ← require (negb (String.eqb (ow_status ow) "AUTH_PERSISTENCE_UNCERTAIN"))
        (auth "AUTH_PERSISTENCE_UNCERTAIN");
  got ← receive_change (ow_state ow) (VBytes r) certificate (ib_doc ib) (ib_schema ib);
  header ← stored_header r;
  create_change header (rc_payload got) (ib_schema ib).

(** ** Receiving *)

(** The dictionary [_receipt] returns and [_view] extends. *)
Record view := View {
  vw_id : bytes;
  vw_state : string;
  vw_stored : bool;
  vw_missing : list pystr;
  vw_missing_previous : list pystr;
  vw_reason : option string;
  vw_inner_validated : bool;
  vw_request_digest : option pystr;
}.

Definition receipt (eid : bytes) : view := View eid "PENDING_BYTES" true [] [] None false None.

(** Where the observer or the owner's stamp can interrupt the publication; [None]: no fault. *)
Inductive stage :=
| BeforeWrite | AfterWrite | AfterFileSync | BeforePublish | AfterPublish | AfterDirSync
| BeforeReceipt.

(** The first fault of a list of stages. *)
Definition interrupted (fault : stage → option exn) (l : list stage) : option exn :=
  hd_error (omap fault l).

(** What [receive] settles before it writes: the id, and the record to publish ([None]: it is
    already there). *)
Definition admission (ib : inbox) (ow : owner) (es : list entry) (r certificate : bytes)
    : result (bytes * option bytes) :=
  _ ← outer ib r certificate (ow_state ow);
  _ ← catch_any (InboxError "AUTH_REJECTED") (current ib ow r certificate);
  eid ← envelope_id r;
  record ← encode (record_value r certificate);
  _ ← ineed (len record <=? RECORD_MAX) "RESOURCE_BLOCKED";
  match find_entry es eid with
  | Some e =>
      _ ← ineed (bool_decide (en_raw e = r) && bool_decide (en_certificate e = certificate))
            "RECORD_EQUIVOCATION";
      Ok (eid, None)
  | None =>
      h ← stored_hdr r;
      c ← (if existsb (λ x, bool_decide (author_slot (en_header x) = author_slot h)
                            || bool_decide (h_hash (en_header x) = h_hash h)) es
           then Ok true else store_conflict ib ow [Entry eid r certificate h]);
      let slots := ib_max_records ib + (if (c : bool) then 1 else 0) in
      let budget := ib_max_bytes ib + (if (c : bool) then RECORD_MAX else 0) in
      _ ← ineed ((len es <? slots) && (record_bytes ib + len record <=? budget)) "RESOURCE_BLOCKED";
      Ok (eid, Some record)
  end.

(** The write, the atomic rename and the receipt. *)
Definition publish (fault : stage → option exn) (ib : inbox) (eid record : bytes)
    : inbox * result view :=
  match interrupted fault [BeforeWrite; AfterWrite; AfterFileSync; BeforePublish] with
  | Some e => (ib, inbox_or "INBOX_WRITE_FAILED" (Err e))
  | None =>
      if bool_decide (is_Some (ib_files ib !! file_name eid))
      then (ib, Err (InboxError "RECORD_EQUIVOCATION"))
      else
        let ib := add_file (file_name eid) record ib in
        match interrupted fault [AfterPublish; AfterDirSync; BeforeReceipt] with
        | Some _ => (set_uncertain ib, Err (InboxError "INBOX_OUTCOME_UNKNOWN"))
        | None => (set_seen (<[file_name eid := sha256 record]> (ib_seen ib)) ib, Ok (receipt eid))
        end
  end.

Definition receive (fault : stage → option exn) (ib : inbox) (ow : owner) (r certificate : bytes)
    : inbox * result view :=
  match load_records ib ow with
  | Err e => (ib, Err e)
  | Ok (ib, es) =>
      match admission ib ow es r certificate with
      | Err e => (ib, Err e)
      | Ok (eid, None) =>
          match interrupted fault [BeforeReceipt] with
          | Some _ => (ib, Err (InboxError "OWNER_STATE_CHANGED"))
          | None => (ib, Ok (receipt eid))
          end
      | Ok (eid, Some record) => publish fault ib eid record
      end
  end.

(** ** Evaluating a pending record *)

(** [lookup]: the one envelope, here or in the store, whose change has this hash. *)
Definition candidates (ib : inbox) (ow : owner) (es : list entry) (cid : bytes)
    : list (bytes * (bytes * bytes)) :=
  ((λ e, (en_id e, (en_raw e, en_certificate e)))
     <$> List.filter (λ e, bool_decide (h_hash (en_header e) = cid)) es)
  ++ ((λ r, (r_envelope r, (r_bytes r, r_certificate r)))
     <$> take 2 (List.filter (λ r, bool_decide (r_change_hash r = cid)) (doc_rows ib ow))).

Definition merge_candidate (c : bytes * (bytes * bytes)) (u : gmap bytes (bytes * bytes))
    : result (gmap bytes (bytes * bytes)) :=
  match u !! c.1 with
  | Some x => _ ← need (bool_decide (x = c.2)) "DEPENDENCY_EQUIVOCATION"; Ok u
  | None => Ok (<[c.1 := c.2]> u)
  end.

Definition lookup_dependency (ib : inbox) (ow : owner) (es : list entry) (cid : bytes)
    : result (option dependency) :=
  unique ← iter merge_candidate (candidates ib ow es cid) ∅;
  match map_to_list unique with
  | [] => Ok None
  | [(dep_id, (r, cert))] =>
      let a := ow_state ow in
      _ ← outer ib r cert a;
      header ← stored_header r;
      h ← read_hdr header;
      members ← membership_at a (h_control h);
      body ← member_certificate (a_app a) members cert;
      pk ← bytes_at body 3;
      active ← of_option TypeError (a_active a);
      plain ← open_change (am_secret active) pk header r;
      c ← create_change header plain (ib_schema ib);
      Ok (Some (Dependency dep_id c))
  | _ => Err (SharedChangeError "DEPENDENCY_EQUIVOCATION")
  end.

(** The state of the walk: [nodes], [missing], [ordered]. *)
Record gather := Gather {
  ga_nodes : gset bytes;
  ga_missing : gset bytes;
  ga_ordered : list dependency;
}.

Definition gather_limit : nat := 128.

(** [visit]; the path and the nodes together stay below the limit, so the fuel
    [gather_limit + 1] is never used up. *)
Fixpoint gather_visit (fuel : nat) (lookup : bytes → result (option dependency)) (visiting : gset bytes)
    (cid : bytes) (st : gather) : result gather :=
  match fuel with
  | O => Err OutOfFuel
  | S fuel' =>
      if bool_decide (cid ∈ visiting) then Err (SharedChangeError "DEPENDENCY_CYCLE")
      else if bool_decide (cid ∈ ga_nodes st) then Ok st
      else if (gather_limit <=? size (ga_nodes st) + size visiting)%nat
      then Err (SharedChangeError "RESOURCE_LIMIT")
      else
        dep ← lookup cid;
        match dep with
        | None => Ok (Gather (ga_nodes st) ({[cid]} ∪ ga_missing st) (ga_ordered st))
        | Some d =>
            st ← iter (gather_visit fuel' lookup ({[cid]} ∪ visiting)) (sorted_bytes (dep_parents d)) st;
            Ok (Gather ({[cid]} ∪ ga_nodes st) (ga_missing st) (ga_ordered st ++ [d]))
        end
  end.

(** [dict(_receipt(eid), state=state, ...)]. *)
Definition state_view (eid : bytes) (state : string) (reason : option string) : view :=
  View eid state true [] [] reason false None.

Definition sorted_hex (s : gset bytes) : list pystr := sorted_strs (hex <$> elements s).

(** The part of [_evaluation] after [_current]: gather the past, then ask [core_request]. *)
Definition evaluate_change (ib : inbox) (ow : owner) (es : list entry) (eid : bytes) (change : change_input)
    : result (view * option request) :=
  let h := ci_header change in
  st ← iter (gather_visit (S gather_limit) (lookup_dependency ib ow es) ∅)
         (sorted_bytes (h_deps h)) (Gather ∅ ∅ []);
  let missing_previous :=
    match h_previous h with
    | Some p =>
        if existsb (λ d, bool_decide (dp_envelope d = p)) (ga_ordered st) then []
        else if bool_decide (is_Some (find_entry es p)) || bool_decide (p ∈ ow_envelopes ow) then []
        else [hex p]
    | None => []
    end in
  if negb (bool_decide (ga_missing st = ∅)) || negb (bool_decide (missing_previous = [])) then
    Ok (View eid "WAITING_DEPENDENCIES" true (sorted_hex (ga_missing st)) missing_previous None false
          None, None)
  else
    r ← core_request change (ga_ordered st);
    Ok (state_view eid "READY_FOR_CORE" None, Some r).

Definition blocked_state (code : string) : string :=
  if String.eqb code "RESOURCE_LIMIT" then "RESOURCE_BLOCKED"
  else if String.eqb code "DEPENDENCY_EQUIVOCATION" then "QUARANTINED"
  else "INVALID_DEPENDENCY_GRAPH".

Definition evaluation (ib : inbox) (ow : owner) (eid : bytes) : result (inbox * (view * option request)) :=
  _ ← ineed (len eid =? 32) "INVALID_INPUT";
  loaded ← load_records ib ow;
  let '(ib, es) := (loaded : inbox * list entry) in
  match find_entry es eid with
  | None => Ok (ib, (View eid "NOT_OBSERVED" false [] [] None false None, None))
  | Some e =>
      c ← (if conflict es then Ok true else store_conflict ib ow es);
      if (c : bool) then Ok (ib, (state_view eid "QUARANTINED" (Some "SIGNED_EQUIVOCATION"%string), None))
      else
        match current ib ow (en_raw e) (en_certificate e) with
        | Err (AuthError code) =>
            Ok (ib, (state_view eid (if String.eqb code "REBASE_REQUIRED" then "REBASE_REQUIRED"
                                     else "WAITING_AUTHORITY") (Some code), None))
        | Err x =>
            match of_class "SharedChangeError" x with
            | Some code => Ok (ib, (state_view eid "INVALID_DEPENDENCY_GRAPH" (Some code), None))
            | None => Err x
            end
        | Ok change =>
            _ ← ineed (ow_valid ow) "STORE_VERIFICATION_FAILED";
            match evaluate_change ib ow es eid change with
            | Ok v => Ok (ib, v)
            | Err x =>
                match of_class "SharedChangeError" x with
                | Some code => Ok (ib, (state_view eid (blocked_state code) (Some code), None))
                | None => Err x
                end
            end
        end
  end.

Definition inspect_record (ib : inbox) (ow : owner) (eid : bytes) : result view :=
  r ← evaluation ib ow eid; Ok r.2.1.

(** [needed]: the hashes to ask for, over all records. *)
Definition needed (ib : inbox) (ow : owner) (limit : Z) : result (list pystr) :=
  _ ← ineed ((1 <=? limit) && (limit <=? 128)) "INVALID_INPUT";
  loaded ← load_records ib ow;
  let '(ib, es) := (loaded : inbox * list entry) in
  views ← mapM (λ e, inspect_record ib ow (en_id e)) es;
  let missing : gset pystr := list_to_set (views ≫= vw_missing) in
  Ok (take (Z.to_nat limit) (sorted_strs (elements missing))).

(** ** The core *)

(** The engine: its identity before and after the call, and its report. *)
Record core := Core {
  co_identity : value;
  co_validate : request → result value;
  co_identity_after : value;
}.

Definition real_kind (identity : value) (allow_contract_double : bool) : bool :=
  match sitem identity "kind" with
  | Ok k => is_text k "automerge" || allow_contract_double && is_text k "contract-test-double"
  | Err _ => false
  end.

Definition core_blocked_code (code : string) : bool :=
  existsb (String.eqb code) ["CORE_UNAVAILABLE"; "CORE_TIMEOUT"; "CORE_IDENTITY_CHANGED";
                             "CORE_RUNTIME_CHANGED"; "CORE_NOT_REAL"; "CORE_FAILURE"]%string.

(** An exception of the engine that is neither a [SharedChangeError] nor an [InboxError] is a
    [CORE_FAILURE]. *)
Definition core_call (c : core) (r : request) : result value :=
  match co_validate c r with
  | Err x =>
      match of_class "SharedChangeError" x, of_class "InboxError" x with
      | None, None => Err (SharedChangeError "CORE_FAILURE")
      | _, _ => Err x
      end
  | m => m
  end.

Definition check_core (c : core) (r : request) (allow_contract_double : bool) : result checked_report :=
  report ← core_call c r;
  _ ← need (py_eq (co_identity c) (co_identity_after c)) "CORE_IDENTITY_CHANGED";
  check_report r report (co_identity c) allow_contract_double.

Definition validate_record (ib : inbox) (ow : owner) (eid : bytes) (c : option core)
    (allow_contract_double : bool) : result view :=
  ev ← evaluation ib ow eid;
  match ev.2.2 with
  | None => Ok ev.2.1
  | Some r =>
      match c with
      | None => Ok (state_view eid "CORE_BLOCKED" (Some "CORE_UNAVAILABLE"%string))
      | Some c =>
          if negb (real_kind (co_identity c) allow_contract_double)
          then Ok (state_view eid "CORE_BLOCKED" (Some "CORE_NOT_REAL"%string))
          else
            match check_core c r allow_contract_double with
            | Ok rep =>
                Ok (View eid (if cr_semantic_validated rep then "SEMANTICALLY_VALIDATED_PENDING"
                              else "CONTRACT_CHECKED") true [] [] None (cr_semantic_validated rep)
                      (Some (cr_request_hash rep)))
            | Err x =>
                match of_class "SharedChangeError" x with
                | Some code =>
                    Ok (state_view eid (if core_blocked_code code then "CORE_BLOCKED" else "CORE_REJECTED")
                          (Some code))
                | None => Err x
                end
            end
      end
  end.

(** ** Opening, usage and pins *)

Definition open_inbox (ib : inbox) (ow : owner) : result inbox :=
  _ ← scope_ok (ib_app ib) (ib_space ib) (ib_doc ib) (ib_epoch ib) (ib_schema ib);
  _ ← ineed ((len (ib_generation ib) =? 32)
             && bool_decide ((unhex (ib_generation ib) ≫= λ b, Some (hex b)) = Some (ib_generation ib)))
        "INBOX_CORRUPT";
  _ ← ineed ((1 <=? ib_max_records ib) && (ib_max_records ib <=? DEFAULT_RECORDS)) "INBOX_CORRUPT";
  _ ← ineed ((1 <=? ib_max_bytes ib) && (ib_max_bytes ib <=? DEFAULT_BYTES)) "INBOX_CORRUPT";
  loaded ← load_records ib ow;
  Ok loaded.1.

Definition create_inbox (app : pystr) (space doc : bytes) (epoch : Z) (schema generation : bytes)
    (max_records max_bytes : Z) (ow : owner) : result inbox :=
  _ ← scope_ok app space doc epoch schema;
  _ ← ineed ((1 <=? max_records) && (max_records <=? DEFAULT_RECORDS)) "INVALID_INPUT";
  _ ← ineed ((1 <=? max_bytes) && (max_bytes <=? DEFAULT_BYTES)) "INVALID_INPUT";
  open_inbox (Inbox app space doc epoch schema (hex generation) max_records max_bytes ∅ [] ∅ false false)
    ow.

Definition usage (ib : inbox) (ow : owner) : result (Z * Z) :=
  loaded ← load_records ib ow; Ok (len loaded.2, record_bytes ib).
End Inbox.
