(* ===== verification/Exchange.v ===== *)
(** * Causal-data reads over a signed request/response protocol (product/wp04/exchange.py)

    A server signs a fresh hello; the client signs one request bound to it; the server
    signs the answer bound to both.  Messages are pairs of canonical bytes and a
    signature over their domain-separated digest.  Sockets, process identity and the
    system clock are outside; what the server does per connection is the state machine
    of the last section. *)

From S2P Require Import Prelude Bytes Value Codec Flat CddlText Schema SchemaSpec Json Hash Sodium Primitives Objects SharedChange Membership Authority Activation Enrolment Inbox.
Local Open Scope Z_scope.

Definition READ_PROFILE : string := "par-causal-read-local-0034".
Definition MAX_HELLO : Z := 8192.
Definition MAX_REQUEST : Z := 16384.
Definition MAX_RESPONSE : Z := 1048576.
Definition MAX_PAGE : Z := 16.
Definition MAX_CATALOG : Z := 128.

Definition REMOTE_ERRORS : list string :=
  ["NOT_AUTHORIZED"; "STALE_AUTHORITY"; "STALE_VIEW"; "DATA_INVALID"; "QUARANTINED";
   "RESOURCE_BLOCKED"; "NOT_OBSERVED"; "INVALID_REQUEST"; "REQUEST_AUTH"; "REQUEST_BINDING";
   "METHOD_DENIED"; "INTERNAL"]%string.

(** [require]; most calls use the default code. *)
Definition xneed (ok : bool) (code : string) : result unit := require ok (ExchangeError code).
Definition invalid : string := "INVALID_REQUEST".

(** ** Field checks; each returns what it checked *)

Definition xfixed (v : value) (n : Z) (code : string) : result bytes :=
  match v with
  | VBytes b => _ ← xneed (len b =? n) code; Ok b
  | _ => Err (ExchangeError code)
  end.

Definition xinteger (v : value) (lo hi : Z) (code : string) : result Z :=
  match v with
  | VInt z => _ ← xneed ((lo <=? z) && (z <=? hi)) code; Ok z
  | _ => Err (ExchangeError code)
  end.

(** [keys(v, range(n))] *)
Definition xkeys (v : value) (n : nat) (code : string) : result unit :=
  xneed (match v with VDict d => keys_exactly n d | _ => false end) code.

Definition scope_check (scope : value) : result unit :=
  match scope with
  | VList [app; space; doc; epoch; schema; head] =>
      _ ← xneed (match app with VStr s => key_app_ok s | _ => false end) invalid;
      _ ← xfixed space 32 invalid; _ ← xfixed doc 32 invalid;
      _ ← xfixed schema 32 invalid; _ ← xfixed head 32 invalid;
      _ ← xinteger epoch 1 (2 ^ 64 - 1) invalid;
      Ok tt
  | _ => Err (ExchangeError invalid)
  end.

Definition pack (v : value) (limit : Z) : result bytes :=
  catch_any (ExchangeError invalid) (encode_with limit MAX_NODES v).

Definition unpack (raw_ : value) (limit : Z) : result value :=
  match raw_ with
  | VBytes b =>
      _ ← xneed ((1 <=? len b) && (len b <=? limit)) invalid;
      catch_any (ExchangeError invalid) (decode_with limit MAX_NODES b)
  | _ => Err (ExchangeError invalid)
  end.

Definition version (b : value) : result unit :=
  v0 ← getitem b 0; _ ← xinteger v0 1 1 invalid;
  v1 ← getitem b 1; xneed (bool_decide (v1 = VStr (str READ_PROFILE))) invalid.

(** ** Requests *)

(** The arguments of the three methods, once checked. *)
Inductive request_args :=
| Have (token : option bytes) (offset limit : Z)
| Need (ids : list bytes)
| Get (token inner envelope : bytes).

Definition action_name (a : request_args) : string :=
  match a with Have _ _ _ => "have" | Need _ => "need" | Get _ _ _ => "get" end.

Definition args_value (a : request_args) : value :=
  match a with
  | Have t o l => dict [(0, match t with Some b => VBytes b | None => VNone end); (1, VInt o); (2, VInt l)]
  | Need ids => VList (VBytes <$> ids)
  | Get a b c => dict [(0, VBytes a); (1, VBytes b); (2, VBytes c)]
  end.

(** [request_args(action, args)]: the check of the code, with what it establishes. *)
Definition read_args (action args : value) : result request_args :=
  if is_text action "have" then
    _ ← xkeys args 3 invalid;
    v0 ← getitem args 0;
    token ← match v0 with VNone => Ok None | _ => b ← xfixed v0 32 invalid; Ok (Some b) end;
    v1 ← getitem args 1; offset ← xinteger v1 0 MAX_CATALOG invalid;
    v2 ← getitem args 2; limit ← xinteger v2 1 MAX_PAGE invalid;
    _ ← xneed ((offset =? 0) || negb (bool_decide (token = None))) invalid;
    Ok (Have token offset limit)
  else if is_text action "need" then
    l ← match args with VList l => Ok l | _ => Err (ExchangeError invalid) end;
    _ ← xneed ((1 <=? len l) && (len l <=? MAX_PAGE)) invalid;
    ids ← mapM (λ v, xfixed v 32 invalid) l;
    _ ← xneed (bool_decide (NoDup ids)) invalid;
    Ok (Need ids)
  else if is_text action "get" then
    _ ← xkeys args 3 invalid;
    v0 ← getitem args 0; a ← xfixed v0 32 invalid;
    v1 ← getitem args 1; b ← xfixed v1 32 invalid;
    v2 ← getitem args 2; c ← xfixed v2 32 invalid;
    Ok (Get a b c)
  else Err (ExchangeError "METHOD_DENIED").

Section Messages.
Context `{Hash} `{Sodium}.

Definition digest (r : bytes) : result bytes := hashed "causal-read/bytes" [VBytes r].

Definition read_label (label : string) : string := ("causal-read/" ++ label)%string.

Definition sign_message (seed : bytes) (label : string) (v : value) (limit : Z) : result bytes :=
  r ← pack v limit;
  m ← domain (read_label label) [VBytes r];
  sig ← sign seed m;
  pack (dict [(0, VBytes r); (1, VBytes sig)]) limit.

(** [split]: the body, its bytes and the signature. *)
Definition split (raw_ : value) (limit : Z) : result (value * bytes * bytes) :=
  obj ← unpack raw_ limit;
  _ ← xkeys obj 2 invalid;
  v1 ← getitem obj 1; sig ← xfixed v1 64 invalid;
  v0 ← getitem obj 0; b ← unpack v0 limit;
  r ← bytes_arg v0;
  Ok (b, r, sig).

Definition verify_message (public : bytes) (label : string) (r sig : bytes) (code : string) : result unit :=
  catch_any (ExchangeError code) (m ← domain (read_label label) [VBytes r]; verify public m sig).

(** ** Hello *)

Definition hello_body (public : bytes) (scope : value) (boot nonce : bytes) (deadline_ms : Z) : value :=
  dict [(0, VInt 1); (1, VStr (str READ_PROFILE)); (2, VBytes public); (3, scope); (4, VBytes boot);
        (5, VBytes nonce); (6, VInt deadline_ms); (7, VInt MAX_REQUEST); (8, VInt MAX_RESPONSE)].

Definition make_hello (seed : bytes) (scope : value) (boot nonce : bytes) (deadline_ms : Z) : result bytes :=
  _ ← scope_check scope;
  _ ← xfixed (VBytes seed) 32 invalid;
  _ ← xfixed (VBytes boot) 32 invalid;
  _ ← xfixed (VBytes nonce) 32 invalid;
  _ ← xinteger (VInt deadline_ms) 50 30000 invalid;
  pk ← sign_public seed;
  sign_message seed "hello" (hello_body pk scope boot nonce deadline_ms) MAX_HELLO.

Definition check_hello (public : bytes) (scope : value) (raw_ : value) : result value :=
  _ ← xfixed (VBytes public) 32 invalid;
  _ ← scope_check scope;
  parts ← split raw_ MAX_HELLO;
  let '(b, r, sig) := (parts : value * bytes * bytes) in
  _ ← xkeys b 9 invalid;
  _ ← version b;
  b3 ← getitem b 3; _ ← scope_check b3;
  b2 ← getitem b 2; pk ← xfixed b2 32 invalid;
  b4 ← getitem b 4; _ ← xfixed b4 32 invalid;
  b5 ← getitem b 5; _ ← xfixed b5 32 invalid;
  b6 ← getitem b 6; _ ← xinteger b6 50 30000 invalid;
  b7 ← getitem b 7; _ ← xinteger b7 MAX_REQUEST MAX_REQUEST invalid;
  b8 ← getitem b 8; _ ← xinteger b8 MAX_RESPONSE MAX_RESPONSE invalid;
  _ ← verify_message public "hello" r sig "HELLO_AUTH";
  _ ← xneed (bool_decide (pk = public)) "HELLO_AUTH";
  _ ← xneed (py_eq b3 scope) "SCOPE_MISMATCH";
  Ok b.

Definition make_request (seed hello certificate : bytes) (action args : value) : result bytes :=
  _ ← read_args action args;
  _ ← xfixed (VBytes seed) 32 invalid;
  _ ← xneed ((0 <? len certificate) && (len certificate <=? 4096)) invalid;
  d ← digest hello;
  sign_message seed "request"
    (dict [(0, VInt 1); (1, VStr (str READ_PROFILE)); (2, VBytes d); (3, VBytes certificate);
           (4, action); (5, args)]) MAX_REQUEST.

Definition make_response (seed hello request : bytes) (success : bool) (v : value) : result bytes :=
  d ← digest hello; q ← digest request;
  sign_message seed "response"
    (dict [(0, VInt 1); (1, VStr (str READ_PROFILE)); (2, VBytes d); (3, VBytes q);
           (4, VBool success); (5, v)]) MAX_RESPONSE.

(** ** Answers *)

Definition schema_code : string := "RESPONSE_SCHEMA".

(** A descriptor: the change hash, the envelope id and the envelope's length. *)
Record item := Item { it_inner : bytes; it_envelope : bytes; it_length : Z }.

#[export] Instance item_eq_dec : EqDecision item.
Proof. solve_decision. Defined.

Definition item_value (d : item) : value :=
  VList [VBytes (it_inner d); VBytes (it_envelope d); VInt (it_length d)].

Definition descriptor_check (v : value) : result item :=
  match v with
  | VList [a; b; c] =>
      a ← xfixed a 32 schema_code; b ← xfixed b 32 schema_code; n ← xinteger c 1 RECORD_MAX schema_code;
      Ok (Item a b n)
  | _ => Err (ExchangeError schema_code)
  end.

(** The order of descriptors as Python lists. *)
Definition item_leb (a b : item) : bool :=
  if bytes_ltb (it_inner a) (it_inner b) then true
  else if bytes_ltb (it_inner b) (it_inner a) then false
  else if bytes_ltb (it_envelope a) (it_envelope b) then true
  else if bytes_ltb (it_envelope b) (it_envelope a) then false
  else it_length a <=? it_length b.
Definition item_le_rel (a b : item) : Prop := item_leb a b = true.
#[export] Instance item_le_rel_dec : RelDecision item_le_rel.
Proof. intros a b. unfold item_le_rel. apply _. Defined.
Definition sorted_items (l : list item) : list item := merge_sort item_le_rel l.

Definition have_value (token : option bytes) (offset limit : Z) (v : value) : result unit :=
  _ ← xkeys v 5 schema_code;
  v0 ← getitem v 0; t ← xfixed v0 32 schema_code;
  v1 ← getitem v 1; o ← xinteger v1 0 MAX_CATALOG schema_code;
  v4 ← getitem v 4; total ← xinteger v4 0 MAX_CATALOG schema_code;
  _ ← xneed ((o =? offset) && (o <=? total)) schema_code;
  _ ← xneed (bool_decide (token = None) || bool_decide (token = Some t)) schema_code;
  v2 ← getitem v 2;
  l ← match v2 with VList l => Ok l | _ => Err (ExchangeError schema_code) end;
  _ ← xneed (len l =? Z.min limit (total - o)) schema_code;
  ds ← mapM descriptor_check l;
  _ ← xneed (bool_decide (ds = sorted_items ds) && bool_decide (NoDup (it_inner <$> ds))
             && bool_decide (NoDup (it_envelope <$> ds))) schema_code;
  v3 ← getitem v 3;
  let next := o + len l in
  if next <? total then n ← xinteger v3 1 MAX_CATALOG schema_code; xneed (n =? next) schema_code
  else xneed (bool_decide (v3 = VNone)) schema_code.

Definition need_row (cid : bytes) (row : value) : result unit :=
  match row with
  | VList [a; b] =>
      _ ← xneed (bool_decide (a = VBytes cid)) schema_code;
      match b with
      | VNone => Ok tt
      | _ => d ← descriptor_check b; xneed (bool_decide (it_inner d = cid)) schema_code
      end
  | _ => Err (ExchangeError schema_code)
  end.

Definition need_value (ids : list bytes) (v : value) : result unit :=
  _ ← xkeys v 2 schema_code;
  v0 ← getitem v 0; _ ← xfixed v0 32 schema_code;
  v1 ← getitem v 1;
  rows ← match v1 with VList l => Ok l | _ => Err (ExchangeError schema_code) end;
  _ ← xneed (len rows =? len ids) schema_code;
  iter (λ x _, need_row x.1 x.2) (zip ids rows) tt.

Definition exchange_or {A} (code : string) (m : result A) : result A :=
  match m with Err (ExchangeError _) | Ok _ => m | Err _ => Err (ExchangeError code) end.

Definition get_value (token inner envelope : bytes) (v : value) : result unit :=
  _ ← xkeys v 6 schema_code;
  v0 ← getitem v 0; v1 ← getitem v 1; v2 ← getitem v 2;
  _ ← xneed (bool_decide (v0 = VBytes token) && bool_decide (v1 = VBytes inner)
             && bool_decide (v2 = VBytes envelope)) schema_code;
  v5 ← getitem v 5;
  _ ← xneed (bool_decide (v5 = VStr (str "ENCRYPTED_PENDING_BYTES"))) schema_code;
  v3 ← getitem v 3;
  r ← match v3 with VBytes b => Ok b | _ => Err (ExchangeError schema_code) end;
  _ ← xneed ((0 <? len r) && (len r <=? RECORD_MAX)) schema_code;
  v4 ← getitem v 4;
  cert ← match v4 with VBytes b => Ok b | _ => Err (ExchangeError schema_code) end;
  _ ← xneed ((0 <? len cert) && (len cert <=? 4096)) schema_code;
  exchange_or schema_code
    (header ← stored_header r;
     eid ← envelope_id r;
     h12 ← getitem header 12;
     xneed (bool_decide (eid = envelope) && bool_decide (h12 = VBytes inner)) schema_code).

Definition response_value (a : request_args) (v : value) : result value :=
  _ ← match a with
      | Have t o l => have_value t o l v
      | Need ids => need_value ids v
      | Get t i e => get_value t i e v
      end;
  Ok v.

(** A fetched envelope belongs to the document of the hello. *)
Definition same_document (hello : bytes) (public : bytes) (v : value) : result unit :=
  parts ← split (VBytes hello) MAX_HELLO;
  let '(hb, _, _) := (parts : value * bytes * bytes) in
  scope ← getitem hb 3;
  _ ← check_hello public scope (VBytes hello);
  exchange_or schema_code
    (v3 ← getitem v 3; r ← bytes_arg v3;
     h ← stored_header r;
     h0 ← getitem h 0; h1 ← getitem h 1; h3 ← getitem h 3; h2 ← getitem h 2; h9 ← getitem h 9;
     l ← as_list scope;
     xneed (py_eq (VList [h0; h1; h3; h2; h9]) (VList (take 5 l))) schema_code).

Definition check_response (public hello request : bytes) (raw_ action args : value) : result value :=
  a ← read_args action args;
  parts ← split raw_ MAX_RESPONSE;
  let '(b, r, sig) := (parts : value * bytes * bytes) in
  _ ← xkeys b 6 invalid;
  _ ← version b;
  _ ← verify_message public "response" r sig "RESPONSE_AUTH";
  d ← digest hello; q ← digest request;
  b2 ← getitem b 2; b3 ← getitem b 3;
  _ ← xneed (bool_decide (b2 = VBytes d) && bool_decide (b3 = VBytes q)) "RESPONSE_BINDING";
  b4 ← getitem b 4; b5 ← getitem b 5;
  match b4 with
  | VBool true =>
      v ← response_value a b5;
      _ ← (match a with Get _ _ _ => same_document hello public v | _ => Ok tt end);
      Ok v
  | VBool false =>
      match List.find (is_text b5) REMOTE_ERRORS with
      | Some code => Err (ExchangeError ("REMOTE_" ++ code))
      | None => Err (ExchangeError schema_code)
      end
  | _ => Err (ExchangeError schema_code)
  end.
End Messages.

(** ** The source *)

Record source := Source {
  so_inbox : inbox;
  so_owner : owner;
  so_certificate : bytes;
  so_seed : bytes;
  so_public : bytes;
  so_scope : value;
  so_head : bytes;         (* scope[5] *)
  so_epoch : Z;            (* scope[3] *)
}.

Section Source.
Context `{Hash} `{Sodium}.

(** [_enter] of the inbox's owner and the liveness of the inbox. *)
Definition source_authorize (s : source) (certificate : bytes) : result bytes :=
  _ ← enter (so_inbox s);
  let a := ow_state (so_owner s) in
  exchange_or "NOT_AUTHORIZED"
    (e ← epoch a;
     _ ← xneed (bool_decide (a_head a = so_head s) && (e =? so_epoch s)) "STALE_AUTHORITY";
     _ ← xneed (negb (String.eqb (ow_status (so_owner s)) "AUTH_PERSISTENCE_UNCERTAIN"))
           "STALE_AUTHORITY";
     _ ← authorize a (so_certificate s) "read";
     _ ← authorize a certificate "read";
     ms ← current_membership a;
     cert ← member_certificate (a_app a) ms certificate;
     bytes_at cert 3).

Definition new_source (ib : inbox) (ow : owner) (certificate seed : bytes) : result source :=
  _ ← xfixed (VBytes seed) 32 invalid;
  pk ← sign_public seed;
  let head := a_head (ow_state ow) in
  let scope := VList [VStr (ib_app ib); VBytes (ib_space ib); VBytes (ib_doc ib); VInt (ib_epoch ib);
                      VBytes (ib_schema ib); VBytes head] in
  let s := Source ib ow certificate seed pk scope head (ib_epoch ib) in
  _ ← scope_check scope;
  holder ← source_authorize s certificate;
  _ ← xneed (bool_decide (holder = pk)) "NOT_AUTHORIZED";
  Ok s.

(** One stored row joins the catalog's records. *)
Definition merge_row (ib : inbox) (a : authority) (r : row) (es : list entry) : result (list entry) :=
  h ← outer ib (r_bytes r) (r_certificate r) a;
  eid ← envelope_id (r_bytes r);
  _ ← xneed (bool_decide (eid = r_envelope r)) "DATA_INVALID";
  match find_entry es eid with
  | Some e =>
      _ ← xneed (bool_decide (en_raw e = r_bytes r) && bool_decide (en_certificate e = r_certificate r))
            "DATA_INVALID";
      Ok es
  | None => Ok (es ++ [Entry eid (r_bytes r) (r_certificate r) h])
  end.

Definition entry_item (e : entry) : item := Item (h_hash (en_header e)) (en_id e) (len (en_raw e)).

(** [catalog]: the snapshot token, the sorted descriptors and the records. *)
Definition catalog (s : source) (certificate : bytes) : result (bytes * list item * list entry) :=
  _ ← source_authorize s certificate;
  exchange_or "DATA_INVALID"
    (let ib := so_inbox s in let ow := so_owner s in
     loaded ← load_records ib ow;
     let '(ib, es) := (loaded : inbox * list entry) in
     _ ← xneed (ow_valid ow) "DATA_INVALID";
     let rows := take (S (Z.to_nat MAX_CATALOG)) (doc_rows ib ow) in
     _ ← xneed (len rows <=? MAX_CATALOG) "RESOURCE_BLOCKED";
     es ← iter (merge_row ib (ow_state ow)) rows es;
     _ ← xneed (len es <=? MAX_CATALOG) "RESOURCE_BLOCKED";
     _ ← xneed (negb (conflict es)) "QUARANTINED";
     _ ← source_authorize s certificate;
     let ds := sorted_items (entry_item <$> es) in
     pin ← canonical (ow_pin ow);
     rows ← mapM (λ d, e ← of_option KeyError (find_entry es (it_envelope d));
                       c ← digest (en_certificate e);
                       Ok (VList [VBytes (it_inner d); VBytes (it_envelope d); VInt (it_length d); VBytes c])) ds;
     token ← hashed "causal-read/snapshot" [so_scope s; VStr (ib_generation ib); VBytes pin; VList rows];
     Ok (token, ds, es)).

Definition guard (s : source) (certificate : bytes) : result bytes :=
  c ← catalog s certificate; Ok c.1.1.

(** [by_id.get(cid)]: of equal hashes the last descriptor counts. *)
Definition find_item (ds : list item) (cid : bytes) : option item :=
  List.find (λ d, bool_decide (it_inner d = cid)) (rev ds).

Definition optional_item (d : option item) : value :=
  match d with Some d => item_value d | None => VNone end.

Definition answer_with (a : request_args) (token : bytes) (ds : list item) (es : list entry) : result value :=
  match a with
  | Have t offset limit =>
      _ ← xneed (bool_decide (t = None) || bool_decide (t = Some token)) "STALE_VIEW";
      _ ← xneed (offset <=? len ds) invalid;
      let page := take (Z.to_nat limit) (drop (Z.to_nat offset) ds) in
      let next := offset + len page in
      Ok (dict [(0, VBytes token); (1, VInt offset); (2, VList (item_value <$> page));
                (3, if next <? len ds then VInt next else VNone); (4, VInt (len ds))])
  | Need ids =>
      Ok (dict [(0, VBytes token);
                (1, VList ((λ cid, VList [VBytes cid; optional_item (find_item ds cid)]) <$> ids))])
  | Get t inner envelope =>
      _ ← xneed (bool_decide (t = token)) "STALE_VIEW";
      e ← of_option (ExchangeError "NOT_OBSERVED") (find_entry es envelope);
      _ ← xneed (bool_decide (h_hash (en_header e) = inner)) "NOT_OBSERVED";
      Ok (dict [(0, VBytes token); (1, VBytes inner); (2, VBytes envelope); (3, VBytes (en_raw e));
                (4, VBytes (en_certificate e)); (5, VStr (str "ENCRYPTED_PENDING_BYTES"))])
  end.

Definition answer (s : source) (certificate : bytes) (action args : value) : result value :=
  a ← read_args action args;
  c ← catalog s certificate;
  let '(token, ds, es) := (c : bytes * list item * list entry) in
  answer_with a token ds es.

(** The server's view of a request: who asks for what. *)
Definition check_request (s : source) (hello raw_ : bytes) : result (bytes * value * value) :=
  _ ← check_hello (so_public s) (so_scope s) (VBytes hello);
  parts ← split (VBytes raw_) MAX_REQUEST;
  let '(b, r, sig) := (parts : value * bytes * bytes) in
  _ ← xkeys b 6 invalid;
  _ ← version b;
  b2 ← getitem b 2; bound ← xfixed b2 32 invalid;
  d ← digest hello;
  _ ← xneed (bool_decide (bound = d)) "REQUEST_BINDING";
  action ← getitem b 4; args ← getitem b 5;
  _ ← read_args action args;
  b3 ← getitem b 3; cert ← bytes_arg b3;
  public ← source_authorize s cert;
  _ ← verify_message public "request" r sig "REQUEST_AUTH";
  Ok (cert, action, args).

(** The reply to the bytes of a request, with the certificate and guard to recheck. *)
Definition remote_code (e : exn) : string :=
  match e with
  | ExchangeError c | CryptoError c | AuthError c | WireError c _ | Raised _ c =>
      if existsb (String.eqb c) REMOTE_ERRORS then c else "INTERNAL"
  | _ => "INTERNAL"
  end.

Definition reply (s : source) (hello raw_ : bytes) : result (bytes * option (bytes * bytes)) :=
  match (q ← check_request s hello raw_;
         let '(cert, action, args) := (q : bytes * value * value) in
         v ← answer s cert action args;
         v0 ← getitem v 0; g ← bytes_arg v0;
         response ← make_response (so_seed s) hello raw_ true v;
         Ok (response, (cert, g))) with
  | Ok (response, cg) => Ok (response, Some cg)
  | Err e =>
      response ← make_response (so_seed s) hello raw_ false (VStr (str (remote_code e)));
      Ok (response, None)
  end.
End Source.
