(* ===== verification/SampleSource.v ===== *)
(** * An inbox, an owner and a causal-read source over the concrete Space, for the witnesses *)

From S2P Require Import Prelude Bytes Value Codec Hash Sodium Toy Primitives Objects SharedChange Membership Authority Activation Enrolment Sample Json Inbox Exchange.
Local Open Scope Z_scope.

Definition sample_inbox : inbox :=
  Inbox sample_app sample_space (key_of 30) 1 (key_of 31) (hex (raw (repeat 9 16))) 4 DEFAULT_BYTES
    ∅ [] ∅ false false.
Definition sample_owner : owner := Owner sample_active "ACTIVE" true [] ∅ VNone.
Definition sample_source : source :=
  Source sample_inbox sample_owner sample_certificate device_seed (pad32 device_seed)
    (VList [VStr sample_app; VBytes sample_space; VBytes (key_of 30); VInt 1; VBytes (key_of 31);
            VBytes (a_head sample_active)]) (a_head sample_active) 1.
