(* ===== verification/ExchangeServer.v ===== *)
(** * Connections of the causal-read server, and the client
    (product/wp04/exchange.py, lines 359-549; framing of keeper-service/transport.py)

    A connection sends its hello, reads one framed request, sends the framed reply and
    ends.  [step] is what [poll] does for one ready event; what the sockets and the clock
    return are its arguments.  Times are in milliseconds. *)

From S2P Require Import Prelude Bytes Value Codec Flat CddlText Schema SchemaSpec Json Hash Sodium Primitives Objects SharedChange Membership Authority Activation Enrolment Inbox Exchange.
Local Open Scope Z_scope.

Definition ServiceError (code : string) : exn := Raised "ServiceError" code.

(** [transport.frame] *)
Definition frame (r : bytes) (limit : Z) : result bytes :=
  _ ← require ((1 <=? len r) && (len r <=? limit)) (ServiceError "FRAME_LIMIT");
  Ok (to_bytes_big 4 (len r) ++ r).

(** [transport.receive] on the chunks [recv] returns, each within what it asked for; an empty
    chunk is the end of the stream, no chunk left a timeout. *)
Fixpoint receive_frame (chunks : list bytes) (limit : Z) (data : bytes) (want : Z) : result bytes :=
  if len data <? want then
    match chunks with
    | [] => Err (ServiceError "DEADLINE")
    | b :: chunks' =>
        if bool_decide (b = []) then Err (ServiceError "DISCONNECTED")
        else
          let data := data ++ b in
          if (want =? 4) && (len data =? 4) then
            let n := from_bytes_big data in
            if (1 <=? n) && (n <=? limit) then receive_frame chunks' limit data (4 + n)
            else Err (ServiceError "FRAME_LIMIT")
          else receive_frame chunks' limit data want
    end
  else Ok (drop 4 data).

(** ** Connections *)

Inductive phase := PHello | PRequest | PResponse.

#[export] Instance phase_eq_dec : EqDecision phase.
Proof. solve_decision. Defined.

Record connection := Connection {
  cn_hello : bytes;
  cn_deadline : Z;
  cn_phase : phase;
  cn_output : bytes;
  cn_incoming : bytes;
  cn_sent : Z;
  cn_want : Z;
  cn_guard : option (bytes * bytes);    (* the certificate and the snapshot it saw *)
}.

Record counters := Counters {
  ct_accepted : Z;
  ct_completed : Z;
  ct_rejected : Z;
  ct_dropped : Z;
  ct_expired : Z;
  ct_overloaded : Z;
  ct_changed : Z;
}.

Record server := Server {
  sv_boot : bytes;
  sv_max_connections : Z;
  sv_deadline_ms : Z;
  sv_send_chunk : Z;
  sv_connections : gmap Z connection;    (* by file descriptor *)
  sv_counts : counters;
  sv_closed : bool;
}.

Definition with_connections (cs : gmap Z connection) (ct : counters) (sv : server) : server :=
  Server (sv_boot sv) (sv_max_connections sv) (sv_deadline_ms sv) (sv_send_chunk sv) cs ct (sv_closed sv).

Definition count_accepted (ct : counters) : counters :=
  Counters (ct_accepted ct + 1) (ct_completed ct) (ct_rejected ct) (ct_dropped ct) (ct_expired ct)
    (ct_overloaded ct) (ct_changed ct).
Definition count_rejected (ct : counters) : counters :=
  Counters (ct_accepted ct) (ct_completed ct) (ct_rejected ct + 1) (ct_dropped ct) (ct_expired ct)
    (ct_overloaded ct) (ct_changed ct).
Definition count_expired (ct : counters) : counters :=
  Counters (ct_accepted ct) (ct_completed ct) (ct_rejected ct) (ct_dropped ct) (ct_expired ct + 1)
    (ct_overloaded ct) (ct_changed ct).
Definition count_overloaded (ct : counters) : counters :=
  Counters (ct_accepted ct) (ct_completed ct) (ct_rejected ct) (ct_dropped ct) (ct_expired ct)
    (ct_overloaded ct + 1) (ct_changed ct).
Definition count_changed (ct : counters) : counters :=
  Counters (ct_accepted ct) (ct_completed ct) (ct_rejected ct) (ct_dropped ct) (ct_expired ct)
    (ct_overloaded ct) (ct_changed ct + 1).
Definition count_end (complete : bool) (ct : counters) : counters :=
  if complete then
    Counters (ct_accepted ct) (ct_completed ct + 1) (ct_rejected ct) (ct_dropped ct) (ct_expired ct)
      (ct_overloaded ct) (ct_changed ct)
  else
    Counters (ct_accepted ct) (ct_completed ct) (ct_rejected ct) (ct_dropped ct + 1) (ct_expired ct)
      (ct_overloaded ct) (ct_changed ct).

(** [_drop] *)
Definition drop_connection (fd : Z) (complete : bool) (sv : server) : server :=
  with_connections (delete fd (sv_connections sv)) (count_end complete (sv_counts sv)) sv.

Definition put_connection (fd : Z) (c : connection) (sv : server) : server :=
  with_connections (<[fd := c]> (sv_connections sv)) (sv_counts sv) sv.

Definition with_counts (ct : counters) (sv : server) : server :=
  with_connections (sv_connections sv) ct sv.

Section Server.
Context `{Hash} `{Sodium}.
Implicit Types (s : source) (sv : server) (c : connection).

Definition new_server s (boot : bytes) (max_connections deadline_ms send_chunk : Z) : result server :=
  _ ← xinteger (VInt max_connections) 1 8 invalid;
  _ ← xinteger (VInt deadline_ms) 50 30000 invalid;
  _ ← xinteger (VInt send_chunk) 1 65536 invalid;
  Ok (Server boot max_connections deadline_ms send_chunk ∅ (Counters 0 0 0 0 0 0 0) false).

(** One accepted socket [fd]; [peer_ok] is the outcome of the credential test. *)
Definition accept s (fd : Z) (peer_ok : bool) (nonce : bytes) (now : Z) sv : server :=
  if sv_max_connections sv <=? Z.of_nat (size (sv_connections sv))
  then with_counts (count_overloaded (sv_counts sv)) sv
  else
    match (_ ← require peer_ok (ServiceError "PEER_IDENTITY");
           hello ← make_hello (so_seed s) (so_scope s) (sv_boot sv) nonce (sv_deadline_ms sv);
           out ← frame hello MAX_HELLO;
           Ok (hello, out)) with
    | Err _ => with_counts (count_rejected (sv_counts sv)) sv
    | Ok (hello, out) =>
        with_connections
          (<[fd := Connection hello (now + sv_deadline_ms sv) PHello out [] 0 4 None]> (sv_connections sv))
          (count_accepted (sv_counts sv)) sv
    end.

(** [_read] with the chunk [b] that [recv] returned. *)
Definition read_ready s (fd : Z) c (b : bytes) sv : server :=
  if bool_decide (b = []) then drop_connection fd false sv
  else
    let incoming := cn_incoming c ++ b in
    let c := Connection (cn_hello c) (cn_deadline c) (cn_phase c) (cn_output c) incoming (cn_sent c)
               (cn_want c) (cn_guard c) in
    if negb (len incoming =? cn_want c) then put_connection fd c sv
    else if cn_want c =? 4 then
      let n := from_bytes_big incoming in
      if (0 <? n) && (n <=? MAX_REQUEST) then
        put_connection fd (Connection (cn_hello c) (cn_deadline c) (cn_phase c) (cn_output c) incoming
                             (cn_sent c) (4 + n) (cn_guard c)) sv
      else drop_connection fd false sv
    else
      match reply s (cn_hello c) (drop 4 incoming) with
      | Err _ => drop_connection fd false sv
      | Ok (response, cg) =>
          let sv := if bool_decide (cg = None) then with_counts (count_rejected (sv_counts sv)) sv else sv in
          match frame response MAX_RESPONSE with
          | Err _ => drop_connection fd false sv
          | Ok out =>
              put_connection fd (Connection (cn_hello c) (cn_deadline c) PResponse out [] 0 (cn_want c) cg) sv
          end
      end.

(** The recheck before every write of a reply. *)
Definition still_current s c : bool :=
  match cn_phase c, cn_guard c with
  | PResponse, Some (cert, g) =>
      match guard s cert with Ok g' => bool_decide (g = g') | Err _ => false end
  | _, _ => true
  end.

(** [_write]; [n] is what [send] accepted of the chunk offered. *)
Definition write_ready s (fd : Z) c (n : Z) sv : server :=
  if negb (still_current s c)
  then drop_connection fd false (with_counts (count_changed (sv_counts sv)) sv)
  else if n =? 0 then drop_connection fd false sv
  else
    let sent := cn_sent c + n in
    if sent <? len (cn_output c)
    then put_connection fd (Connection (cn_hello c) (cn_deadline c) (cn_phase c) (cn_output c)
                              (cn_incoming c) sent (cn_want c) (cn_guard c)) sv
    else if bool_decide (cn_phase c = PResponse) then drop_connection fd true sv
    else put_connection fd (Connection (cn_hello c) (cn_deadline c) PRequest [] (cn_incoming c) 0
                              (cn_want c) (cn_guard c)) sv.

(** What a ready descriptor delivers: received bytes, the count [send] took, or an error. *)
Inductive io :=
| IoRead (b : bytes)
| IoWrite (n : Z)
| IoError.

(** The body of the loop over ready descriptors; the selector reports reads in phase [request]
    and writes otherwise. *)
Definition handle s (fd : Z) (now : Z) (i : io) sv : server :=
  match sv_connections sv !! fd with
  | None => sv
  | Some c =>
      if cn_deadline c <=? now
      then drop_connection fd false (with_counts (count_expired (sv_counts sv)) sv)
      else
        match i with
        | IoRead b => if bool_decide (cn_phase c = PRequest) then read_ready s fd c b sv else sv
        | IoWrite n => if bool_decide (cn_phase c = PRequest) then sv else write_ready s fd c n sv
        | IoError => drop_connection fd false sv
        end
  end.

(** The first loop of [poll]. *)
Definition expire_one (now fd : Z) sv : server :=
  match sv_connections sv !! fd with
  | Some c =>
      if cn_deadline c <=? now
      then drop_connection fd false (with_counts (count_expired (sv_counts sv)) sv) else sv
  | None => sv
  end.
Definition expire (now : Z) sv : server :=
  fold_right (expire_one now) sv (map_to_list (sv_connections sv)).*1.

Definition close_server sv : server :=
  if sv_closed sv then sv
  else
    let sv := fold_right (λ fd sv, drop_connection fd false sv) sv (map_to_list (sv_connections sv)).*1 in
    Server (sv_boot sv) (sv_max_connections sv) (sv_deadline_ms sv) (sv_send_chunk sv)
      (sv_connections sv) (sv_counts sv) true.

(** What [recv] and [send] may return: no more than was asked for or offered. *)
Definition io_possible sv (fd : Z) (i : io) : Prop :=
  match sv_connections sv !! fd, i with
  | Some c, IoRead b => len b <= cn_want c - len (cn_incoming c)
  | Some c, IoWrite n => 0 <= n <= Z.min (sv_send_chunk sv) (len (cn_output c) - cn_sent c)
  | _, _ => True
  end.

(** The source the server reads may change between steps. *)
Inductive step : server → server → Prop :=
| step_accept s fd ok nonce now sv :
    sv_closed sv = false → sv_connections sv !! fd = None → step sv (accept s fd ok nonce now sv)
| step_handle s fd now i sv :
    sv_closed sv = false → io_possible sv fd i → step sv (handle s fd now i sv)
| step_expire now sv : sv_closed sv = false → step sv (expire now sv)
| step_close sv : step sv (close_server sv).

(** ** The client *)

Record client := Client {
  cl_public : bytes;
  cl_scope : value;
  cl_certificate : bytes;
  cl_seed : bytes;
}.

Definition new_client (public : bytes) (scope : value) (certificate seed : bytes) : result client :=
  _ ← xfixed (VBytes public) 32 invalid;
  _ ← xfixed (VBytes seed) 32 invalid;
  _ ← scope_check scope;
  _ ← xneed ((0 <? len certificate) && (len certificate <=? 4096)) invalid;
  Ok (Client public scope certificate seed).

(** An exception of the transport, [sent] telling whether the request may have left. *)
Definition client_error {A} (sent : bool) (m : result A) : result A :=
  match m with
  | Err e =>
      match of_class "ServiceError" e with
      | Some code =>
          Err (ExchangeError
                 (if sent && (String.eqb code "DEADLINE" || String.eqb code "DISCONNECTED")
                  then "OUTCOME_UNKNOWN" else code))
      | None =>
          match of_class "OSError" e with
          | Some _ => Err (ExchangeError (if sent then "OUTCOME_UNKNOWN" else "CONNECTION_UNAVAILABLE"))
          | None => Err e
          end
      end
  | Ok _ => m
  end.

(** The socket: what connecting and receiving the hello gives, what sending gives, and the reply
    to the bytes sent. *)
Record channel := Channel {
  ch_hello : result bytes;
  ch_send : bytes → result unit;
  ch_reply : bytes → result bytes;
}.

Definition call (cl : client) (ch : channel) (action args : value) : result value :=
  _ ← read_args action args;
  packed ← pack args MAX_REQUEST;
  args ← unpack (VBytes packed) MAX_REQUEST;
  hello ← client_error false (ch_hello ch);
  _ ← check_hello (cl_public cl) (cl_scope cl) (VBytes hello);
  request ← make_request (cl_seed cl) hello (cl_certificate cl) action args;
  _ ← client_error true (ch_send ch request);
  r ← client_error true (ch_reply ch request);
  check_response (cl_public cl) hello request (VBytes r) action args.

Definition fetch (cl : client) (ch : channel) (snapshot : bytes) (d : value) : result (bytes * bytes) :=
  it ← descriptor_check d;
  v ← call cl ch (VStr (str "get")) (args_value (Get snapshot (it_inner it) (it_envelope it)));
  r ← bytes_at v 3; cert ← bytes_at v 4;
  _ ← xneed (len r =? it_length it) schema_code;
  Ok (r, cert).

(** [transfer_one]: fetch, then receive into the inbox. *)
Definition transfer_one (fault : stage → option exn) (cl : client) (ch : channel) (ib : inbox) (ow : owner)
    (snapshot : bytes) (d : value) : inbox * result view :=
  let mine := VList [VStr (ib_app ib); VBytes (ib_space ib); VBytes (ib_doc ib); VInt (ib_epoch ib);
                     VBytes (ib_schema ib)] in
  match (l ← as_list (cl_scope cl);
         _ ← xneed (py_eq (VList (take 5 l)) mine) "SCOPE_MISMATCH";
         fetch cl ch snapshot d) with
  | Err e => (ib, Err e)
  | Ok (r, cert) => receive fault ib ow r cert
  end.
End Server.
