(* ===== verification/ServerSpec.v ===== *)
(** * The connection state machine of the causal-read server is bounded and accounted for *)

From S2P Require Import Prelude Bytes Value Codec Flat CddlText Schema SchemaSpec Json Hash Sodium Toy Primitives Objects SharedChange Membership Authority Activation Enrolment Sample Inbox Exchange SampleSource ExchangeServer.
Local Open Scope Z_scope.

#[local] Opaque encode decode encode_with decode_with validate crypt domain verify hashed auth_parse reply make_hello guard.
#[local] Arguments from_bytes_big : simpl never.
#[local] Arguments to_bytes_big : simpl never.

Section Spec.
Context `{Hash} `{Sodium}.
Implicit Types (s : source) (sv : server) (c : connection).

(** What each phase buffers. *)
Definition connection_ok c : Prop :=
  match cn_phase c with
  | PHello =>
      0 <= cn_sent c < len (cn_output c) ∧ len (cn_output c) <= 4 + MAX_HELLO ∧
      cn_incoming c = [] ∧ cn_want c = 4
  | PRequest =>
      cn_output c = [] ∧ len (cn_incoming c) < cn_want c ∧
      (cn_want c = 4 ∨
       4 <= len (cn_incoming c) ∧ 0 < from_bytes_big (take 4 (cn_incoming c)) <= MAX_REQUEST ∧
       cn_want c = 4 + from_bytes_big (take 4 (cn_incoming c)))
  | PResponse =>
      0 <= cn_sent c < len (cn_output c) ∧ len (cn_output c) <= 4 + MAX_RESPONSE ∧
      cn_incoming c = []
  end.

Record server_ok sv : Prop := {
  so_limit : Z.of_nat (size (sv_connections sv)) <= sv_max_connections sv;
  so_account : ct_accepted (sv_counts sv)
    = ct_completed (sv_counts sv) + ct_dropped (sv_counts sv) + Z.of_nat (size (sv_connections sv));
  so_connections fd c : sv_connections sv !! fd = Some c → connection_ok c;
  so_closed : sv_closed sv = true → sv_connections sv = ∅;
}.

Lemma frame_Ok r limit out :
  frame r limit = Ok out → len out = 4 + len r ∧ 1 <= len r <= limit.
Proof.
  unfold frame. intros E. apply bind_Ok in E as ([] & Hr & E). apply require_Ok in Hr.
  injection E as <-. apply andb_prop in Hr as [H1%Z.leb_le H2%Z.leb_le].
  rewrite !len_cons. lia.
Qed.
#[local] Opaque frame.

Lemma drop_ok fd complete sv :
  server_ok sv → is_Some (sv_connections sv !! fd) → sv_closed sv = false →
  server_ok (drop_connection fd complete sv).
Proof.
  intros [H1 H2 H3 H4] [c Hc] Hcl. unfold drop_connection, with_connections.
  assert (size (sv_connections sv) = S (size (delete fd (sv_connections sv)))) as Hs.
  { rewrite map_size_delete, Hc. cbn.
    assert (size (sv_connections sv) ≠ 0%nat); [|lia].
    intros E%map_size_empty_inv. by rewrite E, lookup_empty in Hc. }
  split; cbn.
  - lia.
  - destruct complete; cbn; lia.
  - intros fd' c' [_ Hl]%lookup_delete_Some. by apply (H3 fd').
  - congruence.
Qed.

(** Replacing a live connection. *)
Lemma put_connection_ok fd c c' sv :
  server_ok sv → sv_connections sv !! fd = Some c → connection_ok c' → server_ok (put_connection fd c' sv).
Proof.
  intros [H1 H2 H3 H4] Hc Hok. unfold put_connection, with_connections.
  assert (size (<[fd := c']> (sv_connections sv)) = size (sv_connections sv)) as Hs
    by (rewrite map_size_insert, Hc; done).
  split; cbn; rewrite ?Hs; [done|done| |].
  - intros fd' d. destruct (decide (fd' = fd)) as [->|Hne].
    + rewrite lookup_insert_eq. by intros [= <-].
    + rewrite lookup_insert_ne by done. apply H3.
  - intros Hcl. by rewrite (H4 Hcl), lookup_empty in Hc.
Qed.

(** The bookkeeping counters do not matter. *)
Definition same_ends (a b : counters) : Prop :=
  ct_accepted a = ct_accepted b ∧ ct_completed a = ct_completed b ∧ ct_dropped a = ct_dropped b.

Lemma counts_ok ct sv : same_ends ct (sv_counts sv) → server_ok sv → server_ok (with_counts ct sv).
Proof.
  intros (Ha & Hc & Hd) [H1 H2 H3 H4]. unfold with_counts, with_connections.
  split; cbn; [done|lia|done|done].
Qed.

Lemma accept_ok s fd ok nonce now sv :
  server_ok sv → sv_closed sv = false → sv_connections sv !! fd = None →
  server_ok (accept s fd ok nonce now sv).
Proof.
  intros Hsv Hcl Hfd. unfold accept. case_match eqn:Hmax; [by apply counts_ok|]. zb.
  case_match eqn:E; [|by apply counts_ok].
  destruct a as [hello out]. apply bind_Ok in E as ([] & _ & E).
  apply bind_Ok in E as (h & _ & E). apply bind_Ok in E as (o & Ho & E). injection E as -> ->.
  apply frame_Ok in Ho as [Hlen Hr].
  destruct Hsv as [H1 H2 H3 H4]. unfold with_connections.
  assert (∀ c, size (<[fd := c]> (sv_connections sv)) = S (size (sv_connections sv))) as Hs
    by (intros; rewrite map_size_insert, Hfd; done).
  split; cbn [sv_max_connections sv_connections sv_counts sv_closed].
  - rewrite Hs. lia.
  - rewrite Hs. cbn. lia.
  - intros fd' d. destruct (decide (fd' = fd)) as [->|Hne].
    + rewrite lookup_insert_eq. intros [= <-]. unfold connection_ok. cbn. split_and!; try done; lia.
    + rewrite lookup_insert_ne by done. apply H3.
  - congruence.
Qed.

Lemma read_ok s fd c b sv :
  server_ok sv → sv_closed sv = false → sv_connections sv !! fd = Some c → cn_phase c = PRequest →
  len b <= cn_want c - len (cn_incoming c) → server_ok (read_ready s fd c b sv).
Proof.
  intros Hsv Hcl Hfd Hp Hb. pose proof (so_connections _ Hsv _ _ Hfd) as Hc.
  unfold connection_ok in Hc. rewrite Hp in Hc. destruct Hc as (Ho & Hw & Hn).
  assert (is_Some (sv_connections sv !! fd)) as Hl by by eexists.
  unfold read_ready. case_bool_decide; [by apply drop_ok|].
  cbn [cn_want cn_hello cn_deadline cn_phase cn_output cn_incoming cn_sent cn_guard].
  destruct (len (cn_incoming c ++ b) =? cn_want c) eqn:Eq; cbn [negb]; zb.
  2: { eapply put_connection_ok; [done|done|]. unfold connection_ok. cbn. rewrite Hp, Ho. split_and!; [done| |].
       - rewrite len_app in *. lia.
       - destruct Hn as [?|(Hn1 & Hn2 & Hn3)]; [by left|right].
         rewrite take_app_le by (unfold len in Hn1; lia). split_and!; [len_lia|lia|lia|done]. }
  destruct (cn_want c =? 4) eqn:E4; zb.
  - destruct (_ && _) eqn:En; [|by apply drop_ok]. zb.
    eapply put_connection_ok; [done|done|]. unfold connection_ok. cbn. rewrite Hp, Ho.
    rewrite take_ge by (unfold len in Eq; lia). split_and!; [done|lia|].
    right. split_and!; [lia|lia|lia|done].
  - destruct (reply s (cn_hello c) (drop 4 (cn_incoming c ++ b))) as [[response cg]|e]; [|by apply drop_ok].
    set (sv' := if bool_decide (cg = None) then _ else sv).
    assert (server_ok sv' ∧ sv_connections sv' = sv_connections sv ∧ sv_closed sv' = false) as (Hsv' & Hcs & Hcl').
    { unfold sv'. case_bool_decide; [|done]. split_and!; [by apply counts_ok|done|done]. }
    destruct (frame response MAX_RESPONSE) as [out|e] eqn:Hf; [|apply drop_ok; [done|by rewrite Hcs|done]].
    apply frame_Ok in Hf as [Hlen Hr].
    eapply put_connection_ok; [done|by rewrite Hcs|]. unfold connection_ok. cbn. split_and!; try done; lia.
Qed.

Lemma write_ok s fd c n sv :
  server_ok sv → sv_closed sv = false → sv_connections sv !! fd = Some c → cn_phase c ≠ PRequest →
  0 <= n <= len (cn_output c) - cn_sent c → server_ok (write_ready s fd c n sv).
Proof.
  intros Hsv Hcl Hfd Hp Hn. pose proof (so_connections _ Hsv _ _ Hfd) as Hc.
  assert (is_Some (sv_connections sv !! fd)) as Hl by by eexists.
  unfold write_ready. destruct (still_current s c); cbn [negb];
    [|apply drop_ok; [by apply counts_ok|done|done]].
  destruct (n =? 0) eqn:E0; [by apply drop_ok|]. zb.
  destruct (cn_sent c + n <? len (cn_output c)) eqn:Es; zb.
  - eapply put_connection_ok; [done|done|]. unfold connection_ok in *. cbn.
    destruct (cn_phase c); [|done|]; naive_solver lia.
  - case_bool_decide as Hr; [by apply drop_ok|].
    eapply put_connection_ok; [done|done|]. unfold connection_ok in *. cbn.
    destruct (cn_phase c); [|done|done]. destruct Hc as (_ & _ & Hi & Hw). rewrite Hi, Hw.
    split_and!; [done|len_nil; lia|by left].
Qed.

Lemma handle_ok s fd now i sv :
  server_ok sv → sv_closed sv = false → io_possible sv fd i → server_ok (handle s fd now i sv).
Proof.
  intros Hsv Hcl Hio. unfold handle, io_possible in *.
  destruct (sv_connections sv !! fd) as [c|] eqn:Hfd; [|done].
  assert (is_Some (sv_connections sv !! fd)) as Hl by by eexists.
  destruct (cn_deadline c <=? now); [apply drop_ok; [by apply counts_ok|done|done]|].
  destruct i as [b|n|]; [| |by apply drop_ok]; case_bool_decide; try done.
  - by apply read_ok.
  - apply write_ok; [done..|lia].
Qed.

(** Closing or expiring the connections of a list. *)
Lemma expire_step now fd sv :
  server_ok sv → sv_closed sv = false →
  let sv' := expire_one now fd sv in
  server_ok sv' ∧ sv_closed sv' = false ∧
  ∀ fd' c, sv_connections sv' !! fd' = Some c ↔
    sv_connections sv !! fd' = Some c ∧ (fd' = fd → now < cn_deadline c).
Proof.
  intros Hsv Hcl sv'. unfold sv', expire_one. destruct (sv_connections sv !! fd) as [c|] eqn:Hfd.
  2: { split_and!; [done|done|]. intros fd' c. naive_solver congruence. }
  destruct (cn_deadline c <=? now) eqn:E; zb.
  - split_and!; [apply drop_ok; [by apply counts_ok|by eexists|done]|done|].
    intros fd' d. cbn. rewrite lookup_delete_Some. split; [naive_solver|].
    intros [Hd Hlt]. split; [|done]. intros <-. rewrite Hfd in Hd. injection Hd as <-.
    specialize (Hlt eq_refl). lia.
  - split_and!; [done|done|]. intros fd' d. split; [|naive_solver]. intros Hd. split; [done|].
    intros ->. rewrite Hfd in Hd. injection Hd as <-. done.
Qed.

Lemma expire_lookup now sv :
  server_ok sv → sv_closed sv = false →
  server_ok (expire now sv) ∧
  ∀ fd c, sv_connections (expire now sv) !! fd = Some c ↔
    sv_connections sv !! fd = Some c ∧ now < cn_deadline c.
Proof.
  intros Hsv Hcl. unfold expire.
  assert (∀ l, server_ok (fold_right (expire_one now) sv l) ∧ sv_closed (fold_right (expire_one now) sv l) = false ∧
    ∀ fd c, sv_connections (fold_right (expire_one now) sv l) !! fd = Some c ↔
      sv_connections sv !! fd = Some c ∧ (fd ∈ l → now < cn_deadline c)) as Hl.
  { induction l as [|x l (IH1 & IH2 & IH3)]; cbn [fold_right]; [set_solver|].
    destruct (expire_step now x _ IH1 IH2) as (K1 & K2 & K3). split_and!; [done|done|].
    intros fd c. rewrite (K3 fd c), IH3. set_solver. }
  destruct (Hl (map_to_list (sv_connections sv)).*1) as (K1 & _ & K3). split; [done|].
  intros fd c. rewrite K3. split; [|naive_solver]. intros [Hc Hi]. split; [done|]. apply Hi.
  apply list_elem_of_fmap. exists (fd, c). split; [done|]. by apply elem_of_map_to_list.
Qed.

Lemma close_empty sv :
  server_ok sv → sv_closed sv = false →
  let sv' := fold_right (λ fd sv, drop_connection fd false sv) sv (map_to_list (sv_connections sv)).*1 in
  server_ok sv' ∧ sv_connections sv' = ∅.
Proof.
  intros Hsv Hcl.
  assert (∀ l, NoDup l → (∀ fd, fd ∈ l → is_Some (sv_connections sv !! fd)) →
    let sv' := fold_right (λ fd sv, drop_connection fd false sv) sv l in
    server_ok sv' ∧ sv_closed sv' = false ∧
    ∀ fd, sv_connections sv' !! fd = if bool_decide (fd ∈ l) then None else sv_connections sv !! fd) as Hl.
  { induction l as [|x l IH]; intros Hnd Hin; cbn [fold_right].
    { split_and!; [done|done|]. intros fd. by rewrite bool_decide_eq_false_2 by apply not_elem_of_nil. }
    apply NoDup_cons in Hnd as [Hx Hnd].
    destruct IH as (K1 & K2 & K3); [done|intros fd Hfd; apply Hin; by right|].
    split_and!; [apply drop_ok; [done| |done]|done|].
    - rewrite K3, bool_decide_eq_false_2 by done. apply Hin. by left.
    - intros fd. cbn. destruct (decide (fd = x)) as [->|Hne].
      + rewrite lookup_delete_eq, bool_decide_eq_true_2 by by left. done.
      + rewrite lookup_delete_ne, K3 by done. do 2 case_bool_decide; set_solver. }
  destruct (Hl (map_to_list (sv_connections sv)).*1) as (K1 & K2 & K3).
  - apply NoDup_fst_map_to_list.
  - intros fd ([fd' c] & -> & Hc)%list_elem_of_fmap. apply elem_of_map_to_list in Hc. by eexists.
  - cbn. split; [done|]. apply map_eq. intros fd. rewrite K3, lookup_empty.
    case_bool_decide as Hn; [done|].
    destruct (sv_connections sv !! fd) as [c|] eqn:E; [|done]. exfalso. apply Hn.
    apply list_elem_of_fmap. exists (fd, c). split; [done|]. by apply elem_of_map_to_list.
Qed.

Lemma step_ok sv sv' : step sv sv' → server_ok sv → server_ok sv'.
Proof.
  intros [s fd ok nonce now sv0 Hcl Hfd|s fd now i sv0 Hcl Hio|now sv0 Hcl|sv0] Hsv.
  - by apply accept_ok.
  - by apply handle_ok.
  - by apply expire_lookup.
  - unfold close_server. destruct (sv_closed sv0) eqn:Hcl; [done|].
    destruct (close_empty _ Hsv Hcl) as [[H1 H2 H3 H4] He]. split; cbn; try done.
Qed.
End Spec.

Lemma reachable_ok `{Hash} `{Sodium} s boot limit deadline chunk sv sv' :
  new_server s boot limit deadline chunk = Ok sv → rtc step sv sv' → server_ok sv'.
Proof.
  intros E Hr. assert (server_ok sv) as Hsv.
  { unfold new_server in E. apply bind_Ok in E as (n & Hn & E).
    do 2 (apply bind_Ok in E as (? & _ & E)). injection E as <-.
    unfold xinteger in Hn. apply bind_Ok in Hn as ([] & Hn & _).
    apply require_Ok, andb_prop in Hn as [Hn%Z.leb_le _].
    split; cbn; [rewrite map_size_empty; lia|by rewrite map_size_empty|
      by intros ? ?; rewrite lookup_empty|done]. }
  clear E. induction Hr as [|x y z Hxy _ IH]; [done|]. apply IH. by eapply step_ok.
Qed.

(** C20. However sockets, clock and source behave, a server reached from its creation holds at most
    its configured number of connections, each buffering no more than one frame in its
    phase, and accounts for every accepted connection as open, completed or dropped. *)
Theorem server_invariant `{Hash} `{Sodium} s boot limit deadline chunk sv sv' :
  new_server s boot limit deadline chunk = Ok sv → rtc step sv sv' → server_ok sv'.
Proof. apply reachable_ok. Qed.

(** After the expiry pass of a poll exactly the connections before their deadline remain, and
    a closed server has none. *)
Theorem server_deadlines `{Hash} `{Sodium} s boot limit deadline chunk sv sv' now :
  new_server s boot limit deadline chunk = Ok sv → rtc step sv sv' → sv_closed sv' = false →
  (∀ fd c, sv_connections (expire now sv') !! fd = Some c ↔
     sv_connections sv' !! fd = Some c ∧ now < cn_deadline c) ∧
  sv_connections (close_server sv') = ∅.
Proof.
  intros E Hr Hcl.
  assert (server_ok sv') as Hsv by by eapply reachable_ok. split.
  - by apply expire_lookup.
  - unfold close_server. rewrite Hcl. by apply close_empty.
Qed.

(** A server that accepted one connection. *)
Definition sample_server : server :=
  Server (key_of 50) 2 1000 512 ∅ (Counters 0 0 0 0 0 0 0) false.
Definition sample_accepted : server := accept sample_source 7 true (key_of 51) 100 sample_server.

Lemma sample_accepted_reached : rtc step sample_server sample_accepted.
Proof. apply rtc_once, step_accept; done. Qed.

Lemma server_invariant_witness : server_ok sample_accepted.
Proof.
  exact (server_invariant sample_source (key_of 50) 2 1000 512 sample_server sample_accepted eq_refl
           sample_accepted_reached).
Defined.

Lemma server_deadlines_witness :
  (∀ fd c, sv_connections (expire 2000 sample_accepted) !! fd = Some c ↔
     sv_connections sample_accepted !! fd = Some c ∧ 2000 < cn_deadline c) ∧
  sv_connections (close_server sample_accepted) = ∅.
Proof.
  refine (server_deadlines sample_source (key_of 50) 2 1000 512 sample_server sample_accepted 2000 eq_refl
            sample_accepted_reached _).
  vm_compute. reflexivity.
Defined.
