(* ===== verification/ExchangeSpec.v ===== *)
(** * The reads protocol: honest answers are accepted, accepted answers are bound *)

From S2P Require Import Prelude Bytes Value Codec Flat CddlText Schema SchemaSpec Json Hash Sodium Toy Primitives Objects ObjectsSpec SharedChange Membership Authority Activation Enrolment Sample Inbox Exchange SampleSource.
Local Open Scope Z_scope.

#[local] Opaque encode decode encode_with decode_with validate crypt domain verify hashed auth_parse member_certificate.

(** ** Orders on descriptors *)

Lemma bytes_cases a b : bytes_ltb a b = true ∨ a = b ∨ bytes_ltb b a = true.
Proof.
  destruct (bytes_ltb a b) eqn:E1; [by left|]. destruct (bytes_ltb b a) eqn:E2; [by right; right|].
  right. left. by apply bytes_ltb_trichotomy.
Qed.

Lemma item_leb_refl a : item_leb a a = true.
Proof. unfold item_leb. rewrite !bytes_ltb_irrefl. apply Z.leb_refl. Qed.

(** The comparison, by cases. *)
Lemma item_le_spec a b :
  item_le_rel a b ↔
  bytes_ltb (it_inner a) (it_inner b) = true ∨
  it_inner a = it_inner b ∧
    (bytes_ltb (it_envelope a) (it_envelope b) = true ∨
     it_envelope a = it_envelope b ∧ it_length a <= it_length b).
Proof.
  unfold item_le_rel, item_leb.
  assert (∀ x y, bytes_ltb y x = true → bytes_ltb x y = false ∧ x ≠ y) as Hgt.
  { intros x y K. split; [|intros ->; by rewrite bytes_ltb_irrefl in K].
    destruct (bytes_ltb x y) eqn:E; [|done].
    pose proof (bytes_ltb_trans _ _ _ E K) as F. by rewrite bytes_ltb_irrefl in F. }
  destruct (bytes_cases (it_inner a) (it_inner b)) as [H|[H|H]].
  - rewrite H. tauto.
  - rewrite H, bytes_ltb_irrefl.
    destruct (bytes_cases (it_envelope a) (it_envelope b)) as [K|[K|K]].
    + rewrite K. tauto.
    + rewrite K, bytes_ltb_irrefl, Z.leb_le. naive_solver.
    + destruct (Hgt _ _ K) as [-> ?]. rewrite K. naive_solver.
  - destruct (Hgt _ _ H) as [-> ?]. rewrite H. naive_solver.
Qed.

#[local] Instance item_le_trans : Transitive item_le_rel.
Proof.
  intros [a1 a2 a3] [b1 b2 b3] [c1 c2 c3]. rewrite !item_le_spec. cbn.
  intros [H|[-> [H|[-> H]]]] [K|[-> [K|[-> K]]]]; try (by left; eapply bytes_ltb_trans); auto.
  - right. split; [done|]. left. by eapply bytes_ltb_trans.
  - right. split; [done|]. right. split; [done|lia].
Qed.
#[local] Instance item_le_total : Total item_le_rel.
Proof.
  intros [a1 a2 a3] [b1 b2 b3]. rewrite !item_le_spec. cbn.
  destruct (bytes_cases a1 b1) as [?|[->|?]]; [tauto| |tauto].
  destruct (bytes_cases a2 b2) as [?|[->|?]]; [tauto| |tauto].
  destruct (Z.le_ge_cases a3 b3); [left|right]; tauto.
Qed.
#[local] Instance item_le_antisymm : AntiSymm eq item_le_rel.
Proof.
  intros [a1 a2 a3] [b1 b2 b3]. rewrite !item_le_spec. cbn.
  intros [H|[-> [H|[-> H]]]] [K|[E [K|[E' K]]]]; subst;
    try (pose proof (bytes_ltb_trans _ _ _ H K) as F; by rewrite bytes_ltb_irrefl in F);
    try (by rewrite bytes_ltb_irrefl in H); try (by rewrite bytes_ltb_irrefl in K).
  f_equal. lia.
Qed.

Lemma sorted_items_sorted l : StronglySorted item_le_rel (sorted_items l).
Proof. apply StronglySorted_merge_sort; apply _. Qed.

Lemma sorted_items_perm l : sorted_items l ≡ₚ l.
Proof. apply merge_sort_Permutation. Qed.

Lemma sorted_items_id l : StronglySorted item_le_rel l → sorted_items l = l.
Proof.
  intros Hs. apply (StronglySorted_unique item_le_rel);
    [apply sorted_items_sorted|done|apply sorted_items_perm].
Qed.

Lemma StronglySorted_sublist {A} (R : relation A) l k :
  sublist l k → StronglySorted R k → StronglySorted R l.
Proof.
  induction 1 as [|x l k H IH|x l k H IH]; intros Hs; [done|..].
  - apply StronglySorted_inv in Hs as [Hs Hx]. constructor; [by apply IH|].
    rewrite Forall_forall in *. intros y Hy. apply Hx. by eapply elem_of_sublist.
  - apply StronglySorted_inv in Hs as [Hs _]. by apply IH.
Qed.

Lemma page_sublist {A} (l : list A) n m : sublist (take n (drop m l)) l.
Proof.
  transitivity (drop m l); [apply sublist_take|apply sublist_drop].
Qed.

(** ** What an envelope's header satisfies *)

Lemma id32_len x b : conforms default_schema (NRef "id32") x → x = VBytes b → len b = 32.
Proof.
  intros Hc ->. inversion Hc as [nm w Hp|nm nd w _ Hr _ Hc'| | | | | |]; subst; [done|].
  vm_compute in Hr. injection Hr as <-.
  inversion Hc' as [| | | |ch lo hi w m _ Hs Hn| | |]; subst. cbn in Hs. injection Hs as <-. lia.
Qed.

Lemma read_hdr_hash v h : read_hdr v = Ok h → bytes_at v 12 = Ok (h_hash h).
Proof.
  unfold read_hdr. intros Hr.
  do 12 (apply bind_Ok in Hr as (? & _ & Hr)). apply bind_Ok in Hr as (b & Hb & Hr).
  do 3 (apply bind_Ok in Hr as (? & _ & Hr)). by injection Hr as <-.
Qed.

Lemma header_hash_len v h :
  validate default_schema "change-header" v = Ok tt → read_hdr v = Ok h → len (h_hash h) = 32.
Proof.
  intros Hv Hb%read_hdr_hash.
  unfold bytes_at in Hb. apply bind_Ok in Hb as (y & Hy & Hb).
  eapply id32_len; [|by destruct y; try discriminate Hb; injection Hb as ->].
  refine (validated_field "change-header" _ v 12 _ _ _ Hv _ _ Hy); vm_compute; reflexivity.
Qed.

Lemma elem_of_zip_fmap {A B} (f : A → B) l x y : (x, y) ∈ zip l (f <$> l) → y = f x ∧ x ∈ l.
Proof.
  induction l as [|z l IH]; cbn; [by intros ?%not_elem_of_nil|].
  intros [[= -> ->]|Hin]%elem_of_cons; [split; [done|by left]|].
  apply IH in Hin as [? ?]. split; [done|by right].
Qed.

Section Spec.
Context `{Hash} `{Sodium}.
Implicit Types (e : entry) (ib : inbox) (a : authority).

(** ** Records of the catalog *)

Record entry_ok e : Prop := {
  eo_id : envelope_id (en_raw e) = Ok (en_id e);
  eo_raw : 0 < len (en_raw e) <= RECORD_MAX;
  eo_cert : 0 < len (en_certificate e) <= 4096;
  eo_header : ∃ header, stored_header (en_raw e) = Ok header ∧ read_hdr header = Ok (en_header e);
  eo_hash : len (h_hash (en_header e)) = 32;
}.

Lemma inbox_or_Ok {A} code (m : result A) x : inbox_or code m = Ok x → m = Ok x.
Proof. unfold inbox_or. destruct m; [done|]. by case_match. Qed.

Lemma ineed_Ok b code : ineed b code = Ok tt ↔ b = true.
Proof. apply require_Ok. Qed.

Lemma outer_entry ib r cert a h eid :
  outer ib r cert a = Ok h → envelope_id r = Ok eid → entry_ok (Entry eid r cert h).
Proof.
  intros E Hid. unfold outer in E. apply bind_Ok in E as ([] & Hl%ineed_Ok & E). zb.
  apply inbox_or_Ok in E.
  apply bind_Ok in E as (out & Hout & E). apply bind_Ok in E as ([] & _ & E).
  apply bind_Ok in E as (hb & Hhb & E). apply bind_Ok in E as (head & Hhead & E).
  apply bind_Ok in E as (hb' & Hch & E). apply bind_Ok in E as (h' & Hr & E).
  assert (h' = h) as ->.
  { do 3 (apply bind_Ok in E as (? & _ & E)). apply bind_Ok in E as (? & _ & E).
    do 5 (apply bind_Ok in E as (? & _ & E)). do 6 (apply bind_Ok in E as (? & _ & E)).
    by injection E. }
  assert (stored_header r = Ok head) as Hs
    by (unfold stored_header; run Hout; run Hhb; exact Hhead).
  split; cbn; [done|lia|lia|by exists head|].
  unfold change_header in Hch. apply bind_Ok in Hch as (? & [-> Hv]%checked_Ok & _).
  by eapply header_hash_len.
Qed.

Lemma name_id_Some name eid : name_id name = Some eid → name = file_name eid.
Proof.
  unfold name_id. destruct (_ && _) eqn:E; [|done]. apply andb_prop in E as [_ E%bool_decide_eq_true].
  destruct (unhex (take 64 name)) as [b|]; cbn [mbind option_bind]; [|done].
  case_bool_decide as Hh; [|done]. intros [= <-]. unfold file_name.
  by rewrite Hh, <-E, take_drop.
Qed.

Lemma read_record_Ok ib a name data e :
  read_record ib a name data = Ok e → entry_ok e ∧ name = file_name (en_id e).
Proof.
  unfold read_record. intros E. apply catch_any_Ok in E.
  apply bind_Ok in E as (eid & Hn%of_option_Ok%name_id_Some & E).
  apply bind_Ok in E as ([] & _ & E). apply bind_Ok in E as (rec & _ & E).
  apply bind_Ok in E as ([] & _ & E). apply bind_Ok in E as (v0 & _ & E).
  apply bind_Ok in E as ([] & _ & E). apply bind_Ok in E as (r & _ & E).
  apply bind_Ok in E as (cert & _ & E). apply bind_Ok in E as (id & Hid & E).
  apply bind_Ok in E as ([] & Heq%ineed_Ok%bool_decide_eq_true & E). subst id.
  apply bind_Ok in E as (h & Ho & E). injection E as <-.
  split; [by eapply outer_entry|done].
Qed.

Lemma names_NoDup ib : NoDup (names ib).
Proof.
  unfold names, sorted_strs. rewrite merge_sort_Permutation. apply NoDup_fst_map_to_list.
Qed.

(** The records an inbox loads: authentic, and one per envelope. *)
Lemma load_records_ok ib ow ib' es :
  load_records ib ow = Ok (ib', es) →
  Forall entry_ok es ∧ NoDup (en_id <$> es) ∧ ib' = set_seen (digests ib) ib ∧
  names ib = file_name ∘ en_id <$> es.
Proof.
  unfold load_records. intros E. do 3 (apply bind_Ok in E as ([] & _ & E)).
  apply bind_Ok in E as (es' & Hes & E). do 2 (apply bind_Ok in E as ([] & _ & E)).
  injection E as <- ->. apply mapM_Ok_Forall2 in Hes.
  assert (names ib = file_name ∘ en_id <$> es) as Hn.
  { induction Hes as [|n e l k Hne _ IH]; [done|]. cbn. apply read_record_Ok in Hne as [_ ->].
    by rewrite <-IH. }
  split_and!; [|..|done|done].
  - induction Hes as [|n e l k Hne _ IH]; constructor; [by eapply read_record_Ok|].
    apply IH. injection Hn as _ Hn. done.
  - pose proof (names_NoDup ib) as Hnd. rewrite Hn in Hnd.
    rewrite list_fmap_compose in Hnd. by apply NoDup_fmap_1 in Hnd.
Qed.

Lemma find_entry_Some es eid e : find_entry es eid = Some e → e ∈ es ∧ en_id e = eid.
Proof.
  unfold find_entry. intros [Hin He]%find_some. split; [by apply list_elem_of_In|].
  by apply bool_decide_eq_true in He.
Qed.

Lemma find_entry_None es eid : find_entry es eid = None → eid ∉ en_id <$> es.
Proof.
  unfold find_entry. intros Hn (e & -> & He)%list_elem_of_fmap.
  pose proof (find_none _ _ Hn e) as Hf. rewrite bool_decide_eq_false in Hf.
  apply Hf; [by apply list_elem_of_In|done].
Qed.

Lemma merge_rows_ok ib a rows es es' :
  iter (merge_row ib a) rows es = Ok es' → Forall entry_ok es → NoDup (en_id <$> es) →
  Forall entry_ok es' ∧ NoDup (en_id <$> es').
Proof.
  intros E H1 H2.
  refine (iter_inv _ (λ es, Forall entry_ok es ∧ NoDup (en_id <$> es)) _ _ _ _ E (conj H1 H2)).
  clear es es' H1 H2 E.
  intros r k k' _ E [H1 H2]. unfold merge_row in E.
  apply bind_Ok in E as (h & Ho & E). apply bind_Ok in E as (eid & Hid & E).
  apply bind_Ok in E as ([] & _ & E).
  destruct (find_entry k eid) as [e|] eqn:Hf.
  - apply bind_Ok in E as ([] & _ & E). by injection E as <-.
  - injection E as <-. split.
    + apply Forall_app. split; [done|]. apply Forall_singleton. by eapply outer_entry.
    + rewrite fmap_app. apply NoDup_app. split_and!; [done| |apply NoDup_singleton].
      cbn. intros x Hx ->%list_elem_of_singleton. by apply find_entry_None in Hf.
Qed.

Lemma conflict_NoDup es :
  conflict es = false → NoDup ((h_hash ∘ en_header) <$> es).
Proof.
  unfold conflict.
  assert (∀ slots inner, conflict_in slots inner es = false →
    NoDup ((h_hash ∘ en_header) <$> es) ∧ ∀ x, x ∈ inner → x ∉ (h_hash ∘ en_header) <$> es) as Hg.
  { induction es as [|e es IH]; intros slots inner E; cbn in *; [split; [constructor|set_solver]|].
    apply orb_false_elim in E as [[_ E1%bool_decide_eq_false]%orb_false_elim E2].
    destruct (IH _ _ E2) as [H1 H2]. split.
    - constructor; [|done]. apply H2. by left.
    - intros x Hx. rewrite not_elem_of_cons. split; [intros ->; by apply E1|].
      apply H2. by right. }
  intros E. by eapply Hg.
Qed.

(** ** The catalog *)

Record catalog_ok (token : bytes) (ds : list item) (es : list entry) : Prop := {
  ca_token : len token = 32;
  ca_items : ds = sorted_items (entry_item <$> es);
  ca_count : len es <= MAX_CATALOG;
  ca_entries : Forall entry_ok es;
  ca_ids : NoDup (en_id <$> es);
  ca_hashes : NoDup ((h_hash ∘ en_header) <$> es);
}.

Lemma exchange_or_Ok {A} code (m : result A) x : exchange_or code m = Ok x ↔ m = Ok x.
Proof. unfold exchange_or. destruct m as [|[]]; naive_solver. Qed.

Lemma xneed_Ok b code : xneed b code = Ok tt ↔ b = true.
Proof. apply require_Ok. Qed.

Lemma catalog_Ok s cert token ds es : catalog s cert = Ok (token, ds, es) → catalog_ok token ds es.
Proof.
  unfold catalog. intros E. apply bind_Ok in E as (? & _ & E). apply exchange_or_Ok in E.
  apply bind_Ok in E as ([ib es0] & (Hall & Hnd & _)%load_records_ok & E).
  do 2 (apply bind_Ok in E as ([] & _ & E)).
  apply bind_Ok in E as (es1 & Hm & E).
  destruct (merge_rows_ok _ _ _ _ _ Hm Hall Hnd) as [Hall1 Hnd1].
  apply bind_Ok in E as ([] & Hc%xneed_Ok%Z.leb_le & E).
  apply bind_Ok in E as ([] & Hq%xneed_Ok%negb_true_iff & E).
  apply bind_Ok in E as (? & _ & E). apply bind_Ok in E as (? & _ & E).
  apply bind_Ok in E as (? & _ & E). apply bind_Ok in E as (t & Ht%hashed_len & E).
  injection E as -> <- ->. split; try done. by apply conflict_NoDup.
Qed.

Section Catalog.
Context (token : bytes) (ds : list item) (es : list entry) (Hok : catalog_ok token ds es).

Definition item_ok (d : item) : Prop :=
  len (it_inner d) = 32 ∧ len (it_envelope d) = 32 ∧ 1 <= it_length d <= RECORD_MAX.

Lemma items_ok d : d ∈ ds → item_ok d.
Proof.
  rewrite (ca_items _ _ _ Hok), sorted_items_perm, list_elem_of_fmap. intros (e & -> & He).
  pose proof (proj1 (Forall_forall _ _) (ca_entries _ _ _ Hok) e He) as [Hid Hraw _ _ Hh].
  unfold item_ok, entry_item. cbn. split_and!; [done| |lia|lia].
  unfold envelope_id in Hid. by apply bind_Ok in Hid as (? & _ & Hid%hashed_len).
Qed.

Lemma items_len : len ds = len es.
Proof.
  rewrite (ca_items _ _ _ Hok). unfold len. by rewrite sorted_items_perm, length_fmap.
Qed.

Lemma items_inner : NoDup (it_inner <$> ds).
Proof.
  rewrite (ca_items _ _ _ Hok), sorted_items_perm, <-list_fmap_compose. apply (ca_hashes _ _ _ Hok).
Qed.

Lemma items_envelope : NoDup (it_envelope <$> ds).
Proof.
  rewrite (ca_items _ _ _ Hok), sorted_items_perm, <-list_fmap_compose. apply (ca_ids _ _ _ Hok).
Qed.

Lemma xfixed_Ok b n code : len b = n → xfixed (VBytes b) n code = Ok b.
Proof. intros <-. unfold xfixed. by rewrite Z.eqb_refl. Qed.

Lemma xinteger_Ok z lo hi code : lo <= z <= hi → xinteger (VInt z) lo hi code = Ok z.
Proof.
  intros [H1 H2]. unfold xinteger. by rewrite (proj2 (Z.leb_le _ _) H1), (proj2 (Z.leb_le _ _) H2).
Qed.

Lemma xneed_true b code : b = true → xneed b code = Ok tt.
Proof. by intros ->. Qed.

Lemma descriptor_check_item d : item_ok d → descriptor_check (item_value d) = Ok d.
Proof.
  intros (H1 & H2 & H3). unfold descriptor_check, item_value.
  run (xfixed_Ok _ _ schema_code H1). run (xfixed_Ok _ _ schema_code H2).
  run (xinteger_Ok _ _ _ schema_code H3). by destruct d.
Qed.

Lemma mapM_items l : (∀ d, d ∈ l → item_ok d) → mapM descriptor_check (item_value <$> l) = Ok l.
Proof.
  induction l as [|d l IH]; intros Hl; [done|].
  change (mapM descriptor_check (item_value <$> d :: l))
    with (descriptor_check (item_value d) ≫= λ y, mapM descriptor_check (item_value <$> l) ≫= λ k, Ok (y :: k)).
  run (descriptor_check_item d (Hl d ltac:(by left))).
  refine (bind_step _ _ _ _ (IH _) _); [|done]. intros d' Hd. apply Hl. by right.
Qed.

Lemma page_ok page : sublist page ds →
  (∀ d, d ∈ page → item_ok d) ∧ page = sorted_items page ∧ NoDup (it_inner <$> page) ∧
  NoDup (it_envelope <$> page).
Proof.
  intros Hs. split_and!.
  - intros d Hd. apply items_ok. by eapply elem_of_sublist.
  - symmetry. apply sorted_items_id. eapply StronglySorted_sublist; [done|].
    rewrite (ca_items _ _ _ Hok). apply sorted_items_sorted.
  - eapply sublist_NoDup; [apply items_inner|]. by apply fmap_sublist.
  - eapply sublist_NoDup; [apply items_envelope|]. by apply fmap_sublist.
Qed.

Lemma len_take_drop {A} (l : list A) n m :
  0 <= m <= len l → 0 <= n → len (take (Z.to_nat n) (drop (Z.to_nat m) l)) = Z.min n (len l - m).
Proof. intros Hm Hn. unfold len in *. rewrite length_take, length_drop. lia. Qed.

Lemma have_accepted t offset limit v :
  0 <= offset <= MAX_CATALOG → 1 <= limit <= MAX_PAGE →
  answer_with (Have t offset limit) token ds es = Ok v → have_value t offset limit v = Ok tt.
Proof.
  intros Hoff Hlim E. unfold answer_with in E.
  apply bind_Ok in E as ([] & Ht%xneed_Ok & E). apply bind_Ok in E as ([] & Ho%xneed_Ok%Z.leb_le & E).
  set (page := take _ _) in E. injection E as <-.
  destruct (page_ok page (page_sublist _ _ _)) as (Hp1 & Hp2 & Hp3 & Hp4).
  pose proof (ca_count _ _ _ Hok) as Hc. rewrite <-items_len in Hc.
  assert (len page = Z.min limit (len ds - offset)) as Hlen by (apply len_take_drop; lia).
  unfold have_value. run_eq.
  set (next := if _ <? _ then _ else _).
  run_eq.
  run (xfixed_Ok token 32 schema_code (ca_token _ _ _ Hok)).
  run_eq.
  run (xinteger_Ok offset 0 MAX_CATALOG schema_code ltac:(lia)).
  run_eq.
  run (xinteger_Ok (len ds) 0 MAX_CATALOG schema_code ltac:(len_lia)).
  refine (bind_step _ _ _ _ (xneed_true _ schema_code _) _);
    [rewrite Z.eqb_refl; apply Z.leb_le; done|cbv beta].
  refine (bind_step _ _ _ _ (xneed_true _ schema_code Ht) _).
  run_eq.
  run_eq.
  rewrite len_map.
  refine (bind_step _ _ _ _ (xneed_true _ schema_code (proj2 (Z.eqb_eq _ _) Hlen)) _).
  run (mapM_items page Hp1).
  refine (bind_step _ _ _ _ (xneed_true _ schema_code _) _); [|cbv beta].
  { rewrite <-Hp2. by rewrite !bool_decide_eq_true_2. }
  run_eq. unfold next.
  destruct (offset + len page <? len ds) eqn:Hn; [|done]. zb.
  run (xinteger_Ok (offset + len page) 1 MAX_CATALOG schema_code ltac:(lia)).
  apply xneed_true, Z.eqb_refl.
Qed.

Lemma need_accepted ids v :
  answer_with (Need ids) token ds es = Ok v → need_value ids v = Ok tt.
Proof.
  intros E. unfold answer_with in E. injection E as <-.
  set (row := λ cid : bytes, VList [VBytes cid; optional_item (find_item ds cid)]).
  unfold need_value. run_eq.
  run_eq.
  run (xfixed_Ok token 32 schema_code (ca_token _ _ _ Hok)).
  run_eq.
  run_eq.
  rewrite len_map. refine (bind_step _ _ _ _ (xneed_true _ schema_code (Z.eqb_refl _)) _).
  apply iter_check. intros [cid r] [-> Hin]%elem_of_zip_fmap. cbn [fst snd].
  unfold row, need_row. refine (bind_step _ _ _ _ (xneed_true _ schema_code _) _);
    [by apply bool_decide_eq_true|cbv beta].
  destruct (find_item ds cid) as [d|] eqn:Hd; cbn [optional_item]; [|done].
  unfold find_item in Hd. apply find_some in Hd as [Hd He%bool_decide_eq_true].
  apply list_elem_of_In in Hd. rewrite <-Permutation_rev in Hd.
  change (item_value d) with (VList [VBytes (it_inner d); VBytes (it_envelope d); VInt (it_length d)]).
  run (descriptor_check_item d (items_ok d Hd)). apply xneed_true. by apply bool_decide_eq_true.
Qed.

Lemma get_accepted t inner envelope v :
  answer_with (Get t inner envelope) token ds es = Ok v → get_value t inner envelope v = Ok tt.
Proof.
  intros E. unfold answer_with in E.
  apply bind_Ok in E as ([] & ->%xneed_Ok%bool_decide_eq_true & E).
  apply bind_Ok in E as (e & Hf%of_option_Ok & E).
  apply bind_Ok in E as ([] & Hi%xneed_Ok%bool_decide_eq_true & E). injection E as <-.
  apply find_entry_Some in Hf as [Hin He].
  pose proof (proj1 (Forall_forall _ _) (ca_entries _ _ _ Hok) e Hin) as
    [Hid Hraw Hcert (header & Hs & Hr) _].
  unfold get_value. run_eq.
  run_eq.
  run_eq.
  run_eq.
  refine (bind_step _ _ _ _ (xneed_true _ schema_code _) _);
    [by rewrite !bool_decide_eq_true_2|cbv beta].
  run_eq.
  refine (bind_step _ _ _ _ (xneed_true _ schema_code _) _); [by apply bool_decide_eq_true|cbv beta].
  run_eq.
  run_eq.
  refine (bind_step _ _ _ _ (xneed_true _ schema_code _) _);
    [apply andb_true_iff; split; [apply Z.ltb_lt|apply Z.leb_le]; lia|cbv beta].
  run_eq.
  run_eq.
  refine (bind_step _ _ _ _ (xneed_true _ schema_code _) _);
    [apply andb_true_iff; split; [apply Z.ltb_lt|apply Z.leb_le]; lia|cbv beta].
  apply exchange_or_Ok. run Hs. run Hid.
  assert (getitem header 12 = Ok (VBytes inner)) as H12.
  { rewrite <-Hi. apply read_hdr_hash in Hr. unfold bytes_at in Hr.
    apply bind_Ok in Hr as (x & -> & Hx). by destruct x; try discriminate Hx; injection Hx as ->. }
  run H12. apply xneed_true. by rewrite !bool_decide_eq_true_2.
Qed.
End Catalog.

Lemma read_args_have action args t o l :
  read_args action args = Ok (Have t o l) → 0 <= o <= MAX_CATALOG ∧ 1 <= l <= MAX_PAGE.
Proof.
  unfold read_args. intros E. destruct (is_text action "have").
  - apply bind_Ok in E as ([] & _ & E). apply bind_Ok in E as (v0 & _ & E).
    apply bind_Ok in E as (t' & _ & E). apply bind_Ok in E as (v1 & _ & E).
    apply bind_Ok in E as (o' & Ho & E). apply bind_Ok in E as (v2 & _ & E).
    apply bind_Ok in E as (l' & Hl & E). apply bind_Ok in E as ([] & _ & E). injection E as -> -> ->.
    unfold xinteger in *. destruct v1, v2; try done.
    apply bind_Ok in Ho as ([] & Ho%xneed_Ok & [= ->]). apply bind_Ok in Hl as ([] & Hl%xneed_Ok & [= ->]).
    zb. lia.
  - exfalso. destruct (is_text action "need").
    + do 4 (apply bind_Ok in E as (? & _ & E)). done.
    + destruct (is_text action "get"); [|done]. do 7 (apply bind_Ok in E as (? & _ & E)). done.
Qed.

(** ** Digests *)

(** Equal digests of different bytes exhibit a collision of SHA-256. *)
Definition collision : Prop := ∃ x y, x ≠ y ∧ sha256 x = sha256 y.

#[local] Transparent hashed domain.
Lemma digest_inj (r q d : bytes) : digest r = Ok d → digest q = Ok d → r = q ∨ collision.
Proof.
  unfold digest. intros (x & Hx & ->)%hashed_Ok (y & Hy & E)%hashed_Ok.
  destruct (decide (x = y)) as [->|Hne]; [|right; by exists x, y].
  apply domain_Ok in Hx, Hy.
  assert (∀ v, wf_value (VList [VStr (str "PAR"); VInt 1; VStr (str "causal-read/bytes"); VList [VBytes v]])
    ∧ norm (VList [VStr (str "PAR"); VInt 1; VStr (str "causal-read/bytes"); VList [VBytes v]])
      = VList [VStr (str "PAR"); VInt 1; VStr (str "causal-read/bytes"); VList [VBytes v]]) as Hw
    by (intros v; by split).
  destruct (Hw r) as [W N], (Hw q) as [W' N'].
  pose proof (encode_inj _ _ _ W W' N N' Hx Hy) as Heq. left. by injection Heq.
Qed.
End Spec.

(** C24. A client that asked an honest source accepts the source's answer: for every method the value
    computed from the catalog passes the client's checks of the reply. *)
Theorem answer_accepted `{Hash} `{Sodium} s cert action args a token ds es v :
  read_args action args = Ok a → catalog s cert = Ok (token, ds, es) →
  answer_with a token ds es = Ok v → response_value a v = Ok v.
Proof.
  intros Ha Hc%catalog_Ok Hv. unfold response_value.
  refine (bind_step _ _ tt _ _ eq_refl). destruct a as [t o l|ids|t i e].
  - apply read_args_have in Ha as [Ho Hl]. by apply (have_accepted token ds es).
  - by apply (need_accepted token ds es).
  - by apply (get_accepted token ds es).
Qed.

#[local] Transparent encode decode encode_with decode_with validate crypt domain verify hashed auth_parse member_certificate.

Definition sample_token : bytes :=
  ok_or [] (c ← catalog sample_source sample_certificate; Ok c.1.1).
Definition sample_wanted : value := VList [VBytes (key_of 40)].
Definition sample_answer : value :=
  dict [(0, VBytes sample_token); (1, VList [VList [VBytes (key_of 40); VNone]])].

Lemma answer_accepted_witness :
  response_value (Need [key_of 40]) sample_answer = Ok sample_answer.
Proof.
  apply (answer_accepted sample_source sample_certificate (VStr (str "need")) sample_wanted
           (Need [key_of 40]) sample_token [] []); vm_compute; reflexivity.
Defined.

(** A response is bound to the hello and the request it answers: bytes accepted for two
    exchanges carry one value, and the exchanges are the same unless SHA-256 collides. *)
Theorem response_bound `{Hash} `{Sodium} public hello request r action args v
    public' hello' request' action' args' v' :
  check_response public hello request (VBytes r) action args = Ok v →
  check_response public' hello' request' (VBytes r) action' args' = Ok v' →
  v = v' ∧ (hello = hello' ∧ request = request' ∨ collision).
Proof.
  assert (∀ pk h q ac ar w, check_response pk h q (VBytes r) ac ar = Ok w →
    ∃ b d1 d2 n1 n2, split (VBytes r) MAX_RESPONSE = Ok (b, n1, n2) ∧ digest h = Ok d1 ∧ digest q = Ok d2 ∧
      getitem b 2 = Ok (VBytes d1) ∧ getitem b 3 = Ok (VBytes d2) ∧ getitem b 5 = Ok w) as Hinv.
  { intros pk h q ac ar w E. unfold check_response in E.
    apply bind_Ok in E as (a & _ & E). apply bind_Ok in E as ([[b n1] n2] & Hs & E).
    do 3 (apply bind_Ok in E as ([] & _ & E)).
    apply bind_Ok in E as (d1 & H1 & E). apply bind_Ok in E as (d2 & H2 & E).
    apply bind_Ok in E as (b2 & H3 & E). apply bind_Ok in E as (b3 & H4 & E).
    apply bind_Ok in E as ([] & Hb%xneed_Ok%andb_prop & E).
    destruct Hb as [->%bool_decide_eq_true ->%bool_decide_eq_true].
    apply bind_Ok in E as (b4 & _ & E). apply bind_Ok in E as (b5 & H5 & E).
    destruct b4 as [|[]| | | | | |]; try done; [|by destruct (List.find _ _)].
    apply bind_Ok in E as (x & Hx & E). unfold response_value in Hx.
    apply bind_Ok in Hx as (? & _ & [= ->]). apply bind_Ok in E as (? & _ & [= ->]).
    by exists b, d1, d2, n1, n2. }
  intros (b & d1 & d2 & n1 & n2 & S & H1 & H2 & B2 & B3 & B5)%Hinv
    (b' & e1 & e2 & m1 & m2 & S' & K1 & K2 & C2 & C3 & C5)%Hinv.
  rewrite S in S'. injection S' as <- <- <-.
  rewrite B2 in C2. injection C2 as <-. rewrite B3 in C3. injection C3 as <-.
  rewrite B5 in C5. injection C5 as <-. split; [done|].
  destruct (digest_inj _ _ _ H1 K1) as [->|?]; [|by right].
  destruct (digest_inj _ _ _ H2 K2) as [->|?]; [by left|by right].
Qed.

Definition sample_response : bytes :=
  Eval vm_compute in
    ok_or [] (make_response device_seed [byte_of_Z 1] [byte_of_Z 2] true sample_answer).

Lemma response_bound_witness :
  sample_answer = sample_answer ∧
  (@eq bytes [byte_of_Z 1] [byte_of_Z 1] ∧ @eq bytes [byte_of_Z 2] [byte_of_Z 2] ∨ collision).
Proof.
  apply (response_bound (pad32 device_seed) [byte_of_Z 1] [byte_of_Z 2] sample_response
           (VStr (str "need")) sample_wanted sample_answer
           (pad32 device_seed) [byte_of_Z 1] [byte_of_Z 2] (VStr (str "need")) sample_wanted);
    vm_compute; reflexivity.
Defined.
