(* ===== verification/InboxSpec.v ===== *)
(** * The inbox acknowledges only what it keeps

    Publication is atomic under every interruption, an acknowledged record is loaded by
    every later operation with the ones before it, and gathering a causal past ends. *)

From S2P Require Import Prelude Bytes Value Codec Flat CddlText Schema SchemaSpec Json Hash Sodium Toy Primitives Objects ObjectsSpec SharedChange Membership Authority Activation Enrolment Sample Inbox Exchange SampleSource ExchangeSpec.
Local Open Scope Z_scope.

#[local] Opaque encode decode encode_with decode_with validate crypt domain verify hashed auth_parse member_certificate outer current envelope_id.

Section Spec.
Context `{Hash} `{Sodium}.
Implicit Types (ib : inbox) (ow : owner) (e : entry).

(** ** One record *)

Lemma name_id_file eid : len eid = 32 → name_id (file_name eid) = Some eid.
Proof.
  intros Hl. unfold name_id, file_name.
  assert (length (hex eid) = 64%nat) as Hh by (pose proof (len_hex eid); unfold len in *; lia).
  rewrite len_app, len_hex, Hl. rewrite drop_app_length', take_app_length' by done.
  rewrite unhex_hex. cbn [mbind option_bind].
  rewrite !(bool_decide_eq_true_2 (_ = _)) by done. done.
Qed.

Lemma envelope_id_len r eid : envelope_id r = Ok eid → len eid = 32.
Proof.
  #[local] Transparent envelope_id.
  unfold envelope_id. intros ([] & _ & E)%bind_Ok. by apply hashed_len in E.
Qed.
#[local] Opaque envelope_id.

(** A record the inbox wrote reads back as the entry it was made of. *)
Lemma read_written ib a r cert eid record h :
  envelope_id r = Ok eid → encode (record_value r cert) = Ok record → len record <= RECORD_MAX →
  outer ib r cert a = Ok h →
  read_record ib a (file_name eid) record = Ok (Entry eid r cert h).
Proof.
  intros Hid Henc Hlen Ho. unfold read_record. apply catch_any_Ok.
  run (proj2 (of_option_Ok (InboxError "INBOX_CORRUPT") _ _) (name_id_file _ (envelope_id_len _ _ Hid))).
  destruct (flat_dict [(0, VInt 1); (1, VBytes r); (2, VBytes cert)]) as [Hwf Hn];
    [by repeat constructor|by repeat constructor|].
  change (dict _) with (record_value r cert) in Hwf, Hn.
  destruct (decode_encoded _ _ Hwf Henc) as [Hdec Hne]. rewrite Hn in Hdec.
  refine (bind_step _ _ tt _ _ _); [apply ineed_Ok|cbv beta].
  { apply andb_true_iff. split; [|by apply Z.leb_le]. apply Z.ltb_lt.
    destruct record; [done|rewrite len_cons; pose proof (len_nonneg record); lia]. }
  run Hdec. run_eq. run_eq. run_eq. run_eq. run_eq. run Hid.
  refine (bind_step _ _ tt _ _ _); [by apply ineed_Ok, bool_decide_eq_true|cbv beta].
  run Ho. done.
Qed.

(** The scope, which is all [outer] reads of the inbox. *)
Definition scope_of ib := (ib_app ib, ib_space ib, ib_doc ib, ib_epoch ib, ib_schema ib).

#[local] Transparent outer.
Lemma outer_scope ib ib' r cert a : scope_of ib = scope_of ib' → outer ib r cert a = outer ib' r cert a.
Proof.
  destruct ib, ib'. unfold scope_of. simpl.
  intros [= <- <- <- <- <-]. reflexivity.
Qed.
#[local] Opaque outer.

Lemma read_record_scope ib ib' a n d :
  scope_of ib = scope_of ib' → read_record ib a n d = read_record ib' a n d.
Proof.
  intros Hs. unfold read_record. apply (f_equal (catch_any _)).
  repeat (apply bind_cong; intros ?). by rewrite (outer_scope ib ib').
Qed.

(** ** Publication *)

(** What [receive] did to the directory. *)
Definition published ib (r cert : bytes) ib' : Prop :=
  ∃ eid record, envelope_id r = Ok eid ∧ encode (record_value r cert) = Ok record ∧
    ib_files ib !! file_name eid = None ∧ ib_files ib' = <[file_name eid := record]> (ib_files ib).

Lemma receive_cases fault ib ow r cert ib' res :
  receive fault ib ow r cert = (ib', res) →
  (ib_files ib' = ib_files ib ∧ ib_uncertain ib' = ib_uncertain ib ∧
     ∀ v, res = Ok v → ∃ ib1 es, load_records ib ow = Ok (ib1, es) ∧ ib1 = ib' ∧
       ∃ e, e ∈ es ∧ en_id e = vw_id v ∧ en_raw e = r ∧ en_certificate e = cert) ∨
  (published ib r cert ib' ∧
     (res = Err (InboxError "INBOX_OUTCOME_UNKNOWN") ∧ ib_uncertain ib' = true ∨
      ∃ ib1 es eid record, load_records ib ow = Ok (ib1, es) ∧ admission ib1 ow es r cert = Ok (eid, Some record) ∧
        res = Ok (receipt eid) ∧
        ib' = set_seen (<[file_name eid := sha256 record]> (ib_seen ib1)) (add_file (file_name eid) record ib1))).
Proof.
  unfold receive. intros E. destruct (load_records ib ow) as [[ib1 es]|x] eqn:Hl.
  2: { injection E as <- <-. left. by split_and!. }
  pose proof (load_records_ok _ _ _ _ Hl) as (_ & _ & -> & _).
  set (ib1 := set_seen (digests ib) ib) in *.
  destruct (admission ib1 ow es r cert) as [[eid [record|]]|x] eqn:Ha.
  3: { injection E as <- <-. left. by split_and!. }
  2: { destruct (interrupted fault [BeforeReceipt]); injection E as <- <-; left; split_and!; try done.
       intros v [= <-]. exists ib1, es. split_and!; [done|done|].
       unfold admission in Ha. do 5 (apply bind_Ok in Ha as (? & _ & Ha)).
       destruct (find_entry es _) as [e|] eqn:Hf.
       - apply bind_Ok in Ha as ([] & [K1 K2]%ineed_Ok%andb_prop & Ha). injection Ha as <-.
         apply find_entry_Some in Hf as [Hin He]. exists e.
         rewrite bool_decide_eq_true in K1. rewrite bool_decide_eq_true in K2. by split_and!.
       - exfalso. do 3 (apply bind_Ok in Ha as (? & _ & Ha)). done. }
  assert (envelope_id r = Ok eid ∧ encode (record_value r cert) = Ok record) as [Hid Henc].
  { unfold admission in Ha. do 2 (apply bind_Ok in Ha as (? & _ & Ha)).
    apply bind_Ok in Ha as (i & Hi & Ha). apply bind_Ok in Ha as (c & Hc & Ha).
    apply bind_Ok in Ha as (? & _ & Ha). destruct (find_entry es i).
    - by apply bind_Ok in Ha as (? & _ & Ha).
    - do 3 (apply bind_Ok in Ha as (? & _ & Ha)). by injection Ha as <- <-. }
  unfold publish in E. destruct (interrupted fault [BeforeWrite; _; _; _]).
  { injection E as <- <-. left. split_and!; [done|done|]. unfold inbox_or. intros v. by case_match. }
  case_bool_decide as Hfresh. { injection E as <- <-. left. by split_and!. }
  assert (ib_files ib !! file_name eid = None) as Hnone by by apply eq_None_not_Some.
  destruct (interrupted fault [AfterPublish; _; _]); injection E as <- <-; right;
    (split; [by exists eid, record|]); [by left|right].
  exists ib1, es, eid, record. by split_and!.
Qed.

(** ** Loading after a successful receipt *)

Lemma names_insert ib name data :
  ib_files ib !! name = None → names (add_file name data ib) ≡ₚ name :: names ib.
Proof.
  intros Hn. unfold names, sorted_strs. rewrite !merge_sort_Permutation. cbn [add_file ib_files].
  rewrite map_to_list_insert by done. done.
Qed.

Lemma sum_perm (l k : list Z) : l ≡ₚ k → fold_right Z.add 0 l = fold_right Z.add 0 k.
Proof. induction 1; cbn; lia. Qed.

Lemma file_at_other ib name data n :
  n ∈ names ib → ib_files ib !! name = None → file_at (add_file name data ib) n = file_at ib n.
Proof.
  intros Hn Hnone. unfold file_at. cbn [add_file ib_files]. rewrite lookup_insert_ne; [done|].
  intros <-. unfold names, sorted_strs in Hn. rewrite merge_sort_Permutation in Hn.
  apply list_elem_of_fmap in Hn as ([k v] & -> & Hin). apply elem_of_map_to_list in Hin.
  cbn in Hnone. congruence.
Qed.

Lemma record_bytes_insert ib name data :
  ib_files ib !! name = None → record_bytes (add_file name data ib) = len data + record_bytes ib.
Proof.
  intros Hn. unfold record_bytes.
  rewrite (sum_perm _ ((λ n, len (file_at (add_file name data ib) n)) <$> name :: names ib))
    by by rewrite names_insert.
  cbn [fmap list_fmap fold_right]. unfold file_at at 1. cbn [add_file ib_files].
  rewrite lookup_insert_eq. cbn [from_option id]. f_equal.
  assert (∀ l, (∀ n, n ∈ l → n ∈ names ib) →
    fold_right Z.add 0 ((λ n, len (file_at (add_file name data ib) n)) <$> l) =
    fold_right Z.add 0 ((λ n, len (file_at ib n)) <$> l)) as Hl; [|by apply Hl].
  induction l as [|n l IH]; intros Hin; [done|]. cbn.
  rewrite IH by (intros m Hm; apply Hin; by right).
  rewrite file_at_other; [done|apply Hin; by left|done].
Qed.

(** What the loaded directory keeps when a record is added. *)
Lemma load_after ib ow es r cert eid record h :
  load_records ib ow = Ok (ib, es) → ib_files ib !! file_name eid = None →
  envelope_id r = Ok eid → encode (record_value r cert) = Ok record → len record <= RECORD_MAX →
  outer ib r cert (ow_state ow) = Ok h →
  len es < ib_max_records ib + 1 → record_bytes ib + len record <= ib_max_bytes ib + RECORD_MAX →
  let ib' := set_seen (<[file_name eid := sha256 record]> (ib_seen ib)) (add_file (file_name eid) record ib) in
  ∃ es', load_records ib' ow = Ok (ib', es') ∧ Entry eid r cert h ∈ es' ∧ ∀ e, e ∈ es → e ∈ es'.
Proof.
  intros Hload Hnew Hid Henc Hrl Ho Hcount Hbytes ib'.
  pose proof (load_records_ok _ _ _ _ Hload) as (_ & _ & Hseen & Hnames).
  pose proof (f_equal ib_seen Hseen) as Hseen'. cbn [set_seen ib_seen] in Hseen'.
  unfold load_records in Hload |- *. do 2 (apply bind_Ok in Hload as ([] & ? & Hload)).
  apply bind_Ok in Hload as ([] & _ & Hload). apply bind_Ok in Hload as (es0 & Hes & Hload).
  do 2 (apply bind_Ok in Hload as ([] & _ & Hload)). injection Hload as _ ->.
  apply mapM_Ok_Forall2 in Hes.
  pose proof (names_insert ib (file_name eid) record Hnew) as Hperm.
  change (names ib') with (names (add_file (file_name eid) record ib)).
  change (record_bytes ib') with (record_bytes (add_file (file_name eid) record ib)).
  assert (∀ n, n ∈ names ib → read_record ib' (ow_state ow) n (file_at ib' n)
    = read_record ib (ow_state ow) n (file_at ib n)) as Hold.
  { intros n Hn. rewrite (read_record_scope ib' ib) by done. f_equal. by apply file_at_other. }
  assert (read_record ib' (ow_state ow) (file_name eid) (file_at ib' (file_name eid)) = Ok (Entry eid r cert h))
    as Hread.
  { assert (file_at ib' (file_name eid) = record) as ->
      by (unfold file_at; cbn; by rewrite lookup_insert_eq).
    apply read_written; [done|done|done|]. by rewrite (outer_scope ib' ib). }
  destruct (mapM_total (λ n, read_record ib' (ow_state ow) n (file_at ib' n))
              (names (add_file (file_name eid) record ib))) as [es' Hes'].
  { intros n Hn. rewrite Hperm in Hn. apply elem_of_cons in Hn as [->|Hn]; [by eexists|].
    rewrite Hold by done. eapply Forall2_lookup_l_elem in Hes as (e & _ & He); [by eexists|done]. }
  exists es'. split.
  - do 2 (refine (bind_step _ _ tt _ _ _); [done|cbv beta]).
    refine (bind_step _ _ tt _ _ _); [apply ineed_Ok, Z.leb_le|cbv beta].
    { unfold len at 1. rewrite Hperm. cbn [length].
      apply (f_equal (@length _)) in Hnames. rewrite length_fmap in Hnames.
      change (ib_max_records ib') with (ib_max_records ib). unfold len in Hcount. lia. }
    run Hes'.
    refine (bind_step _ _ tt _ _ _); [apply ineed_Ok, Z.leb_le|cbv beta].
    { rewrite record_bytes_insert by done. change (ib_max_bytes ib') with (ib_max_bytes ib). lia. }
    assert (digests ib' = ib_seen ib') as Hdig.
    { unfold ib', digests. cbn [set_seen ib_seen ib_files add_file]. rewrite fmap_insert.
      f_equal. by rewrite Hseen'. }
    refine (bind_step _ _ tt _ _ _); [apply ineed_Ok|cbv beta].
    { apply forallb_forall. intros [k v] Hin. apply bool_decide_eq_true. rewrite Hdig.
      apply list_elem_of_In in Hin. by apply elem_of_map_to_list in Hin. }
    rewrite Hdig. unfold ib'. destruct ib; done.
  - apply mapM_Ok_Forall2 in Hes'.
    assert (∀ n e, n ∈ names (add_file (file_name eid) record ib) →
      read_record ib' (ow_state ow) n (file_at ib' n) = Ok e → e ∈ es') as Hin.
    { intros n e Hn He. eapply Forall2_lookup_l_elem in Hes' as (e' & Hin & He'); [|done]. congruence. }
    split.
    + apply (Hin (file_name eid)); [rewrite Hperm; by left|done].
    + intros e He. eapply Forall2_lookup_r_elem in Hes as (n & Hn & Hne); [|done].
      apply (Hin n); [rewrite Hperm; by right|]. by rewrite Hold.
Qed.

(** Loading again changes nothing. *)
Lemma load_again ib ow ib1 es : load_records ib ow = Ok (ib1, es) → load_records ib1 ow = Ok (ib1, es).
Proof.
  intros Hload. pose proof (load_records_ok _ _ _ _ Hload) as (_ & _ & -> & _).
  unfold load_records in Hload |- *. do 2 (apply bind_Ok in Hload as ([] & ? & Hload)).
  apply bind_Ok in Hload as ([] & ? & Hload). apply bind_Ok in Hload as (es0 & Hes & Hload).
  do 2 (apply bind_Ok in Hload as ([] & ? & Hload)). injection Hload as ->.
  do 3 (refine (bind_step _ _ tt _ _ _); [done|cbv beta]).
  refine (bind_step _ _ es _ _ _); [|cbv beta].
  { rewrite <-Hes. unfold names. cbn [set_seen ib_files]. generalize (sorted_strs (map_to_list (ib_files ib)).*1).
    intros l. induction l as [|n l IH]; [done|]. cbn [mapM]. rewrite IH.
    by rewrite (read_record_scope _ ib). }
  refine (bind_step _ _ tt _ _ _); [done|cbv beta].
  refine (bind_step _ _ tt _ _ _); [|done].
  apply ineed_Ok, forallb_forall. intros [k v] Hin. apply bool_decide_eq_true.
  apply list_elem_of_In, elem_of_map_to_list in Hin. done.
Qed.

(** What [admission] established of the record it publishes. *)
Lemma admission_Ok ib ow es r cert eid record :
  admission ib ow es r cert = Ok (eid, Some record) →
  (∃ h, outer ib r cert (ow_state ow) = Ok h) ∧ envelope_id r = Ok eid ∧
  encode (record_value r cert) = Ok record ∧ len record <= RECORD_MAX ∧
  len es < ib_max_records ib + 1 ∧ record_bytes ib + len record <= ib_max_bytes ib + RECORD_MAX.
Proof.
  unfold admission. intros E. apply bind_Ok in E as (h & Ho & E). apply bind_Ok in E as (? & _ & E).
  apply bind_Ok in E as (i & Hi & E). apply bind_Ok in E as (d & Hd & E).
  apply bind_Ok in E as ([] & Hl%ineed_Ok%Z.leb_le & E).
  destruct (find_entry es i); [by apply bind_Ok in E as (? & _ & E)|].
  apply bind_Ok in E as (? & _ & E). apply bind_Ok in E as (c & _ & E).
  apply bind_Ok in E as ([] & Hq%ineed_Ok%andb_prop & E). injection E as <- <-.
  destruct Hq as [H1%Z.ltb_lt H2%Z.leb_le]. assert (0 <= RECORD_MAX) by done.
  split_and!; [by eexists|done|done|done| |]; destruct c; lia.
Qed.

Lemma received_loaded fault ib ow r cert ib' v :
  receive fault ib ow r cert = (ib', Ok v) →
  ∃ ib1 es es' e, load_records ib ow = Ok (ib1, es) ∧ load_records ib' ow = Ok (ib', es') ∧
    e ∈ es' ∧ en_id e = vw_id v ∧ en_raw e = r ∧ en_certificate e = cert ∧ ∀ x, x ∈ es → x ∈ es'.
Proof.
  intros E. apply receive_cases in E as [(_ & _ & Hv)|(Hp & [[? _]|Hv])]; [|done|].
  - destruct (Hv v eq_refl) as (ib1 & es & Hl & -> & e & He & Hid & Hr & Hc).
    exists ib', es, es, e. split_and!; try done. by eapply load_again.
  - destruct Hv as (ib1 & es & eid & record & Hl & Ha & [= ->] & ->).
    destruct (admission_Ok _ _ _ _ _ _ _ Ha) as ((h & Ho) & Hi & Hd & Hr & Hn & Hb).
    destruct Hp as (eid' & record' & Hi' & Hd' & Hnone & _). rewrite Hi in Hi'. injection Hi' as <-.
    pose proof (load_records_ok _ _ _ _ Hl) as (_ & _ & Heq & _).
    assert (ib_files ib1 !! file_name eid = None) as Hnone1 by by rewrite Heq.
    destruct (load_after _ _ _ _ _ _ _ _ (load_again _ _ _ _ Hl) Hnone1 Hi Hd Hr Ho Hn Hb)
      as (es' & Hl' & Hin & Hold).
    by exists ib1, es, es', (Entry eid r cert h).
Qed.
End Spec.

(** ** Gathering the causal past *)

Section Gather.
Context (lookup : bytes → result (option dependency)).
Hypothesis Hlookup : ∀ cid, lookup cid ≠ Err OutOfFuel.

(** The path and the nodes together never exceed the limit. *)
Lemma gather_size fuel cid vis st st' :
  (size (ga_nodes st) + size vis <= gather_limit)%nat →
  gather_visit fuel lookup vis cid st = Ok st' →
  (size (ga_nodes st') + size vis <= gather_limit)%nat.
Proof using Type.
  clear Hlookup. revert cid vis st st'. induction fuel as [|fuel IH]; intros cid vis st st' Hs E; [done|].
  cbn [gather_visit] in E. case_bool_decide as Hv; [done|]. case_bool_decide; [by injection E as <-|].
  destruct (_ <=? _)%nat eqn:Hlim; [done|]. apply Nat.leb_gt in Hlim.
  apply bind_Ok in E as (d & _ & E). destruct d as [d|]; [|by injection E as <-].
  apply bind_Ok in E as (t & Ht & E). injection E as <-. cbn [ga_nodes].
  assert (size ({[cid]} ∪ vis) = S (size vis)) as Hvs
    by (rewrite size_union, size_singleton by set_solver; done).
  assert (size (ga_nodes t) + size ({[cid]} ∪ vis) <= gather_limit)%nat.
  { eapply (iter_inv _ (λ t, size (ga_nodes t) + size ({[cid]} ∪ vis) <= gather_limit)%nat); [|exact Ht|lia].
    intros x a b _ Hb Ha. by eapply IH. }
  pose proof (size_union_alt {[cid]} (ga_nodes t)) as Hu. rewrite size_singleton in Hu.
  pose proof (subseteq_size (ga_nodes t ∖ {[cid]}) (ga_nodes t) ltac:(set_solver)). lia.
Qed.

Lemma gather_fuel fuel cid vis st :
  (size vis <= gather_limit)%nat → (gather_limit < fuel + size vis)%nat →
  gather_visit fuel lookup vis cid st ≠ Err OutOfFuel.
Proof using Hlookup.
  revert cid vis st. induction fuel as [|fuel IH]; intros cid vis st Hs Hf E; [lia|].
  cbn [gather_visit] in E. case_bool_decide as Hv; [done|]. case_bool_decide; [done|].
  destruct (_ <=? _)%nat eqn:Hlim; [done|]. apply Nat.leb_gt in Hlim.
  apply bind_Err in E as [E|(d & _ & E)]; [by apply Hlookup in E|].
  destruct d as [d|]; [|done]. apply bind_Err in E as [E|(t & _ & E)]; [|done].
  apply iter_Err in E as (x & t & _ & E).
  assert (size ({[cid]} ∪ vis) = S (size vis)) as Hvs
    by (rewrite size_union, size_singleton by set_solver; done).
  by apply IH in E; [|lia..].
Qed.
End Gather.

(** ** Properties *)

(** What a [receive] that ends in [res] may have done to the directory. *)
Definition receive_outcome `{Hash} `{Sodium} ib (r cert : bytes) ib' (res : result view) : Prop :=
  (ib_files ib' = ib_files ib ∧ ib_uncertain ib' = ib_uncertain ib ∧
     ∀ v, res = Ok v → is_Some (ib_files ib !! file_name (vw_id v))) ∨
  (∃ eid record, envelope_id r = Ok eid ∧ encode (record_value r cert) = Ok record ∧
     ib_files ib !! file_name eid = None ∧ ib_files ib' = <[file_name eid := record]> (ib_files ib) ∧
     (res = Ok (receipt eid) ∨
      res = Err (InboxError "INBOX_OUTCOME_UNKNOWN") ∧
      ∀ ow', is_ok (load_records ib' ow') = false)).

(** C18. Receiving is atomic under every fault of the disk or the owner: the records are as
    before, or exactly the new one was added under a name that was free; a success is never
    reported without the record, and an addition that is not acknowledged ends in
    [INBOX_OUTCOME_UNKNOWN], after which the inbox refuses every operation. *)
Theorem receive_crash_safe `{Hash} `{Sodium} fault ib ow r cert ib' res :
  receive fault ib ow r cert = (ib', res) → receive_outcome ib r cert ib' res.
Proof.
  intros E. unfold receive_outcome. pose proof E as [(Hf & Hu & Hv)|((eid & record & Hi & Hd & Hn & Hf) & Hr)]%receive_cases.
  - left. split_and!; [done|done|]. intros v Ev.
    destruct (Hv v Ev) as (ib1 & es & Hl & _ & e & He & <- & _).
    pose proof (load_records_ok _ _ _ _ Hl) as (_ & _ & _ & Hnames).
    assert (file_name (en_id e) ∈ names ib) as Hin.
    { rewrite Hnames. apply (list_elem_of_fmap_2 (file_name ∘ en_id)). done. }
    unfold names, sorted_strs in Hin. rewrite merge_sort_Permutation in Hin.
    apply list_elem_of_fmap in Hin as ([k d] & -> & Hin). apply elem_of_map_to_list in Hin. by exists d.
  - right. exists eid, record. split_and!; [done..|].
    destruct Hr as [[-> Hunc]|(ib1 & es & eid' & rec' & Hl & Ha & -> & _)].
    + right. split; [done|]. intros ow'. unfold load_records, enter. rewrite Hunc.
      destruct (ib_closed ib'); done.
    + left. destruct (admission_Ok _ _ _ _ _ _ _ Ha) as (_ & Hi' & _). congruence.
Qed.

(** C19. A success is durable: the directory it leaves loads again, with the record received, byte
    for byte under its id, and with every record loaded before. *)
Theorem received_is_loaded `{Hash} `{Sodium} fault ib ow r cert ib' v :
  receive fault ib ow r cert = (ib', Ok v) →
  ∃ ib1 es es' e, load_records ib ow = Ok (ib1, es) ∧ load_records ib' ow = Ok (ib', es') ∧
    e ∈ es' ∧ en_id e = vw_id v ∧ en_raw e = r ∧ en_certificate e = cert ∧ ∀ x, x ∈ es → x ∈ es'.
Proof. apply received_loaded. Qed.

(** Gathering a causal past ends for any store, cyclic ones included: the search never needs
    more than its fuel, and a past it accepts has at most 128 changes. *)
Theorem gather_terminates (lookup : bytes → result (option dependency)) (l : list bytes)
    (Hlookup : ∀ cid, lookup cid ≠ Err OutOfFuel) :
  iter (gather_visit (S gather_limit) lookup ∅) l (Gather ∅ ∅ []) ≠ Err OutOfFuel ∧
  ∀ st, iter (gather_visit (S gather_limit) lookup ∅) l (Gather ∅ ∅ []) = Ok st →
    (size (ga_nodes st) <= gather_limit)%nat.
Proof.
  split.
  - intros (x & t & _ & E)%iter_Err.
    by apply (gather_fuel lookup Hlookup) in E; [|rewrite size_empty; lia..].
  - intros st E. eapply (iter_inv _ (λ t, size (ga_nodes t) <= gather_limit)%nat) in E; [done| |].
    + intros x a b _ Hb Ha. apply gather_size in Hb; rewrite size_empty in *; lia.
    + cbn. rewrite size_empty. lia.
Qed.

#[local] Transparent encode decode encode_with decode_with validate crypt domain verify hashed auth_parse member_certificate outer current envelope_id.

Definition no_fault : stage → option exn := λ _, None.
Definition late_fault (s : stage) : option exn :=
  match s with AfterDirSync => Some (Raised "OSError" "EIO") | _ => None end.
Definition after_receipt : inbox := (receive no_fault sample_inbox sample_owner sample_envelope sample_certificate).1.
Definition after_fault : inbox := (receive late_fault sample_inbox sample_owner sample_envelope sample_certificate).1.
Definition sample_id : bytes := ok_or [] (envelope_id sample_envelope).

Lemma receive_crash_safe_witness :
  receive_outcome sample_inbox sample_envelope sample_certificate after_fault
    (Err (InboxError "INBOX_OUTCOME_UNKNOWN")).
Proof.
  assert (receive late_fault sample_inbox sample_owner sample_envelope sample_certificate
            = (after_fault, Err (InboxError "INBOX_OUTCOME_UNKNOWN"))) as E.
  { vm_compute. reflexivity. }
  exact (receive_crash_safe _ _ _ _ _ _ _ E).
Defined.

Lemma received_is_loaded_witness :
  ∃ ib1 es es' e, load_records sample_inbox sample_owner = Ok (ib1, es) ∧
    load_records after_receipt sample_owner = Ok (after_receipt, es') ∧
    e ∈ es' ∧ en_id e = vw_id (receipt sample_id) ∧ en_raw e = sample_envelope ∧
    en_certificate e = sample_certificate ∧ ∀ x, x ∈ es → x ∈ es'.
Proof.
  assert (receive no_fault sample_inbox sample_owner sample_envelope sample_certificate
            = (after_receipt, Ok (receipt sample_id))) as E.
  { vm_compute. reflexivity. }
  exact (received_is_loaded _ _ _ _ _ _ _ E).
Defined.

(** A store in which two changes depend on each other. *)
Definition cyclic_lookup (cid : bytes) : result (option dependency) :=
  Ok (Some (Dependency cid
    (ChangeInput [] (Hdr [] [] 1 [] 1 [] [] 1 None [] [if bool_decide (cid = key_of 1) then key_of 2 else key_of 1]
                       1 cid [] 1 0) [] []))).

Lemma gather_terminates_witness :
  iter (gather_visit (S gather_limit) cyclic_lookup ∅) [key_of 1] (Gather ∅ ∅ []) ≠ Err OutOfFuel ∧
  ∀ st, iter (gather_visit (S gather_limit) cyclic_lookup ∅) [key_of 1] (Gather ∅ ∅ []) = Ok st →
    (size (ga_nodes st) <= gather_limit)%nat.
Proof. apply (gather_terminates cyclic_lookup [key_of 1]). intros cid. discriminate. Defined.
