(* ===== verification/AuthoritySpec.v ===== *)
(** * The authority state is a ledger

    [represents a chain] relates the object's maps to the list of its controls, newest
    first; [valid_chain] is what the entries of a ledger satisfy.  Every state the
    methods reach represents a valid chain as long as SHA-256 does not collide on what
    it recorded ([no_collision]).  A fork is the evidence that the authority signed two
    valid continuations of one prefix. *)

From S2P Require Import Prelude Bytes Value Codec Flat CddlText Schema SchemaSpec Hash Sodium Primitives Objects ObjectsSpec Membership Authority Activation.
From stdpp Require Import relations.
Local Open Scope Z_scope.

#[local] Opaque encode decode decode_with validate crypt domain verify hashed auth_parse.

Section Ledger.
Context `{Hash} `{Sodium}.
Implicit Types (a : authority) (n p : control) (chain : list control).

(** The genesis of [a] is signed by the key it names and hashes to the Space. *)
Record anchored a : Prop := {
  an_entry : ∃ o b sig m, auth_parse "signed-object" (VBytes (a_genesis a)) 66000 = Ok o ∧
    bytes_at o 0 = Ok (a_genesis_body a) ∧
    auth_parse "genesis-body" (VBytes (a_genesis_body a)) 66000 = Ok b ∧
    read_genesis b = Ok (a_initial a) ∧ bytes_at o 2 = Ok sig ∧
    domain "genesis-sign" [VBytes (a_genesis_body a)] = Ok m ∧
    verify (gb_authority (a_initial a)) m sig = Ok tt;
  an_app : gb_app (a_initial a) = a_app a;
  an_space : hashed "space-id" [VBytes (a_genesis_body a)] = Ok (a_space a);
}.

(** [n] may come right after [prev] ([None]: after the genesis) in the Space of [a]. *)
Record follows a (prev : option control) n : Prop := {
  fo_entry : ∃ o v sig m, auth_parse "control-entry" (VBytes (c_raw n)) 66000 = Ok o ∧
    bytes_at o 0 = Ok (c_body_bytes n) ∧
    auth_parse "control-body" (VBytes (c_body_bytes n)) 66000 = Ok v ∧
    read_control v = Ok (c_body n) ∧ bytes_at o 1 = Ok sig ∧
    domain "control-sign" [VBytes (c_body_bytes n)] = Ok m ∧
    verify (cb_signer (c_body n)) m sig = Ok tt;
  fo_app : cb_app (c_body n) = a_app a;
  fo_space : cb_space (c_body n) = a_space a;
  fo_seq : cb_seq (c_body n) = match prev with Some p => cb_seq (c_body p) + 1 | None => 1 end;
  fo_parent : cb_parent (c_body n) = match prev with Some p => c_id p | None => a_space a end;
  fo_signer : cb_signer (c_body n) =
    match prev with Some p => c_after p | None => gb_authority (a_initial a) end;
  fo_id : hashed "control-id" [VBytes (c_raw n)] = Ok (c_id n);
  fo_first : prev = None → cb_action (c_body n) = 1 ∧ cb_epoch (c_body n) = 1 ∧
    cb_members (c_body n) = gb_members (a_initial a) ∧ cb_policy (c_body n) = gb_policy (a_initial a);
  fo_next p : prev = Some p → cb_action (c_body n) ≠ 1 ∧
    cb_epoch (c_body n) = cb_epoch (c_body p) + (if cb_action (c_body n) =? 3 then 1 else 0);
  fo_kept p : prev = Some p → cb_action (c_body n) ≠ 3 →
    cb_packages (c_body n) = cb_packages (c_body p) ∧ cb_seeds (c_body n) = cb_seeds (c_body p) ∧
    cb_set (c_body n) = cb_set (c_body p) ∧ cb_features (c_body n) = cb_features (c_body p) ∧
    (cb_action (c_body n) = 4 ∨ cb_action (c_body n) = 5 →
     cb_members (c_body n) = cb_members (c_body p) ∧ cb_policy (c_body n) = cb_policy (c_body p));
  fo_material : is_Some (cb_packages (c_body n)) ∧ is_Some (cb_seeds (c_body n)) ∧
    is_Some (cb_set (c_body n));
  fo_after : if cb_action (c_body n) =? 4
             then cb_next (c_body n) = Some (c_after n) ∧ c_after n ≠ cb_signer (c_body n) ∧
               ∃ sig m, domain "authority-possession" [VBytes (c_body_bytes n)] = Ok m ∧
                 verify (c_after n) m sig = Ok tt
             else c_after n = cb_signer (c_body n);
  fo_anchor : c_anchor n =
    if (cb_action (c_body n) =? 1) || (cb_action (c_body n) =? 3) then c_id n
    else match prev with Some p => c_anchor p | None => c_id n end;
}.

(** A new epoch reuses no material of any earlier control. *)
Definition fresh_epoch n chain : Prop :=
  cb_action (c_body n) = 3 → ∀ p, p ∈ chain → share_material (c_body n) (c_body p) = false.

(** [n] continues [chain]. *)
Definition continues a chain n : Prop := follows a (hd_error chain) n ∧ fresh_epoch n chain.

Inductive valid_chain a : list control → Prop :=
| valid_nil : valid_chain a []
| valid_cons n chain : valid_chain a chain → continues a chain n → valid_chain a (n :: chain).

(** The view of a control's membership. *)
Definition view_of a n : option membership := a_memberships a !! cb_members (c_body n).

(** What a resolved control [n] over [chain] promises about its content members. *)
Definition content_rule a chain n : Prop :=
  ∃ ms, view_of a n = Some ms ∧
    (cb_action (c_body n) = 1 ∨ cb_action (c_body n) = 3 → content_members ms ≠ []) ∧
    (cb_action (c_body n) = 2 → ∀ p, hd_error chain = Some p →
       ∃ previous, view_of a p = Some previous ∧ content_members ms = content_members previous).

(** The two entries of a fork are distinct continuations of one prefix of the chain. *)
Definition fork_evidence a chain : Prop :=
  ∀ x y, a_fork a = Some (x, y) → x ≠ y ∧ ∃ l1 old l2 n,
    chain = l1 ++ old :: l2 ∧ x = c_raw old ∧ y = c_raw n ∧ continues a l2 n.

Record represents a chain : Prop := {
  rep_anchor : anchored a;
  rep_valid : valid_chain a chain;
  rep_nodes id n : a_nodes a !! id = Some n ↔ n ∈ chain ∧ c_id n = id;
  rep_seqs i id : a_sequences a !! i = Some id ↔ ∃ n, n ∈ chain ∧ cb_seq (c_body n) = i ∧ c_id n = id;
  rep_size : size (a_sequences a) = length chain;
  rep_count : size (a_nodes a) = length chain;
  rep_head : a_head a = match chain with n :: _ => c_id n | [] => a_space a end;
  rep_events n : n ∈ chain → EControl (c_raw n) ∈ a_events a;
  rep_members root ms : a_memberships a !! root = Some ms →
    EMembers (ms_pages ms) ∈ a_events a ∧ verify_membership root (VList (VBytes <$> ms_pages ms)) = Ok ms;
  rep_resolved id : id ∈ a_resolved a → ∃ n, n ∈ chain ∧ c_id n = id;
  rep_tail n : n ∈ tail chain → c_id n ∈ a_resolved a;
  rep_content l1 n l2 : chain = l1 ++ n :: l2 → c_id n ∈ a_resolved a → content_rule a l2 n;
  rep_fork : fork_evidence a chain;
}.

(** SHA-256 does not collide on what [a] recorded: two control entries with one id are
    one, no control id is the Space's, and two recorded memberships with one root are one. *)
Record no_collision a : Prop := {
  nc_entry r r' h : EControl r ∈ a_events a → EControl r' ∈ a_events a →
    hashed "control-id" [VBytes r] = Ok h → hashed "control-id" [VBytes r'] = Ok h → r = r';
  nc_space r h : EControl r ∈ a_events a →
    hashed "control-id" [VBytes r] = Ok h → hashed "space-id" [VBytes (a_genesis_body a)] ≠ Ok h;
  nc_pages l l' h : EMembers l ∈ a_events a → EMembers l' ∈ a_events a →
    membership_root (VBytes <$> l) = Ok h → membership_root (VBytes <$> l') = Ok h → l = l';
}.

(** ** Positions in a valid chain *)

Lemma valid_head_seq a n chain :
  valid_chain a (n :: chain) → cb_seq (c_body n) = Z.of_nat (S (length chain)).
Proof.
  revert n. induction chain as [|p l IH]; intros q Hv; inversion Hv as [|? ? Hv' [Hf _]]; subst;
    rewrite (fo_seq _ _ _ Hf); cbn [hd_error]; [done|].
  rewrite (IH _ Hv'). cbn [length]. lia.
Qed.

Lemma valid_seq a chain n :
  valid_chain a chain → n ∈ chain → 1 <= cb_seq (c_body n) <= Z.of_nat (length chain).
Proof.
  induction chain as [|p l IH]; intros Hv Hin; [by apply not_elem_of_nil in Hin|].
  pose proof (valid_head_seq _ _ _ Hv). inversion Hv; subst. cbn [length].
  apply elem_of_cons in Hin as [->|Hin]; [lia|]. specialize (IH ltac:(done) Hin). lia.
Qed.

(** The control at a position. *)
Lemma valid_lookup a chain i :
  valid_chain a chain → 1 <= i <= Z.of_nat (length chain) →
  ∃ n, n ∈ chain ∧ cb_seq (c_body n) = i.
Proof.
  induction chain as [|p l IH]; intros Hv Hi; [cbn in Hi; lia|].
  pose proof (valid_head_seq _ _ _ Hv) as Hp.
  destruct (decide (i = Z.of_nat (S (length l)))) as [->|].
  - exists p. split; [by left|done].
  - inversion Hv; subst. destruct IH as (q & Hn & Hs); [done|cbn [length] in Hi; lia|].
    exists q. split; [by right|done].
Qed.

Lemma valid_seq_inj a chain n p :
  valid_chain a chain → n ∈ chain → p ∈ chain → cb_seq (c_body n) = cb_seq (c_body p) → n = p.
Proof.
  induction chain as [|q l IH]; intros Hv Hn Hp Hs; [by apply not_elem_of_nil in Hn|].
  pose proof (valid_head_seq _ _ _ Hv) as Hq. inversion Hv as [|? ? Hv' _]; subst.
  apply elem_of_cons in Hn as [->|Hn], Hp as [->|Hp]; [done| | |by apply IH].
  - pose proof (valid_seq _ _ _ Hv' Hp). lia.
  - pose proof (valid_seq _ _ _ Hv' Hn). lia.
Qed.

Lemma valid_app a l k : valid_chain a (l ++ k) → valid_chain a k.
Proof. induction l as [|n l IH]; [done|]. intros Hv. inversion Hv; subst. by apply IH. Qed.

(** The suffix of a given length. *)
Lemma split_length {A} (l : list A) k : (k <= length l)%nat → ∃ l1 l2, l = l1 ++ l2 ∧ length l2 = k.
Proof.
  intros Hk. exists (take (length l - k) l), (drop (length l - k) l).
  rewrite take_drop, length_drop. split; [done|lia].
Qed.

(** What the fields of two states share, chains share. *)
Definition same_space a a' : Prop :=
  a_app a' = a_app a ∧ a_space a' = a_space a ∧ a_initial a' = a_initial a ∧
  a_genesis a' = a_genesis a ∧ a_genesis_body a' = a_genesis_body a.

Lemma same_anchored a a' : same_space a a' → anchored a → anchored a'.
Proof.
  intros (E1 & E2 & E3 & E4 & E5) [Hg Ha Hs].
  split; rewrite ?E1, ?E2, ?E3, ?E4, ?E5; done.
Qed.

Lemma same_continues a a' chain n : same_space a a' → continues a chain n → continues a' chain n.
Proof.
  intros (E1 & E2 & E3 & _) [[] Hfresh]. split; [|done].
  split; rewrite ?E1, ?E2, ?E3; done.
Qed.

Lemma same_fork a a' chain :
  same_space a a' → a_fork a' = a_fork a → fork_evidence a chain → fork_evidence a' chain.
Proof.
  intros Hs Ef Hf x y E. rewrite Ef in E.
  destruct (Hf x y E) as (? & l1 & old & l2 & n & ? & ? & ? & Hc).
  split; [done|]. exists l1, old, l2, n. do 3 (split; [done|]). by apply (same_continues a).
Qed.

Lemma same_valid a a' chain : same_space a a' → valid_chain a chain → valid_chain a' chain.
Proof. intros Hs. induction 1; constructor; [done|]. by eapply same_continues. Qed.

(** ** What [inspect] lets pass *)

Section Inspect.
Context {a : authority} {chain : list control}.
Hypothesis (Hrep : represents a chain) (Hnc : no_collision a).

Lemma rep_space_node : a_nodes a !! a_space a = None.
Proof using Hrep Hnc.
  destruct (a_nodes a !! a_space a) as [p|] eqn:E; [|done]. exfalso.
  apply (rep_nodes _ _ Hrep) in E as [Hp Eid].
  pose proof (rep_valid _ _ Hrep) as Hv.
  assert (hashed "control-id" [VBytes (c_raw p)] = Ok (a_space a)) as Eh.
  { rewrite <-Eid. apply list_elem_of_split in Hp as (l1 & l2 & ->).
    apply valid_app in Hv. inversion Hv as [|? ? _ [Hf _]]; subst. apply (fo_id _ _ _ Hf). }
  eapply (nc_space _ Hnc); [by apply (rep_events _ _ Hrep)|exact Eh|apply (an_space _ (rep_anchor _ _ Hrep))].
Qed.

Lemma rep_position p : p ∈ chain → a_sequences a !! cb_seq (c_body p) = Some (c_id p).
Proof using Hrep. intros Hp. apply (rep_seqs _ _ Hrep). by exists p. Qed.

Lemma rep_node p : p ∈ chain → a_nodes a !! c_id p = Some p.
Proof using Hrep. intros Hp. by apply (rep_nodes _ _ Hrep). Qed.

(** The parent test finds the newest control of the prefix before the entry. *)
Lemma parent_found l1 l2 (b : cbody) :
  chain = l1 ++ l2 → cb_seq b = Z.of_nat (S (length l2)) →
  Some (cb_parent b) = (if cb_seq b =? 1 then Some (a_space a) else a_sequences a !! (cb_seq b - 1)) →
  a_nodes a !! cb_parent b = hd_error l2 ∧
  cb_parent b = match hd_error l2 with Some p => c_id p | None => a_space a end ∧
  cb_seq b = match hd_error l2 with Some p => cb_seq (c_body p) + 1 | None => 1 end.
Proof using Hrep Hnc.
  intros Ec Es. pose proof (rep_valid _ _ Hrep) as Hv. rewrite Ec in Hv. apply valid_app in Hv.
  destruct l2 as [|p l2]; cbn [hd_error length] in *.
  - rewrite Es. cbn. intros [= ->]. split; [apply rep_space_node|done].
  - pose proof (valid_head_seq _ _ _ Hv) as Hp.
    destruct (Z.eqb_spec (cb_seq b) 1); [lia|].
    assert (p ∈ chain) as Hin by (rewrite Ec; set_solver).
    replace (cb_seq b - 1) with (cb_seq (c_body p)) by lia.
    rewrite rep_position by done. intros [= ->]. split; [by apply rep_node|split; [done|lia]].
Qed.

(** The history compared with a new epoch is the whole prefix. *)
Lemma history_covers l1 l2 bodies i p :
  chain = l1 ++ l2 → i = Z.of_nat (S (length l2)) → history a i = Ok bodies → p ∈ l2 →
  c_body p ∈ bodies.
Proof using Hrep Hnc.
  intros Ec -> E Hp. apply mapM_Ok_elem in E as [E _].
  pose proof (rep_valid _ _ Hrep) as Hv. rewrite Ec in Hv. apply valid_app in Hv.
  pose proof (valid_seq _ _ _ Hv Hp) as Hr.
  destruct (E (cb_seq (c_body p))) as (b & Eb & Hb).
  - apply list_elem_of_fmap. exists (Z.to_nat (cb_seq (c_body p))). split; [lia|].
    apply elem_of_seq. lia.
  - assert (p ∈ chain) as Hin by (rewrite Ec; set_solver).
    rewrite rep_position in Eb by done. cbn in Eb. unfold node_at in Eb.
    rewrite rep_node in Eb by done. cbn in Eb. by injection Eb as <-.
Qed.

Lemma action_checked l1 l2 (b : cbody) :
  chain = l1 ++ l2 → cb_seq b = Z.of_nat (S (length l2)) →
  check_action a b (c_body <$> hd_error l2) = Ok tt →
  (hd_error l2 = None → cb_action b = 1 ∧ cb_epoch b = 1 ∧
     cb_members b = gb_members (a_initial a) ∧ cb_policy b = gb_policy (a_initial a)) ∧
  (∀ p, hd_error l2 = Some p → cb_action b ≠ 1 ∧
     cb_epoch b = cb_epoch (c_body p) + (if cb_action b =? 3 then 1 else 0)) ∧
  (∀ p, hd_error l2 = Some p → cb_action b ≠ 3 →
     cb_packages b = cb_packages (c_body p) ∧ cb_seeds b = cb_seeds (c_body p) ∧
     cb_set b = cb_set (c_body p) ∧ cb_features b = cb_features (c_body p) ∧
     (cb_action b = 4 ∨ cb_action b = 5 →
      cb_members b = cb_members (c_body p) ∧ cb_policy b = cb_policy (c_body p))) ∧
  (cb_action b = 3 → ∀ p, p ∈ l2 → share_material b (c_body p) = false).
Proof using Hrep Hnc.
  intros Ec Es E. unfold check_action in E. destruct l2 as [|q l2]; cbn [hd_error fmap option_fmap option_map] in *.
  - rewrite Es in E. change (Z.of_nat 1 =? 1) with true in E. cbv beta iota zeta in E.
    apply bind_Ok in E as ([] & E1%require_Ok & E). apply bind_Ok in E as ([] & E2%require_Ok & E).
    apply require_Ok in E. zb. repeat case_bool_decide; try done.
    repeat split; try done; lia.
  - cbn [length] in Es. destruct (Z.eqb_spec (cb_seq b) 1); [lia|].
    apply bind_Ok in E as ([] & E1%require_Ok & E). cbn [of_option] in E.
    apply bind_Ok in E as (old & [= <-] & E). apply bind_Ok in E as ([] & E2%require_Ok & E). zb.
    split; [done|]. split; [by intros ? [= <-]|].
    destruct (Z.eqb_spec (cb_action b) 3) as [H3|H3].
    + apply bind_Ok in E as (past & Ep & E%require_Ok). apply negb_true_iff in E.
      split; [done|]. intros _ p Hp. apply not_true_is_false. intros Hsh.
      assert (existsb (share_material b) past = true) as Hx; [|congruence].
      apply existsb_exists. exists (c_body p). split; [|done].
      eapply list_elem_of_In, history_covers; [exact Ec|exact Es|done|done].
    + apply require_Ok in E. split; [|done]. intros ? [= <-] _. zb.
      repeat case_bool_decide; try done; repeat split_and?; try done;
        intros [Ha|Ha]; rewrite Ha in *; cbn in *; naive_solver.
Qed.

Lemma crypto_call_Ok {A} (m : result A) x : crypto_call m = Ok x → m = Ok x.
Proof using Type. unfold crypto_call, catch_crypto. destruct m as [?|[]]; congruence. Qed.

Lemma next_authority_Ok o body (b : cbody) pk after :
  next_authority o body b pk = Ok after →
  if cb_action b =? 4
  then cb_next b = Some after ∧ after ≠ pk ∧
    ∃ sig m, domain "authority-possession" [VBytes body] = Ok m ∧ verify after m sig = Ok tt
  else after = pk.
Proof using Type.
  unfold next_authority. intros E. destruct (cb_action b =? 4).
  - destruct (cb_next b) as [next|]; [|done].
    apply bind_Ok in E as ([] & E1%require_Ok & E). apply bind_Ok in E as (m & Em & E).
    apply bind_Ok in E as (sig & _ & E). apply bind_Ok in E as ([] & Ev%crypto_call_Ok & [= <-]).
    zb. apply bool_decide_eq_false in H1. eauto 10.
  - apply bind_Ok in E as ([] & _ & [= <-]). done.
Qed.

Lemma inspect_raw b raw_ n : inspect b raw_ = Ok n → raw_ = VBytes (c_raw n).
Proof using Type.
  unfold inspect. cbv zeta. intros E.
  repeat (let y := fresh "y" in let F := fresh "F" in apply bind_Ok in E as (y & F & E)).
  injection E as <-. cbn [c_raw]. destruct raw_; cbn in *; congruence.
Qed.

(** An entry that passes continues a prefix of the ledger: the whole of it, or a shorter
    one when another control already has its position. *)
Lemma inspect_continues raw_ n :
  inspect a raw_ = Ok n →
  raw_ = VBytes (c_raw n) ∧
  ∃ l1 l2, chain = l1 ++ l2 ∧ cb_seq (c_body n) = Z.of_nat (S (length l2)) ∧ continues a l2 n.
Proof using Hrep Hnc.
  unfold inspect. intros E.
  apply bind_Ok in E as (o & Eo & E). apply bind_Ok in E as (raw_body & Eb & E).
  apply bind_Ok in E as (v & Ev & E). apply bind_Ok in E as (b & Er & E).
  apply bind_Ok in E as ([] & Ectx%require_Ok & E). apply bind_Ok in E as ([] & Elo%require_Ok & E).
  apply bind_Ok in E as ([] & Ehi%require_Ok & E). cbv zeta in E.
  apply bind_Ok in E as ([] & Epar%require_Ok & E). apply bind_Ok in E as ([] & Epk%require_Ok & E).
  apply bind_Ok in E as (sig & Esig & E). apply bind_Ok in E as (m & Em & E).
  apply bind_Ok in E as ([] & Eve%crypto_call_Ok & E).
  apply bind_Ok in E as ([] & Emat%require_Ok & E). apply bind_Ok in E as ([] & Eact & E).
  apply bind_Ok in E as (after & Eaf & E). apply bind_Ok in E as (rb & Erb & E).
  apply bind_Ok in E as (cid & Ecid & E). apply bind_Ok in E as (anchor & Ean & [= <-]).
  assert (raw_ = VBytes rb) as -> by (destruct raw_; cbn in Erb; congruence). cbn [c_raw c_body].
  split; [done|]. zb. rewrite !bool_decide_eq_true in *.
  unfold sequence in Ehi. rewrite (rep_size _ _ Hrep) in Ehi.
  destruct (split_length chain (Z.to_nat (cb_seq b - 1))) as (l1 & l2 & Ec & Hl); [lia|].
  assert (cb_seq b = Z.of_nat (S (length l2))) as Es by lia.
  exists l1, l2. do 2 (split; [done|]).
  destruct (parent_found l1 l2 b Ec Es Epar) as (Hp & Hpar & Hseq). rewrite Hp in *.
  destruct (action_checked l1 l2 b Ec Es Eact) as (Hfirst & Hnext & Hkept & Hfresh).
  split; [|done].
  assert (cb_signer b = match hd_error l2 with Some p => c_after p | None => gb_authority (a_initial a) end)
    as Hsig by done.
  split; cbn [c_raw c_body c_body_bytes c_id c_after c_anchor]; try done.
  - exists o, v, sig, m. by rewrite Hsig.
  - apply next_authority_Ok in Eaf. by rewrite Hsig.
  - destruct ((cb_action b =? 1) || (cb_action b =? 3)); [by injection Ean|].
    apply bind_Ok in Ean as (p & Ep & [= <-]). destruct (hd_error l2); cbn in Ep; by simplify_eq.
Qed.
End Inspect.

(** The schema gives five actions. *)
Lemma control_action r v b :
  auth_parse "control-body" r 66000 = Ok v → read_control v = Ok b → 1 <= cb_action b <= 5.
Proof.
  with_strategy transparent [auth_parse] unfold auth_parse. intros Ev Er.
  apply bind_Ok in Ev as (raw_ & _ & Ev). apply bind_Ok in Ev as (w & _ & Ev).
  apply bind_Ok in Ev as ([] & Hval%catch_wire_Ok & [= ->]).
  unfold read_control in Er.
  apply bind_Ok in Er as (y0 & _ & Er).  apply bind_Ok in Er as (y1 & _ & Er).
  apply bind_Ok in Er as (y2 & _ & Er).  apply bind_Ok in Er as (y3 & _ & Er).
  apply bind_Ok in Er as (y4 & _ & Er).  apply bind_Ok in Er as (z & Hz & Er).
  apply bind_Ok in Er as (y6 & _ & Er).  apply bind_Ok in Er as (y7 & _ & Er).
  apply bind_Ok in Er as (y8 & _ & Er).  apply bind_Ok in Er as (y9 & _ & Er).
  apply bind_Ok in Er as (y10 & _ & Er).  apply bind_Ok in Er as (y11 & _ & Er).
  apply bind_Ok in Er as (y12 & _ & Er).  apply bind_Ok in Er as (y13 & _ & Er).

  injection Er as <-. cbn [cb_action]. apply bind_Ok in Hz as (x & Hx & Hz).
  assert (x = VInt z) as -> by (by destruct x; cbn in Hz; simplify_eq).
  pose proof (validated_field "control-body" _ _ 5 _ _ _ Hval ltac:(vm_compute; reflexivity)
    ltac:(vm_compute; reflexivity) Hx) as Hc.
  inversion Hc as [| | | | |cs c w Hin Hc' Hcs| |]; subst.
  repeat (apply elem_of_cons in Hin as [->|Hin]; [inversion Hc'; lia|]).
  by apply not_elem_of_nil in Hin.
Qed.

Lemma follows_action a prev n : follows a prev n → 1 <= cb_action (c_body n) <= 5.
Proof. intros Hf. destruct (fo_entry _ _ _ Hf) as (? & ? & ? & ? & ? & ? & ? & ? & _). by eapply control_action. Qed.

(** ** The outcomes of the operations *)

(** The state after an entry that forks, and after one that extends. *)
Definition forked a (old n : control) : authority :=
  bump (record_event (EControl (c_raw n)) (len (c_raw n)) (set_fork (c_raw old, c_raw n) a)).
Definition extended a n : authority :=
  bump (record_event (EControl (c_raw n)) (len (c_raw n)) (add_node n a)).

Inductive observed a raw_ : authority → result string → Prop :=
| ob_same r : r ≠ Ok "OBSERVED"%string → observed a raw_ a r
| ob_fork n old id :
    known_raw a raw_ = false → blocked a = Ok tt → inspect a raw_ = Ok n →
    a_sequences a !! cb_seq (c_body n) = Some id → a_nodes a !! id = Some old →
    observed a raw_ (forked a old n) (Err (auth "CONTROL_FORK"))
| ob_extend n :
    known_raw a raw_ = false → blocked a = Ok tt → inspect a raw_ = Ok n →
    a_sequences a !! cb_seq (c_body n) = None →
    capacity_ok a (len (c_raw n)) = true →
    has_nodes a = false ∨ a_head a ∈ a_resolved a →
    Z.of_nat (size (a_nodes a)) < a_max_controls a →
    observed a raw_ (extended a n) (Ok "OBSERVED"%string).

(** The weight of a membership's pages. *)
Definition pages_weight (v : membership) : Z := fold_right Z.add 0 (len <$> ms_pages v).

Definition viewed a v : authority := add_view v (record_event (EMembers (ms_pages v)) (pages_weight v) a).

(** The rule on content members that a membership of the head [n] must meet. *)
Definition content_ok a n (v : membership) : result unit :=
  if ((cb_action (c_body n) =? 1) || (cb_action (c_body n) =? 3)) && bool_decide (content_members v = [])
  then Err (auth "NO_CONTENT_RECIPIENT")
  else if cb_action (c_body n) =? 2
  then previous ← membership_at a (cb_parent (c_body n));
       require (bool_decide (content_members v = content_members previous))
         (auth "CONTENT_MEMBERSHIP_CHANGED")
  else Ok tt.

Inductive provided a pages : authority → result string → Prop :=
| pr_same r : r ≠ Ok "VERIFIED"%string → provided a pages a r
| pr_invalid n v e :
    blocked a = Ok tt → a_nodes a !! a_head a = Some n →
    verify_membership (cb_members (c_body n)) pages = Ok v → a_head a ∉ a_resolved a →
    capacity_ok a (pages_weight v) = true → content_ok (viewed a v) n v = Err e →
    e = auth "NO_CONTENT_RECIPIENT" ∨ e = auth "CONTENT_MEMBERSHIP_CHANGED" →
    provided a pages (bump (set_invalid (viewed a v))) (Err e)
| pr_broken n v e :
    blocked a = Ok tt → a_nodes a !! a_head a = Some n →
    verify_membership (cb_members (c_body n)) pages = Ok v → a_head a ∉ a_resolved a →
    cb_action (c_body n) = 2 → membership_at (viewed a v) (cb_parent (c_body n)) = Err e →
    provided a pages (viewed a v) (Err e)
| pr_resolved n v :
    blocked a = Ok tt → a_nodes a !! a_head a = Some n →
    verify_membership (cb_members (c_body n)) pages = Ok v → a_head a ∉ a_resolved a →
    capacity_ok a (pages_weight v) = true → content_ok (viewed a v) n v = Ok tt →
    provided a pages (bump (resolve_head (viewed a v))) (Ok "VERIFIED"%string).

Lemma observe_observed a raw_ : observed a raw_ (observe a raw_).1 (observe a raw_).2.
Proof.
  unfold observe. destruct (known_raw a raw_) eqn:Ek; [by constructor|].
  destruct (blocked a) as [[]|e] eqn:Eb; [|by constructor].
  destruct (inspect a raw_) as [n|e] eqn:Ei; [|by constructor]. cbv zeta.
  destruct (a_sequences a !! cb_seq (c_body n)) as [id|] eqn:Es.
  - destruct (a_nodes a !! id) as [old|] eqn:Eo; [|by constructor]. by eapply ob_fork.
  - destruct (capacity_ok a (len (c_raw n))) eqn:Ec; [|by constructor]. cbn [negb].
    destruct (has_nodes a && negb (bool_decide (a_head a ∈ a_resolved a))) eqn:Er; [by constructor|].
    destruct (Z.leb_spec (a_max_controls a) (Z.of_nat (size (a_nodes a)))); [by constructor|].
    eapply ob_extend; try done. apply andb_false_iff in Er as [?|Er]; [by left|right].
    by apply negb_false_iff, bool_decide_eq_true in Er.
Qed.

Lemma provide_provided a pages :
  provided a pages (provide_membership a pages).1 (provide_membership a pages).2.
Proof.
  unfold provide_membership. destruct (blocked a) as [[]|e] eqn:Eb; [|by constructor].
  destruct (has_nodes a); [cbn [negb]|by constructor].
  destruct (_ ≫= _) as [[n v]|e] eqn:Ev; [|by constructor].
  apply bind_Ok in Ev as (n' & En & Ev). apply bind_Ok in Ev as (v' & Ev & E).
  injection E as -> ->. unfold node_at in En.
  destruct (a_nodes a !! a_head a) as [m|] eqn:Em; [injection En as ->|done].
  destruct (bool_decide_reflect (a_head a ∈ a_resolved a)) as [|Hr]; [by constructor|]. cbv zeta.
  fold (pages_weight v). fold (viewed a v).
  destruct (capacity_ok a (pages_weight v)) eqn:Ec; [cbn [negb]|by constructor].
  destruct (((cb_action (c_body n) =? 1) || (cb_action (c_body n) =? 3))
            && bool_decide (content_members v = [])) eqn:E1.
  { eapply pr_invalid; eauto. unfold content_ok. by rewrite E1. }
  destruct (Z.eqb_spec (cb_action (c_body n)) 2) as [E2|E2].
  - destruct (membership_at (viewed a v) (cb_parent (c_body n))) as [previous|e] eqn:Ep.
    + destruct (bool_decide (content_members v = content_members previous)) eqn:E3; cbn [negb fst snd].
      * eapply pr_resolved; eauto. unfold content_ok. rewrite E1, E2. cbn. rewrite Ep. cbn.
        by rewrite E3.
      * eapply pr_invalid; eauto. unfold content_ok. rewrite E1, E2. cbn. rewrite Ep. cbn.
        by rewrite E3.
    + by eapply pr_broken.
  - eapply pr_resolved; eauto. unfold content_ok. rewrite E1.
    by destruct (Z.eqb_spec (cb_action (c_body n)) 2).
Qed.

(** ** The operations keep the ledger *)

Lemma no_collision_mono a a' :
  (∀ e, e ∈ a_events a → e ∈ a_events a') → a_genesis_body a' = a_genesis_body a →
  no_collision a' → no_collision a.
Proof.
  intros He Eg [Hc Hs Hp]. split.
  - intros r r' h Hr Hr'. by apply Hc; apply He.
  - intros r h Hr. rewrite <-Eg. by apply Hs, He.
  - intros l l' h Hl Hl'. by apply Hp; apply He.
Qed.

Lemma known_raw_false a r id p :
  known_raw a (VBytes r) = false → a_nodes a !! id = Some p → c_raw p ≠ r.
Proof.
  intros E Hp Er. assert (known_raw a (VBytes r) = true) as Ht; [|congruence].
  apply existsb_exists. exists (id, p). split; [by apply list_elem_of_In, elem_of_map_to_list|].
  by apply bool_decide_eq_true.
Qed.

Lemma blocked_Ok a : blocked a = Ok tt → a_fork a = None ∧ a_invalid a = false.
Proof.
  unfold blocked, frozen. case_bool_decide as Hf; [done|]. destruct (a_invalid a); [done|].
  intros _. split; [|done]. by apply eq_None_not_Some.
Qed.

Lemma elem_of_snoc {A} (l : list A) x y : x ∈ l → x ∈ l ++ [y].
Proof. intros Hx. apply elem_of_app. by left. Qed.

(** The control of a position splits the chain there. *)
Lemma split_at a chain l1 l2 old :
  valid_chain a chain → chain = l1 ++ l2 → old ∈ chain →
  cb_seq (c_body old) = Z.of_nat (S (length l2)) → ∃ l1', chain = l1' ++ old :: l2.
Proof.
  intros Hv -> Hold Es. destruct l1 as [|q l1 _] using rev_ind.
  - pose proof (valid_seq _ _ _ Hv Hold). cbn [app] in *. lia.
  - rewrite <-app_assoc in *. cbn [app] in *. exists l1.
    pose proof (valid_app _ _ _ Hv) as Hv'. pose proof (valid_head_seq _ _ _ Hv').
    replace old with q; [done|]. eapply valid_seq_inj; [exact Hv|set_solver|done|lia].
Qed.

Lemma forked_represents a chain raw_ n old id :
  represents a chain → no_collision a → known_raw a raw_ = false → inspect a raw_ = Ok n →
  a_sequences a !! cb_seq (c_body n) = Some id → a_nodes a !! id = Some old →
  represents (forked a old n) chain.
Proof.
  intros Hrep Hnc Hk Hi Hs Ho. pose proof Hrep as [].
  destruct (inspect_continues Hrep Hnc _ _ Hi) as (-> & l1 & l2 & Ec & Eseq & Hcont).
  apply rep_nodes0 in Ho as [Ho <-].
  apply rep_seqs0 in Hs as (q & Hq & Eq & Eid).
  assert (q = old) as ->.
  { assert (a_nodes a !! c_id old = Some q) as E1 by (by apply rep_nodes0).
    assert (a_nodes a !! c_id old = Some old) as E2 by (by apply rep_nodes0). congruence. }
  split; try done.
  - by apply (same_anchored a).
  - by apply (same_valid a).
  - intros p Hp. by apply elem_of_snoc, rep_events0.
  - intros root ms Hms. destruct (rep_members0 root ms Hms). by split; [apply elem_of_snoc|].
  - intros x y Ef. cbn in Ef. injection Ef as <- <-. split.
    { eapply known_raw_false; [exact Hk|]. by apply rep_nodes0. }
    destruct (split_at _ _ _ _ old rep_valid0 Ec Ho) as [l1' Hl1']; [congruence|].
    exists l1', old, l2, n. do 3 (split; [done|]). by apply (same_continues a).
Qed.

Lemma represents_has_nodes a chain : represents a chain → has_nodes a = false → chain = [].
Proof.
  intros Hrep Hn. destruct chain as [|n l]; [done|].
  assert (a_nodes a !! c_id n = Some n) as E by (apply (rep_nodes _ _ Hrep); split; [by left|done]).
  unfold has_nodes in Hn. apply negb_false_iff, bool_decide_eq_true in Hn.
  by rewrite Hn, lookup_empty in E.
Qed.

Lemma extended_represents a chain raw_ n :
  represents a chain → no_collision (extended a n) → known_raw a raw_ = false →
  blocked a = Ok tt → inspect a raw_ = Ok n → a_sequences a !! cb_seq (c_body n) = None →
  has_nodes a = false ∨ a_head a ∈ a_resolved a →
  represents (extended a n) (n :: chain).
Proof.
  intros Hrep Hnc' Hk Hb Hi Hs Hres. pose proof Hrep as [].
  assert (no_collision a) as Hnc by (apply (no_collision_mono a (extended a n)); [intros; by apply elem_of_snoc|done|done]).
  destruct (inspect_continues Hrep Hnc _ _ Hi) as (-> & l1 & l2 & Ec & Eseq & Hcont).
  assert (l1 = []) as ->; [|cbn in Ec; subst l2].
  { destruct l1 as [|q l1 _] using rev_ind; [done|]. exfalso.
    pose proof rep_valid0 as Hv. rewrite Ec, <-app_assoc in Hv. apply valid_app, valid_head_seq in Hv.
    rewrite (proj2 (rep_seqs0 _ (c_id q))) in Hs; [done|]. exists q. split; [set_solver|].
    split; [congruence|done]. }
  assert (∀ p, p ∈ chain → c_id p ≠ c_id n) as Hid.
  { intros p Hp Eid. assert (hashed "control-id" [VBytes (c_raw p)] = Ok (c_id p)) as Ep.
    { apply list_elem_of_split in Hp as (k1 & k2 & ->). apply valid_app in rep_valid0.
      inversion rep_valid0 as [|? ? _ [Hf _]]; subst. apply (fo_id _ _ _ Hf). }
    eapply known_raw_false; [exact Hk|by apply rep_nodes0|].
    eapply (nc_entry _ Hnc'); [by apply elem_of_snoc, rep_events0|apply elem_of_app; right; by left|exact Ep|].
    rewrite Eid. apply (fo_id _ _ _ (proj1 Hcont)). }
  assert (∀ p, p ∈ chain → c_id p ∈ a_resolved a) as Hall.
  { intros p Hp. destruct chain as [|q chain]; [by apply not_elem_of_nil in Hp|].
    destruct Hres as [Hn|Hr]; [by apply (represents_has_nodes _ _ Hrep) in Hn|].
    apply elem_of_cons in Hp as [->|Hp]; [congruence|by apply rep_tail0]. }
  split; try done.
  - by apply (same_anchored a).
  - constructor; [by apply (same_valid a)|by apply (same_continues a)].
  - intros id p. cbn. rewrite lookup_insert_Some, rep_nodes0, elem_of_cons. naive_solver.
  - intros i id. cbn. rewrite lookup_insert_Some, rep_seqs0. split.
    + intros [[<- <-]|[_ (p & ? & ? & ?)]]; [exists n|exists p]; (split; [by constructor|done]).
    + intros (p & [->|Hp]%elem_of_cons & <- & <-); [by left|right]. split; [|by exists p].
      intros E. rewrite E in Hs. by rewrite (rep_position Hrep) in Hs.
  - cbn. by rewrite map_size_insert_None, rep_size0.
  - cbn. rewrite map_size_insert_None, rep_count0; [done|].
    destruct (a_nodes a !! c_id n) as [q|] eqn:E; [|done]. apply rep_nodes0 in E as [Hq E].
    by destruct (Hid _ Hq).
  - intros p [->|Hp]%elem_of_cons; [apply elem_of_app; right; by left|by apply elem_of_snoc, rep_events0].
  - intros root ms Hms. destruct (rep_members0 root ms Hms). by split; [apply elem_of_snoc|].
  - intros id Hi'. destruct (rep_resolved0 id Hi') as (p & Hp & Ep). exists p. split; [by right|done].
  - intros [|q k1] p k2 Ek Hr; injection Ek as <- Ek; [|by eapply rep_content0].
    destruct (rep_resolved0 _ Hr) as (q & Hq & Eq). by destruct (Hid _ Hq).
  - intros x y Ef. apply blocked_Ok in Hb as [Hf _]. cbn in Ef. congruence.
Qed.

Lemma verify_membership_Ok root pages v :
  verify_membership root pages = Ok v →
  ms_root v = root ∧ pages = VList (VBytes <$> ms_pages v) ∧
  membership_root (VBytes <$> ms_pages v) = Ok root.
Proof.
  unfold verify_membership. intros E. apply bind_Ok in E as ([] & _ & E).
  destruct pages as [| | | | |owned| |]; try done. case_if E.
  apply bind_Ok in E as (members & _ & E). apply bind_Ok in E as (r & Er & E).
  apply bind_Ok in E as ([] & Hr%require_Ok & E). apply bind_Ok in E as (raws & Ew & [= <-]).
  apply bool_decide_eq_true in Hr. subst r. cbn [ms_root ms_pages].
  assert (owned = VBytes <$> raws) as ->; [|done].
  apply mapM_Ok_Forall2 in Ew. clear -Ew. induction Ew as [|x b l k Hx _ IH]; [done|].
  rewrite fmap_cons, <-IH. f_equal. destruct x; cbn in Hx; congruence.
Qed.

Lemma verify_membership_inj root l v v' :
  verify_membership root (VList (VBytes <$> l)) = Ok v →
  verify_membership root (VList (VBytes <$> l)) = Ok v' → v = v'.
Proof. congruence. Qed.

Section Viewed.
Context {a : authority} {chain : list control} {n : control} {pages : value} {v : membership}.
Hypothesis (Hrep : represents a chain) (Hnc : no_collision (viewed a v)).
Hypothesis (Hn : a_nodes a !! a_head a = Some n).
Hypothesis (Hv : verify_membership (cb_members (c_body n)) pages = Ok v).

(** A recorded view is never replaced by another one. *)
Lemma viewed_keeps root ms :
  a_memberships a !! root = Some ms → a_memberships (viewed a v) !! root = Some ms.
Proof using Hrep Hnc Hv.
  intros Hms. pose proof (rep_members _ _ Hrep _ _ Hms) as [Hin Hms'].
  pose proof (verify_membership_Ok _ _ _ Hv) as (Er & Ep & Eroot).
  cbn. rewrite lookup_insert_Some. destruct (decide (ms_root v = root)) as [<-|]; [left|by right].
  split; [done|]. pose proof (verify_membership_Ok _ _ _ Hms') as (_ & _ & Eroot').
  assert (ms_pages ms = ms_pages v) as E.
  { eapply (nc_pages _ Hnc); [by apply elem_of_snoc|apply elem_of_app; right; by left|exact Eroot'|].
    by rewrite Er. }
  rewrite E, <-Ep in Hms'. rewrite Er in Hms'. congruence.
Qed.

Lemma viewed_view p ms : view_of a p = Some ms → view_of (viewed a v) p = Some ms.
Proof using Hrep Hnc Hv. apply viewed_keeps. Qed.

Lemma viewed_content_rule l p : content_rule a l p → content_rule (viewed a v) l p.
Proof using Hrep Hnc Hv.
  intros (ms & Hms & Hne & Hsame). exists ms. split; [by apply viewed_view|]. split; [done|].
  intros Ha q Hq. destruct (Hsame Ha q Hq) as (previous & Hp & ?).
  exists previous. split; [by apply viewed_view|done].
Qed.

Lemma viewed_represents : represents (viewed a v) chain.
Proof using All.
  pose proof Hrep as []. split; try done.
  - by apply (same_anchored a).
  - by apply (same_valid a).
  - intros p Hp. by apply elem_of_snoc, rep_events0.
  - intros root ms. cbn. rewrite lookup_insert_Some. intros [[<- <-]|[_ Hms]].
    + pose proof (verify_membership_Ok _ _ _ Hv) as (Er & Ep & _).
      split; [apply elem_of_app; right; by left|]. by rewrite Er, <-Ep.
    + destruct (rep_members0 root ms Hms). by split; [apply elem_of_snoc|].
  - intros l1 p l2 Ec Hp. by apply viewed_content_rule, (rep_content0 l1).
  - by apply (same_fork a).
Qed.

Lemma head_splits : ∃ l, chain = n :: l ∧ continues a l n ∧ valid_chain a l.
Proof using Hrep Hn.
  pose proof (proj1 (rep_nodes _ _ Hrep _ _) Hn) as [Hin Eid].
  pose proof (rep_valid _ _ Hrep) as Hval. pose proof (rep_head _ _ Hrep) as Hh.
  destruct chain as [|q l]; [by apply not_elem_of_nil in Hin|].
  assert (a_nodes a !! c_id q = Some q) as Eq by (apply (rep_nodes _ _ Hrep); split; [by left|done]).
  assert (q = n) as ->.
  { rewrite <-Hh in Eq. assert (a_nodes a !! a_head a = Some n) as En by (by apply (rep_nodes _ _ Hrep)).
    congruence. }
  exists l. inversion Hval; subst. done.
Qed.

(** The parent of a head that is no genesis control has its membership. *)
Lemma parent_membership l p :
  chain = n :: l → hd_error l = Some p →
  ∃ previous, membership_at (viewed a v) (cb_parent (c_body n)) = Ok previous ∧ view_of (viewed a v) p = Some previous.
Proof using All.
  intros Ec Ep. pose proof viewed_represents as Hrep'.
  destruct head_splits as (l' & Ec' & [Hf _] & Hl). rewrite Ec in Ec'. injection Ec' as <-.
  destruct l as [|q l]; [done|]. injection Ep as ->.
  assert (c_id p ∈ a_resolved a) as Hres.
  { apply (rep_tail _ _ Hrep). rewrite Ec. by left. }
  destruct (rep_content _ _ Hrep' [n] p l) as (ms & Hms & _); [by rewrite Ec|done|].
  exists ms. split; [|done].
  assert (len (c_id p) = 32) as Hlen.
  { inversion Hl as [|? ? _ [Hfp _]]; subst. exact (hashed_len _ _ _ (fo_id _ _ _ Hfp)). }
  unfold membership_at, control_at, auth_fixed. rewrite (fo_parent _ _ _ Hf). cbn [hd_error].
  rewrite Hlen. cbn [require Z.eqb Pos.eqb mbind result_bind].
  assert (a_nodes (viewed a v) !! c_id p = Some p) as ->.
  { apply (rep_nodes _ _ Hrep'). split; [rewrite Ec; right; by left|done]. }
  cbn. rewrite bool_decide_eq_true_2 by done. cbn. unfold view_of in Hms. cbn in Hms. by rewrite Hms.
Qed.

Lemma invalid_represents : represents (bump (set_invalid (viewed a v))) chain.
Proof using All.
  destruct viewed_represents. split; try done.
  - by apply (same_anchored (viewed a v)).
  - by apply (same_valid (viewed a v)).
  - by apply (same_fork (viewed a v)).
Qed.

Lemma resolved_represents :
  content_ok (viewed a v) n v = Ok tt → represents (bump (resolve_head (viewed a v))) chain.
Proof using All.
  intros Hok. pose proof viewed_represents as Hrep'.
  destruct head_splits as (l & Ec & Hcont & Hl). pose proof Hrep' as [].
  assert (c_id n = a_head a) as Eid by (rewrite (rep_head _ _ Hrep), Ec; done).
  assert (view_of (viewed a v) n = Some v) as Hvn.
  { unfold view_of. cbn. pose proof (verify_membership_Ok _ _ _ Hv) as (-> & _). by rewrite lookup_insert_eq. }
  split; try done.
  - by apply (same_anchored (viewed a v)).
  - by apply (same_valid (viewed a v)).
  - intros id [Hid%elem_of_singleton|Hid]%elem_of_union; [|by apply rep_resolved0].
    exists n. split; [rewrite Ec; by left|by rewrite Hid].
  - intros p Hp. apply elem_of_union. right. by apply rep_tail0.
  - intros l1 p l2 Ep [Hid%elem_of_singleton|Hid]%elem_of_union; [|by apply (rep_content0 l1)].
    assert (p = n) as ->.
    { assert (a_nodes a !! c_id p = Some p) as E by (apply (rep_nodes _ _ Hrep); split; [rewrite Ep; apply elem_of_app; right; by left|done]).
      cbn in Hid. rewrite Hid in E. congruence. }
    assert (l2 = l) as ->.
    { rewrite Ep in rep_valid0. apply valid_app, valid_head_seq in rep_valid0.
      pose proof (rep_valid _ _ Hrep) as Hval. rewrite Ec in Hval. apply valid_head_seq in Hval.
      rewrite Ec in Ep. destruct l1; [by injection Ep|]. injection Ep as _ ->.
      rewrite length_app in Hval. cbn [length] in *. lia. }
    exists v. split; [done|]. unfold content_ok in Hok. case_if Hok. split.
    + intros Ha Hc. rewrite (bool_decide_eq_true_2 _ Hc), andb_true_r in E.
      destruct Ha as [Ha|Ha]; rewrite Ha in E; done.
    + intros Ha p Hp. rewrite Ha in Hok. cbn [Z.eqb Pos.eqb] in Hok.
      apply bind_Ok in Hok as (previous & Em & Eq%require_Ok%bool_decide_eq_true).
      destruct (parent_membership l p Ec Hp) as (previous' & Em' & Hview).
      exists previous. split; [|done]. change (view_of (viewed a v) p = Some previous). congruence.
  - by apply (same_fork (viewed a v)).
Qed.
End Viewed.
End Ledger.
