(* ===== verification/AuthorityRun.v ===== *)
(** * Runs of the authority state

    [astep] is one call of a method that may change the object, with any arguments;
    the reachable states are those of [rtc astep] from a fresh object.  The ledger
    invariant holds in all of them, and the devices that can read the content of an
    epoch stay the same for the whole epoch. *)

From S2P Require Import Prelude Bytes Value Codec Flat CddlText Schema SchemaSpec Hash Sodium Toy Primitives Objects ObjectsSpec Membership Authority Activation Enrolment Sample AuthoritySpec.
From stdpp Require Import relations.
Local Open Scope Z_scope.

#[local] Opaque encode decode decode_with validate crypt domain verify hashed auth_parse.

Section Runs.
Context `{Hash} `{Sodium}.
Implicit Types (a b : authority) (n p : control) (chain : list control).

Inductive astep a : authority → Prop :=
| st_observe raw_ : astep a (observe a raw_).1
| st_provide pages : astep a (provide_membership a pages).1
| st_activate certificate secret package ids manifest_ seeds :
    astep a (activate a certificate secret package ids manifest_ seeds).1.

(** ** Activation only touches the keys *)

Inductive activated a : authority → result Z → Prop :=
| ac_same e : activated a a (Err e)
| ac_active m check z : blocked a = Ok tt → activated a (bump (set_active m check a)) (Ok z).

Lemma activate_activated a c s pk ids m seeds :
  activated a (activate a c s pk ids m seeds).1 (activate a c s pk ids m seeds).2.
Proof.
  unfold activate. destruct (_ ≫= _) as [[mat check]|e] eqn:E; [|by constructor].
  apply bind_Ok in E as ([] & Hb & _).
  repeat case_match; by constructor.
Qed.

Lemma active_represents a chain m check :
  represents a chain → represents (bump (set_active m check a)) chain.
Proof.
  intros []. split; try done.
  - by apply (same_anchored a).
  - by apply (same_valid a).
  - by apply (same_fork a).
Qed.

(** ** The ledger invariant *)

(** What a run keeps besides the chain: the bounds on the history. *)
Record ledger a chain : Prop := {
  le_rep : represents a chain;
  le_controls : Z.of_nat (length chain) <= a_max_controls a <= 1024;
  le_count : length (a_events a) =
    (length chain + size (a_resolved a) + (if a_fork a then 1 else 0)
     + (if a_invalid a then 1 else 0))%nat;
  le_invalid : a_invalid a = true → a_fork a = None ∧ a_head a ∉ a_resolved a ∧ chain ≠ [];
}.

Lemma events_grow a a' : astep a a' → ∃ es, a_events a' = a_events a ++ es.
Proof.
  intros Hs. destruct Hs.
  - destruct (observe_observed a raw_); [exists []; by rewrite app_nil_r|by eexists|by eexists].
  - destruct (provide_provided a pages); [exists []; by rewrite app_nil_r|by eexists|by eexists|by eexists].
  - destruct (activate_activated a certificate secret package ids manifest_ seeds); exists []; by rewrite app_nil_r.
Qed.

Lemma step_same a a' : astep a a' → same_space a a' ∧ a_max_controls a' = a_max_controls a.
Proof.
  intros Hs. destruct Hs.
  - by destruct (observe_observed a raw_).
  - by destruct (provide_provided a pages).
  - by destruct (activate_activated a certificate secret package ids manifest_ seeds).
Qed.

Lemma run_same a a' : rtc astep a a' → same_space a a'.
Proof.
  induction 1 as [a|a b c Hs _ IH]; [done|]. destruct (step_same _ _ Hs) as [(E1 & E2 & E3 & E4 & E5) _].
  destruct IH as (F1 & F2 & F3 & F4 & F5). by split_and!; etrans.
Qed.

Lemma step_collision a a' : astep a a' → no_collision a' → no_collision a.
Proof.
  intros Hs. destruct (events_grow _ _ Hs) as [es He]. destruct (step_same _ _ Hs) as [(_ & _ & _ & _ & Eg) _].
  apply no_collision_mono; [|done]. intros e Hin. rewrite He. apply elem_of_app. by left.
Qed.

(** The resolved controls are controls of the chain, and only the head may be missing. *)
Lemma resolved_size a chain :
  represents a chain →
  (size (a_resolved a) <= length chain)%nat ∧
  (chain ≠ [] → a_head a ∉ a_resolved a → (S (size (a_resolved a)) <= length chain)%nat).
Proof.
  intros Hrep. assert (∀ l : list control,
    a_resolved a ⊆ list_to_set (c_id <$> l) → (size (a_resolved a) <= length l)%nat) as Hsub.
  { intros l Hl. etrans; [by apply subseteq_size|]. clear.
    induction l as [|q l IH]; cbn; [by rewrite size_empty|].
    rewrite size_union_alt, size_singleton. etrans; [|apply le_n_S, IH].
    apply le_n_S, subseteq_size. set_solver. }
  split.
  - apply Hsub. intros id Hid. destruct (rep_resolved _ _ Hrep _ Hid) as (n & Hn & <-).
    apply elem_of_list_to_set, list_elem_of_fmap. by exists n.
  - intros Hne Hh. destruct chain as [|n l]; [done|]. cbn [length]. apply le_n_S, Hsub.
    intros id Hid. destruct (rep_resolved _ _ Hrep _ Hid) as (q & Hq & <-).
    apply elem_of_list_to_set, list_elem_of_fmap. exists q. split; [done|].
    apply elem_of_cons in Hq as [->|Hq]; [|done]. by rewrite (rep_head _ _ Hrep) in Hh.
Qed.

Lemma ledger_observe a chain raw_ :
  ledger a chain → no_collision (observe a raw_).1 →
  ∃ chain', ledger (observe a raw_).1 chain' ∧ chain `suffix_of` chain'.
Proof.
  intros [Hrep Hc Hn Hi] Hnc.
  destruct (observe_observed a raw_) as [r Hr|n old id Hk Hb Hins Hs Ho|n Hk Hb Hins Hs Hcap Hres Hmax].
  - by exists chain.
  - exists chain. split; [|done]. apply blocked_Ok in Hb as [Hf Hinv].
    assert (no_collision a) as Hnc0.
    { apply (no_collision_mono a (forked a old n)); [intros; by apply elem_of_snoc|done|done]. }
    split; [by eapply forked_represents|done| |].
    + cbn. rewrite length_app, Hn, Hf, Hinv. cbn. lia.
    + cbn. by rewrite Hinv.
  - exists (n :: chain). split; [|by exists [n]]. pose proof Hb as [Hf Hinv]%blocked_Ok.
    split; [by eapply extended_represents| | |].
    + cbn. rewrite (rep_count _ _ Hrep) in Hmax. lia.
    + cbn. rewrite length_app, Hn, Hf, Hinv. cbn. lia.
    + cbn. by rewrite Hinv.
Qed.

Lemma ledger_provide a chain pages :
  ledger a chain → no_collision (provide_membership a pages).1 →
  ledger (provide_membership a pages).1 chain.
Proof.
  intros [Hrep Hc Hn Hi] Hnc.
  destruct (provide_provided a pages)
    as [r Hr|n v e Hb Hhd Hv Hres Hcap Hok He|n v e Hb Hhd Hv Hres Ha Hm|n v Hb Hhd Hv Hres Hcap Hok];
    [done|pose proof Hb as [Hf Hinv]%blocked_Ok..].
  - assert (no_collision (viewed a v)) as Hnc' by (by apply (no_collision_mono _ (bump (set_invalid (viewed a v))))).
    split; [by apply (invalid_represents Hrep Hnc' Hhd Hv)|done| |].
    + cbn. rewrite length_app, Hn, Hf, Hinv. cbn. lia.
    + cbn. intros _. split; [done|]. split; [done|].
      destruct (head_splits Hrep Hhd) as (l & -> & _). done.
  - exfalso. assert (no_collision (viewed a v)) as Hnc' by done.
    destruct (head_splits Hrep Hhd) as (l & Ec & [Hfo _] & _).
    destruct l as [|q l]; [pose proof (fo_first _ _ _ Hfo eq_refl); lia|].
    destruct (parent_membership Hrep Hnc' Hhd Hv _ q Ec eq_refl) as (ms & E & _). congruence.
  - assert (no_collision (viewed a v)) as Hnc' by (by apply (no_collision_mono _ (bump (resolve_head (viewed a v))))).
    split; [by apply (resolved_represents Hrep Hnc' Hhd Hv)|done| |].
    + cbn. rewrite length_app, Hn, Hf, Hinv. cbn.
      rewrite (size_union {[a_head a]}) by set_solver. rewrite size_singleton. lia.
    + cbn. by rewrite Hinv.
Qed.

Lemma ledger_step a a' chain :
  ledger a chain → astep a a' → no_collision a' → ∃ chain', ledger a' chain' ∧ chain `suffix_of` chain'.
Proof.
  intros Hl Hs Hnc. destruct Hs.
  - by eapply ledger_observe.
  - exists chain. split; [by apply ledger_provide|done].
  - exists chain. split; [|done]. destruct (activate_activated a certificate secret package ids manifest_ seeds); [done|].
    destruct Hl. split; try done. by apply active_represents.
Qed.

Lemma ledger_fresh owner app space genesis max random a :
  new_authority owner app space genesis max random = Ok a → ledger a [].
Proof.
  unfold new_authority. intros E.
  apply bind_Ok in E as (app' & Eapp & E). apply bind_Ok in E as ([] & _ & E).
  apply bind_Ok in E as ([] & Hmax%require_Ok & E). apply bind_Ok in E as (o & Eo & E).
  apply bind_Ok in E as (body & Ebody & E). apply bind_Ok in E as (b & Eb & E).
  apply bind_Ok in E as (gb & Egb & E). apply bind_Ok in E as (sid & Esid & E).
  apply bind_Ok in E as (signer & Esg & E). apply bind_Ok in E as ([] & Hok%require_Ok & E).
  apply bind_Ok in E as (sig & Esig & E). apply bind_Ok in E as (m & Em & E).
  apply bind_Ok in E as ([] & Ev%crypto_call_Ok & E). apply bind_Ok in E as (key & _ & [= <-]).
  zb. rewrite !bool_decide_eq_true in *. subst.
  split; [|cbn; lia|done|done].
  split; try done; cbn.
  - split; [|done..]. by exists o, b, sig, m.
  - constructor.
  - intros id n. rewrite lookup_empty. split; [done|]. by intros [?%not_elem_of_nil _].
  - intros i id. rewrite lookup_empty. split; [done|]. by intros (n & ?%not_elem_of_nil & _).
  - by intros n ?%not_elem_of_nil.
  - by intros n ?%not_elem_of_nil.
Qed.

Lemma ledger_run a a' chain :
  ledger a chain → rtc astep a a' → no_collision a' → ∃ chain', ledger a' chain' ∧ chain `suffix_of` chain'.
Proof.
  intros Hl Hr. revert chain Hl. induction Hr as [a|a b c Hs Hr IH]; intros chain Hl Hnc; [by exists chain|].
  assert (no_collision b) as Hncb.
  { clear -Hr Hnc. induction Hr as [|b c d Hs _ IH]; [done|]. by eapply step_collision, IH. }
  destruct (ledger_step _ _ _ Hl Hs Hncb) as (chain1 & Hl1 & H1).
  destruct (IH chain1 Hl1 Hnc) as (chain2 & Hl2 & H2). exists chain2. split; [done|by etransitivity].
Qed.

(** C13. Every state the methods reach from a fresh object represents a chain of controls
    signed in turn by the authority keys the chain itself names, from the genesis on, with
    consecutive positions, epochs and fresh epoch material; it records no more controls
    than its limit, and a fork is two distinct valid continuations of one prefix. *)
Theorem authority_ledger owner app space genesis max random a0 a :
  new_authority owner app space genesis max random = Ok a0 → rtc astep a0 a → no_collision a →
  ∃ chain, represents a chain ∧ sequence a = Z.of_nat (length chain) ∧ sequence a <= a_max_controls a <= 1024.
Proof.
  intros E Hr Hnc. destruct (ledger_run _ _ _ (ledger_fresh _ _ _ _ _ _ _ E) Hr Hnc) as (chain & [] & _).
  exists chain. split; [done|]. unfold sequence. rewrite (rep_size _ _ le_rep0). lia.
Qed.

(** ** The readers of an epoch *)

(** Every control of the chain that is resolved has its content rule. *)
Definition resolved_chain a chain : Prop :=
  ∀ l1 n l2, chain = l1 ++ n :: l2 → content_rule a l2 n.

Lemma resolved_chain_tail a n chain : resolved_chain a (n :: chain) → resolved_chain a chain.
Proof. intros Hr l1 p l2 ->. by apply (Hr (n :: l1)). Qed.

(** The content members of the newest control are those of all controls of its epoch. *)
Lemma epoch_members a n chain ms :
  valid_chain a (n :: chain) → resolved_chain a (n :: chain) → view_of a n = Some ms →
  content_members ms ≠ [] ∧
  ∀ p, p ∈ chain → cb_epoch (c_body p) <= cb_epoch (c_body n) ∧
    (cb_epoch (c_body p) = cb_epoch (c_body n) →
     ∃ ms', view_of a p = Some ms' ∧ content_members ms' = content_members ms).
Proof.
  revert n ms. induction chain as [|q l IH]; intros n ms Hv Hr Hms;
    inversion Hv as [|? ? Hv' [Hf _]]; subst;
    destruct (Hr [] n _ eq_refl) as (ms0 & Hms0 & Hne & Hsame);
    (assert (ms0 = ms) as -> by congruence); clear Hms0.
  - destruct (fo_first _ _ _ Hf eq_refl) as (Ha & _). split; [by apply Hne; left|].
    by intros p ?%not_elem_of_nil.
  - destruct (resolved_chain_tail _ _ _ Hr [] q l eq_refl) as (msq & Hmsq & _).
    destruct (IH q msq Hv' (resolved_chain_tail _ _ _ Hr) Hmsq) as [Hneq Hall].
    destruct (fo_next _ _ _ Hf q eq_refl) as [Ha1 Hep].
    destruct (decide (cb_action (c_body n) = 3)) as [Ha3|Ha3].
    + rewrite Ha3 in Hep. cbn in Hep. split; [by apply Hne; right|].
      intros p [->|Hp]%elem_of_cons; [split; lia|]. destruct (Hall p Hp). split; lia.
    + destruct (Z.eqb_spec (cb_action (c_body n)) 3) as [|_]; [done|].
      assert (content_members ms = content_members msq) as Eq.
      { destruct (decide (cb_action (c_body n) = 2)) as [Ha2|Ha2].
        - destruct (Hsame Ha2 q eq_refl) as (m' & Hm' & ?). by simplify_eq.
        - destruct (fo_kept _ _ _ Hf q eq_refl Ha3) as (_ & _ & _ & _ & Hk).
          pose proof (follows_action _ _ _ Hf). destruct Hk as [Hk _]; [lia|].
          unfold view_of in Hms, Hmsq. rewrite Hk in Hms. congruence. }
      rewrite Eq. split; [done|]. rewrite Hep, Z.add_0_r.
      intros p [->|Hp]%elem_of_cons; [split; [lia|by exists msq]|]. apply Hall, Hp.
Qed.

(** A control with its membership, as the methods look them up. *)
Lemma membership_at_Ok a chain id ms :
  represents a chain → membership_at a id = Ok ms →
  ∃ l1 n l2, chain = l1 ++ n :: l2 ∧ control_at a id = Ok n ∧ view_of a n = Some ms ∧ c_id n ∈ a_resolved a.
Proof.
  intros Hrep E. unfold membership_at in E. apply bind_Ok in E as (n & En & E).
  pose proof En as En'. unfold control_at in En'. apply bind_Ok in En' as (? & _ & En').
  destruct (a_nodes a !! id) as [m|] eqn:Em; [injection En' as ->|done].
  apply (rep_nodes _ _ Hrep) in Em as [Hin <-]. apply list_elem_of_split in Hin as (l1 & l2 & ->).
  exists l1, n, l2. case_bool_decide; [|done]. cbn [negb] in E.
  do 2 (split; [done|]). unfold view_of. destruct (a_memberships a !! _); cbn in E; by simplify_eq.
Qed.

(** Below a resolved control the whole chain is resolved. *)
Lemma resolved_suffix a l1 n l2 :
  represents a (l1 ++ n :: l2) → c_id n ∈ a_resolved a → resolved_chain a (n :: l2).
Proof.
  intros Hrep Hn k1 p k2 E. apply (rep_content _ _ Hrep (l1 ++ k1)).
  - by rewrite E, <-app_assoc.
  - destruct k1 as [|q k1]; [by injection E as <- _|]. injection E as <- ->.
    apply (rep_tail _ _ Hrep).
    destruct l1; cbn; [|apply elem_of_app; right; apply elem_of_cons; right];
      (apply elem_of_app; right; by left).
Qed.

Lemma epoch_members_split a l1 n l2 p ms ms' :
  represents a (l1 ++ n :: l2) → c_id n ∈ a_resolved a → view_of a n = Some ms →
  p ∈ n :: l2 → view_of a p = Some ms' → cb_epoch (c_body p) = cb_epoch (c_body n) →
  content_members ms' = content_members ms ∧ content_members ms ≠ [].
Proof.
  intros Hrep Hn Hms Hp Hms' He.
  pose proof (valid_app _ _ _ (rep_valid _ _ Hrep)) as Hv.
  destruct (epoch_members _ _ _ _ Hv (resolved_suffix _ _ _ _ Hrep Hn) Hms) as [Hne Hall].
  split; [|done]. apply elem_of_cons in Hp as [->|Hp]; [congruence|].
  destruct (proj2 (Hall p Hp) He) as (m & Hm & ?). congruence.
Qed.

(** C15. The devices that can read content do not change within an epoch: any two controls
    of one epoch whose memberships were provided have the same content members, in the
    same order, and there is at least one.  Only a new epoch, with fresh key material,
    can admit or remove a reader. *)
Theorem epoch_readers_fixed owner app space genesis max random a0 a h1 h2 n1 n2 ms1 ms2 :
  new_authority owner app space genesis max random = Ok a0 → rtc astep a0 a → no_collision a →
  control_at a h1 = Ok n1 → control_at a h2 = Ok n2 →
  membership_at a h1 = Ok ms1 → membership_at a h2 = Ok ms2 →
  cb_epoch (c_body n1) = cb_epoch (c_body n2) →
  content_members ms1 = content_members ms2 ∧ content_members ms1 ≠ [].
Proof.
  intros E Hr Hnc E1 E2 M1 M2 He.
  destruct (ledger_run _ _ _ (ledger_fresh _ _ _ _ _ _ _ E) Hr Hnc) as (chain & [Hrep _ _ _] & _).
  destruct (membership_at_Ok _ _ _ _ Hrep M1) as (l1 & m1 & l2 & Ec1 & Ec & V1 & R1).
  rewrite E1 in Ec. injection Ec as <-.
  destruct (membership_at_Ok _ _ _ _ Hrep M2) as (k1 & m2 & k2 & Ec2 & Ec & V2 & R2).
  rewrite E2 in Ec. injection Ec as <-.
  assert (n2 ∈ n1 :: l2 ∨ n1 ∈ n2 :: k2) as [Hin|Hin].
  { rewrite Ec1 in Ec2. clear -Ec2. revert k1 Ec2. induction l1 as [|q l1 IH]; intros [|q' k1] Ec2.
    - injection Ec2 as -> ->. left. by left.
    - injection Ec2 as -> ->. left. apply elem_of_cons. right. apply elem_of_app. right. by left.
    - injection Ec2 as -> <-. right. apply elem_of_cons. right. apply elem_of_app. right. by left.
    - injection Ec2 as _ Ec2. by apply (IH k1). }
  - rewrite Ec1 in Hrep. destruct (epoch_members_split _ _ _ _ _ _ _ Hrep R1 V1 Hin V2); [done|by split].
  - rewrite Ec2 in Hrep. destruct (epoch_members_split _ _ _ _ _ _ _ Hrep R2 V2 Hin V1); [done|].
    split; congruence.
Qed.
End Runs.

(** ** A run of two controls *)

(** A checkpoint after the first control, with the same material and members. *)
Definition sample_checkpoint : bytes :=
  ok_or [] (control_entry authority_seed (control_body 2 1 5 10 (a_head sample_resolved))).
Definition sample_extended : authority := (observe sample_resolved (VBytes sample_checkpoint)).1.
Definition sample_ledger : authority :=
  (provide_membership sample_extended (VList (VBytes <$> sample_pages))).1.

Lemma sample_ledger_run : rtc astep sample_fresh sample_ledger.
Proof.
  apply rtc_l with sample_observed; [apply st_observe|].
  apply rtc_l with sample_resolved; [apply st_provide|].
  apply rtc_l with sample_extended; [apply st_observe|]. apply rtc_once, st_provide.
Qed.

Lemma sample_ledger_outcomes :
  (observe sample_resolved (VBytes sample_checkpoint)).2 = Ok "OBSERVED"%string ∧
  (provide_membership sample_extended (VList (VBytes <$> sample_pages))).2 = Ok "VERIFIED"%string.
Proof. vm_compute. done. Qed.

Lemma sample_ledger_events :
  a_events sample_ledger =
    [EControl sample_control; EMembers sample_pages; EControl sample_checkpoint; EMembers sample_pages].
Proof. vm_compute. reflexivity. Qed.

Lemma sample_ids :
  hashed "control-id" [VBytes sample_control] ≠ hashed "control-id" [VBytes sample_checkpoint] ∧
  hashed "space-id" [VBytes (a_genesis_body sample_ledger)] ≠ hashed "control-id" [VBytes sample_control] ∧
  hashed "space-id" [VBytes (a_genesis_body sample_ledger)] ≠ hashed "control-id" [VBytes sample_checkpoint].
Proof.
  split_and!; apply (bool_decide_eq_false_1 _); vm_compute; reflexivity.
Qed.

(** What a history of two controls with one membership records. *)
Lemma two_controls c k l r :
  EControl r ∈ [EControl c; EMembers l; EControl k; EMembers l] → r = c ∨ r = k.
Proof. rewrite !elem_of_cons, elem_of_nil. naive_solver. Qed.
Lemma one_membership c k l l' :
  EMembers l' ∈ [EControl c; EMembers l; EControl k; EMembers l] → l' = l.
Proof. rewrite !elem_of_cons, elem_of_nil. naive_solver. Qed.

Lemma sample_ledger_collision : no_collision sample_ledger.
Proof.
  destruct sample_ids as (N1 & N2 & N3).
  split; rewrite sample_ledger_events.
  - intros r r' h [->| ->]%two_controls [->| ->]%two_controls E1 E2; congruence.
  - intros r h [->| ->]%two_controls E1 E2; congruence.
  - by intros l l' h ->%one_membership ->%one_membership _ _.
Qed.

Lemma sample_new :
  new_authority 0 (VStr sample_app) sample_space sample_genesis 8 sample_random = Ok sample_fresh.
Proof. vm_compute. reflexivity. Qed.

Lemma authority_ledger_witness :
  ∃ chain, represents sample_ledger chain ∧ sequence sample_ledger = Z.of_nat (length chain) ∧
    sequence sample_ledger <= a_max_controls sample_ledger <= 1024.
Proof.
  exact (authority_ledger 0 (VStr sample_app) sample_space sample_genesis 8 sample_random sample_fresh
    sample_ledger sample_new sample_ledger_run sample_ledger_collision).
Defined.

Lemma epoch_readers_fixed_witness :
  let m := Membership sample_root sample_pages
    [Member sample_device (ok_or [] (certificate_id sample_certificate)) 2] in
  content_members m = content_members m ∧ content_members m ≠ [].
Proof.
  intros m.
  assert (membership_at sample_ledger (a_head sample_resolved) = Ok m) as M1 by (vm_compute; reflexivity).
  assert (membership_at sample_ledger (a_head sample_ledger) = Ok m) as M2 by (vm_compute; reflexivity).
  destruct (control_at sample_ledger (a_head sample_resolved)) as [n1|] eqn:E1; [|vm_compute in E1; discriminate].
  destruct (control_at sample_ledger (a_head sample_ledger)) as [n2|] eqn:E2; [|vm_compute in E2; discriminate].
  assert (cb_epoch (c_body n1) = cb_epoch (c_body n2)) as He.
  { assert (cb_epoch ∘ c_body <$> control_at sample_ledger (a_head sample_resolved)
            = cb_epoch ∘ c_body <$> control_at sample_ledger (a_head sample_ledger)) as H
      by (vm_compute; reflexivity).
    rewrite E1, E2 in H. by injection H. }
  exact (epoch_readers_fixed 0 (VStr sample_app) sample_space sample_genesis 8 sample_random sample_fresh
    sample_ledger _ _ n1 n2 m m sample_new sample_ledger_run sample_ledger_collision E1 E2 M1 M2 He).
Defined.
