(* ===== verification/PermitSpec.v ===== *)
(** * Permits: what they are issued for, and when they stop being valid *)

From S2P Require Import Prelude Bytes Value Codec Flat CddlText Schema SchemaSpec Hash Sodium Toy Primitives Objects ObjectsSpec Membership Authority Activation Enrolment Sample AuthoritySpec AuthorityRun.
From stdpp Require Import relations.
Local Open Scope Z_scope.

#[local] Opaque encode decode decode_with validate crypt domain verify hashed auth_parse hmac.

Section Permits.
Context `{Hash} `{Sodium}.
Implicit Types (a : authority) (p : permit).

(** ** Stamps only move forward *)

Lemma step_stamp a a' :
  astep a a' → a_stamp a <= a_stamp a' ∧ (a_head a ∈ a_resolved a → a' = a ∨ a_stamp a < a_stamp a').
Proof.
  intros Hs. destruct Hs.
  - destruct (observe_observed a raw_) as [r Hr|n old id|n]; cbn; [split; [lia|by left]|..];
      (split; [lia|right; lia]).
  - destruct (provide_provided a pages); cbn; [split; [lia|by left]|..]; (split; [lia|]); intros ?; [right; lia|done|right; lia].
  - destruct (activate_activated a certificate secret package ids manifest_ seeds); cbn; [split; [lia|by left]|].
    split; [lia|right; lia].
Qed.

Lemma run_stamp_le a a' : rtc astep a a' → a_stamp a <= a_stamp a'.
Proof. induction 1 as [|a b c Hs _ IH]; [lia|]. apply step_stamp in Hs as [? _]. lia. Qed.

(** Once the head is resolved every change of the state renews the stamp. *)
Lemma run_stamp a a' :
  a_head a ∈ a_resolved a → rtc astep a a' → a' = a ∨ a_stamp a < a_stamp a'.
Proof.
  intros Hres Hr. induction Hr as [a|a b c Hs Hr IH]; [by left|].
  destruct (proj2 (step_stamp _ _ Hs) Hres) as [->|Hlt]; [by apply IH|right].
  apply run_stamp_le in Hr. lia.
Qed.

(** ** What an authorisation has checked *)

Lemma current_resolved a view : current_membership a = Ok view → a_head a ∈ a_resolved a.
Proof. unfold current_membership. by case_bool_decide. Qed.

Lemma find_member_Some device l m : find_member device l = Some m → m ∈ l ∧ m_device m = device.
Proof.
  unfold find_member. intros [Hin E]%find_some. split; [by apply list_elem_of_In|].
  by apply bool_decide_eq_true in E.
Qed.

Lemma auth_parse_decode rule r limit v : auth_parse rule (VBytes r) limit = Ok v → decode_with limit MAX_NODES r = Ok v.
Proof.
  with_strategy transparent [auth_parse] unfold auth_parse. intros E.
  apply bind_Ok in E as (b & Hb & E). apply bind_Ok in E as (w & Hw%catch_wire_Ok & E).
  apply bind_Ok in E as ([] & _ & [= ->]). unfold blob in Hb.
  by apply bind_Ok in Hb as ([] & _ & [= ->]).
Qed.

(** Both layers parse a certificate to the same body. *)
Lemma certificate_body_unique app c account body outer inner cb :
  verify_certificate app account c = Ok body →
  auth_parse "signed-object" (VBytes c) 66000 = Ok outer → getitem outer 0 = Ok inner →
  auth_parse "certificate-body" inner 66000 = Ok cb → body = cb.
Proof.
  intros Ev Eo Ei Eb. unfold verify_certificate in Ev.
  apply bind_Ok in Ev as (app' & _ & Ev). apply bind_Ok in Ev as (body' & Es & Ev).
  apply bind_Ok in Ev as (v1 & _ & Ev). apply bind_Ok in Ev as (v2 & _ & Ev).
  apply bind_Ok in Ev as (v3 & _ & Ev). apply bind_Ok in Ev as (v4 & _ & Ev).
  apply bind_Ok in Ev as ([] & _ & Ev). apply bind_Ok in Ev as ([] & _ & [= ->]).
  unfold verify_signed in Es. apply bind_Ok in Es as ([] & _ & Es).
  apply bind_Ok in Es as (o & (_ & Ho & _)%parse_Ok & Es).
  apply bind_Ok in Es as (signer & _ & Es). apply bind_Ok in Es as ([] & _ & Es).
  apply bind_Ok in Es as (raw_body & (x & Hx & Hraw)%bind_Ok & Es).
  apply bind_Ok in Es as (sig & _ & Es). apply bind_Ok in Es as (m & _ & Es).
  apply bind_Ok in Es as ([] & _ & (_ & Hbody & _)%parse_Ok).
  apply auth_parse_decode in Eo.
  destruct (decoded_limit _ _ _ Eo) as (_ & Eo' & _). rewrite Ho in Eo'. injection Eo' as ->.
  rewrite Ei in Hx. injection Hx as ->. destruct x; try discriminate Hraw. injection Hraw as ->.
  apply auth_parse_decode in Eb. destruct (decoded_limit _ _ _ Eb) as (_ & Eb' & _). congruence.
Qed.

(** The certificate is the one the membership commits to for the device, and verifies. *)
Lemma member_certificate_Ok app view c body :
  member_certificate app view c = Ok body →
  ∃ pk did m account, getitem body 3 = Ok pk ∧ device_id app pk = Ok did ∧ ms_get view did = Some m ∧
    certificate_id c = Ok (m_certificate m) ∧ verify_certificate (VStr app) account c = Ok body.
Proof.
  unfold member_certificate. intros E.
  apply bind_Ok in E as (v & _ & E). apply bind_Ok in E as (outer & Ho & E).
  apply bind_Ok in E as (inner & Hi & E). apply bind_Ok in E as (cb & Hcb & E).
  apply bind_Ok in E as (b1 & _ & E). apply bind_Ok in E as ([] & _ & E).
  apply bind_Ok in E as (pk & Hpk & E). apply bind_Ok in E as (did & Hd & E).
  destruct (ms_get view did) as [m|] eqn:Em; [|done].
  apply bind_Ok in E as (cid & Hc & E). apply bind_Ok in E as ([] & Eq%require_Ok%bool_decide_eq_true & E).
  apply bind_Ok in E as (account & _ & E%crypto_call_Ok). subst cid.
  pose proof (certificate_body_unique _ _ _ _ _ _ _ E Ho Hi Hcb) as ->. exists pk, did, m, account. done.
Qed.

(** C16. A permit is issued only for a member of the head's membership whose role allows the
    operation and whose certificate, signed by its account, is the one the authority
    committed to; except for [retain] the current epoch must be active.  The permit
    validates right away, and in every later state it validates or the state has not
    changed: a single recorded event or activation revokes it. *)
Theorem permit_current a certificate operation p :
  authorize a certificate operation = Ok p →
  (∃ roles view m account body pk, operation_roles operation = Some roles ∧
     current_membership a = Ok view ∧ m ∈ ms_members view ∧ m_device m = pm_device p ∧
     m_role m = pm_role p ∧ pm_role p ∈ roles ∧ certificate_id certificate = Ok (m_certificate m) ∧
     verify_certificate (VStr (a_app a)) account certificate = Ok body ∧
     getitem body 3 = Ok pk ∧ device_id (a_app a) pk = Ok (pm_device p)) ∧
  (operation ≠ "retain"%string → epoch_active a = Ok true) ∧
  validate_permit a p = Ok tt ∧
  ∀ a', rtc astep a a' → a' = a ∨ ∃ e, validate_permit a' p = Err e.
Proof.
  unfold authorize. intros E.
  apply bind_Ok in E as ([] & Hb & E). apply bind_Ok in E as (roles & Hroles & E).
  apply bind_Ok in E as (view & Hview & E). apply bind_Ok in E as (body & Hbody & E).
  apply bind_Ok in E as (pk & Hpk & E). apply bind_Ok in E as (did & Hdid & E).
  apply bind_Ok in E as (m & Hm & E). apply bind_Ok in E as ([] & Hrole%require_Ok & E).
  apply bind_Ok in E as (ok & Hok & E). apply bind_Ok in E as ([] & Hact%require_Ok & E).
  apply bind_Ok in E as (ep & Hep & E). apply bind_Ok in E as (seal & Hseal & [= <-]).
  cbn [pm_device pm_role]. split_and!.
  - destruct (operation_roles operation) as [rs|]; [injection Hroles as ->|done].
    destruct (ms_get view did) as [m'|] eqn:Em; [injection Hm as ->|done].
    destruct (member_certificate_Ok _ _ _ _ Hbody) as (pk' & did' & m' & account & Hpk' & Hd' & Em' & Hc & Hv).
    rewrite Hpk in Hpk'. injection Hpk' as <-. rewrite Hdid in Hd'. injection Hd' as <-.
    rewrite Em in Em'. injection Em' as <-.
    apply find_member_Some in Em as [Hin Hdev].
    apply existsb_exists in Hrole as (r & Hr & Er%Z.eqb_eq). subst r. apply list_elem_of_In in Hr.
    by exists roles, view, m, account, body, pk.
  - intros Hne. destruct (String.eqb_spec operation "retain"); [done|]. by subst ok.
  - unfold validate_permit. run Hb. run Hep. cbn [pm_owner pm_stamp pm_head pm_epoch pm_revision
      pm_device pm_role pm_operation pm_seal].
    rewrite !bool_decide_eq_true_2, !Z.eqb_refl by done. cbn [andb require mbind result_bind].
    rewrite Hseal. by rewrite bool_decide_eq_true_2.
  - intros a' Hr. destruct (run_stamp _ _ (current_resolved _ _ Hview) Hr) as [->|Hlt]; [by left|right].
    unfold validate_permit. cbn [pm_stamp]. destruct (blocked a') as [[]|]; cbn; [|by eexists].
    destruct (epoch a'); cbn; [|by eexists]. rewrite (bool_decide_eq_false_2 (a_stamp a = _)) by lia.
    rewrite andb_false_r. by eexists.
Qed.
End Permits.

Lemma permit_current_witness :
  ∃ p, authorize sample_active sample_certificate "write" = Ok p ∧
    validate_permit sample_active p = Ok tt ∧
    ∃ e, validate_permit (observe sample_active (VBytes sample_checkpoint)).1 p = Err e.
Proof.
  destruct (authorize sample_active sample_certificate "write") as [p|] eqn:E; [|vm_compute in E; discriminate].
  destruct (permit_current sample_active sample_certificate "write" p E) as (_ & _ & Hv & Hr).
  exists p. split; [done|]. split; [exact Hv|].
  destruct (Hr _ (rtc_once _ _ (st_observe _ (VBytes sample_checkpoint)))) as [Eq|He]; [exfalso|exact He].
  assert (a_stamp (observe sample_active (VBytes sample_checkpoint)).1 ≠ a_stamp sample_active) as Hne
    by (vm_compute; discriminate).
  exact (Hne (f_equal a_stamp Eq)).
Defined.
