(* ===== verification/ReplaySpec.v ===== *)
(** * The exported history rebuilds the state

    [same_public] relates two objects with the same public state: everything but the
    owner, the control limit, the revision and stamp, the activated keys and the permit
    key.  The methods that record history act alike on related objects, so replaying an
    export in a fresh object gives a related one. *)

From S2P Require Import Prelude Bytes Value Codec Flat CddlText Schema SchemaSpec Hash Sodium Toy Primitives Objects ObjectsSpec Membership Authority Activation Enrolment Sample AuthoritySpec AuthorityRun.
From stdpp Require Import relations.
Local Open Scope Z_scope.

#[local] Opaque encode encode_with decode decode_with validate crypt domain verify hashed auth_parse.

Section Replay.
Context `{Hash} `{Sodium}.
Implicit Types (a b : authority) (n : control) (chain : list control).

Record same_public a b : Prop := {
  sp_app : a_app b = a_app a;
  sp_space : a_space b = a_space a;
  sp_genesis : a_genesis b = a_genesis a;
  sp_body : a_genesis_body b = a_genesis_body a;
  sp_initial : a_initial b = a_initial a;
  sp_nodes : a_nodes b = a_nodes a;
  sp_sequences : a_sequences b = a_sequences a;
  sp_memberships : a_memberships b = a_memberships a;
  sp_resolved : a_resolved b = a_resolved a;
  sp_head : a_head b = a_head a;
  sp_events : a_events b = a_events a;
  sp_bytes : a_event_bytes b = a_event_bytes a;
  sp_fork : a_fork b = a_fork a;
  sp_invalid : a_invalid b = a_invalid a;
}.

(** Related objects compute alike. *)
Ltac related :=
  match goal with
  | Hs : same_public ?a ?b |- _ =>
      destruct a, b, Hs; cbn in *; subst; first [reflexivity|by split]
  end.

Section Related.
Context {a b : authority} (Hs : same_public a b).

Lemma related_blocked : blocked b = blocked a.
Proof using Hs. related. Qed.
Lemma related_known r : known_raw b r = known_raw a r.
Proof using Hs. related. Qed.
Lemma related_inspect r : inspect b r = inspect a r.
Proof using Hs. related. Qed.
Lemma related_capacity w : capacity_ok b w = capacity_ok a w.
Proof using Hs. related. Qed.
Lemma related_has_nodes : has_nodes b = has_nodes a.
Proof using Hs. related. Qed.
Lemma related_content n v : content_ok (viewed b v) n v = content_ok (viewed a v) n v.
Proof using Hs. related. Qed.
Lemma related_forked old n : same_public (forked a old n) (forked b old n).
Proof using Hs. related. Qed.
Lemma related_extended n : same_public (extended a n) (extended b n).
Proof using Hs. related. Qed.
Lemma related_invalid v : same_public (bump (set_invalid (viewed a v))) (bump (set_invalid (viewed b v))).
Proof using Hs. related. Qed.
Lemma related_resolved v : same_public (bump (resolve_head (viewed a v))) (bump (resolve_head (viewed b v))).
Proof using Hs. related. Qed.
Lemma related_active m c : same_public (bump (set_active m c a)) b.
Proof using Hs. related. Qed.
End Related.

(** ** The operations, when their conditions are known *)

Lemma observe_forks a raw_ n old id :
  known_raw a raw_ = false → blocked a = Ok tt → inspect a raw_ = Ok n →
  a_sequences a !! cb_seq (c_body n) = Some id → a_nodes a !! id = Some old →
  observe a raw_ = (forked a old n, Err (auth "CONTROL_FORK")).
Proof. intros E1 E2 E3 E4 E5. unfold observe. by rewrite E1, E2, E3, E4, E5. Qed.

Lemma observe_extends a raw_ n :
  known_raw a raw_ = false → blocked a = Ok tt → inspect a raw_ = Ok n →
  a_sequences a !! cb_seq (c_body n) = None → capacity_ok a (len (c_raw n)) = true →
  has_nodes a = false ∨ a_head a ∈ a_resolved a → Z.of_nat (size (a_nodes a)) < a_max_controls a →
  observe a raw_ = (extended a n, Ok "OBSERVED"%string).
Proof.
  intros E1 E2 E3 E4 E5 E6 E7. unfold observe. rewrite E1, E2, E3, E4, E5. cbn [negb].
  assert (has_nodes a && negb (bool_decide (a_head a ∈ a_resolved a)) = false) as ->.
  { destruct E6 as [->|E6]; [done|]. by rewrite bool_decide_eq_true_2, andb_false_r. }
  by rewrite (proj2 (Z.leb_gt _ _) E7).
Qed.

Lemma provide_decides a pages n v :
  blocked a = Ok tt → a_nodes a !! a_head a = Some n →
  verify_membership (cb_members (c_body n)) pages = Ok v → a_head a ∉ a_resolved a →
  capacity_ok a (pages_weight v) = true →
  (content_ok (viewed a v) n v = Ok tt →
   provide_membership a pages = (bump (resolve_head (viewed a v)), Ok "VERIFIED"%string)) ∧
  ∀ e, content_ok (viewed a v) n v = Err e →
   e = auth "NO_CONTENT_RECIPIENT" ∨ e = auth "CONTENT_MEMBERSHIP_CHANGED" →
   (∀ e', membership_at (viewed a v) (cb_parent (c_body n)) ≠ Err e') ∨ cb_action (c_body n) ≠ 2 →
   provide_membership a pages = (bump (set_invalid (viewed a v)), Err e).
Proof.
  intros E1 E2 E3 E4 E5.
  assert (has_nodes a = true) as Hn.
  { unfold has_nodes. apply negb_true_iff, bool_decide_eq_false. intros E. by rewrite E, lookup_empty in E2. }
  unfold provide_membership. rewrite E1, Hn. cbn [negb]. unfold node_at. rewrite E2. cbn [of_option mbind result_bind].
  rewrite E3. cbn [mbind result_bind]. rewrite bool_decide_eq_false_2 by done. cbv zeta.
  fold (pages_weight v). rewrite E5. cbn [negb]. fold (viewed a v).
  unfold content_ok.
  destruct (((cb_action (c_body n) =? 1) || (cb_action (c_body n) =? 3)) && bool_decide (content_members v = [])).
  { split; [done|]. by intros e [= <-]. }
  destruct (Z.eqb_spec (cb_action (c_body n)) 2) as [H2|H2]; [|done].
  destruct (membership_at (viewed a v) (cb_parent (c_body n))) as [ms|e']; cbn [mbind result_bind].
  - destruct (bool_decide _); cbn; [done|]. split; [done|]. by intros e [= <-].
  - split; [done|]. intros e _ _ [He|?]; [by destruct (He e')|done].
Qed.

(** Related objects with one control limit take the same steps. *)
Definition same_state a b : Prop := same_public a b ∧ a_max_controls a = a_max_controls b.

Lemma same_state_refl a : same_state a a.
Proof. by repeat split. Qed.
Lemma same_state_trans a b c : same_state a b → same_state b c → same_state a c.
Proof. intros [[] Em] [[] Em']. split; [split; congruence|congruence]. Qed.
Lemma same_state_sym a b : same_state a b → same_state b a.
Proof. intros [[] Em]. by repeat split. Qed.

Lemma observe_related a b raw_ :
  same_state a b →
  same_state (Authority.observe a raw_).1 (Authority.observe b raw_).1 ∧
  (Authority.observe a raw_).2 = (Authority.observe b raw_).2.
Proof.
  intros [Hs Hm]. assert (same_state a b) as Hab by done. unfold observe.
  rewrite (related_known Hs), (related_blocked Hs), (related_inspect Hs).
  destruct (known_raw a raw_); [done|]. destruct (blocked a) as [[]|e]; [|done].
  destruct (inspect a raw_) as [n|e]; [|done]. cbv zeta.
  rewrite (sp_sequences _ _ Hs), (sp_nodes _ _ Hs), (sp_head _ _ Hs), (sp_resolved _ _ Hs), (related_capacity Hs),
    (related_has_nodes Hs), <-Hm.
  destruct (a_sequences a !! _) as [id|].
  - destruct (a_nodes a !! id) as [old|]; [|done]. split; [|done]. split; [by apply related_forked|done].
  - destruct (capacity_ok a _); [cbn [negb]|done]. destruct (has_nodes a && _); [done|].
    destruct (_ <=? _); [done|]. split; [|done]. split; [by apply related_extended|done].
Qed.

Lemma provide_related a b pages :
  same_state a b →
  same_state (provide_membership a pages).1 (provide_membership b pages).1 ∧
  (provide_membership a pages).2 = (provide_membership b pages).2.
Proof.
  intros [Hs Hm]. assert (same_state a b) as Hab by done. unfold provide_membership.
  rewrite (related_blocked Hs), (related_has_nodes Hs). unfold node_at.
  rewrite (sp_nodes _ _ Hs), (sp_head _ _ Hs), (sp_resolved _ _ Hs).
  destruct (blocked a) as [[]|e]; [|done]. destruct (has_nodes a); [cbn [negb]|done].
  destruct (_ ≫= _) as [[n v]|e]; [|done]. destruct (bool_decide _); [done|]. cbv zeta.
  fold (pages_weight v). rewrite (related_capacity Hs). destruct (capacity_ok a _); [cbn [negb]|done].
  fold (viewed a v) (viewed b v).
  assert (same_state (bump (set_invalid (viewed a v))) (bump (set_invalid (viewed b v)))) as H1
    by (split; [by apply related_invalid|done]).
  assert (same_state (bump (resolve_head (viewed a v))) (bump (resolve_head (viewed b v)))) as H2
    by (split; [by apply related_resolved|done]).
  assert (same_state (viewed a v) (viewed b v)) as H3 by (split; [related|done]).
  assert (membership_at (viewed b v) (cb_parent (c_body n)) = membership_at (viewed a v) (cb_parent (c_body n))) as ->
    by related.
  destruct (_ && _); [done|]. destruct (_ =? 2); [|done]. destruct (membership_at _ _) as [p|e]; [|done].
  by destruct (negb _).
Qed.

(** ** One recorded event replays *)

(** What a step records, and how a related object replays it. *)
Definition replays a a' b : Prop :=
  same_public a' b ∨
  blocked a = Ok tt ∧ ∃ e b', a_events a' = a_events a ++ [e] ∧ same_public a' b' ∧
    a_max_controls b' = a_max_controls b ∧
    ∀ last, blocked a' = Ok tt ∨ last = true → replay_event b (event_value e) last = Ok b'.

Lemma observe_replays a b raw_ :
  same_public a b → a_max_controls a <= a_max_controls b → replays a (observe a raw_).1 b.
Proof.
  intros Hs Hm.
  destruct (observe_observed a raw_) as [r Hr|n old id Hk Hb Hins Hsq Ho|n Hk Hb Hins Hsq Hcap Hres Hmax];
    [by left|right; split; [done|]..].
  - exists (EControl (c_raw n)), (forked b old n).
    split; [done|]. split; [by apply related_forked|]. split; [done|].
    intros last Hl. destruct Hl as [Hl| ->].
    { by apply blocked_Ok in Hl as [? _]. }
    pose proof (inspect_raw _ _ _ Hins) as ->.
    cbn [replay_event event_value Z.eqb Pos.eqb orb].
    by rewrite (observe_forks b (VBytes (c_raw n)) n old id); rewrite ?(related_known Hs), ?(related_blocked Hs),
      ?(related_inspect Hs), ?(sp_sequences _ _ Hs), ?(sp_nodes _ _ Hs).
  - exists (EControl (c_raw n)), (extended b n).
    split; [done|]. split; [by apply related_extended|]. split; [done|].
    intros last _. pose proof (inspect_raw _ _ _ Hins) as ->.
    cbn [replay_event event_value Z.eqb Pos.eqb orb].
    rewrite (observe_extends b (VBytes (c_raw n)) n); rewrite ?(related_known Hs), ?(related_blocked Hs),
      ?(related_inspect Hs), ?(related_capacity Hs), ?(related_has_nodes Hs), ?(sp_sequences _ _ Hs),
      ?(sp_nodes _ _ Hs), ?(sp_head _ _ Hs), ?(sp_resolved _ _ Hs); try done. lia.
Qed.

(** Under the ledger invariant the membership rule meets no lookup error. *)
Lemma ledger_parent a chain n v pages :
  represents a chain → no_collision (viewed a v) → a_nodes a !! a_head a = Some n →
  verify_membership (cb_members (c_body n)) pages = Ok v →
  (∀ e, membership_at (viewed a v) (cb_parent (c_body n)) ≠ Err e) ∨ cb_action (c_body n) ≠ 2.
Proof.
  intros Hrep Hnc Hhd Hv. destruct (decide (cb_action (c_body n) = 2)) as [Ha|]; [left|by right].
  intros e E. destruct (head_splits Hrep Hhd) as (l & Ec & [Hfo _] & _).
  destruct l as [|q l]; [pose proof (fo_first _ _ _ Hfo eq_refl); lia|].
  destruct (parent_membership Hrep Hnc Hhd Hv _ q Ec eq_refl) as (ms & E' & _). congruence.
Qed.

Lemma provide_replays a b chain pages :
  represents a chain → no_collision (provide_membership a pages).1 →
  same_public a b → replays a (provide_membership a pages).1 b.
Proof.
  intros Hrep Hnc Hs.
  destruct (provide_provided a pages)
    as [r Hr|n v e Hb Hhd Hv Hres Hcap Hok He|n v e Hb Hhd Hv Hres Ha Hm|n v Hb Hhd Hv Hres Hcap Hok];
    [by left| |exfalso|]; pose proof (verify_membership_Ok _ _ _ Hv) as (_ & Hp & _).
  - assert (no_collision (viewed a v)) as Hnc' by (by apply (no_collision_mono _ (bump (set_invalid (viewed a v))))).
    right. split; [done|]. exists (EMembers (ms_pages v)), (bump (set_invalid (viewed b v))).
    split; [done|]. split; [by apply related_invalid|]. split; [done|].
    intros last [Hl| ->]; [by apply blocked_Ok in Hl as [_ ?]|].
    cbn [replay_event event_value Z.eqb Pos.eqb orb]. rewrite <-Hp.
    pose proof (ledger_parent _ _ _ _ _ Hrep Hnc' Hhd Hv) as Hpar.
    destruct (provide_decides b pages n v) as [_ Hdec];
      rewrite ?(related_blocked Hs), ?(related_capacity Hs), ?(sp_nodes _ _ Hs), ?(sp_head _ _ Hs),
        ?(sp_resolved _ _ Hs); [done..|].
    rewrite (Hdec e); [|by rewrite (related_content Hs)|done|].
    + by destruct He as [-> | ->].
    + assert (membership_at (viewed b v) = membership_at (viewed a v)) as ->; [|done].
      clear -Hs. destruct a, b, Hs; cbn in *; by subst.
  - destruct (ledger_parent _ _ _ _ _ Hrep Hnc Hhd Hv) as [E|]; [by apply (E e)|done].
  - right. split; [done|]. exists (EMembers (ms_pages v)), (bump (resolve_head (viewed b v))).
    split; [done|]. split; [by apply related_resolved|]. split; [done|]. intros last _.
    cbn [replay_event event_value Z.eqb Pos.eqb orb]. rewrite <-Hp.
    destruct (provide_decides b pages n v) as [Hdec _];
      rewrite ?(related_blocked Hs), ?(related_capacity Hs), ?(sp_nodes _ _ Hs), ?(sp_head _ _ Hs),
        ?(sp_resolved _ _ Hs); [done..|].
    rewrite Hdec; [done|by rewrite (related_content Hs)].
Qed.

Lemma step_replays a a' b chain :
  represents a chain → no_collision a' → astep a a' → same_public a b →
  a_max_controls a <= a_max_controls b → replays a a' b.
Proof.
  intros Hrep Hnc Hst Hs Hm. destruct Hst.
  - by apply observe_replays.
  - by eapply provide_replays.
  - left. destruct (activate_activated a certificate secret package ids manifest_ seeds); [done|].
    by apply related_active.
Qed.

(** ** A whole history replays *)

(** Replaying the history of [a] from [b0] gives [b], which can go on unless [a] is
    blocked. *)
Definition replayed (b0 : authority) a b : Prop :=
  same_public a b ∧ a_max_controls b = a_max_controls b0 ∧
  replay_events b0 (event_value <$> a_events a) = Ok b ∧
  (blocked a = Ok tt → ∀ rest,
     replay_events b0 ((event_value <$> a_events a) ++ rest) = replay_events b rest).

Lemma run_replays a0 a b0 chain0 :
  ledger a0 chain0 → a_events a0 = [] → same_public a0 b0 → a_max_controls b0 = 1024 →
  rtc astep a0 a → no_collision a → ∃ b, replayed b0 a b.
Proof.
  intros Hl0 He0 Hs0 Hm0 Hr. revert a Hr.
  refine (rtc_ind_r _ a0 _ _).
  - intros _. exists b0. split; [done|]. rewrite He0. done.
  - intros a a' Hr Hst IH Hnc'.
    assert (no_collision a) as Hnc by (by eapply step_collision).
    destruct (IH Hnc) as (b & Hs & Hm & Hrun & Hgo).
    destruct (ledger_run _ _ _ Hl0 Hr Hnc) as (chain & [Hrep Hmax _ _] & _).
    destruct (step_replays a a' b chain Hrep Hnc' Hst Hs) as [Hs'|(Hb & e & b' & He & Hs' & Hm' & Hstep)]; [lia| |].
    + assert (a_events a' = a_events a) as Ee by (by rewrite <-(sp_events _ _ Hs'), (sp_events _ _ Hs)).
      exists b. split; [done|]. split; [done|]. rewrite Ee. split; [done|].
      rewrite <-(related_blocked Hs'), (related_blocked Hs). done.
    + exists b'. split; [done|]. split; [congruence|]. rewrite He, fmap_app.
      assert (∀ rest, blocked a' = Ok tt ∨ rest = [] →
        replay_events b0 (((event_value <$> a_events a) ++ [event_value e]) ++ rest) = replay_events b' rest) as Hall.
      { intros rest Hrest. rewrite <-app_assoc, Hgo by done. cbn [app replay_events].
        rewrite Hstep; [done|]. destruct Hrest as [?| ->]; [by left|by right]. }
      split; [|intros Hb' rest; apply Hall; by left].
      change ([e]) with ([e] ++ @nil event). rewrite <-(app_nil_r (_ ++ _)), Hall by (by right). done.
Qed.

(** ** The exported value *)

Definition export_value a : value :=
  dict [(0, VInt 1); (1, VStr (a_app a)); (2, VBytes (a_space a)); (3, VBytes (a_genesis a));
        (4, VList (event_value <$> a_events a))].

Lemma event_value_normal e : wf_value (event_value e) ∧ norm (event_value e) = event_value e.
Proof.
  destruct e as [r|pages]; cbn [event_value]; apply normal_list; repeat constructor;
    try (apply wf_value_list; by rewrite Forall_fmap; apply Forall_true).
  apply leaves_list. by rewrite Forall_fmap; apply Forall_true.
Qed.

Lemma export_value_normal a : wf_value (export_value a) ∧ norm (export_value a) = export_value a.
Proof.
  destruct (normal_list (event_value <$> a_events a)) as [Hw Hn].
  { rewrite Forall_fmap. apply Forall_true. intros e. apply event_value_normal. }
  split.
  - apply wf_to_dict; [apply strictly_sorted_NoDup; repeat constructor; done|repeat constructor; done].
  - apply norm_to_dict; repeat constructor; done.
Qed.

Lemma auth_app_Ok v s : auth_app v = Ok s → v = VStr s.
Proof.
  unfold auth_app, catch_crypto. intros E.
  assert (app_id v = Ok s) as E' by (destruct (app_id v) as [?|[]]; congruence).
  unfold app_id in E'. destruct v; try done. by apply bind_Ok in E' as ([] & _ & [= ->]).
Qed.

(** A fresh object of the same genesis, with the full control limit. *)
Lemma new_authority_again owner app space genesis max random a owner' random' key :
  new_authority owner app space genesis max random = Ok a → crypto_call (random_bytes random' 32) = Ok key →
  ∃ b, new_authority owner' app space genesis 1024 random' = Ok b ∧ same_public a b ∧
    a_max_controls b = 1024 ∧ app = VStr (a_app a) ∧ space = a_space a ∧ genesis = a_genesis a ∧ a_events a = [].
Proof.
  intros E Hk. unfold new_authority in E.
  apply bind_Ok in E as (app' & Eapp & E). apply bind_Ok in E as ([] & Elen & E).
  apply bind_Ok in E as ([] & Hmax%require_Ok & E). apply bind_Ok in E as (o & Eo & E).
  apply bind_Ok in E as (body & Ebody & E). apply bind_Ok in E as (b & Eb & E).
  apply bind_Ok in E as (gb & Egb & E). apply bind_Ok in E as (sid & Esid & E).
  apply bind_Ok in E as (signer & Esg & E). apply bind_Ok in E as ([] & Hok & E).
  apply bind_Ok in E as (sig & Esig & E). apply bind_Ok in E as (m & Em & E).
  apply bind_Ok in E as ([] & Ev & E). apply bind_Ok in E as (key0 & _ & [= <-]).
  eexists. split.
  - unfold new_authority. run Eapp. run Elen. run_eq. run Eo. run Ebody. run Eb. run Egb. run Esid.
    run Esg. run Hok. run Esig. run Em. run Ev. run Hk. reflexivity.
  - split; [by split|]. split; [done|]. split; [by apply auth_app_Ok|done].
Qed.

Lemma a_head_len a chain : represents a chain → len (a_head a) = 32.
Proof.
  intros Hrep. rewrite (rep_head _ _ Hrep). destruct chain as [|n l].
  - exact (hashed_len _ _ _ (an_space _ (rep_anchor _ _ Hrep))).
  - pose proof (rep_valid _ _ Hrep) as Hv. inversion Hv as [|? ? _ [Hf _]]; subst.
    exact (hashed_len _ _ _ (fo_id _ _ _ Hf)).
Qed.

(** The history never outgrows what a restore accepts. *)
Lemma history_bound a chain : ledger a chain → len (a_events a) <= 2049.
Proof.
  intros [Hrep Hmax Hcount Hinv]. destruct (resolved_size _ _ Hrep) as [Hle Hlt].
  unfold len. rewrite Hcount. destruct (a_invalid a) eqn:Ei.
  - destruct (Hinv eq_refl) as (-> & Hh & Hne). specialize (Hlt Hne Hh). lia.
  - destruct (a_fork a); lia.
Qed.

(** What a restore makes of an exported history. *)
Lemma restores_replay owner app space genesis max random a0 a out digest owner' random' key minimum :
  new_authority owner app space genesis max random = Ok a0 → rtc astep a0 a → no_collision a →
  export_public_replay a = Ok out → hashed "auth-local/replay" [VBytes out] = Ok digest →
  crypto_call (random_bytes random' 32) = Ok key → 0 <= minimum <= sequence a →
  ∃ b, restore_public_replay owner' random' app space (a_head a) digest (VBytes out) minimum = Ok b ∧
    same_public a b ∧ a_max_controls b = 1024.
Proof.
  intros Hnew Hr Hnc Hexp Hdig Hkey Hmin.
  pose proof (ledger_fresh _ _ _ _ _ _ _ Hnew) as Hl0.
  destruct (new_authority_again _ _ _ _ _ _ _ owner' _ _ Hnew Hkey)
    as (b0 & Hb0 & Hs0 & Hm0 & -> & -> & -> & He0).
  destruct (run_replays _ _ _ _ Hl0 He0 Hs0 Hm0 Hr Hnc) as (b & Hs & Hmb & Hrun & _).
  destruct (ledger_run _ _ _ Hl0 Hr Hnc) as (chain & [Hrep Hmax Hcount Hinv] & _).
  destruct (run_same _ _ Hr) as (Ea & Esp & _ & Eg & _).
  exists b. split; [|by rewrite Hmb]. unfold restore_public_replay.
  unfold export_public_replay, auth_canonical in Hexp. apply catch_wire_Ok in Hexp.
  fold (export_value a) in Hexp. destruct (export_value_normal a) as [Hwf Hnorm].
  pose proof (enc_len _ _ Hwf Hexp) as Hlen. pose proof (dec_enc _ _ Hwf Hexp) as Hdec.
  rewrite Hnorm in Hdec.
  run (proj2 (require_Ok _ (auth "SCHEMA_INVALID")) (proj2 (Z.eqb_eq _ 32) (a_head_len _ _ Hrep))).
  run (proj2 (require_Ok _ (auth "SCHEMA_INVALID")) (proj2 (Z.eqb_eq _ 32) (hashed_len _ _ _ Hdig))).
  assert (blob (VBytes out) MAX_EXPORT 1 = Ok out) as Hblob.
  { unfold blob. by rewrite !(proj2 (Z.leb_le _ _)) by lia. }
  run Hblob. unfold sequence in Hmin. rewrite (rep_size _ _ Hrep) in Hmin.
  assert ((0 <=? minimum) && (minimum <? 2 ^ 64) = true) as Hm by lia.
  run (proj2 (require_Ok _ (auth "REPLAY_SCHEMA")) Hm).
  run Hdig. run (proj2 (require_Ok _ (auth "REPLAY_DIGEST")) (bool_decide_eq_true_2 (digest = digest) eq_refl)).
  assert (catch_wire (auth "REPLAY_SCHEMA") (decode_with MAX_EXPORT MAX_NODES out) = Ok (export_value a)) as Hd
    by (by apply catch_wire_Ok).
  run Hd. run_eq. run_eq. run_eq. run_eq. run_eq.
  assert (same_value (VStr (a_app a)) (VStr (a_app a0)) && bool_decide (VBytes (a_space a) = VBytes (a_space a0)) = true) as Htrust.
  { rewrite Ea, Esp. unfold same_value. by rewrite !bool_decide_eq_true_2. }
  run (proj2 (require_Ok _ (auth "TRUST_ANCHOR")) Htrust). run_eq. run_eq.
  assert (len (event_value <$> a_events a) <=? 2049 = true) as Hbound.
  { rewrite len_map. apply Z.leb_le. eapply history_bound. by split. }
  run (proj2 (require_Ok _ (auth "RESOURCE_BLOCKED")) Hbound). run_eq. run_eq. rewrite Eg.
  run Hb0. run Hrun. unfold sequence. rewrite (sp_head _ _ Hs), (sp_sequences _ _ Hs), (rep_size _ _ Hrep).
  rewrite bool_decide_eq_true_2 by done. rewrite (proj2 (Z.leb_le _ _)) by lia. done.
Qed.

(** C14. The exported history rebuilds the state: from any state the methods reach, the
    export is accepted by a restore under its own digest, head and any sequence up to the
    current one, and the new object has the same controls, memberships, head, history and
    fork or invalid mark.  So a restart loses only the activated keys and the permits. *)
Theorem replay_restores owner app space genesis max random a0 a out digest owner' random' key minimum :
  new_authority owner app space genesis max random = Ok a0 → rtc astep a0 a → no_collision a →
  export_public_replay a = Ok out → hashed "auth-local/replay" [VBytes out] = Ok digest →
  crypto_call (random_bytes random' 32) = Ok key → 0 <= minimum <= sequence a →
  ∃ b, restore_public_replay owner' random' app space (a_head a) digest (VBytes out) minimum = Ok b ∧
    same_public a b.
Proof.
  intros H1 H2 H3 H4 H5 H6 H7.
  destruct (restores_replay owner app space genesis max random a0 a out digest owner' random' key minimum)
    as (b & Hb & Hs & _); [done..|]. by exists b.
Qed.
End Replay.

Lemma replay_restores_witness :
  ∃ out digest b, export_public_replay sample_ledger = Ok out ∧
    restore_public_replay 7 sample_random (VStr sample_app) sample_space (a_head sample_ledger) digest
      (VBytes out) 2 = Ok b ∧ same_public sample_ledger b.
Proof.
  destruct (export_public_replay sample_ledger) as [out|] eqn:E; [|vm_compute in E; discriminate].
  destruct (hashed "auth-local/replay" [VBytes out]) as [digest|] eqn:D.
  - assert (0 <= 2 <= sequence sample_ledger) as Hm by (split; [done|vm_compute; discriminate]).
    assert (crypto_call (random_bytes sample_random 32) = Ok (raw (repeat 9 32))) as Hk by (vm_compute; reflexivity).
    destruct (replay_restores 0 (VStr sample_app) sample_space sample_genesis 8 sample_random sample_fresh
      sample_ledger out digest 7 sample_random _ 2 sample_new sample_ledger_run sample_ledger_collision
      E D Hk Hm) as (b & Hb & Hs).
    exists out, digest, b. split; [done|]. split; [exact Hb|exact Hs].
  - exfalso. assert (out = ok_or [] (export_public_replay sample_ledger)) as -> by (by rewrite E).
    vm_compute in D. discriminate.
Defined.
