(* ===== verification/Framing.v ===== *)
(** * Frame boundaries and incremental input (experiments/g0-wire/par_wire/framing.py)

    [encode_frame]/[decode_frame], and the [FrameReader] object as a record with one
    function per method.  A method returns the object it leaves behind together with
    its result, since a failing [feed] closes the reader. *)

From S2P Require Import Prelude Bytes Value Codec Schema SchemaSpec Clock.
Local Open Scope Z_scope.

Definition MAX_FRAME : Z := 1048576.

Definition encode_frame (frame : value) : result bytes :=
  _ ← validate_frame frame;
  body ← encode frame;
  Ok (to_bytes_big 4 (len body) ++ body).

Definition valid_length (n : Z) : bool := (1 <=? n) && (n <=? MAX_FRAME).

Definition decode_frame (wire_ : bytes) : result value :=
  if len wire_ <? 4 then Err (wire "TRUNCATED")
  else
    let n := from_bytes_big (take 4 wire_) in
    if negb (valid_length n && (len wire_ =? 4 + n)) then Err (wire "LENGTH")
    else
      v ← decode (drop 4 wire_);
      _ ← validate_frame v;
      Ok v.

Section Reader.
Context {T : Type} `{Clock T}.

Record reader := Reader {
  timeout : T;
  max_frames : Z;
  r_buffer : bytes;
  r_length : option Z;
  r_started : option T;
  r_last : option T;
  r_closed : bool;
}.

(** [__init__]; the timeout's sign test is the caller's [zero]. *)
Definition new_reader (zero timeout : T) (max_frames : Z) : result reader :=
  if negb (clk_finite timeout && clk_ltb zero timeout) then Err ValueError
  else if negb ((1 <=? max_frames) && (max_frames <=? 1024)) then Err ValueError
  else Ok (Reader timeout max_frames [] None None None false).

Definition buffered_bytes (r : reader) : Z := len (r_buffer r).

Definition close (r : reader) : reader :=
  Reader (timeout r) (max_frames r) [] None None (r_last r) true.

(** The partial frame: buffer, announced length, start time. *)
Record partial := Partial { p_buffer : bytes; p_length : option Z; p_started : option T }.

Definition target (p : partial) : Z := default 4 (p_length p).

(** The [while] loop of [feed]: [data] is the unread part of the chunk. *)
Fixpoint feed_loop (fuel : nat) (limit : Z) (now : T) (p : partial) (data : bytes)
    (out : list value) : result (partial * list value) :=
  match data with
  | [] => Ok (p, out)
  | _ =>
      match fuel with
      | O => Err OutOfFuel
      | S fuel' =>
          if limit <=? len out then Err (wire "RESOURCE_LIMIT")
          else
            let started := default now (p_started p) in
            let count := Z.to_nat (Z.min (target p - len (p_buffer p)) (len data)) in
            let buffer := p_buffer p ++ take count data in
            let data := drop count data in
            if len buffer <? target p then Ok (Partial buffer (p_length p) (Some started), out)
            else
              match p_length p with
              | None =>
                  let n := from_bytes_big buffer in
                  if negb (valid_length n) then Err (wire "LENGTH")
                  else feed_loop fuel' limit now (Partial [] (Some n) (Some started)) data out
              | Some _ =>
                  v ← decode buffer;
                  _ ← validate_frame v;
                  feed_loop fuel' limit now (Partial [] None None) data (out ++ [v])
              end
      end
  end.

(** The body of the [try] block after the clock test. *)
Definition feed_body (r : reader) (data : bytes) (now : T) : result (partial * list value) :=
  if (match r_started r with
      | Some s => clk_leb (timeout r) (clk_sub now s) | None => false end)
  then Err (wire "TIMEOUT")
  else if MAX_FRAME + 4 <? len data then Err (wire "RESOURCE_LIMIT")
  else feed_loop (length data) (max_frames r) now
         (Partial (r_buffer r) (r_length r) (r_started r)) data [].

Definition clock_ok (r : reader) (now : T) : bool :=
  clk_finite now && negb (match r_last r with Some l => clk_ltb now l | None => false end).

(** [feed]: a [WireError] closes the reader, any other outcome keeps it. *)
Definition feed (r : reader) (data : bytes) (now : T) : reader * result (list value) :=
  if r_closed r then (r, Err (wire "CLOSED"))
  else if negb (clock_ok r now) then (close r, Err (wire "CLOCK"))
  else
    let r := Reader (timeout r) (max_frames r) (r_buffer r) (r_length r) (r_started r)
               (Some now) false in
    match feed_body r data now with
    | Ok (p, out) =>
        (Reader (timeout r) (max_frames r) (p_buffer p) (p_length p) (p_started p)
           (r_last r) false, Ok out)
    | Err (WireError c p) => (close r, Err (WireError c p))
    | Err e => (r, Err e)
    end.

Definition finish (r : reader) : reader * result unit :=
  if r_closed r then (r, Err (wire "CLOSED"))
  else
    let incomplete := negb (len (r_buffer r) =? 0) || bool_decide (is_Some (r_length r)) in
    (close r, if incomplete then Err (wire "TRUNCATED") else Ok tt).
End Reader.
#[global] Arguments reader : clear implicits.
#[global] Arguments partial : clear implicits.
