(* ===== verification/FramingSpec.v ===== *)
(** * The frame reader against a byte-at-a-time reference

    [byte_step] consumes one byte; [bytes_run] folds it.  The chunked loop of [feed]
    refines it, hence reassembly does not depend on how the transport cuts the
    stream. *)

From S2P Require Import Prelude Bytes Value Codec Schema SchemaSpec Clock Framing.
Local Open Scope Z_scope.

#[local] Opaque decode encode validate_frame.
#[local] Arguments decode : simpl never.
#[local] Arguments encode : simpl never.
#[local] Arguments validate_frame : simpl never.

(** ** The reference *)

Abbreviation pstate := (bytes * option Z)%type.

(** What completing a length prefix or a body does. *)
Definition complete (ln : option Z) (buffer : bytes) : result (pstate * list value) :=
  match ln with
  | None =>
      let n := from_bytes_big buffer in
      if negb (valid_length n) then Err (wire "LENGTH") else Ok (([], Some n), [])
  | Some _ =>
      v ← decode buffer;
      _ ← validate_frame v;
      Ok (([], None), [v])
  end.

Definition byte_step (p : pstate) (b : byte) : result (pstate * list value) :=
  let buffer := p.1 ++ [b] in
  if len buffer <? default 4 p.2 then Ok ((buffer, p.2), []) else complete p.2 buffer.

Fixpoint bytes_run (p : pstate) (data : bytes) : result (pstate * list value) :=
  match data with
  | [] => Ok (p, [])
  | b :: data' =>
      '(p1, o1) ← byte_step p b;
      '(p2, o2) ← bytes_run p1 data';
      Ok (p2, o1 ++ o2)
  end.

(** The invariant of a partial frame: less is buffered than is awaited, and an
    announced length is valid. *)
Definition wf_partial (p : pstate) : Prop :=
  len p.1 < default 4 p.2 ∧ ∀ n, p.2 = Some n → valid_length n = true.

Lemma bytes_run_app p a b :
  bytes_run p (a ++ b) =
    '(p1, o1) ← bytes_run p a; '(p2, o2) ← bytes_run p1 b; Ok (p2, o1 ++ o2).
Proof.
  revert p. induction a as [|x a IH]; intros p; cbn.
  - by destruct (bytes_run p b) as [[? ?]|].
  - destruct (byte_step p x) as [[p1 o1]|]; cbn; [|done]. rewrite IH.
    destruct (bytes_run p1 a) as [[p2 o2]|]; cbn; [|done].
    destruct (bytes_run p2 b) as [[p3 o3]|]; cbn; [|done]. by rewrite app_assoc.
Qed.

Lemma run_fill buf ln c :
  len (buf ++ c) < default 4 ln → bytes_run (buf, ln) c = Ok ((buf ++ c, ln), []).
Proof.
  revert buf. induction c as [|x c IH]; intros buf Hl; cbn; [by rewrite app_nil_r|].
  unfold byte_step. cbn. rewrite (proj2 (Z.ltb_lt _ _)) by len_lia. cbn.
  rewrite IH by (rewrite <- app_assoc; done). cbn. by rewrite <- app_assoc.
Qed.

Lemma run_complete buf ln c :
  len buf < default 4 ln → len (buf ++ c) = default 4 ln →
  bytes_run (buf, ln) c = complete ln (buf ++ c).
Proof.
  intros Hb Hl. destruct c as [|x c _] using rev_ind; [rewrite app_nil_r in Hl; lia|].
  rewrite bytes_run_app, run_fill by len_lia. cbn. unfold byte_step. cbn.
  rewrite <- app_assoc, (proj2 (Z.ltb_ge _ _)) by lia.
  by destruct (complete ln (buf ++ c ++ [x])) as [[? ?]|]; cbn; rewrite ?app_nil_r.
Qed.

(** A run that consumes something and returns nothing does not end idle. *)
Lemma run_silent q data q' :
  bytes_run q data = Ok (q', []) → data ≠ [] → q' ≠ ([], None).
Proof.
  revert q. induction data as [|b data IH]; intros q; [done|]. cbn.
  intros ([q1 o1] & H1 & ([q2 o2] & H2 & [= <- Ho])%bind_Ok)%bind_Ok _.
  apply app_nil in Ho as [-> ->].
  destruct (decide (data = [])) as [->|Hd]; [|by eapply IH].
  injection H2 as <-. unfold byte_step in H1. case_match.
  - injection H1 as <-. by destruct q as [[] ?].
  - unfold complete in H1. destruct q.2 eqn:?.
    + apply bind_Ok in H1 as (v & _ & H1). by apply bind_Ok in H1 as ([] & _ & [=]).
    + case_match; [done|]. by injection H1 as <-.
Qed.

Lemma valid_length_pos n : valid_length n = true → 1 <= n <= MAX_FRAME.
Proof. unfold valid_length. intros. zb. lia. Qed.

Lemma complete_wf ln buf p o : complete ln buf = Ok (p, o) → wf_partial p.
Proof.
  destruct ln as [n|]; cbn.
  - intros (v & _ & ([] & _ & [= <- _])%bind_Ok)%bind_Ok. by split.
  - case_match; [done|]. intros [= <- _]. zb. split; cbn; [|by intros ? [= <-]].
    match goal with Hv : valid_length _ = true |- _ => apply valid_length_pos in Hv end.
    len_nil. lia.
Qed.

Lemma validate_frame_wire_only v : wire_only (validate_frame v).
Proof. exact (validate_frame_wire v). Qed.
#[local] Hint Resolve validate_frame_wire_only : wire_db.

Lemma complete_wire ln buf : wire_only (complete ln buf).
Proof. unfold complete. wire_only. Qed.
#[local] Hint Resolve complete_wire : wire_db.

Lemma bytes_run_wire p data : wire_only (bytes_run p data).
Proof.
  revert p. induction data as [|b data IH]; intros p; cbn; [wire_only|].
  apply wire_only_bind; [unfold byte_step; wire_only|]. intros [p1 o1] _. wire_only.
Qed.

(** ** The loop refines the reference *)

Section Loop.
Context {T : Type} `{Clock T}.
Implicit Types p : partial T.

Definition pst p : pstate := (p_buffer p, p_length p).

(** One turn of the loop. *)
Lemma feed_loop_step fuel limit now p data out :
  data ≠ [] → wf_partial (pst p) → len out < limit →
  let count := Z.to_nat (Z.min (target p - len (p_buffer p)) (len data)) in
  (0 < count <= length data)%nat ∧
  feed_loop (S fuel) limit now p data out =
    '(q, vs) ← bytes_run (pst p) (take count data);
    if len (p_buffer p ++ take count data) <? target p
    then Ok (Partial q.1 q.2 (Some (default now (p_started p))), out ++ vs)
    else feed_loop fuel limit now
           (Partial q.1 q.2 (match p_length p with
                             | None => Some (default now (p_started p))
                             | Some _ => None end)) (drop count data) (out ++ vs).
Proof.
  intros Hd [Hwf Hv] Hout. cbn zeta.
  set (count := Z.to_nat (Z.min (target p - len (p_buffer p)) (len data))).
  assert (1 <= len data) by (destruct data; [done|len_lia]).
  unfold pst in *. cbn [fst snd] in *. change (default 4 (p_length p)) with (target p) in *.
  assert (len (take count data) = Z.min (target p - len (p_buffer p)) (len data)) as Hc.
  { unfold len at 1. rewrite length_take. unfold len in *. subst count. unfold len. lia. }
  split; [unfold len in *; lia|].
  destruct data as [|b data]; [done|]. cbn [feed_loop]. fold count.
  rewrite (proj2 (Z.leb_gt _ _)) by lia.
  destruct (len (p_buffer p ++ take count (b :: data)) <? target p) eqn:E; zb.
  - rewrite run_fill by done. cbn. by rewrite app_nil_r.
  - rewrite run_complete; [|done|change (default 4 (p_length p)) with (target p); len_lia].
    unfold complete. destruct (p_length p) as [n|]; cbn.
    + destruct (decode _) as [v|]; cbn; [|done]. by destruct (validate_frame v).
    + case_match; cbn; [done|]. by rewrite app_nil_r.
Qed.


Lemma bytes_run_wf q data q' vs :
  wf_partial q → bytes_run q data = Ok (q', vs) → wf_partial q'.
Proof.
  revert q vs. induction data as [|b data IH]; intros q vs Hwf; cbn; [by intros [= <- _]|].
  intros ([q1 o1] & H1 & ([q2 o2] & H2 & [= <- _])%bind_Ok)%bind_Ok.
  apply (IH _ _) in H2; [done|]. unfold byte_step in H1. case_match eqn:E.
  - injection H1 as <- _. zb. destruct Hwf as [_ Hv]. by split.
  - by apply complete_wf in H1.
Qed.

Lemma run_full p data :
  wf_partial (pst p) →
  len (p_buffer p ++ data) = target p →
  bytes_run (pst p) data = complete (p_length p) (p_buffer p ++ data).
Proof. intros [Hwf _]. by apply run_complete. Qed.

(** The loop computes the reference run, as long as the frame limit holds: a
    frame may only be started while fewer than [limit] were returned. *)
Lemma feed_loop_simulates fuel limit now p data out q vs :
  wf_partial (pst p) → (length data <= fuel)%nat →
  bytes_run (pst p) data = Ok (q, vs) → len out + len vs <= limit →
  (data = [] ∨ len out < limit) → (data = [] ∨ q = ([], None) ∨ len out + len vs < limit) →
  ∃ p', feed_loop fuel limit now p data out = Ok (p', out ++ vs) ∧ pst p' = q ∧
    (p_started p' = None ∨ p_started p' = Some now ∨ p_started p' = p_started p).
Proof.
  revert p data out vs. induction fuel as [|fuel IH]; intros p data out vs Hwf Hf Hrun Hlim Hor Hq.
  { destruct data; [|cbn in Hf; lia]. injection Hrun as <- <-.
    exists p. rewrite app_nil_r. split_and!; auto. }
  destruct (decide (data = [])) as [->|Hd].
  { injection Hrun as <- <-. exists p. rewrite app_nil_r. split_and!; auto. }
  destruct Hor as [->|Hout]; [done|].
  destruct (feed_loop_step fuel limit now p data out Hd Hwf Hout) as [Hcount ->].
  set (count := Z.to_nat _) in *.
  rewrite <- (take_drop count data), bytes_run_app in Hrun.
  destruct (bytes_run (pst p) (take count data)) as [[q1 v1]|] eqn:E1; [|done]. cbn in Hrun |- *.
  destruct (bytes_run q1 (drop count data)) as [[q2 v2]|] eqn:E2; [|done]. cbn in Hrun.
  injection Hrun as <- <-.
  destruct (len (p_buffer p ++ take count data) <? target p) eqn:Es.
  - (* the chunk ends inside the frame *)
    assert (drop count data = []) as Hnil.
    { apply drop_ge. zb. rewrite len_app in Es. unfold len at 2 in Es.
      rewrite length_take in Es. unfold len in *. lia. }
    rewrite Hnil in E2. injection E2 as <- <-. rewrite app_nil_r.
    eexists. split_and!; [done|by destruct q1|].
    cbn. destruct (p_started p); auto.
  - set (p1 := Partial _ _ _).
    assert (pst p1 = q1) as Hp1 by (by destruct q1).
    destruct (IH p1 (drop count data) (out ++ v1) v2) as (p' & Hrun & Hst & Hs).
    + rewrite Hp1. by eapply bytes_run_wf.
    + rewrite length_drop. lia.
    + by rewrite Hp1.
    + len_lia.
    + destruct (decide (drop count data = [])); [by left|right].
      destruct Hq as [?|[->|?]]; [done| |len_lia].
      destruct v2; [|len_lia].
      by apply run_silent in E2.
    + destruct (decide (drop count data = [])); [by left|right].
      destruct Hq as [?|[->|?]]; [done|by left|right; len_lia].
    + rewrite app_assoc. exists p'. split_and!; [done|done|].
      subst p1. cbn in Hs. destruct (p_length p); [naive_solver|].
      destruct (p_started p); naive_solver.
Qed.
End Loop.

(** ** One frame *)

Lemma decode_frame_inv w v :
  decode_frame w = Ok v →
  4 <= len w ∧ valid_length (from_bytes_big (take 4 w)) = true ∧
  len w = 4 + from_bytes_big (take 4 w) ∧ decode (drop 4 w) = Ok v ∧ validate_frame v = Ok tt.
Proof.
  unfold decode_frame. case_match; [done|]. case_match; [done|].
  intros (v' & Hd & ([] & Hv & [= <-])%bind_Ok)%bind_Ok. zb. split_and!; try done; lia.
Qed.

Lemma decode_frame_intro w v :
  4 <= len w → valid_length (from_bytes_big (take 4 w)) = true →
  len w = 4 + from_bytes_big (take 4 w) → decode (drop 4 w) = Ok v → validate_frame v = Ok tt →
  decode_frame w = Ok v.
Proof.
  intros H4 Hn Hl Hd Hv. unfold decode_frame.
  rewrite (proj2 (Z.ltb_ge _ _)), Hn, (proj2 (Z.eqb_eq _ _)), Hd by done.
  cbn [negb andb mbind result_bind]. by rewrite Hv.
Qed.

Lemma decode_encoded_frame v w :
  wf_value v → norm v = v → encode_frame v = Ok w → decode_frame w = Ok v.
Proof.
  intros Hwf Hn Hw. unfold encode_frame in Hw.
  apply bind_Ok in Hw as ([] & Hv & Hw). apply bind_Ok in Hw as (body & He & Hw).
  assert (w = to_bytes_big 4 (len body) ++ body) as -> by congruence. clear Hw.
  destruct (decode_encoded _ _ Hwf He) as [Hd Hl]. rewrite Hn in Hd.
  change MAX_BYTES with MAX_FRAME in Hl.
  pose proof (length_to_bytes_big 4 (len body)) as H4.
  assert (0 <= len body < 256 ^ Z.of_nat 4) as Hrange by (unfold MAX_FRAME in Hl; cbn; lia).
  apply from_to_bytes_big in Hrange.
  revert H4 Hrange. generalize (to_bytes_big 4 (len body)). intros prefix H4 Hrange.
  apply decode_frame_intro; rewrite ?(take_app_length' prefix), ?(drop_app_length' prefix) by done.
  + unfold len. rewrite length_app. lia.
  + rewrite Hrange. unfold valid_length. by rewrite andb_true_iff, !Z.leb_le.
  + rewrite Hrange. unfold len. rewrite length_app. lia.
  + exact Hd.
  + exact Hv.
Qed.

Lemma encode_decoded_frame w v : decode_frame w = Ok v → encode_frame v = Ok w.
Proof.
  intros (H4 & _ & Hl & Hd & Hv)%decode_frame_inv.
  destruct (encode_decoded _ _ Hd) as [He _].
  assert (to_bytes_big 4 (len (drop 4 w)) = take 4 w) as Hp.
  { pose proof (to_from_bytes_big (take 4 w)) as Hp.
    assert (length (take 4 w) = 4%nat) as Ht by (unfold len in *; rewrite length_take; lia).
    rewrite Ht in Hp. rewrite <- Hp. f_equal. unfold len in *. rewrite length_drop. lia. }
  unfold encode_frame. rewrite Hv, He. cbn [mbind result_bind].
  rewrite Hp, take_drop. reflexivity.
Qed.

Lemma frame_run w v : decode_frame w = Ok v → bytes_run ([], None) w = Ok (([], None), [v]).
Proof.
  intros (H4 & Hn & Hl & Hd & Hv)%decode_frame_inv.
  rewrite <- (take_drop 4 w), bytes_run_app.
  assert (len (take 4 w) = 4) as Ht by (unfold len in *; rewrite length_take; lia).
  rewrite run_complete by (cbn [from_option id app]; len_lia). cbn [app]. unfold complete at 1.
  rewrite Hn. cbn [negb mbind result_bind].
  pose proof (valid_length_pos _ Hn).
  assert (len (drop 4 w) = from_bytes_big (take 4 w)) as Hdl
    by (unfold len in *; rewrite length_drop; lia).
  rewrite run_complete by (cbn [from_option id app]; len_lia). cbn [app]. unfold complete.
  rewrite Hd. cbn. by rewrite Hv.
Qed.

Lemma frames_run ws vs :
  Forall2 (λ w v, decode_frame w = Ok v) ws vs →
  bytes_run ([], None) (concat ws) = Ok (([], None), vs).
Proof.
  induction 1 as [|w v ws vs Hw _ IH]; [done|]. cbn [concat].
  rewrite bytes_run_app, (frame_run _ _ Hw). cbn. by rewrite IH.
Qed.

(** ** The reader over a whole stream *)

Section Stream.
Context {T : Type} `{Clock T}.
Implicit Types (r : reader T) (p : partial T).

Definition rst r : pstate := (r_buffer r, r_length r).

(** The times [ts] are usable by [r]: no clock runs backwards and no partial
    frame times out. *)
Definition timely r (ts : list T) : Prop :=
  Forall (λ t, clk_finite t = true ∧
    (∀ l, r_last r = Some l → clk_ltb t l = false) ∧
    (∀ s, r_started r = Some s → clk_leb (timeout r) (clk_sub t s) = false)) ts.

(** [feed] on each chunk in turn, collecting the frames. *)
Fixpoint feed_all r (chunks : list (bytes * T)) : reader T * result (list value) :=
  match chunks with
  | [] => (r, Ok [])
  | (c, t) :: chunks' =>
      match feed r c t with
      | (r', Ok vs) =>
          let '(r'', o) := feed_all r' chunks' in (r'', ws ← o; Ok (vs ++ ws))
      | (r', Err e) => (r', Err e)
      end
  end.

Lemma feed_simulates r c t q vs ts :
  r_closed r = false → wf_partial (rst r) → bytes_run (rst r) c = Ok (q, vs) →
  len c <= MAX_FRAME + 4 → 1 <= max_frames r → len vs <= max_frames r →
  q = ([], None) ∨ len vs < max_frames r →
  timely r (t :: ts) →
  Forall (λ t', clk_ltb t' t = false ∧ clk_leb (timeout r) (clk_sub t' t) = false) ts →
  ∃ r', feed r c t = (r', Ok vs) ∧ rst r' = q ∧ r_closed r' = false ∧
    timeout r' = timeout r ∧ max_frames r' = max_frames r ∧ timely r' ts.
Proof.
  intros Hc Hwf Hrun Hl Hm Hvs Hq Ht Hts.
  apply Forall_cons in Ht as [(Hfin & Hlast & Hst) Ht].
  destruct (feed_loop_simulates (length c) (max_frames r) t
    (Partial (r_buffer r) (r_length r) (r_started r)) c [] q vs)
    as (p' & Hloop & Hp & Hs); [done|done|done|len_lia|right; len_lia| |].
  { right. destruct Hq; [by left|right; len_lia]. }
  unfold feed. rewrite Hc. unfold clock_ok. rewrite Hfin. cbn [andb].
  assert (match r_last r with Some l => clk_ltb t l | None => false end = false) as ->
    by (destruct (r_last r); [by apply Hlast|done]).
  cbn [negb]. unfold feed_body. cbn [r_started timeout r_buffer r_length max_frames].
  assert (match r_started r with
          | Some s => clk_leb (timeout r) (clk_sub t s) | None => false end = false) as ->
    by (destruct (r_started r); [by apply Hst|done]).
  rewrite (proj2 (Z.ltb_ge _ _)) by done. rewrite Hloop. cbn [app].
  eexists. split_and!; [done| |done|done|done|].
  { unfold rst, pst in *. done. }
  apply Forall_forall. intros t' Hin.
  rewrite Forall_forall in Ht, Hts.
  destruct (Ht _ Hin) as (? & ? & ?), (Hts _ Hin) as [? ?]. cbn. split_and!; [done| |].
  - by intros l [= <-].
  - intros s Hs'. rewrite Hs' in Hs. destruct Hs as [|[[= ->]|Hs]]; [done|done|]. auto.
Qed.

(** Consecutive times of a well-behaved, prompt transport. *)
Definition prompt (limit : T) (t t' : T) : Prop :=
  clk_ltb t' t = false ∧ clk_leb limit (clk_sub t' t) = false.

Lemma feed_all_simulates r chunks vs :
  r_closed r = false → wf_partial (rst r) → 1 <= max_frames r →
  bytes_run (rst r) (concat chunks.*1) = Ok (([], None), vs) →
  Forall (λ c, len c <= MAX_FRAME + 4) chunks.*1 → len vs <= max_frames r →
  timely r chunks.*2 → StronglySorted (prompt (timeout r)) chunks.*2 →
  ∃ r', feed_all r chunks = (r', Ok vs) ∧ rst r' = ([], None) ∧ r_closed r' = false.
Proof.
  revert r vs. induction chunks as [|[c t] chunks IH]; intros r vs Hc Hwf Hm Hrun Hl Hvs Ht Hs.
  { cbn in Hrun. exists r. cbn. split_and!; congruence. }
  cbn [fmap list_fmap fst snd concat] in *.
  rewrite bytes_run_app in Hrun.
  apply bind_Ok in Hrun as ([q1 v1] & H1 & Hrun).
  apply bind_Ok in Hrun as ([q2 v2] & H2 & Hrun). injection Hrun as -> <-.
  apply Forall_cons in Hl as [Hlc Hl]. apply StronglySorted_inv in Hs as [Hs Hts].
  rewrite len_app in Hvs. pose proof (len_nonneg v2).
  destruct (feed_simulates r c t q1 v1 chunks.*2) as (r' & Hf & Hq & Hc' & Hto & Hmf & Ht');
    try done; [lia| |].
  { destruct v2 as [|v2 vs2]; [|right; len_lia].
    destruct (decide (concat chunks.*1 = [])) as [Hnil|Hne].
    - rewrite Hnil in H2. cbn in H2. left. congruence.
    - by apply run_silent in H2. }
  cbn [feed_all]. rewrite Hf.
  destruct (IH r' v2) as (r'' & Hr & Hidle & Hopen); try done.
  - rewrite Hq. by eapply bytes_run_wf.
  - by rewrite Hmf.
  - by rewrite Hq.
  - rewrite Hmf. pose proof (len_nonneg v1). lia.
  - by rewrite Hto.
  - rewrite Hr. cbn. eauto.
Qed.

(** The reader's invariant: never more buffered than awaited, nothing kept once
    closed. *)
Definition wf_reader r : Prop :=
  (r_closed r = false → wf_partial (rst r)) ∧
  (r_closed r = true → r_buffer r = [] ∧ r_length r = None ∧ r_started r = None).

Lemma close_wf r : wf_reader (close r).
Proof. by split. Qed.

Lemma feed_loop_wf fuel limit now p data out p' out' :
  wf_partial (pst p) → feed_loop fuel limit now p data out = Ok (p', out') →
  wf_partial (pst p') ∧ len out' <= Z.max (len out) limit.
Proof.
  revert p data out. induction fuel as [|fuel IH]; intros p data out Hwf.
  { destruct data; [|done]. intros [= <- <-]. split; [done|lia]. }
  destruct (decide (data = [])) as [->|Hd].
  { intros [= <- <-]. split; [done|lia]. }
  destruct (limit <=? len out) eqn:El.
  { destruct data; [done|]. cbn [feed_loop]. by rewrite El. }
  zb. destruct (feed_loop_step fuel limit now p data out Hd Hwf El) as [Hcount ->].
  intros ([q vs] & Hrun & Hgo)%bind_Ok.
  pose proof (bytes_run_wf _ _ _ _ Hwf Hrun) as Hq.
  case_match eqn:E; zb.
  - unfold pst in Hrun. rewrite run_fill in Hrun by done.
    injection Hrun as <- <-. injection Hgo as <- <-.
    split; [done|]. rewrite app_nil_r. lia.
  - apply IH in Hgo as [? Hlen]; [|by destruct q]. split; [done|].
    assert (len vs <= 1); [|len_lia].
    rewrite run_full in Hrun; [|done|].
    + unfold complete in Hrun. destruct (p_length p).
      * apply bind_Ok in Hrun as (v & _ & Hrun). by apply bind_Ok in Hrun as ([] & _ & [= _ <-]).
      * case_match; [done|]. by injection Hrun as _ <-.
    + destruct Hwf as [Hwf _]. unfold pst in Hwf. cbn in Hwf.
      change (default 4 (p_length p)) with (target p) in Hwf.
      unfold len in *. rewrite length_app, length_take in *. lia.
Qed.

Lemma feed_loop_wire fuel limit now (p : partial T) data out :
  (length data <= fuel)%nat → wf_partial (pst p) →
  wire_only (feed_loop fuel limit now p data out).
Proof.
  revert p data out. induction fuel as [|fuel IH]; intros p d out Hf Hwf.
  { destruct d; [wire_only|cbn in Hf; lia]. }
  destruct (decide (d = [])) as [->|Hd]; [wire_only|].
  destruct (limit <=? len out) eqn:El.
  { destruct d; [done|]. cbn [feed_loop]. rewrite El. wire_only. }
  zb. destruct (feed_loop_step fuel limit now p d out Hd Hwf El) as [Hcount ->].
  apply wire_only_bind; [apply bytes_run_wire|]. intros [q vs] Hrun. case_match; [wire_only|].
  apply IH; [rewrite length_drop; lia|].
  apply bytes_run_wf in Hrun; [|done]. by destruct q.
Qed.

(** [feed] keeps the invariant; it fails only with a [WireError], and then the
    reader is closed. *)
Lemma feed_wf r data now :
  wf_reader r →
  wf_reader (feed r data now).1 ∧
  ∀ e, (feed r data now).2 = Err e → wire_error e ∧ r_closed (feed r data now).1 = true.
Proof.
  intros [Hopen Hclosed]. unfold feed. destruct (r_closed r) eqn:Hc; cbn [fst snd].
  { split; [split; [by rewrite Hc|by intros _; apply Hclosed]|]. intros e [= <-]. split; [by eexists _, _|done]. }
  case_match; cbn [fst snd].
  { split; [apply close_wf|]. intros e [= <-]. split; [by eexists _, _|done]. }
  set (r1 := Reader _ _ _ _ _ _ _).
  assert (wire_only (feed_body r1 data now)) as Hw.
  { assert (wire_only (feed_loop (length data) (max_frames r1) now
      (Partial (r_buffer r1) (r_length r1) (r_started r1)) data [])) by
      (apply feed_loop_wire; [done|by apply Hopen]).
    unfold feed_body. destruct (match r_started r1 with Some _ => _ | None => _ end); wire_only. }
  destruct (feed_body r1 data now) as [[p out]|e] eqn:Hb; cbn [fst snd].
  - split; [|done]. split; [|done]. intros _. unfold feed_body in Hb.
    case_if Hb. case_if Hb.
    apply feed_loop_wf in Hb as [Hb _]; [|by apply Hopen]. exact Hb.
  - destruct (Hw e eq_refl) as (c & q & ->). cbn [fst snd].
    split; [apply close_wf|]. intros e [= <-]. split; [by eexists _, _|done].
Qed.

(** The objects a program can reach from a fresh reader. *)
Inductive reader_step r : reader T → Prop :=
| step_feed data now : reader_step r (feed r data now).1
| step_finish : reader_step r (finish r).1
| step_close : reader_step r (close r).

Lemma reader_step_wf r r' : reader_step r r' → wf_reader r → wf_reader r'.
Proof.
  intros [data now| |] Hwf; [by apply feed_wf| |apply close_wf].
  unfold finish. destruct (r_closed r); [done|apply close_wf].
Qed.

Lemma new_reader_wf zero t m r :
  new_reader zero t m = Ok r →
  wf_reader r ∧ r_closed r = false ∧ rst r = ([], None) ∧ timeout r = t ∧ max_frames r = m ∧
  r_started r = None ∧ r_last r = None ∧ 1 <= m <= 1024.
Proof.
  unfold new_reader. case_match; [done|]. case_match; [done|]. intros [= <-]. zb.
  split_and!; try done; try lia.
Qed.
End Stream.

(** ** Properties *)

(** A frame survives the wire in both directions: what [encode_frame] writes,
    [decode_frame] reads back (dicts in canonical order), and a frame that
    [decode_frame] accepts is the encoding of the value it returns, byte for byte. *)
Theorem frame_round_trip :
  (∀ v w, wf_value v → norm v = v → encode_frame v = Ok w → decode_frame w = Ok v) ∧
  (∀ w v, decode_frame w = Ok v → encode_frame v = Ok w).
Proof. split; [exact decode_encoded_frame|exact encode_decoded_frame]. Qed.

(** C29. Reassembly does not depend on how the transport cuts the stream: whatever
    the chunks, if together they are the concatenation of frames that [decode_frame]
    accepts one by one, the reader returns exactly those frames, in order, and ends
    idle and open.  The clock must not run backwards nor reach the timeout, and at
    most [max_frames] frames are sent. *)
Theorem reader_reassembles {T} `{Clock T} (zero limit : T) (m : Z) (r : reader T)
    (ws : list bytes) (vs : list value) (chunks : list (bytes * T))
    (Hr : new_reader zero limit m = Ok r)
    (Hframes : Forall2 (λ w v, decode_frame w = Ok v) ws vs)
    (Hcut : concat chunks.*1 = concat ws)
    (Hsize : Forall (λ c, len c <= MAX_FRAME + 4) chunks.*1)
    (Hcount : len vs <= m)
    (Hfinite : Forall (λ t, clk_finite t = true) chunks.*2)
    (Hprompt : StronglySorted (prompt limit) chunks.*2) :
  ∃ r', feed_all r chunks = (r', Ok vs) ∧ r_closed r' = false ∧ buffered_bytes r' = 0 ∧
    (finish r').2 = Ok tt.
Proof.
  destruct (new_reader_wf _ _ _ _ Hr) as ((Hwf & _) & Hc & Hst & Hto & Hmf & Hs & Hl & Hm).
  destruct (feed_all_simulates r chunks vs) as (r' & Hf & Hidle & Hopen); try done.
  - by apply Hwf.
  - rewrite Hmf. lia.
  - rewrite Hst, Hcut. by apply frames_run.
  - by rewrite Hmf.
  - eapply Forall_impl; [exact Hfinite|]. intros t Ht. cbn. rewrite Hs, Hl. by split_and!.
  - by rewrite Hto.
  - exists r'. unfold rst in Hidle. injection Hidle as Hb Hn.
    split_and!; [done|done|by unfold buffered_bytes; rewrite Hb|].
    unfold finish. by rewrite Hopen, Hb, Hn.
Qed.

(** A reader never holds a whole frame, and never more than [MAX_FRAME] bytes,
    whatever it is fed; the first failure closes it for good, with its buffer
    dropped, and nothing but a [WireError] is raised. *)
Theorem reader_safe {T} `{Clock T} (zero limit : T) (m : Z) (r0 r : reader T)
    (Hnew : new_reader zero limit m = Ok r0) (Hreach : rtc reader_step r0 r) :
  buffered_bytes r < MAX_FRAME ∧
  (r_closed r = true → buffered_bytes r = 0 ∧
     ∀ data now, feed r data now = (r, Err (wire "CLOSED"))) ∧
  ∀ data now e, (feed r data now).2 = Err e →
    (∃ c p, e = WireError c p) ∧ r_closed (feed r data now).1 = true.
Proof.
  apply new_reader_wf in Hnew as (Hwf & _).
  assert (wf_reader r) as Hr by (induction Hreach; eauto using reader_step_wf).
  split_and!.
  - unfold buffered_bytes. destruct Hr as [Hopen Hclosed].
    destruct (r_closed r); [by destruct (Hclosed eq_refl) as (-> & _)|].
    destruct (Hopen eq_refl) as [Hb Hv]. unfold rst in *. cbn [fst snd] in *.
    destruct (r_length r) as [n|]; [|by eapply Z.lt_le_trans].
    specialize (Hv n eq_refl). apply valid_length_pos in Hv. cbn in Hb. lia.
  - intros Hc. destruct Hr as [_ Hclosed]. destruct (Hclosed Hc) as (Hb & _).
    unfold buffered_bytes, feed. rewrite Hb, Hc. by split.
  - intros data now e. by apply feed_wf.
Qed.

(** ** The properties at a concrete frame *)

Definition sample_frame : value :=
  VDict [(KInt 0, VInt 1); (KInt 1, VInt 62); (KInt 2, VBytes (repeat x07 16));
         (KInt 3, VBytes (repeat x09 32));
         (KInt 4, VDict [(KInt 0, VBytes (repeat x05 16))]); (KInt 5, VInt 0)].

Definition sample_wire : bytes :=
  raw [0; 0; 0; 81; 0xA6; 0; 1; 1; 0x18; 62; 2; 0x50] ++ repeat x07 16 ++
  raw [3; 0x58; 32] ++ repeat x09 32 ++ raw [4; 0xA1; 0; 0x50] ++ repeat x05 16 ++
  raw [5; 0].

Example sample_decodes : decode_frame sample_wire = Ok sample_frame.
Proof. vm_compute. reflexivity. Qed.

Lemma reader_reassembles_witness :
  ∃ r r', new_reader 0 30 1 = Ok r ∧
    feed_all r [(take 3 sample_wire, 0); (take 20 (drop 3 sample_wire), 5);
                (drop 23 sample_wire, 9)] = (r', Ok [sample_frame]) ∧
    r_closed r' = false ∧ buffered_bytes r' = 0 ∧ (finish r').2 = Ok tt.
Proof.
  eexists. assert (new_reader 0 30 1 = Ok (Reader 30 1 [] None None None false)) as Hr
    by reflexivity.
  destruct (reader_reassembles 0 30 1 _ [sample_wire] [sample_frame]
    [(take 3 sample_wire, 0); (take 20 (drop 3 sample_wire), 5); (drop 23 sample_wire, 9)] Hr)
    as (r' & Hf & Hc & Hb & Hfin).
  - constructor; [exact sample_decodes|constructor].
  - vm_compute. reflexivity.
  - apply (bool_decide_unpack _). vm_compute. exact I.
  - vm_compute. discriminate.
  - repeat constructor.
  - repeat constructor.
  - exists r'. split; [exact Hr|]. split; [exact Hf|]. auto.
Defined.

Lemma reader_safe_witness :
  ∃ r : reader Z, r_closed r = true ∧ buffered_bytes r = 0 ∧
    ∀ data now, feed r data now = (r, Err (wire "CLOSED")).
Proof.
  pose (r0 := Reader 30 1 [] None None None false : reader Z).
  pose (r := (feed r0 (raw [0; 0; 0; 0]) 0).1).
  assert (new_reader 0 30 1 = Ok r0) as Hr by reflexivity.
  destruct (reader_safe 0 30 1 r0 r Hr) as (_ & Hc & _).
  - eapply rtc_l; [apply (step_feed r0 (raw [0; 0; 0; 0]) 0)|apply rtc_refl].
  - exists r. split; [vm_compute; reflexivity|]. apply Hc. vm_compute. reflexivity.
Defined.

Lemma frame_round_trip_witness :
  encode_frame sample_frame = Ok sample_wire ∧ decode_frame sample_wire = Ok sample_frame.
Proof.
  split; [|exact sample_decodes]. apply frame_round_trip. exact sample_decodes.
Defined.
