(* ===== verification/Negotiation.v ===== *)
(** * HELLO transcripts and the replay window (experiments/g0-wire/par_wire/negotiation.py)

    The theorems hold for any [Hash]: nothing but the output length is used.  What a
    hash should promise is stated by exhibiting the colliding inputs instead. *)

From S2P Require Import Prelude Bytes Value Codec Schema SchemaSpec Clock Hash Framing FramingSpec.
Local Open Scope Z_scope.

(** ** Transcripts *)

Definition domain (label : string) (parts : list value) : result bytes :=
  if negb (String.eqb label "session-auth" || String.eqb label "session-id")
  then Err (wire "DOMAIN")
  else encode (VList [VStr (str "PAR"); VInt 1; VStr (str label); VList parts]).

Record transcript := Transcript {
  canonical : bytes;
  candidate_session_id : bytes;
  authenticated : bool;
}.

Definition signing_bytes (t : transcript) (role : string) : result bytes :=
  if negb (String.eqb role "initiator" || String.eqb role "responder")
  then Err (wire "ROLE")
  else domain "session-auth" [VBytes (canonical t); VStr (str role)].

Definition auth_digest `{Hash} (t : transcript) (role : string) : result bytes :=
  b ← signing_bytes t role; Ok (sha256 b).

(** [x in l] for a list object. *)
Definition list_has (l x : value) : result bool :=
  l ← as_list l; Ok (bool_decide (x ∈ l)).

Definition peer_ok (peer : bytes) : bool := (1 <=? len peer) && (len peer <=? 128).

Definition wire_name : pystr := str "par/1-draft-2".

(** [a != b] raises [code]. *)
Definition same (a b : value) (code : string) : result unit :=
  require (bool_decide (a = b)) (wire code).

Definition payload `{Hash} (app na nb pa pb : value) (initiator responder profile : bytes)
    (selected_wire : pystr) (selected_suite : Z) : value :=
  VDict (to_dict
    [(0, VInt 1); (1, app); (2, VStr selected_wire); (3, VInt selected_suite);
     (4, VBytes profile); (5, VBytes (sha256 initiator)); (6, VBytes (sha256 responder));
     (7, na); (8, nb); (9, pa); (10, pb); (11, VStr (str "initiator"));
     (12, VStr (str "responder"))]).

Definition build_transcript `{Hash} (initiator responder profile initiator_peer responder_peer : bytes)
    (selected_wire : pystr) (selected_suite : Z) : result transcript :=
  _ ← require (len profile =? 32) (wire "PROFILE");
  _ ← require (peer_ok initiator_peer && peer_ok responder_peer) (wire "TRANSPORT_BINDING");
  a ← decode_frame initiator; b ← decode_frame responder;
  ca ← getitem a 1; cb ← getitem b 1;
  _ ← require (bool_decide (ca = VInt 1) && bool_decide (cb = VInt 1)) (wire "MESSAGE_TYPE");
  aa ← getitem a 4; bb ← getitem b 4;
  app ← getitem aa 0; app' ← getitem bb 0;
  _ ← same app app' "APP_BINDING";
  fa ← getitem aa 5; fb ← getitem bb 5;
  _ ← same fa (VBytes profile) "PROFILE"; _ ← same fb (VBytes profile) "PROFILE";
  pa ← getitem aa 6; pb ← getitem bb 6;
  _ ← same pa (VBytes initiator_peer) "TRANSPORT_BINDING";
  _ ← same pb (VBytes responder_peer) "TRANSPORT_BINDING";
  na ← getitem aa 2; nb ← getitem bb 2;
  _ ← require (negb (bool_decide (pa = pb) || bool_decide (na = nb))) (wire "REFLECTION");
  _ ← require (bool_decide (selected_wire = wire_name) && (selected_suite =? 1))
        (wire "NEGOTIATION");
  wa ← getitem aa 3; sa ← getitem aa 4; wb ← getitem bb 3; sb ← getitem bb 4;
  i1 ← list_has wa (VStr selected_wire); i2 ← list_has sa (VInt selected_suite);
  i3 ← list_has wb (VStr selected_wire); i4 ← list_has sb (VInt selected_suite);
  _ ← require (i1 && i2 && i3 && i4) (wire "NEGOTIATION");
  canonical ← encode (payload app na nb pa pb initiator responder profile
                        selected_wire selected_suite);
  d ← domain "session-id" [VBytes canonical];
  Ok (Transcript canonical (sha256 d) false).

(** ** The replay window *)

Section Replay.
Context {T : Type} `{Clock T}.

Record window := Window {
  capacity : Z;
  ttl : T;
  w_entries : gmap bytes T;
  w_clock : option T;
}.

Definition new_window (zero : T) (capacity : Z) (ttl : T) : result window :=
  if negb ((1 <=? capacity) && (capacity <=? 1000000)) then Err ValueError
  else if negb (clk_finite ttl && clk_ltb zero ttl) then Err ValueError
  else Ok (Window capacity ttl ∅ None).

(** The entries whose expiry is still in the future. *)
Definition live (now : T) (entries : gmap bytes T) : gmap bytes T :=
  filter (λ kv, clk_ltb now kv.2 = true) entries.

(** [remember]; past the clock test the clock and the purge stay, whatever
    happens next. *)
Definition remember (w : window) (digest : bytes) (now : T) : window * result unit :=
  if negb (len digest =? 32) then (w, Err (wire "SCHEMA"))
  else if negb (clk_finite now)
          || match w_clock w with Some c => clk_ltb now c | None => false end
  then (w, Err (wire "CLOCK"))
  else
    let entries := live now (w_entries w) in
    let w := Window (capacity w) (ttl w) entries (Some now) in
    match entries !! digest with
    | Some _ => (w, Err (wire "REPLAY"))
    | None =>
        if capacity w <=? Z.of_nat (size entries) then (w, Err (wire "RESOURCE_LIMIT"))
        else (Window (capacity w) (ttl w) (<[digest := clk_add now (ttl w)]> entries)
                (Some now), Ok tt)
    end.
End Replay.
#[global] Arguments window : clear implicits.
