(* ===== verification/NegotiationSpec.v ===== *)
(** * What a transcript binds and what the replay window promises *)

From S2P Require Import Prelude Bytes Value Codec Flat Schema SchemaSpec Clock Hash Framing FramingSpec Negotiation.
Local Open Scope Z_scope.

#[local] Opaque decode encode validate_frame.

(** ** Domains *)

Lemma domain_inj label label' parts parts' b :
  Forall leaf parts → Forall leaf parts' →
  domain label parts = Ok b → domain label' parts' = Ok b →
  str label = str label' ∧ parts = parts'.
Proof.
  intros Hp Hp'. unfold domain. destruct (negb _); [done|]. intros H.
  destruct (negb _); [done|]. intros H'.
  destruct (leaves_list _ Hp) as [W N], (leaves_list _ Hp') as [W' N'].
  assert (∀ l p, wf_value (VList p) ∧ norm (VList p) = VList p →
    wf_value (VList [VStr (str "PAR"); VInt 1; VStr (str l); VList p]) ∧
    norm (VList [VStr (str "PAR"); VInt 1; VStr (str l); VList p]) =
    VList [VStr (str "PAR"); VInt 1; VStr (str l); VList p]) as Hwrap.
  { intros l p [Wp Np]. split; [apply wf_value_list; by repeat constructor|].
    cbn in Np |- *. by rewrite Np. }
  destruct (Hwrap label parts) as [? ?]; [done|].
  destruct (Hwrap label' parts') as [? ?]; [done|].
  assert (VList [VStr (str "PAR"); VInt 1; VStr (str label); VList parts] =
          VList [VStr (str "PAR"); VInt 1; VStr (str label'); VList parts']) as E
    by (eapply encode_inj; eauto).
  by injection E as -> ->.
Qed.

(** ** What a successful transcript has checked *)

(** A decoded HELLO with the fields the transcript reads. *)
Definition hello (w : bytes) (app nonce peer profile : value) (wires suites : list value)
    : Prop :=
  ∃ v body, decode_frame w = Ok v ∧ getitem v 1 = Ok (VInt 1) ∧ getitem v 4 = Ok body ∧
    getitem body 0 = Ok app ∧ getitem body 2 = Ok nonce ∧ getitem body 5 = Ok profile ∧
    getitem body 6 = Ok peer ∧ getitem body 3 = Ok (VList wires) ∧
    getitem body 4 = Ok (VList suites).

Section Transcripts.
Context `{Hash}.

Lemma same_Ok a b c : same a b c = Ok tt → a = b.
Proof. by intros E%require_Ok%bool_decide_eq_true. Qed.

Lemma as_list_Ok v l : as_list v = Ok l → v = VList l.
Proof. destruct v; try done. by intros [= ->]. Qed.

Lemma list_has_Ok l x b : list_has l x = Ok b → ∃ vs, l = VList vs ∧ b = bool_decide (x ∈ vs).
Proof. intros (vs & ->%as_list_Ok & [= <-])%bind_Ok. by exists vs. Qed.

Lemma build_transcript_Ok i r profile pi pr w s t :
  build_transcript i r profile pi pr w s = Ok t →
  len profile = 32 ∧ 1 <= len pi <= 128 ∧ 1 <= len pr <= 128 ∧ w = wire_name ∧ s = 1 ∧
  ∃ app na nb wa sa wb sb d,
    hello i app na (VBytes pi) (VBytes profile) wa sa ∧
    hello r app nb (VBytes pr) (VBytes profile) wb sb ∧
    pi ≠ pr ∧ na ≠ nb ∧
    VStr wire_name ∈ wa ∧ VInt 1 ∈ sa ∧ VStr wire_name ∈ wb ∧ VInt 1 ∈ sb ∧
    encode (payload app na nb (VBytes pi) (VBytes pr) i r profile wire_name 1)
      = Ok (canonical t) ∧
    domain "session-id" [VBytes (canonical t)] = Ok d ∧
    candidate_session_id t = sha256 d ∧ authenticated t = false.
Proof.
  unfold build_transcript. intros E0.
  apply bind_Ok in E0 as ([] & Hprof%require_Ok & E0).
  apply bind_Ok in E0 as ([] & Hpeers%require_Ok & E0).
  apply bind_Ok in E0 as (a & Ha & E0). apply bind_Ok in E0 as (b & Hb & E0).
  apply bind_Ok in E0 as (ca & Hca & E0). apply bind_Ok in E0 as (cb & Hcb & E0).
  apply bind_Ok in E0 as ([] & Hcode%require_Ok & E0).
  apply bind_Ok in E0 as (aa & Haa & E0). apply bind_Ok in E0 as (bb & Hbb & E0).
  apply bind_Ok in E0 as (app & Happ & E0). apply bind_Ok in E0 as (app' & Happ' & E0).
  apply bind_Ok in E0 as ([] & <-%same_Ok & E0).
  apply bind_Ok in E0 as (fa & Hfa & E0). apply bind_Ok in E0 as (fb & Hfb & E0).
  apply bind_Ok in E0 as ([] & ->%same_Ok & E0). apply bind_Ok in E0 as ([] & ->%same_Ok & E0).
  apply bind_Ok in E0 as (pa & Hpa & E0). apply bind_Ok in E0 as (pb & Hpb & E0).
  apply bind_Ok in E0 as ([] & ->%same_Ok & E0). apply bind_Ok in E0 as ([] & ->%same_Ok & E0).
  apply bind_Ok in E0 as (na & Hna & E0). apply bind_Ok in E0 as (nb & Hnb & E0).
  apply bind_Ok in E0 as ([] & Hrefl%require_Ok & E0).
  apply bind_Ok in E0 as ([] & Hsel%require_Ok & E0).
  apply bind_Ok in E0 as (wa & Hwa & E0). apply bind_Ok in E0 as (sa & Hsa & E0).
  apply bind_Ok in E0 as (wb & Hwb & E0). apply bind_Ok in E0 as (sb & Hsb & E0).
  apply bind_Ok in E0 as (i1 & (l1 & -> & ->)%list_has_Ok & E0).
  apply bind_Ok in E0 as (i2 & (l2 & -> & ->)%list_has_Ok & E0).
  apply bind_Ok in E0 as (i3 & (l3 & -> & ->)%list_has_Ok & E0).
  apply bind_Ok in E0 as (i4 & (l4 & -> & ->)%list_has_Ok & E0).
  apply bind_Ok in E0 as ([] & Hin%require_Ok & E0).
  apply bind_Ok in E0 as (c & Hc & E0). apply bind_Ok in E0 as (d & Hd & E0).
  injection E0 as <-. unfold peer_ok in Hpeers.
  rewrite !andb_true_iff, !bool_decide_eq_true in *.
  rewrite negb_true_iff, orb_false_iff, !bool_decide_eq_false in Hrefl.
  destruct Hcode as [-> ->], Hsel as [-> ->%Z.eqb_eq], Hrefl as [Hp Hn].
  destruct Hin as [[[? ?] ?] ?]. zb.
  split; [done|]. split; [lia|]. split; [lia|]. split; [done|]. split; [done|].
  exists app, na, nb, l1, l2, l3, l4, d. unfold hello.
  split_and!; eauto 20. congruence.
Qed.

(** A decoded frame has a message code. *)
Lemma frame_code w v : decode_frame w = Ok v → ∃ c, getitem v 1 = Ok (VInt c).
Proof.
  intros (_ & _ & _ & _ & Hv)%decode_frame_inv.
  apply valid_frame in Hv as (d & c & ? & ? & ? & ? & -> & H1 & _).
  exists c. by apply getitem_dict.
Qed.

Lemma decode_frame_wire w : wire_only (decode_frame w).
Proof.
  unfold decode_frame. pose proof validate_frame_wire_only. wire_only.
Qed.

(** A decoded frame with code 1 has every field of a HELLO. *)
Lemma read_hello w v :
  decode_frame w = Ok v → getitem v 1 = Ok (VInt 1) →
  ∃ app nonce peer profile wires suites,
    hello w app nonce peer profile wires suites ∧ leaf app ∧ leaf nonce.
Proof.
  intros Hw H1. pose proof Hw as (_ & _ & _ & _ & Hv)%decode_frame_inv.
  destruct (valid_body v 1 "hello-body" Hv H1) as (d & x & db & -> & _ & _ & H4 & _ & Hd);
    [reflexivity|vm_compute; reflexivity|reflexivity|exists 0; eexists; vm_compute; reflexivity|].
  destruct (Hd 0 _ eq_refl) as (y0 & E0 & C0). destruct (Hd 2 _ eq_refl) as (y2 & E2 & C2).
  destruct (Hd 3 _ eq_refl) as (y3 & E3 & C3). destruct (Hd 4 _ eq_refl) as (y4 & E4 & C4).
  destruct (Hd 5 _ eq_refl) as (y5 & E5 & C5). destruct (Hd 6 _ eq_refl) as (y6 & E6 & C6).
  apply conforms_list in C3 as (l3 & -> & _). apply conforms_list in C4 as (l4 & -> & _).
  exists y0, y2, y6, y5, l3, l4. split_and!.
  - exists (VDict d), (VDict db). split_and!; done.
  - eapply conforms_named in C0; [|by apply mem_false|vm_compute; reflexivity].
    by apply conforms_sized_str in C0 as [s ->].
  - eapply conforms_named in C2; [|by apply mem_false|vm_compute; reflexivity].
    by apply conforms_sized_bytes in C2 as (b & -> & _).
Qed.

Lemma hello_leaves w app nonce peer profile wires suites :
  hello w app nonce peer profile wires suites → leaf app ∧ leaf nonce.
Proof.
  intros (v & body & Hw & H1 & H4 & H0 & H2 & _).
  destruct (read_hello w v Hw H1) as (a & n & ? & ? & ? & ? & Hh & La & Ln).
  destruct Hh as (v' & body' & Hw' & _ & H4' & H0' & H2' & _).
  assert (v' = v) as -> by congruence. assert (body' = body) as -> by congruence.
  split; congruence.
Qed.

(** The transcript payload determines its parts. *)
Lemma payload_ok app na nb i r profile pi pr :
  leaf app → leaf na → leaf nb →
  wf_value (payload app na nb (VBytes pi) (VBytes pr) i r profile wire_name 1) ∧
  norm (payload app na nb (VBytes pi) (VBytes pr) i r profile wire_name 1) =
    payload app na nb (VBytes pi) (VBytes pr) i r profile wire_name 1.
Proof.
  intros [Wa Na]%leaf_wf [Wn Nn]%leaf_wf [Wm Nm]%leaf_wf. unfold payload.
  assert (StronglySorted Z.lt [0; 1; 2; 3; 4; 5; 6; 7; 8; 9; 10; 11; 12])
    by (repeat constructor).
  split.
  - apply wf_to_dict; [by apply strictly_sorted_NoDup|]. by repeat constructor.
  - apply norm_to_dict; [done|]. by repeat constructor.
Qed.
End Transcripts.

(** ** The replay window *)

Section ReplayWindow.
Context {T : Type} `{ClockLaws T}.
Implicit Types (w : window T) (h : list (bytes * T)).

(** Windows reachable by calls of [remember], with the digests it accepted. *)
Inductive replay_run w0 : window T → list (bytes * T) → Prop :=
| replay_start : replay_run w0 w0 []
| replay_next w h d t :
    replay_run w0 w h →
    replay_run w0 (remember w d t).1
      (if is_ok (remember w d t).2 then (d, t) :: h else h).

Definition clock_accepts w (now : T) : Prop :=
  clk_finite now = true ∧ ∀ c, w_clock w = Some c → clk_ltb now c = false.

(** Every entry was accepted, and every accepted digest is an entry until it expires. *)
Record replay_inv w h : Prop := {
  inv_size : Z.of_nat (size (w_entries w)) <= capacity w;
  inv_entry d x : w_entries w !! d = Some x → ∃ t, (d, t) ∈ h ∧ x = clk_add t (ttl w);
  inv_kept d t c : (d, t) ∈ h → w_clock w = Some c → clk_ltb c (clk_add t (ttl w)) = true →
    w_entries w !! d = Some (clk_add t (ttl w));
  inv_clock : w_clock w = None → h = [];
  inv_finite c : w_clock w = Some c → clk_finite c = true;
}.

Lemma live_lookup now m d x : live now m !! d = Some x ↔ m !! d = Some x ∧ clk_ltb now x = true.
Proof. unfold live. by rewrite map_lookup_filter_Some. Qed.

Lemma live_size now m : (size (live now m) <= size m)%nat.
Proof. apply map_subseteq_size, map_filter_subseteq. Qed.

(** A digest that is live now was live when it was last looked at. *)
Lemma still_live w now t :
  clock_accepts w now → ∀ c, w_clock w = Some c → clk_finite c = true →
  clk_ltb now (clk_add t (ttl w)) = true → clk_ltb c (clk_add t (ttl w)) = true.
Proof.
  intros [_ Hnow] c Hc Hf Hlt. destruct (clk_ltb_cotrans _ _ c Hf Hlt) as [E|E]; [|done].
  by rewrite (Hnow _ Hc) in E.
Qed.

(** After the purge at an acceptable time, the entries are exactly the accepted
    digests that are still live. *)
Lemma live_spec w h now d :
  replay_inv w h → clock_accepts w now →
  is_Some (live now (w_entries w) !! d) ↔
    ∃ t, (d, t) ∈ h ∧ clk_ltb now (clk_add t (ttl w)) = true.
Proof.
  intros Hi Hnow. split.
  - intros [x [Hx Hlt]%live_lookup].
    destruct (inv_entry _ _ Hi _ _ Hx) as (t & Ht & ->). eauto.
  - intros (t & Ht & Hlt). destruct (w_clock w) as [c|] eqn:Hc.
    + exists (clk_add t (ttl w)). apply live_lookup. split; [|done].
      eapply (inv_kept _ _ Hi); [done|done|].
      eapply still_live; eauto using inv_finite.
    + rewrite (inv_clock _ _ Hi Hc) in Ht. by apply not_elem_of_nil in Ht.
Qed.

(** [remember] at an acceptable time, case by case. *)
Lemma remember_cases w d now :
  len d = 32 → clock_accepts w now →
  let m := live now (w_entries w) in
  remember w d now =
    match m !! d with
    | Some _ => (Window (capacity w) (ttl w) m (Some now), Err (wire "REPLAY"))
    | None =>
        if capacity w <=? Z.of_nat (size m)
        then (Window (capacity w) (ttl w) m (Some now), Err (wire "RESOURCE_LIMIT"))
        else (Window (capacity w) (ttl w) (<[d := clk_add now (ttl w)]> m) (Some now), Ok tt)
    end.
Proof.
  intros Hd [Hf Hc]. unfold remember. rewrite (proj2 (Z.eqb_eq _ _) Hd), Hf. cbn [negb orb].
  destruct (w_clock w) as [c|] eqn:E; [by rewrite (Hc c) by done|done].
Qed.

Lemma remember_refused w d now :
  (len d = 32 ∧ clock_accepts w now) ∨
  ((remember w d now).1 = w ∧ is_ok (remember w d now).2 = false).
Proof.
  unfold remember. destruct (len d =? 32) eqn:Ed; [|by right]. cbn [negb].
  destruct (clk_finite now) eqn:Ef; [|by right]. cbn [negb orb]. zb.
  destruct (w_clock w) as [c|] eqn:Hc.
  - destruct (clk_ltb now c) eqn:El; [by right|]. left. split; [done|]. split; [done|].
    intros c'. rewrite Hc. by intros [= <-].
  - left. split; [done|]. split; [done|]. intros c'. by rewrite Hc.
Qed.

Lemma replay_inv_step w h d now :
  replay_inv w h → replay_inv (remember w d now).1
    (if is_ok (remember w d now).2 then (d, now) :: h else h).
Proof.
  intros Hi. destruct (remember_refused w d now) as [[Hd Hnow]|[-> ->]]; [|done].
  rewrite (remember_cases _ _ _ Hd Hnow). cbv zeta.
  set (m := live now (w_entries w)).
  assert (Z.of_nat (size m) <= capacity w) as Hsize.
  { pose proof (live_size now (w_entries w)) as Hl. fold m in Hl. pose proof (inv_size _ _ Hi). lia. }
  assert (∀ d x, m !! d = Some x → ∃ t, (d, t) ∈ h ∧ x = clk_add t (ttl w)) as Hentry.
  { intros d' x [Hx _]%live_lookup. by eapply inv_entry. }
  assert (∀ d t, (d, t) ∈ h → clk_ltb now (clk_add t (ttl w)) = true →
    m !! d = Some (clk_add t (ttl w))) as Hkept.
  { intros d' t Ht Hlt. apply live_lookup. split; [|done].
    destruct (w_clock w) as [c|] eqn:Hc.
    - eapply inv_kept; [done..|]. eapply still_live; eauto using inv_finite.
    - rewrite (inv_clock _ _ Hi Hc) in Ht. by apply not_elem_of_nil in Ht. }
  assert (replay_inv (Window (capacity w) (ttl w) m (Some now)) h) as Hpurged.
  { split; cbn; [done|done|..]; [by intros d' t c Ht [= <-]; apply Hkept|done|].
    intros c [= <-]. apply Hnow. }
  destruct (m !! d) as [x|] eqn:Hm; [exact Hpurged|].
  case_match eqn:Hcap; [exact Hpurged|]. cbn. zb. split; cbn.
  - rewrite map_size_insert_None by done. lia.
  - intros d' x. rewrite lookup_insert_Some. intros [[<- <-]|[_ Hx]].
    + exists now. split; [by left|done].
    + destruct (Hentry _ _ Hx) as (t & ? & ->). exists t. split; [by right|done].
  - intros d' t c Ht [= <-] Hlt. apply elem_of_cons in Ht as [[= -> ->]|Ht].
    + by rewrite lookup_insert_eq.
    + rewrite lookup_insert_ne; [by apply Hkept|]. intros <-.
      rewrite (Hkept _ _ Ht Hlt) in Hm. done.
  - done.
  - intros c [= <-]. apply Hnow.
Qed.

Lemma replay_run_inv zero cap t w0 w h :
  new_window zero cap t = Ok w0 → replay_run w0 w h →
  replay_inv w h ∧ capacity w = cap ∧ ttl w = t.
Proof.
  unfold new_window. case_match; [done|]. case_match; [done|]. intros [= <-] Hrun. zb.
  induction Hrun as [|w h d now Hrun (Hi & Hcap & Httl)].
  - split_and!; [|done|done]. split; cbn [w_entries w_clock capacity ttl]; try done.
    rewrite map_size_empty. lia.
  - split_and!; [by apply replay_inv_step|..];
      destruct (remember_refused w d now) as [[Hd Hnow]|[-> _]]; try done;
      rewrite (remember_cases _ _ _ Hd Hnow); cbv zeta; by repeat case_match.
Qed.
End ReplayWindow.

(** ** Properties *)

(** C30. The session id binds the whole negotiation: two transcripts with the same
    session id have the same canonical bytes, unless the two hashed inputs collide;
    and the canonical bytes determine the profile, both peers and, unless SHA-256
    collides on them, both HELLO frames. *)
Theorem transcript_binds `{Hash} i r p pi pr w s t i' r' p' pi' pr' w' s' t'
    (H1 : build_transcript i r p pi pr w s = Ok t)
    (H2 : build_transcript i' r' p' pi' pr' w' s' = Ok t') :
  (candidate_session_id t = candidate_session_id t' →
     canonical t = canonical t' ∨
     ∃ d d', domain "session-id" [VBytes (canonical t)] = Ok d ∧
       domain "session-id" [VBytes (canonical t')] = Ok d' ∧ d ≠ d' ∧ sha256 d = sha256 d') ∧
  (canonical t = canonical t' →
     p = p' ∧ pi = pi' ∧ pr = pr' ∧ w = w' ∧ s = s' ∧ sha256 i = sha256 i' ∧ sha256 r = sha256 r').
Proof.
  apply build_transcript_Ok in H1 as (_ & _ & _ & -> & -> & app & na & nb & ? & ? & ? & ? & d &
    [La Ln]%hello_leaves & [_ Lm]%hello_leaves & _ & _ & _ & _ & _ & _ & E & D & S & _).
  apply build_transcript_Ok in H2 as (_ & _ & _ & -> & -> & app' & na' & nb' & ? & ? & ? & ? & d' &
    [La' Ln']%hello_leaves & [_ Lm']%hello_leaves & _ & _ & _ & _ & _ & _ & E' & D' & S' & _).
  split.
  - intros Hs. destruct (decide (d = d')) as [<-|Hd]; [left|right].
    + assert (∀ c, Forall leaf [VBytes c]) as Hl by (by repeat constructor).
      by destruct (domain_inj _ _ _ _ _ (Hl _) (Hl _) D D') as [_ [= ->]].
    + exists d, d'. split_and!; congruence.
  - intros Hc. rewrite <- Hc in E'.
    destruct (payload_ok app na nb i r p pi pr) as [W N]; [done..|].
    destruct (payload_ok app' na' nb' i' r' p' pi' pr') as [W' N']; [done..|].
    pose proof (encode_inj _ _ _ W W' N N' E E') as Heq.
    unfold payload, to_dict in Heq. cbn in Heq. injection Heq as. by subst.
Qed.

(** The proof of possession is bound to the role and to the session: signing
    inputs for different roles or different transcripts differ, and none of them is
    the input of a session id. *)
Theorem signing_separated t t' role role' b b'
    (H1 : signing_bytes t role = Ok b) (H2 : signing_bytes t' role' = Ok b') :
  (b = b' → role = role' ∧ canonical t = canonical t') ∧
  ∀ parts d, Forall leaf parts → domain "session-id" parts = Ok d → b ≠ d.
Proof.
  unfold signing_bytes in *. destruct (negb _) eqn:R; [done|]. destruct (negb (_ || _)) eqn:R' in H2; [done|].
  assert (∀ c x, Forall leaf [VBytes c; VStr x]) as Hl by (by repeat constructor).
  split.
  - intros <-. apply (domain_inj _ _ _ _ _ (Hl _ _) (Hl _ _) H1) in H2 as [_ [= Hc Hr]].
    split; [|done]. zb. rewrite !String.eqb_eq in *. naive_solver.
  - intros parts d Hp Hd <-.
    by apply (domain_inj _ _ _ _ _ (Hl _ _) Hp H1) in Hd as [? _].
Qed.

(** [build_transcript] answers every input with a transcript or a [WireError]:
    the frames it decodes always have the fields it reads. *)
Theorem build_transcript_errors `{Hash} i r p pi pr w s e
    (H1 : build_transcript i r p pi pr w s = Err e) : ∃ c q, e = WireError c q.
Proof.
  revert e H1. change (wire_only (build_transcript i r p pi pr w s)). unfold build_transcript.
  apply wire_only_bind; [wire_only|intros _ _]. apply wire_only_bind; [wire_only|intros _ _].
  apply wire_only_bind; [apply decode_frame_wire|intros a Ha].
  apply wire_only_bind; [apply decode_frame_wire|intros b Hb].
  destruct (frame_code _ _ Ha) as [ca Hca], (frame_code _ _ Hb) as [cb Hcb].
  eapply wire_only_step; [exact Hca|]. eapply wire_only_step; [exact Hcb|].
  apply wire_only_bind; [wire_only|intros [] Hcode%require_Ok].
  rewrite andb_true_iff, !bool_decide_eq_true in Hcode. destruct Hcode as [[= ->] [= ->]].
  destruct (read_hello _ _ Ha Hca) as (? & ? & ? & ? & ? & ? &
    (a' & aa & Ha' & _ & A4 & A0 & A2 & A5 & A6 & A3 & A4') & _).
  destruct (read_hello _ _ Hb Hcb) as (? & ? & ? & ? & ? & ? &
    (b' & bb & Hb' & _ & B4 & B0 & B2 & B5 & B6 & B3 & B4') & _).
  assert (a' = a) as -> by congruence. assert (b' = b) as -> by congruence.
  unfold same, domain.
  repeat first
    [ eapply wire_only_step; [eassumption|]
    | eapply wire_only_step; [reflexivity|]
    | apply wire_only_bind; [solve [wire_only]|intros ? _] ].
  wire_only.
Qed.

(** The replay window is exact: a digest is refused as a replay exactly when it
    was accepted before and has not expired, it is refused for lack of room only when
    [capacity] digests are live, and it is accepted otherwise; the window never holds
    more than [capacity] entries. *)
Theorem replay_window_exact {T} `{ClockLaws T} (zero : T) (cap : Z) (t : T) (w0 w : window T)
    (h : list (bytes * T)) (d : bytes) (now : T)
    (Hnew : new_window zero cap t = Ok w0) (Hrun : replay_run w0 w h)
    (Hd : len d = 32) (Hnow : clock_accepts w now) :
  Z.of_nat (size (w_entries w)) <= cap ∧
  ((remember w d now).2 = Err (wire "REPLAY") ↔
     ∃ t0, (d, t0) ∈ h ∧ clk_ltb now (clk_add t0 t) = true) ∧
  ((remember w d now).2 = Err (wire "RESOURCE_LIMIT") →
     cap = Z.of_nat (size (live now (w_entries w)))) ∧
  ((remember w d now).2 = Ok tt ∨ (remember w d now).2 = Err (wire "REPLAY") ∨
     (remember w d now).2 = Err (wire "RESOURCE_LIMIT")).
Proof.
  destruct (replay_run_inv _ _ _ _ _ _ Hnew Hrun) as (Hi & <- & <-).
  pose proof (inv_size _ _ Hi) as Hs. pose proof (live_size now (w_entries w)) as Hl.
  rewrite <- (live_spec _ _ _ d Hi Hnow), (remember_cases _ _ _ Hd Hnow). cbv zeta.
  split; [done|]. destruct (live now (w_entries w) !! d) as [x|] eqn:E.
  - split_and!; [|done|auto]. by split.
  - case_match; zb; cbn; (split_and!; [|intros; lia||done|auto]); split; try done; by intros [? ?].
Qed.

(** ** The properties at concrete inputs *)

Definition sample_hello (nonce peer : byte) : bytes :=
  default [] (match encode_frame (VDict
    [(KInt 0, VInt 1); (KInt 1, VInt 1); (KInt 2, VBytes (repeat x01 16)); (KInt 3, VNone);
     (KInt 4, VDict
       [(KInt 0, VStr (str "notes.example")); (KInt 1, VBytes (raw [1; 2; 3]));
        (KInt 2, VBytes (repeat nonce 32)); (KInt 3, VList [VStr wire_name]);
        (KInt 4, VList [VInt 1]); (KInt 5, VBytes (repeat x2a 32));
        (KInt 6, VBytes (repeat peer 8))]);
     (KInt 5, VInt 0)]) with Ok w => Some w | Err _ => None end).

Definition sample_build : result transcript :=
  build_transcript (sample_hello x0a x11) (sample_hello x0b x12) (repeat x2a 32)
    (repeat x11 8) (repeat x12 8) wire_name 1.

Definition sample_transcript : transcript :=
  match sample_build with Ok t => t | Err _ => Transcript [] [] true end.

Lemma sample_build_ok : sample_build = Ok sample_transcript.
Proof. vm_compute. reflexivity. Qed.

Lemma transcript_binds_witness :
  sample_build = Ok sample_transcript ∧ authenticated sample_transcript = false ∧
  (canonical sample_transcript = canonical sample_transcript →
   sha256 (sample_hello x0a x11) = sha256 (sample_hello x0a x11)).
Proof.
  split; [exact sample_build_ok|]. split; [vm_compute; reflexivity|].
  intros E. destruct (transcript_binds _ _ _ _ _ _ _ _ _ _ _ _ _ _ _ _ sample_build_ok sample_build_ok)
    as [_ H]. apply H, E.
Defined.

Lemma signing_separated_witness :
  ∃ b b', signing_bytes sample_transcript "initiator" = Ok b ∧
    signing_bytes sample_transcript "responder" = Ok b' ∧ b ≠ b'.
Proof.
  destruct (signing_bytes sample_transcript "initiator") as [b|e] eqn:E;
    [|vm_compute in E; discriminate E].
  destruct (signing_bytes sample_transcript "responder") as [b'|e] eqn:E';
    [|vm_compute in E'; discriminate E'].
  exists b, b'. split; [reflexivity|]. split; [reflexivity|]. intros Hb.
  destruct (signing_separated _ _ _ _ _ _ E E') as [H _]. by destruct (H Hb) as [? _].
Defined.

Lemma build_transcript_errors_witness :
  let r := build_transcript (sample_hello x0a x11) (sample_hello x0a x12) (repeat x2a 32)
             (repeat x11 8) (repeat x12 8) wire_name 1 in
  r = Err (wire "REFLECTION") ∧ ∃ c q, wire "REFLECTION" = WireError c q.
Proof.
  cbv zeta. assert (build_transcript (sample_hello x0a x11) (sample_hello x0a x12)
    (repeat x2a 32) (repeat x11 8) (repeat x12 8) wire_name 1 = Err (wire "REFLECTION")) as E
    by (vm_compute; reflexivity).
  split; [exact E|]. exact (build_transcript_errors _ _ _ _ _ _ _ _ E).
Defined.

Lemma replay_window_exact_witness :
  let w0 := Window 2 300 ∅ None in
  let d := repeat x01 32 in
  (remember (remember w0 d 10).1 d 20).2 = Err (wire "REPLAY") ∧
  (remember (remember w0 d 10).1 d 310).2 ≠ Err (wire "REPLAY").
Proof.
  cbv zeta. set (w0 := Window 2 300 ∅ None). set (d := repeat x01 32).
  assert (new_window 0 2 300 = Ok w0) as Hnew by reflexivity.
  assert (replay_run w0 (remember w0 d 10).1 [(d, 10)]) as Hrun
    by exact (replay_next w0 w0 [] d 10 (replay_start w0)).
  assert (∀ t, 10 <= t → clock_accepts (remember w0 d 10).1 t) as Hclk.
  { intros t Ht. split; [reflexivity|]. intros c Hc.
    assert (w_clock (remember w0 d 10).1 = Some 10) as Hc' by (vm_compute; reflexivity).
    rewrite Hc in Hc'. injection Hc' as ->. apply Z.ltb_ge. exact Ht. }
  split.
  - apply (replay_window_exact 0 2 300 w0 _ _ d 20 Hnew Hrun eq_refl (Hclk 20 ltac:(lia))).
    exists 10. split; [by left|reflexivity].
  - intros E.
    apply (replay_window_exact 0 2 300 w0 _ _ d 310 Hnew Hrun eq_refl (Hclk 310 ltac:(lia)))
      in E as (t0 & Ht & Hlt).
    apply list_elem_of_singleton in Ht. injection Ht as ->. vm_compute in Hlt. discriminate Hlt.
Defined.
