(* ===== verification/Paging.v ===== *)
(** * Inventory walks (experiments/g0-wire/par_wire/paging.py)

    [InventoryWalk] as a record; [append] is transactional: it either extends the
    candidate snapshot by a whole page or drops everything. *)

From S2P Require Import Prelude Bytes Value Codec Schema SchemaSpec Clock Framing FramingSpec.
Local Open Scope Z_scope.

Inductive walk_state := INCOMPLETE | INVALIDATED | PEER_SNAPSHOT_COMPLETE.

#[export] Instance walk_state_eq_dec : EqDecision walk_state.
Proof. solve_decision. Defined.

Record inventory := Inventory {
  i_space : bytes;
  i_token : bytes;
  max_items : Z;
  max_pages : Z;
  max_bytes : Z;
  i_bytes : Z;
  i_cursor : value;
  i_seen : list value;
  i_items : list (value * value);
  i_pages : Z;
  i_state : walk_state;
}.

Definition new_inventory (space token : bytes) (max_items max_pages max_bytes : Z)
    : result inventory :=
  if negb ((len space =? 32) && (len token =? 32)) then Err ValueError
  else if (max_items <? 1) || (max_pages <? 1) || (max_bytes <? 1) then Err ValueError
  else Ok (Inventory space token max_items max_pages max_bytes 0 VNone [] [] 0 INCOMPLETE).

(** [items[k] = v]: in place when the key is there, else at the end. *)
Fixpoint put_item (items : list (value * value)) (k v : value) : list (value * value) :=
  match items with
  | [] => [(k, v)]
  | (k', v') :: items' =>
      if bool_decide (k = k') then (k', v) :: items' else (k', v') :: put_item items' k v
  end.

Fixpoint store_rows (items : list (value * value)) (rows : list value)
    : result (list (value * value)) :=
  match rows with
  | [] => Ok items
  | row :: rows' => k ← getitem row 0; store_rows (put_item items k row) rows'
  end.

(** The [try] block of [append]. *)
Definition append_page (w : inventory) (page requested : value) : result inventory :=
  _ ← validate_frame page;
  code ← getitem page 1;
  _ ← require (bool_decide (code = VInt 20)) (wire "MESSAGE_TYPE");
  space ← getitem page 3;
  _ ← require (bool_decide (space = VBytes (i_space w))) (wire "SPACE_BINDING");
  b ← getitem page 4;
  token ← getitem b 0;
  _ ← require (bool_decide (token = VBytes (i_token w))) (wire "SNAPSHOT_CHANGED");
  _ ← require (bool_decide (requested = i_cursor w)) (wire "CURSOR");
  next ← getitem b 1;
  _ ← require (is_none next || negb (bool_decide (next ∈ i_seen w))) (wire "CURSOR_REPLAY");
  rows ← getitem b 2; rows ← as_list rows;
  _ ← require ((i_pages w + 1 <=? max_pages w) && (len (i_items w) + len rows <=? max_items w))
        (wire "RESOURCE_LIMIT");
  body ← encode page;
  let page_size := 4 + len body in
  _ ← require (i_bytes w + page_size <=? max_bytes w) (wire "RESOURCE_LIMIT");
  new_ids ← mapM (λ row, getitem row 0) rows;
  _ ← require (negb (has_dups new_ids || existsb (λ k, bool_decide (k ∈ new_ids)) (i_items w).*1))
        (wire "DUPLICATE_ITEM");
  items ← store_rows (i_items w) rows;
  done_ ← getitem b 3;
  Ok (Inventory (i_space w) (i_token w) (max_items w) (max_pages w) (max_bytes w)
        (i_bytes w + page_size) next (if is_none next then i_seen w else next :: i_seen w)
        items (i_pages w + 1) (if truthy done_ then PEER_SNAPSHOT_COMPLETE else i_state w)).

Definition invalidate (w : inventory) : inventory :=
  Inventory (i_space w) (i_token w) (max_items w) (max_pages w) (max_bytes w) (i_bytes w)
    (i_cursor w) (i_seen w) [] (i_pages w) INVALIDATED.

Definition append (w : inventory) (page requested : value) : inventory * result unit :=
  if negb (bool_decide (i_state w = INCOMPLETE)) then (w, Err (wire "CLOSED"))
  else
    match append_page w page requested with
    | Ok w' => (w', Ok tt)
    | Err (WireError c p) => (invalidate w, Err (WireError c p))
    | Err e => (w, Err e)
    end.

Definition state_name (s : walk_state) : string :=
  match s with
  | INCOMPLETE => "INCOMPLETE"
  | INVALIDATED => "INVALIDATED"
  | PEER_SNAPSHOT_COMPLETE => "PEER_SNAPSHOT_COMPLETE"
  end.

Definition snapshot (w : inventory) : value :=
  VDict [(KStr (str "space"), VBytes (i_space w)); (KStr (str "token"), VBytes (i_token w));
         (KStr (str "coverage"), VStr (str (state_name (i_state w))));
         (KStr (str "pages"), VInt (i_pages w)); (KStr (str "encoded_bytes"), VInt (i_bytes w));
         (KStr (str "next_cursor"), i_cursor w);
         (KStr (str "items"), VList (i_items w).*2);
         (KStr (str "authenticated"), VBool false);
         (KStr (str "global_completeness"), VBool false)].

(** ** What a page contributes *)

#[local] Opaque decode encode validate_frame.

(** A HAVE page: its requested cursor, next cursor, rows, ids, size and last flag. *)
Record page_of (w : inventory) (page : value) (next : value) (rows ids : list value)
    (size : Z) (last : bool) : Prop := {
  po_valid : validate_frame page = Ok tt;
  po_code : getitem page 1 = Ok (VInt 20);
  po_space : getitem page 3 = Ok (VBytes (i_space w));
  po_body : ∃ b l, getitem page 4 = Ok b ∧ getitem b 0 = Ok (VBytes (i_token w)) ∧
    getitem b 1 = Ok next ∧ getitem b 2 = Ok (VList rows) ∧ getitem b 3 = Ok l ∧ last = truthy l;
  po_ids : mapM (λ row, getitem row 0) rows = Ok ids;
  po_size : ∃ body, encode page = Ok body ∧ size = 4 + len body;
}.

Lemma put_item_fresh items k v : k ∉ items.*1 → put_item items k v = items ++ [(k, v)].
Proof.
  induction items as [|[k' v'] items IH]; cbn; [done|].
  intros Hk. rewrite bool_decide_eq_false_2 by set_solver. rewrite IH by set_solver. done.
Qed.

Lemma mapM_ids_length rows ids : mapM (λ row, getitem row 0) rows = Ok ids → len ids = len rows.
Proof.
  revert ids. induction rows as [|r rows IH]; intros ids; cbn; [by intros [= <-]|].
  intros (k & Hk & (ks & Hks & [= <-])%bind_Ok)%bind_Ok. rewrite !len_cons. by rewrite (IH _ Hks).
Qed.

Lemma store_rows_fresh items rows ids :
  mapM (λ row, getitem row 0) rows = Ok ids → NoDup ids → (∀ k, k ∈ ids → k ∉ items.*1) →
  store_rows items rows = Ok (items ++ zip ids rows).
Proof.
  revert items ids. induction rows as [|r rows IH]; intros items ids; cbn.
  - intros [= <-] _ _. by rewrite app_nil_r.
  - intros (k & Hk & (ks & Hks & [= <-])%bind_Ok)%bind_Ok [Hn Hnd]%NoDup_cons Hf.
    rewrite Hk. cbn [mbind result_bind].
    rewrite put_item_fresh by (apply Hf; by left).
    rewrite (IH _ ks); [by rewrite <- app_assoc|done|done|].
    intros j Hj. rewrite fmap_app, elem_of_app. intros [Hin|Hin%list_elem_of_singleton].
    + by apply (Hf j); [by right|].
    + cbn in Hin. by subst.
Qed.

Lemma has_dups_false l : has_dups l = false → NoDup l.
Proof. unfold has_dups. rewrite negb_false_iff. by intros ?%bool_decide_eq_true. Qed.

Lemma append_page_Ok w page req w' :
  append_page w page req = Ok w' →
  ∃ next rows ids size last, page_of w page next rows ids size last ∧ req = i_cursor w ∧
    (next = VNone ∨ next ∉ i_seen w) ∧ NoDup ids ∧ (∀ k, k ∈ ids → k ∉ (i_items w).*1) ∧
    i_pages w + 1 <= max_pages w ∧ len (i_items w) + len rows <= max_items w ∧
    i_bytes w + size <= max_bytes w ∧
    w' = Inventory (i_space w) (i_token w) (max_items w) (max_pages w) (max_bytes w)
           (i_bytes w + size) next (if is_none next then i_seen w else next :: i_seen w)
           (i_items w ++ zip ids rows) (i_pages w + 1)
           (if last then PEER_SNAPSHOT_COMPLETE else i_state w).
Proof.
  unfold append_page. intros E.
  apply bind_Ok in E as ([] & Hv & E). apply bind_Ok in E as (c & Hc & E).
  apply bind_Ok in E as ([] & ->%require_Ok%bool_decide_eq_true & E).
  apply bind_Ok in E as (s & Hs & E).
  apply bind_Ok in E as ([] & ->%require_Ok%bool_decide_eq_true & E).
  apply bind_Ok in E as (b & Hb & E). apply bind_Ok in E as (t & Ht & E).
  apply bind_Ok in E as ([] & ->%require_Ok%bool_decide_eq_true & E).
  apply bind_Ok in E as ([] & Hreq%require_Ok%bool_decide_eq_true & E).
  apply bind_Ok in E as (next & Hnext & E). apply bind_Ok in E as ([] & Hseen%require_Ok & E).
  apply bind_Ok in E as (rv & Hrv & E). apply bind_Ok in E as (rows & Hrows & E).
  apply bind_Ok in E as ([] & Hlim%require_Ok & E). apply bind_Ok in E as (body & Hbody & E).
  apply bind_Ok in E as ([] & Hbytes%require_Ok & E). apply bind_Ok in E as (ids & Hids & E).
  apply bind_Ok in E as ([] & Hdup%require_Ok & E). apply bind_Ok in E as (items & Hitems & E).
  apply bind_Ok in E as (l & Hl & E). injection E as <-.
  destruct rv as [| | | | |rows'| |]; try discriminate Hrows. injection Hrows as ->.
  rewrite negb_true_iff, orb_false_iff in Hdup. destruct Hdup as [Hdup%has_dups_false Hex].
  assert (∀ k, k ∈ ids → k ∉ (i_items w).*1) as Hfresh.
  { intros k Hk Hin. apply not_true_iff_false in Hex. apply Hex, existsb_exists.
    exists k. split; [by apply list_elem_of_In|by apply bool_decide_eq_true]. }
  rewrite (store_rows_fresh _ _ _ Hids Hdup Hfresh) in Hitems. injection Hitems as <-.
  zb. exists next, rows, ids, (4 + len body), (truthy l). split_and!; try done.
  - split; try done; [by exists b, l|by exists body].
  - destruct Hseen as [Hn|Hn]; [left; by destruct next|right].
    by apply negb_true_iff, bool_decide_eq_false in Hn.
Qed.

(** [append_page] on a valid page raises only [WireError]s: the fields it reads exist. *)
Lemma append_page_wire w page req : wire_only (append_page w page req).
Proof.
  unfold append_page. apply wire_only_bind; [apply validate_frame_wire_only|intros [] Hv].
  destruct (valid_frame _ Hv) as (d0 & c & ? & ? & ? & ? & Epage & Hc & _).
  eapply wire_only_step; [rewrite Epage; by apply getitem_dict|].
  apply wire_only_bind; [wire_only|intros [] [= ->]%require_Ok%bool_decide_eq_true].
  destruct (valid_body page 20 "have-body" Hv) as (d & x3 & db & -> & _ & E3 & E4 & _ & Hd);
    [subst; by apply getitem_dict|reflexivity|vm_compute; reflexivity|reflexivity
    |exists 0; eexists; vm_compute; reflexivity|].
  destruct (Hd 0 _ eq_refl) as (y0 & E0 & _). destruct (Hd 1 _ eq_refl) as (y1 & E1 & _).
  destruct (Hd 2 _ eq_refl) as (y2 & E2 & C2). destruct (Hd 3 _ eq_refl) as (yd & Ed & _).
  apply conforms_list in C2 as (rows & -> & Hrows).
  assert (∃ ids, mapM (λ row, getitem row 0) rows = Ok ids) as [ids Hids].
  { clear -Hrows. induction rows as [|r rows IH]; cbn; [by eexists|].
    assert (conforms default_schema (NRef "catalog-item") r) as Hr by (apply Hrows; by left).
    apply read_field in Hr as (dr & -> & Hr);
      [|reflexivity|exists 0; eexists; vm_compute; reflexivity].
    destruct (Hr 0 _ eq_refl) as (k & Hk & _). rewrite (getitem_dict _ _ _ Hk). cbn [mbind result_bind].
    destruct IH as [ids ->]; [intros v Hin; apply Hrows; by right|]. by eexists. }
  assert (∀ items, ∃ items', store_rows items rows = Ok items') as Hstore.
  { clear -Hids. revert ids Hids. induction rows as [|r rows IH]; intros ids Hids items; cbn; [by eexists|].
    cbn in Hids. apply bind_Ok in Hids as (k & -> & (ks & Hks & _)%bind_Ok). cbn. by eapply IH. }
  destruct (Hstore (i_items w)) as [items Hitems].
  repeat first
    [ eapply wire_only_step; [eassumption|]
    | eapply wire_only_step; [reflexivity|]
    | apply wire_only_bind; [solve [wire_only]|intros ? _] ].
  wire_only.
Qed.

(** Successive pages with the cursors they were requested with. *)
Fixpoint append_all (w : inventory) (pages : list (value * value)) : inventory * result unit :=
  match pages with
  | [] => (w, Ok tt)
  | (page, req) :: pages' =>
      match append w page req with
      | (w', Ok _) => append_all w' pages'
      | (w', Err e) => (w', Err e)
      end
  end.

Lemma append_Ok w page req w' :
  append w page req = (w', Ok tt) → i_state w = INCOMPLETE ∧ append_page w page req = Ok w'.
Proof.
  unfold append. destruct (bool_decide (i_state w = INCOMPLETE)) eqn:E; [|done].
  apply bool_decide_eq_true in E. cbn [negb].
  destruct (append_page w page req) as [w1|[]] eqn:Ha; try done. by intros [= <-].
Qed.

(** The invariant of a walk under way. *)
Record walk_inv (w : inventory) : Prop := {
  wi_nodup : NoDup (i_items w).*1;
  wi_items : len (i_items w) <= max_items w;
  wi_pages : 0 <= i_pages w <= max_pages w;
  wi_bytes : 0 <= i_bytes w <= max_bytes w;
  wi_seen : NoDup (i_seen w) ∧ VNone ∉ i_seen w;
  wi_state : i_state w = INVALIDATED → i_items w = [];
}.

Lemma new_inventory_inv s t mi mp mb w :
  new_inventory s t mi mp mb = Ok w →
  w = Inventory s t mi mp mb 0 VNone [] [] 0 INCOMPLETE ∧ walk_inv w.
Proof.
  unfold new_inventory. case_match; [done|]. case_match; [done|]. intros [= <-]. zb.
  split; [done|].
  split; cbn; try done; [apply NoDup_nil_2|len_lia..|].
  split; [apply NoDup_nil_2|apply not_elem_of_nil].
Qed.

Lemma zip_ids (ids rows : list value) : len ids = len rows → (zip ids rows).*1 = ids.
Proof. intros Hl. apply fst_zip. unfold len in Hl. lia. Qed.

Lemma append_inv w page req : walk_inv w → walk_inv (append w page req).1.
Proof.
  intros Hi. unfold append. case_match; [done|].
  destruct (append_page w page req) as [w'|e] eqn:E.
  2:{ destruct (append_page_wire _ _ _ _ E) as (c & p & ->). destruct Hi.
      cbn. split; try done; cbn; [apply NoDup_nil_2|].
      pose proof (len_nonneg (i_items w)). len_nil. lia. }
  apply append_page_Ok in E as (next & rows & ids & size & last & Hp & _ & Hseen & Hnd & Hfresh & ? & ? & ? & ->).
  pose proof (mapM_ids_length _ _ (po_ids _ _ _ _ _ _ _ Hp)) as Hlen.
  destruct (po_size _ _ _ _ _ _ _ Hp) as (body & _ & ->).
  destruct Hi as [Hn Hit Hpg Hby [Hs1 Hs2] Hst]. pose proof (len_nonneg body).
  split; cbn -[len]; try lia.
  - rewrite fmap_app, zip_ids by done. apply NoDup_app. split_and!; try done.
    intros k Hk Hk'. by apply (Hfresh k).
  - assert (len (zip ids rows) = len rows) as Hz.
    { unfold len in *. rewrite length_zip_with. lia. }
    rewrite len_app, Hz. lia.
  - destruct (is_none next) eqn:En; [done|]. split.
    + constructor; [|done]. destruct Hseen as [->|]; [done|done].
    + intros [<-|]%elem_of_cons; done.
  - case_match; [done|]. intros Hx. rewrite (Hst Hx). rewrite bool_decide_eq_false_2 in H by congruence. done.
Qed.

(** ** What a walk without error has collected *)

(** Fields of a HAVE page. *)
Definition page_field (page : value) (i : Z) : value :=
  match getitem page 4 with
  | Ok b => match getitem b i with Ok x => x | Err _ => VNone end
  | Err _ => VNone
  end.
Definition page_rows (page : value) : list value :=
  match page_field page 2 with VList l => l | _ => [] end.
Definition page_next (page : value) : value := page_field page 1.
Definition frame_size (page : value) : Z :=
  match encode_frame page with Ok w => len w | Err _ => 0 end.

(** A page of the snapshot [token] of [space]. *)
Definition page_in (space token : bytes) (page : value) : Prop :=
  validate_frame page = Ok tt ∧ getitem page 1 = Ok (VInt 20) ∧
  getitem page 3 = Ok (VBytes space) ∧ page_field page 0 = VBytes token.

Lemma page_of_fields w page next rows ids size last :
  page_of w page next rows ids size last →
  page_in (i_space w) (i_token w) page ∧ page_next page = next ∧ page_rows page = rows ∧
  frame_size page = size ∧ last = is_none next.
Proof.
  intros [Hv Hc Hs (b & l & Hb & H0 & H1 & H2 & H3 & Hl) Hids (body & He & Hz)].
  unfold page_next, page_rows, page_in, page_field, frame_size. rewrite Hb, H0, H1, H2.
  split_and!; try done.
  - unfold encode_frame. rewrite Hv, He. cbn [mbind result_bind]. len_lia.
  - destruct (valid_body page 20 "have-body" Hv Hc) as (d & x3 & db & -> & _ & _ & E4 & Ho & _);
      [reflexivity|vm_compute; reflexivity|reflexivity|exists 0; eexists; vm_compute; reflexivity|].
    rewrite Hb in E4. injection E4 as ->. unfold overlay in Ho.
    change (20 =? 1) with false in Ho. change (20 =? 10) with false in Ho.
    cbn [mbind result_bind] in Ho. apply bind_Ok in Ho as ([] & Ho & _).
    cbn [page_fields Z.eqb Pos.eqb] in Ho. unfold page_overlay in Ho.
    rewrite H1, H2, H3 in Ho. cbn [mbind result_bind] in Ho.
    apply require_Ok in Ho. rewrite negb_true_iff, orb_false_iff, negb_false_iff in Ho.
    destruct Ho as [->%bool_decide_eq_true _]. exact Hl.
Qed.

Definition sum (l : list Z) : Z := fold_right Z.add 0 l.

Lemma append_all_Ok pages w w' :
  append_all w pages = (w', Ok tt) →
  (i_items w').*2 = (i_items w).*2 ++ concat (page_rows <$> pages.*1) ∧
  pages.*2 ++ [i_cursor w'] = i_cursor w :: (page_next <$> pages.*1) ∧
  i_seen w' = reverse (filter (.≠ VNone) (page_next <$> pages.*1)) ++ i_seen w ∧
  Forall (page_in (i_space w) (i_token w)) pages.*1 ∧
  i_bytes w' = i_bytes w + sum (frame_size <$> pages.*1) ∧
  i_pages w' = i_pages w + len pages ∧
  (pages ≠ [] → i_state w' = if is_none (i_cursor w') then PEER_SNAPSHOT_COMPLETE else INCOMPLETE) ∧
  (i_space w', i_token w', max_items w', max_pages w', max_bytes w') =
    (i_space w, i_token w, max_items w, max_pages w, max_bytes w).
Proof.
  revert w. induction pages as [|[page req] pages IH]; intros w; cbn [append_all].
  { intros [= <-]. cbn. rewrite app_nil_r. unfold len. cbn. split_and!; try done; lia. }
  destruct (append w page req) as [w1 [[]|e]] eqn:Ha; [|done]. intros Hrun.
  apply append_Ok in Ha as (Hst & Hp).
  apply append_page_Ok in Hp as (next & rows & ids & size & last & Hp & -> & Hseen & Hnd & Hfresh & _ & _ & _ & Hw1).
  pose proof (mapM_ids_length _ _ (po_ids _ _ _ _ _ _ _ Hp)) as Hlen.
  apply page_of_fields in Hp as (Hin & <- & <- & <- & ->).
  destruct (IH _ Hrun) as (Hi & Hc & Hs & Hf & Hb & Hg & Hstate & Hfix). subst w1.
  cbn [i_items i_cursor i_seen i_space i_token i_bytes i_pages i_state max_items max_pages max_bytes] in *.
  cbn [fmap list_fmap fst snd concat sum fold_right].
  assert ((zip ids (page_rows page)).*2 = page_rows page) as Hsnd by (apply snd_zip; unfold len in *; lia).
  split_and!.
  - by rewrite Hi, fmap_app, Hsnd, <- app_assoc.
  - cbn. by rewrite Hc.
  - rewrite Hs. rewrite filter_cons. destruct (page_next page) eqn:En; cbn [is_none];
      [by rewrite decide_False by (by intros [])|
       rewrite decide_True by done; rewrite reverse_cons, <- app_assoc; done..].
  - by constructor.
  - rewrite Hb. cbn [sum fold_right]. fold (sum (frame_size <$> pages.*1)). lia.
  - rewrite Hg, len_cons. lia.
  - intros _. destruct pages as [|p pages]; [|by apply Hstate].
    injection Hrun as <-. cbn [i_state i_cursor]. by rewrite Hst.
  - done.
Qed.

(** ** Properties *)

(** C32. A walk that met no error holds exactly the rows of its pages, in order and
    without a repeated object, all pages being valid HAVE pages of its space and
    snapshot token; each page was requested with the cursor the page before it
    announced, starting from none, and no cursor was announced twice; the budgets
    hold; and the snapshot is complete exactly when the last page announced none. *)
Theorem walk_collects space token mi mp mb w0 w pages
    (Hnew : new_inventory space token mi mp mb = Ok w0)
    (Hrun : append_all w0 pages = (w, Ok tt)) :
  (i_items w).*2 = concat (page_rows <$> pages.*1) ∧ NoDup (i_items w).*1 ∧
  Forall (page_in space token) pages.*1 ∧
  pages.*2 ++ [i_cursor w] = VNone :: (page_next <$> pages.*1) ∧
  NoDup (filter (.≠ VNone) (page_next <$> pages.*1)) ∧
  i_pages w = len pages ∧ len pages <= mp ∧ len (i_items w) <= mi ∧
  i_bytes w = sum (frame_size <$> pages.*1) ∧ i_bytes w <= mb ∧
  (i_state w = PEER_SNAPSHOT_COMPLETE ↔ pages ≠ [] ∧ i_cursor w = VNone).
Proof.
  apply new_inventory_inv in Hnew as [-> Hi0].
  assert (walk_inv w) as Hi.
  { clear -Hi0 Hrun. revert Hrun Hi0. generalize (Inventory space token mi mp mb 0 VNone [] [] 0 INCOMPLETE).
    induction pages as [|[page req] pages IH]; intros w0; cbn; [by intros [= <-]|].
    pose proof (append_inv w0 page req). destruct (append w0 page req) as [w1 [[]|]]; [|done].
    intros Hr Hw. by apply (IH w1); auto. }
  destruct (append_all_Ok _ _ _ Hrun) as (Hit & Hc & Hs & Hf & Hb & Hg & Hst & Hfix).
  cbn [i_items i_cursor i_seen i_space i_token i_bytes i_pages i_state max_items max_pages max_bytes fmap list_fmap app] in *.
  injection Hfix as _ _ Hmi Hmp Hmb. destruct Hi as [Hn H1 H2 H3 [H4 _] _].
  rewrite app_nil_r in Hs. split_and!; try done; try lia.
  - rewrite Hs in H4. by rewrite reverse_Permutation in H4.
  - destruct pages as [|p pages].
    + injection Hrun as <-. cbn. naive_solver.
    + rewrite Hst by done. destruct (i_cursor w); naive_solver.
Qed.

(** A walk is all or nothing: the first failing page empties the snapshot and
    no later page is taken; every error is a [WireError]; and a walk that is over
    (invalidated or complete) never changes again. *)
Theorem walk_all_or_nothing space token mi mp mb w0 pages w r page req
    (Hnew : new_inventory space token mi mp mb = Ok w0)
    (Hrun : append_all w0 pages = (w, r)) :
  (∀ e, r = Err e → i_items w = [] ∨ i_state w = PEER_SNAPSHOT_COMPLETE) ∧
  (i_state w ≠ INCOMPLETE → append w page req = (w, Err (wire "CLOSED"))) ∧
  ∀ e, (append w page req).2 = Err e → (∃ c p, e = WireError c p) ∧
    (i_state w = INCOMPLETE →
       i_state (append w page req).1 = INVALIDATED ∧ i_items (append w page req).1 = []).
Proof.
  apply new_inventory_inv in Hnew as [_ Hi0]. split_and!.
  - revert w0 Hi0 Hrun. induction pages as [|[p q] pages IH]; intros w0 Hi0; cbn.
    { by intros [= <- <-]. }
    pose proof (append_inv w0 p q Hi0) as Hi1. destruct (append w0 p q) as [w1 [[]|e1]] eqn:Ha.
    { by apply IH. }
    intros [= <- <-] e _. destruct (i_state w1) eqn:Es; [|left; by apply Hi1|by right].
    unfold append in Ha. destruct (bool_decide (i_state w0 = INCOMPLETE)) eqn:Eb; cbn [negb] in Ha.
    + destruct (append_page w0 p q) as [|e2] eqn:Ep; [done|].
      destruct (append_page_wire _ _ _ _ Ep) as (c & x & ->). injection Ha as <- _. by left.
    + apply bool_decide_eq_false in Eb. congruence.
  - intros Hs. unfold append. by rewrite bool_decide_eq_false_2.
  - intros e. unfold append. destruct (bool_decide (i_state w = INCOMPLETE)) eqn:Eb; cbn [negb].
    + destruct (append_page w page req) as [|e2] eqn:Ep; [done|].
      destruct (append_page_wire _ _ _ _ Ep) as (c & x & ->). intros [= <-].
      split; [by eexists _, _|]. by split.
    + intros [= <-]. split; [by eexists _, _|]. apply bool_decide_eq_false in Eb. congruence.
Qed.

(** ** The properties at concrete pages *)

Definition sample_row (id : byte) : value :=
  VDict [(KInt 0, VBytes (repeat id 32)); (KInt 1, VInt 1); (KInt 2, VInt 7);
         (KInt 3, VList []); (KInt 4, VBool false); (KInt 5, VBytes (repeat x00 32))].

Definition sample_page (rows : list value) (next : value) : value :=
  VDict [(KInt 0, VInt 1); (KInt 1, VInt 20); (KInt 2, VBytes (repeat x07 16));
         (KInt 3, VBytes (repeat x09 32));
         (KInt 4, VDict [(KInt 0, VBytes (repeat x08 32)); (KInt 1, next);
                         (KInt 2, VList rows); (KInt 3, VBool (is_none next))]);
         (KInt 5, VInt 0)].

Definition sample_walk : inventory :=
  Inventory (repeat x09 32) (repeat x08 32) 10 4 10000 0 VNone [] [] 0 INCOMPLETE.

Definition sample_pages : list (value * value) :=
  [(sample_page [sample_row x01; sample_row x02] (VBytes (repeat x05 32)), VNone);
   (sample_page [sample_row x03] VNone, VBytes (repeat x05 32))].

Lemma walk_collects_witness :
  let w := (append_all sample_walk sample_pages).1 in
  (append_all sample_walk sample_pages).2 = Ok tt ∧
  (i_items w).*2 = [sample_row x01; sample_row x02; sample_row x03] ∧
  i_state w = PEER_SNAPSHOT_COMPLETE.
Proof.
  cbv zeta. assert (append_all sample_walk sample_pages =
    ((append_all sample_walk sample_pages).1, Ok tt)) as Hrun by (vm_compute; reflexivity).
  assert (new_inventory (repeat x09 32) (repeat x08 32) 10 4 10000 = Ok sample_walk) as Hnew
    by (vm_compute; reflexivity).
  destruct (walk_collects _ _ _ _ _ _ _ _ Hnew Hrun) as (Hrows & _ & _ & Hc & _ & _ & _ & _ & _ & _ & Hs).
  split; [rewrite Hrun; reflexivity|]. split.
  - etransitivity; [exact Hrows|]. reflexivity.
  - apply Hs. split; [discriminate|]. vm_compute. reflexivity.
Defined.

Lemma walk_all_or_nothing_witness :
  let w := (append_all sample_walk [(sample_page [sample_row x01] (VBytes (repeat x05 32)), VNone)]).1 in
  (append w (sample_page [sample_row x01] VNone) (VBytes (repeat x05 32))).2
    = Err (wire "DUPLICATE_ITEM") ∧
  i_items (append w (sample_page [sample_row x01] VNone) (VBytes (repeat x05 32))).1 = [].
Proof.
  cbv zeta. set (ps := [(sample_page [sample_row x01] (VBytes (repeat x05 32)), VNone)]).
  assert (append_all sample_walk ps = ((append_all sample_walk ps).1, Ok tt)) as Hrun
    by (vm_compute; reflexivity).
  assert (new_inventory (repeat x09 32) (repeat x08 32) 10 4 10000 = Ok sample_walk) as Hnew
    by (vm_compute; reflexivity).
  assert ((append (append_all sample_walk ps).1 (sample_page [sample_row x01] VNone)
    (VBytes (repeat x05 32))).2 = Err (wire "DUPLICATE_ITEM")) as E by (vm_compute; reflexivity).
  split; [exact E|].
  destruct (walk_all_or_nothing _ _ _ _ _ _ _ _ _ (sample_page [sample_row x01] VNone)
    (VBytes (repeat x05 32)) Hnew Hrun) as (_ & _ & H).
  apply (H _ E). vm_compute. reflexivity.
Defined.
