(* ===== verification/Ipaddr.v ===== *)
(** * IP addresses and networks as Python's [ipaddress] reads and prints them

    Only what the connectivity policy uses: [ip_address], [ip_network(.., strict=True)],
    [str], [ipv4_mapped] and membership.  Zone identifiers cannot occur, the policy
    refuses ['%'] first. *)

From S2P Require Import Prelude Bytes Value Codec Schema Json.
Local Open Scope Z_scope.

Inductive ip :=
| IPv4 (n : Z)
| IPv6 (n : Z).

#[export] Instance ip_eq_dec : EqDecision ip.
Proof. solve_decision. Defined.

Definition is_digit_char (c : Z) : bool := (48 <=? c) && (c <=? 57).
Definition digits_nonempty (s : pystr) : bool := negb (bool_decide (s = [])) && forallb is_digit_char s.

(** [int(s, 10)] of ASCII digits. *)
Definition decimal (s : pystr) : Z := fold_left (λ n c, n * 10 + (c - 48)) s 0.

(** ** Reading *)

(** [_parse_octet] *)
Definition parse_octet (s : pystr) : option Z :=
  if digits_nonempty s && (len s <=? 3)
     && (bool_decide (s = [48]) || negb (bool_decide (hd_error s = Some 48)))
     && (decimal s <=? 255)
  then Some (decimal s) else None.

(** [IPv4Address._ip_int_from_string] *)
Definition parse_ipv4 (s : pystr) : option Z :=
  match split_on 46 s with
  | [a; b; c; d] =>
      a ← parse_octet a; b ← parse_octet b; c ← parse_octet c; d ← parse_octet d;
      Some (((a * 256 + b) * 256 + c) * 256 + d)
  | _ => None
  end.

Definition hex_char (c : Z) : option Z :=
  if (48 <=? c) && (c <=? 57) then Some (c - 48)
  else if (97 <=? c) && (c <=? 102) then Some (c - 87)
  else if (65 <=? c) && (c <=? 70) then Some (c - 55) else None.

(** [_parse_hextet]; the empty string is a [ValueError] of [int]. *)
Fixpoint hex_number (n : Z) (s : pystr) : option Z :=
  match s with
  | [] => Some n
  | c :: s' => d ← hex_char c; hex_number (16 * n + d) s'
  end.
Definition parse_hextet (s : pystr) : option Z :=
  if bool_decide (s = []) || (4 <? len s) then None else hex_number 0 s.

Fixpoint parse_hextets (n : Z) (l : list pystr) : option Z :=
  match l with
  | [] => Some n
  | s :: l' => h ← parse_hextet s; parse_hextets (n * 65536 + h) l'
  end.

(** The last part in dotted form stands for two hextets. *)
Definition expand_ipv4_suffix (parts : list pystr) : option (list pystr) :=
  match rev parts with
  | last :: before =>
      if existsb (Z.eqb 46) last then
        n ← parse_ipv4 last;
        let hextet v := hex_digit (v / 4096) :: hex_digit (v / 256 mod 16) :: hex_digit (v / 16 mod 16)
                          :: [hex_digit (v mod 16)] in
        Some (rev before ++ [hextet (n / 65536); hextet (n mod 65536)])
      else Some parts
  | [] => None
  end.

(** The indexes, endpoints excepted, of the empty parts. *)
Definition inner_gaps (parts : list pystr) : list nat :=
  List.filter (λ i, bool_decide (parts !! i = Some [])) (seq 1 (length parts - 2)).

(** [IPv6Address._ip_int_from_string] *)
Definition parse_ipv6 (s : pystr) : option Z :=
  let parts := split_on 58 s in
  if bool_decide (s = []) || (len parts <? 3) then None
  else
    parts ← expand_ipv4_suffix parts;
    if 9 <? len parts then None
    else
      let empty_first := bool_decide (hd_error parts = Some []) in
      let empty_last := bool_decide (last parts = Some []) in
      match inner_gaps parts with
      | [] =>
          if (len parts =? 8) && negb empty_first && negb empty_last then parse_hextets 0 parts else None
      | [gap] =>
          let hi := (gap - if empty_first then 1 else 0)%nat in
          let lo := (length parts - gap - 1 - if empty_last then 1 else 0)%nat in
          if (empty_first && negb (hi =? 0)%nat) || (empty_last && negb (lo =? 0)%nat)
             || negb (hi + lo <=? 7)%nat
          then None
          else
            h ← parse_hextets 0 (firstn hi parts);
            parse_hextets (h * 65536 ^ Z.of_nat (8 - (hi + lo))) (drop (length parts - lo) parts)
      | _ => None
      end.

(** [ip_address(s)]: IPv4 first, then IPv6; [None] is a [ValueError]. *)
Definition ip_address (s : pystr) : option ip :=
  if existsb (Z.eqb 47) s then None
  else
    match parse_ipv4 s with
    | Some n => Some (IPv4 n)
    | None => n ← parse_ipv6 s; Some (IPv6 n)
    end.

(** [ipv4_mapped], applied. *)
Definition unmap (a : ip) : ip :=
  match a with
  | IPv6 n => if n / 2 ^ 32 =? 65535 then IPv4 (n mod 2 ^ 32) else a
  | _ => a
  end.

(** ** Printing *)

Fixpoint join (sep : pystr) (l : list pystr) : pystr :=
  match l with
  | [] => []
  | [s] => s
  | s :: l' => s ++ sep ++ join sep l'
  end.

Definition ipv4_str (n : Z) : pystr :=
  join [46] [dec (n / 2 ^ 24); dec (n / 2 ^ 16 mod 256); dec (n / 2 ^ 8 mod 256); dec (n mod 256)].

(** ['%x' % h] for a hextet. *)
Definition hextet_str (h : Z) : pystr :=
  let ds := [h / 4096; h / 256 mod 16; h / 16 mod 16] in
  (hex_digit <$> (if h / 4096 =? 0 then if h / 256 =? 0 then if h / 16 =? 0 then [] else drop 2 ds
                  else drop 1 ds else ds)) ++ [hex_digit (h mod 16)].

Definition hextets (n : Z) : list Z :=
  (λ i, n / 65536 ^ Z.of_nat (7 - i) mod 65536) <$> seq 0 8.

(** The longest run of zero hextets, the first of its length: start and length. *)
Fixpoint zero_run (i : nat) (l : list Z) (start len_ best best_len : nat) : nat * nat :=
  match l with
  | [] => (best, best_len)
  | h :: l' =>
      if h =? 0 then
        let start := if (len_ =? 0)%nat then i else start in
        if (best_len <? S len_)%nat then zero_run (S i) l' start (S len_) start (S len_)
        else zero_run (S i) l' start (S len_) best best_len
      else zero_run (S i) l' 0 0 best best_len
  end.

(** [_compress_hextets], joined. *)
Definition ipv6_str (n : Z) : pystr :=
  let hs := hextets n in
  let '(start, count) := zero_run 0 hs 0 0 0 0 in
  let ss := hextet_str <$> hs in
  if (1 <? count)%nat then
    join [58] ((if (start =? 0)%nat then [[]] else []) ++ firstn start ss ++ [[]] ++ drop (start + count) ss
               ++ (if (start + count =? 8)%nat then [[]] else []))
  else join [58] ss.

Definition ip_str (a : ip) : pystr := match a with IPv4 n => ipv4_str n | IPv6 n => ipv6_str n end.

(** ** Networks *)

Record network := Network {
  net_address : ip;
  net_prefix : Z;
}.

Definition width (a : ip) : Z := match a with IPv4 _ => 32 | IPv6 _ => 128 end.
Definition ip_int (a : ip) : Z := match a with IPv4 n | IPv6 n => n end.

(** [_prefix_from_ip_int]: the length of a mask of leading ones. *)
Definition mask_prefix (n : Z) : option Z :=
  List.find (λ p, n =? 2 ^ 32 - 2 ^ (32 - p)) (Z.of_nat <$> seq 0 33).

(** [_make_netmask]: a prefix length, or for IPv4 also a netmask or a hostmask. *)
Definition prefix_of (v4 : bool) (s : pystr) : option Z :=
  if digits_nonempty s && (decimal s <=? if v4 then 32 else 128) then Some (decimal s)
  else if v4 then
    m ← parse_ipv4 s;
    match mask_prefix m with Some p => Some p | None => mask_prefix (Z.lxor m (2 ^ 32 - 1)) end
  else None.

(** No host bits. *)
Definition network_of (a : ip) (p : Z) : option network :=
  if ip_int a mod 2 ^ (width a - p) =? 0 then Some (Network a p) else None.

(** [ip_network(s, strict=True)] of a text with a slash; [None] is a [ValueError]. *)
Definition ip_network (s : pystr) : option network :=
  match split_on 47 s with
  | [addr; mask] =>
      match parse_ipv4 addr, prefix_of true mask with
      | Some n, Some p => network_of (IPv4 n) p
      | _, _ =>
          n ← parse_ipv6 addr; p ← prefix_of false mask; network_of (IPv6 n) p
      end
  | _ => None
  end.

Definition network_str (n : network) : pystr := ip_str (net_address n) ++ [47] ++ dec (net_prefix n).

Definition version (a : ip) : Z := match a with IPv4 _ => 4 | IPv6 _ => 6 end.

(** [ip.version == n.version and ip in n] *)
Definition in_network (a : ip) (n : network) : bool :=
  (version a =? version (net_address n))
  && (ip_int a / 2 ^ (width a - net_prefix n) =? ip_int (net_address n) / 2 ^ (width a - net_prefix n)).

(** ** Vectors *)

Definition address (s : string) : option ip := ip_address (str s).
Definition shown (s : string) : option pystr := ip_str <$> address s.

Example ip_vectors :
  address "10.0.0.1" = Some (IPv4 167772161) ∧ address "010.0.0.1" = None ∧ address "1.2.3" = None ∧
  address "::1" = Some (IPv6 1) ∧ address "::" = Some (IPv6 0) ∧ address ":::" = None ∧
  address "1::2::3" = None ∧ address "1:2:3:4:5:6:7:8:" = None ∧ address "1:2:3:4:5:6:7::" = Some (IPv6 (0x1000200030004000500060007 * 65536)) ∧
  unmap <$> address "::ffff:127.0.0.1" = Some (IPv4 2130706433) ∧
  shown "2001:DB8:0:0:1:0:0:1" = Some (str "2001:db8::1:0:0:1") ∧
  shown "0:0:0:0:0:0:0:0" = Some (str "::") ∧ shown "fd00:0ec2::0254" = Some (str "fd00:ec2::254") ∧
  shown "1:0:2:3:4:5:6:7" = Some (str "1:0:2:3:4:5:6:7").
Proof. vm_compute. done. Qed.

Example network_vectors :
  ip_network (str "10.0.0.0/8") = Some (Network (IPv4 167772160) 8) ∧ ip_network (str "10.0.0.1/8") = None ∧
  ip_network (str "10.0.0.0/255.0.0.0") = Some (Network (IPv4 167772160) 8) ∧
  ip_network (str "10.0.0.0/0.255.255.255") = Some (Network (IPv4 167772160) 8) ∧
  network_str <$> ip_network (str "FC00::/7") = Some (str "fc00::/7").
Proof. vm_compute. done. Qed.
