(* ===== verification/Connectivity.v ===== *)
(** * The finite egress policy of the connectivity controller
    (product/wp09/par_connectivity/model.py and policy.py)

    Owner inputs, the selection of granted routes and the validation of every resolved
    address.  Values have the field types the code tests for; a value of another Python
    type, which each check refuses first, is not represented.  Networks are kept as the
    strings the code keeps, and read again where it reads them again. *)

From S2P Require Import Prelude Bytes Value Codec Schema Json Ipaddr.
From Stdlib Require Import QArith.
Local Open Scope Z_scope.

Definition ConnectivityError (code : string) : exn := Raised "ConnectivityError" code.
Definition cneed (ok : bool) (code : string) : result unit := require ok (ConnectivityError code).

Definition SOURCES : list pystr :=
  str <$> ["peer-cache"; "manual"; "lan"; "helper"; "relay"]%string.

(** [\[A-Za-z0-9_.:-\]{1,128}] *)
Definition id_char (c : Z) : bool := alnum c || existsb (Z.eqb c) [95; 46; 58; 45].
Definition identifier (s : pystr) (code : string) : result unit :=
  cneed ((1 <=? len s) && (len s <=? 128) && forallb id_char s) code.

Definition bounded_tuple {A} (l : list A) (limit : Z) (code : string) : result unit :=
  cneed (len l <=? limit) code.

(** ** Addresses and endpoints *)

(** [numeric_ip]: IPv4-mapped addresses become IPv4. *)
Definition numeric_ip (s : pystr) : result ip :=
  _ ← cneed (negb (bool_decide (s = [])) && (len s <=? 45) && negb (existsb (Z.eqb 37) s)) "INVALID_ADDRESS";
  a ← of_option (ConnectivityError "INVALID_ADDRESS") (ip_address s);
  Ok (unmap a).

Definition is_ascii (s : pystr) : bool := forallb (λ c, (0 <=? c) && (c <? 128)) s.
Definition lower_ascii (s : pystr) : pystr := (λ c, if (65 <=? c) && (c <=? 90) then c + 32 else c) <$> s.

Definition lower_alnum (c : Z) : bool := is_digit_char c || ((97 <=? c) && (c <=? 122)).

(** [LABEL] *)
Definition dns_label (l : pystr) : bool :=
  match l with
  | [] => false
  | c :: _ =>
      lower_alnum c && lower_alnum (List.last l 0) && (len l <=? 63)
      && forallb (λ c, lower_alnum c || (c =? 45)) l
  end.

(** A part of a legacy numeric address: decimal digits or [0x] and hexadecimal digits. *)
Definition numeric_part (l : pystr) : bool :=
  digits_nonempty l
  || match l with
     | a :: b :: c :: l' => (a =? 48) && (b =? 120) && forallb is_hex (c :: l')
     | _ => false
     end.

Definition dns_name (s : pystr) : result pystr :=
  _ ← cneed (is_ascii s && (len s <=? 253)) "INVALID_ENDPOINT";
  let name := lower_ascii s in
  let labels := split_on 46 name in
  _ ← cneed (negb (forallb numeric_part labels && (len labels <=? 4))) "INVALID_ENDPOINT";
  _ ← cneed ((2 <=? len labels) && existsb (λ c, (97 <=? c) && (c <=? 122)) (List.last labels [])
             && forallb dns_label labels) "INVALID_ENDPOINT";
  Ok name.

Record endpoint := Endpoint {
  ep_scheme : pystr;
  ep_host : pystr;
  ep_port : Z;
  ep_literal : option pystr;
}.

Definition scheme_sep : pystr := str "://".

(** [Endpoint.key] *)
Definition endpoint_key (e : endpoint) : pystr :=
  let host := if existsb (Z.eqb 58) (ep_host e) then [91] ++ ep_host e ++ [93] else ep_host e in
  ep_scheme e ++ scheme_sep ++ host ++ [58] ++ dec (ep_port e).

(** The text before the first [c] and the text after it. *)
Fixpoint cut_at (c : Z) (s : pystr) : option (pystr * pystr) :=
  match s with
  | [] => None
  | a :: s' => if a =? c then Some ([], s') else '(x, y) ← cut_at c s'; Some (a :: x, y)
  end.

Definition strip_prefix (p s : pystr) : option pystr :=
  if bool_decide (firstn (length p) s = p) then Some (drop (length p) s) else None.

Definition schemes : list pystr := str <$> ["tcp"; "quic"; "wss"]%string.
Definition read_scheme (s : pystr) : option (pystr * pystr) :=
  hd_error (omap (λ p, r ← strip_prefix (p ++ scheme_sep) s; Some (p, r)) schemes).

(** [\[1-9\]\[0-9\]{0,4}], at most 65535 *)
Definition read_port (s : pystr) : option Z :=
  if digits_nonempty s && (len s <=? 5) && negb (bool_decide (hd_error s = Some 48)) && (decimal s <=? 65535)
  then Some (decimal s) else None.

Definition ip_text_char (c : Z) : bool := bool_decide (is_Some (hex_char c)) || (c =? 58) || (c =? 46).
Definition host_char (c : Z) : bool := alnum c || (c =? 46) || (c =? 45).

(** The regular expression of an endpoint: scheme, whether the host is bracketed, host, port. *)
Definition match_endpoint (s : pystr) : option (pystr * bool * pystr * Z) :=
  '(scheme, r) ← read_scheme s;
  match r with
  | 91 :: r' =>
      '(host, r') ← cut_at 93 r';
      match r' with
      | 58 :: port =>
          p ← read_port port;
          if negb (bool_decide (host = [])) && forallb ip_text_char host then Some (scheme, true, host, p) else None
      | _ => None
      end
  | _ =>
      '(host, port) ← cut_at 58 r;
      p ← read_port port;
      if negb (bool_decide (host = [])) && forallb host_char host then Some (scheme, false, host, p) else None
  end.

Definition parse_endpoint (s : pystr) : result endpoint :=
  _ ← cneed (is_ascii s && (len s <=? 320)) "INVALID_ENDPOINT";
  m ← of_option (ConnectivityError "INVALID_ENDPOINT") (match_endpoint s);
  let '(scheme, bracketed, host, port) := m in
  match (a ← numeric_ip host;
         _ ← cneed (negb (bracketed && negb (existsb (Z.eqb 58) host))) "INVALID_ENDPOINT"; Ok a) with
  | Ok a => Ok (Endpoint scheme (ip_str a) port (Some (ip_str a)))
  | Err _ =>
      if (bracketed : bool) then Err (ConnectivityError "INVALID_ENDPOINT")
      else host ← dns_name host; Ok (Endpoint scheme host port None)
  end.

Definition parse_network (s : pystr) : result network :=
  _ ← cneed ((len s <=? 49) && negb (existsb (Z.eqb 37) s) && existsb (Z.eqb 47) s) "INVALID_NETWORK";
  of_option (ConnectivityError "INVALID_NETWORK") (ip_network s).

(** ** Owner inputs *)

Record candidate := Candidate {
  ca_endpoint : pystr;
  ca_peer : pystr;
  ca_source : pystr;
}.

Definition new_candidate (endpoint_ peer source : pystr) : result candidate :=
  e ← parse_endpoint endpoint_;
  _ ← identifier peer "INVALID_ID";
  _ ← cneed (bool_decide (source ∈ SOURCES)) "INVALID_SOURCE";
  Ok (Candidate (endpoint_key e) peer source).

Record route_grant := RouteGrant {
  rg_endpoint : pystr;
  rg_peer : pystr;
  rg_source : pystr;
  rg_networks : list pystr;
  rg_allow_local : bool;
  rg_resolver : option pystr;
  rg_aliases : list pystr;
}.

Definition new_grant (endpoint_ peer source : pystr) (networks : list pystr) (allow_local : bool)
    (resolver : option pystr) (aliases : list pystr) : result route_grant :=
  c ← new_candidate endpoint_ peer source;
  _ ← match resolver with Some r => identifier r "INVALID_RESOLVER" | None => Ok tt end;
  _ ← bounded_tuple networks 32 "INVALID_NETWORK";
  ns ← mapM (λ s, n ← parse_network s; Ok (network_str n)) networks;
  _ ← bounded_tuple aliases 16 "INVALID_ALIAS";
  names ← mapM dns_name aliases;
  Ok (RouteGrant (ca_endpoint c) peer source ns allow_local resolver names).

Definition grant_key (g : route_grant) : pystr * pystr * pystr := (rg_source g, rg_peer g, rg_endpoint g).

(** The numeric bounds of [Policy], in the order of [maxima]. *)
Record budgets := Budgets {
  max_candidates : Z;
  max_candidate_bytes : Z;
  max_addresses : Z;
  max_total_addresses : Z;
  max_aliases : Z;
  max_attempts : Z;
  max_inflight : Z;
  max_connections : Z;
}.

(** Timeouts are rationals, [None] a float that is not finite. *)
Record policy := Policy {
  po_grants : list route_grant;
  po_allow_egress : bool;
  po_metered_user : bool;
  po_metered_background : bool;
  po_budgets : budgets;
  po_timeout : option Q;
  po_cleanup_timeout : option Q;
}.

Definition budgets_ok (b : budgets) : bool :=
  forallb (λ vm, (1 <=? vm.1) && (vm.1 <=? vm.2))
    [(max_candidates b, 128); (max_candidate_bytes b, 65536); (max_addresses b, 64);
     (max_total_addresses b, 256); (max_aliases b, 16); (max_attempts b, 64); (max_inflight b, 16);
     (max_connections b, 64)].

(** The float [0.001] is this fraction. *)
Definition millisecond : Q := 1152921504606847 # 1152921504606846976.
Definition timeout_ok (t : option Q) : bool :=
  match t with Some q => Qle_bool millisecond q && Qle_bool q 60 | None => false end.

Definition new_policy (p : policy) : result policy :=
  _ ← bounded_tuple (po_grants p) 128 "INVALID_POLICY";
  _ ← cneed (bool_decide (NoDup (grant_key <$> po_grants p))) "DUPLICATE_GRANT";
  _ ← cneed (budgets_ok (po_budgets p)) "INVALID_BUDGET";
  _ ← cneed (timeout_ok (po_timeout p) && timeout_ok (po_cleanup_timeout p)) "INVALID_BUDGET";
  Ok p.

Record resolution := Resolution {
  re_query : pystr;
  re_resolver : pystr;
  re_addresses : list pystr;
  re_aliases : list pystr;
}.

Record dial_target := DialTarget {
  dt_scheme : pystr;
  dt_ip : pystr;
  dt_port : Z;
  dt_server_name : option pystr;
  dt_peer : pystr;
  dt_source : pystr;
  dt_generation : Z;
}.

(** ** Address classes *)

Definition networks_of (l : list string) : list network := omap (λ s, ip_network (str s)) l.

Definition SPECIAL_V4 : list network :=
  Eval vm_compute in networks_of
    ["0.0.0.0/8"; "100.64.0.0/10"; "169.254.0.0/16"; "192.0.0.0/24"; "192.0.2.0/24"; "192.31.196.0/24";
     "192.52.193.0/24"; "192.88.99.0/24"; "192.175.48.0/24"; "198.18.0.0/15"; "198.51.100.0/24";
     "203.0.113.0/24"; "224.0.0.0/4"; "240.0.0.0/4"]%string.
Definition SPECIAL_V6 : list network :=
  Eval vm_compute in networks_of ["2001::/23"; "2001:db8::/32"; "2002::/16"; "2620:4f:8000::/48"; "3fff::/20"]%string.
Definition LOCAL : list network :=
  Eval vm_compute in networks_of
    ["10.0.0.0/8"; "172.16.0.0/12"; "192.168.0.0/16"; "127.0.0.0/8"; "::1/128"; "fc00::/7"]%string.
Definition GLOBAL_V6 : network := Eval vm_compute in hd (Network (IPv6 0) 0) (networks_of ["2000::/3"%string]).
Definition METADATA_V6 : ip := Eval vm_compute in default (IPv6 0) (ip_address (str "fd00:ec2::254")).

(** [_within] *)
Definition within (a : ip) (ns : list network) : bool := existsb (in_network a) ns.

Definition address_allowed (s : pystr) (g : route_grant) : result pystr :=
  a ← numeric_ip s;
  _ ← cneed (negb (bool_decide (a = METADATA_V6))) "METADATA_DENIED";
  _ ← (if within a LOCAL then cneed (rg_allow_local g) "LOCAL_ADDRESS_DENIED"
       else if version a =? 4 then cneed (negb (within a SPECIAL_V4)) "SPECIAL_ADDRESS_DENIED"
       else cneed (in_network a GLOBAL_V6 && negb (within a SPECIAL_V6)) "SPECIAL_ADDRESS_DENIED");
  ns ← mapM parse_network (rg_networks g);
  _ ← cneed (within a ns) "ADDRESS_NOT_GRANTED";
  Ok (ip_str a).

(** ** Selection *)

Definition candidate_key (c : candidate) : pystr * pystr * pystr := (ca_source c, ca_peer c, ca_endpoint c).

(** The dictionary [available] keeps the last grant of a key. *)
Definition find_grant (gs : list route_grant) (k : pystr * pystr * pystr) : option route_grant :=
  List.find (λ g, bool_decide (grant_key g = k)) (rev gs).

Definition select_one (gs : list route_grant) (c : candidate)
    (st : gset (pystr * pystr * pystr) * list route_grant) : result (gset (pystr * pystr * pystr) * list route_grant) :=
  let k := candidate_key c in
  g ← of_option (ConnectivityError "ROUTE_NOT_GRANTED") (find_grant gs k);
  if bool_decide (k ∈ st.1) then Ok st else Ok ({[k]} ∪ st.1, st.2 ++ [g]).

Definition select_candidates (cs : list candidate) (p : policy) : result (list route_grant) :=
  _ ← cneed (po_allow_egress p) "EGRESS_DENIED";
  _ ← bounded_tuple cs (max_candidates (po_budgets p)) "CANDIDATE_BUDGET";
  _ ← cneed (fold_right Z.add 0 ((λ c, len (ca_endpoint c) + len (ca_peer c) + len (ca_source c)) <$> cs)
             <=? max_candidate_bytes (po_budgets p)) "CANDIDATE_BYTES";
  st ← iter (select_one (po_grants p)) cs (∅, []);
  Ok st.2.

(** ** Authorization of a resolution *)

Definition check_alias (g : route_grant) (alias : pystr) (seen : gset pystr) : result (gset pystr) :=
  name ← dns_name alias;
  _ ← cneed (negb (bool_decide (name ∈ seen))) "DNS_ALIAS_CYCLE";
  _ ← cneed (bool_decide (name ∈ rg_aliases g)) "DNS_ALIAS_DENIED";
  Ok ({[name]} ∪ seen).

(** The addresses to validate. *)
Definition resolved_addresses (g : route_grant) (e : endpoint) (res : option resolution) (p : policy)
    : result (list pystr) :=
  match ep_literal e with
  | Some a => _ ← cneed (bool_decide (res = None)) "RESOLUTION_MISMATCH"; Ok [a]
  | None =>
      resolver ← of_option (ConnectivityError "DNS_NOT_GRANTED") (rg_resolver g);
      r ← of_option (ConnectivityError "RESOLUTION_REQUIRED") res;
      _ ← cneed (bool_decide (re_query r = ep_host e) && bool_decide (re_resolver r = resolver))
            "RESOLUTION_MISMATCH";
      _ ← bounded_tuple (re_aliases r) (max_aliases (po_budgets p)) "DNS_ALIAS_BUDGET";
      _ ← iter (check_alias g) (re_aliases r) {[ep_host e]};
      _ ← bounded_tuple (re_addresses r) (max_addresses (po_budgets p)) "ADDRESS_BUDGET";
      _ ← cneed (negb (bool_decide (re_addresses r = []))) "NO_ADDRESSES";
      Ok (re_addresses r)
  end.

(** [dict.fromkeys]: the first occurrence of each. *)
Fixpoint first_occurrences (seen : gset pystr) (l : list pystr) : list pystr :=
  match l with
  | [] => []
  | s :: l' => if bool_decide (s ∈ seen) then first_occurrences seen l'
               else s :: first_occurrences ({[s]} ∪ seen) l'
  end.

Definition authorize_addresses (g : route_grant) (res : option resolution) (p : policy) (generation : Z)
    : result (list dial_target) :=
  e ← parse_endpoint (rg_endpoint g);
  addresses ← resolved_addresses g e res p;
  ips ← mapM (λ a, address_allowed a g) addresses;
  Ok ((λ a, DialTarget (ep_scheme e) a (ep_port e)
              (match ep_literal e with None => Some (ep_host e) | Some _ => None end)
              (rg_peer g) (rg_source g) generation) <$> first_occurrences ∅ ips).
