(* ===== verification/ConnectivitySpec.v ===== *)
(** * The egress policy lets only granted, routable addresses through

    The address classes are stated again as intervals of addresses, independently of
    prefixes and masks, and every authorized target is shown to satisfy them. *)

From S2P Require Import Prelude Bytes Value Codec Schema Json Ipaddr Connectivity.
From Stdlib Require Import QArith.
Local Open Scope Z_scope.

#[local] Opaque parse_endpoint dns_name ip_address ip_network.

Lemma cneed_Ok ok code : cneed ok code = Ok tt ↔ ok = true.
Proof. apply require_Ok. Qed.

(** ** Intervals *)

Definition between (a lo hi : ip) : Prop :=
  version a = version lo ∧ ip_int lo <= ip_int a <= ip_int hi.

Definition last_address (n : network) : ip :=
  let size := 2 ^ (width (net_address n) - net_prefix n) in
  match net_address n with IPv4 z => IPv4 (z + size - 1) | IPv6 z => IPv6 (z + size - 1) end.

Definition well_formed (n : network) : Prop :=
  0 <= net_prefix n <= width (net_address n) ∧
  ip_int (net_address n) mod 2 ^ (width (net_address n) - net_prefix n) = 0.

Lemma version_width a b : version a = version b → width a = width b.
Proof. by destruct a, b. Qed.

Lemma in_network_between a n :
  well_formed n → in_network a n = true ↔ between a (net_address n) (last_address n).
Proof.
  intros [Hp Hm]. unfold in_network, between. rewrite andb_true_iff, !Z.eqb_eq.
  assert (ip_int (last_address n) = ip_int (net_address n) + 2 ^ (width (net_address n) - net_prefix n) - 1) as ->
    by (unfold last_address; by destruct (net_address n)).
  set (s := 2 ^ (width (net_address n) - net_prefix n)) in *.
  assert (0 < s) as Hs by (apply Z.pow_pos_nonneg; lia).
  pose proof (Z.div_mod (ip_int (net_address n)) s ltac:(lia)) as H1.
  pose proof (Z.div_mod (ip_int a) s ltac:(lia)) as H2.
  pose proof (Z.mod_pos_bound (ip_int a) s Hs) as H3.
  split; intros [Hv Hd]; (split; [done|]); rewrite ?(version_width a (net_address n) Hv) in *; fold s in Hd |- *.
  - rewrite Hd in H2. lia.
  - symmetry. apply (Z.div_unique _ _ _ (ip_int a - ip_int (net_address n))); lia.
Qed.

Lemma decimal_nonneg s : digits_nonempty s = true → 0 <= decimal s.
Proof.
  unfold digits_nonempty, decimal. intros [_ Hs]%andb_prop.
  assert (∀ n, 0 <= n → 0 <= fold_left (λ n c, n * 10 + (c - 48)) s n) as Hg; [|by apply Hg].
  induction s as [|c s IH]; intros n Hn; [done|]. cbn [forallb] in Hs. apply andb_prop in Hs as [Hc Hs].
  apply (IH Hs). unfold is_digit_char in Hc. zb. lia.
Qed.

Lemma mask_prefix_range m p : mask_prefix m = Some p → 0 <= p <= 32.
Proof.
  unfold mask_prefix. intros [Hin _]%find_some. apply list_elem_of_In, list_elem_of_fmap in Hin as (k & -> & Hk).
  apply elem_of_seq in Hk. lia.
Qed.

Lemma prefix_of_range v4 s p : prefix_of v4 s = Some p → 0 <= p <= if v4 then 32 else 128.
Proof.
  unfold prefix_of. destruct (digits_nonempty s && _) eqn:E.
  - intros [= <-]. apply andb_prop in E as [H1%decimal_nonneg H2%Z.leb_le]. lia.
  - destruct v4; [|done]. destruct (parse_ipv4 s); [|done]. cbn [mbind option_bind].
    destruct (mask_prefix z) eqn:M; intros E'; [injection E' as <-|]; by eapply mask_prefix_range.
Qed.

#[local] Transparent ip_network.
Lemma ip_network_wf s n : ip_network s = Some n → well_formed n.
Proof.
  assert (∀ a p, 0 <= p <= width a → network_of a p = Some n → well_formed n) as Hof.
  { unfold network_of. intros a p Hp E. destruct (_ =? 0) eqn:M; [|done]. injection E as <-.
    split; cbn; [done|]. by apply Z.eqb_eq. }
  unfold ip_network. destruct (split_on 47 s) as [|addr [|mask []]]; try done.
  intros E. assert ((∃ z p, prefix_of true mask = Some p ∧ network_of (IPv4 z) p = Some n) ∨
    ∃ z p, prefix_of false mask = Some p ∧ network_of (IPv6 z) p = Some n) as [(z & p & Hp & E')|(z & p & Hp & E')].
  { assert ((z ← parse_ipv6 addr; p ← prefix_of false mask; network_of (IPv6 z) p) = Some n →
      ∃ z p, prefix_of false mask = Some p ∧ network_of (IPv6 z) p = Some n) as H6.
    { destruct (parse_ipv6 addr) as [z|]; [|done]. cbn [mbind option_bind].
      destruct (prefix_of false mask) as [p|]; [|done]. by exists z, p. }
    destruct (parse_ipv4 addr) as [z|]; [|right; by apply H6].
    destruct (prefix_of true mask) as [p|]; [left; by exists z, p|right; by apply H6]. }
  - apply prefix_of_range in Hp. by apply (Hof (IPv4 z) p).
  - apply prefix_of_range in Hp. by apply (Hof (IPv6 z) p).
Qed.
#[local] Opaque ip_network.

(** ** The classes of the policy, as intervals *)

Definition interval (lo hi : string) : ip * ip :=
  (default (IPv4 0) (ip_address (str lo)), default (IPv4 0) (ip_address (str hi))).

Definition private_ranges : list (ip * ip) :=
  [interval "10.0.0.0" "10.255.255.255"; interval "172.16.0.0" "172.31.255.255";
   interval "192.168.0.0" "192.168.255.255"; interval "127.0.0.0" "127.255.255.255";
   interval "::1" "::1"; interval "fc00::" "fdff:ffff:ffff:ffff:ffff:ffff:ffff:ffff"].
Definition special_ranges_v4 : list (ip * ip) :=
  [interval "0.0.0.0" "0.255.255.255"; interval "100.64.0.0" "100.127.255.255";
   interval "169.254.0.0" "169.254.255.255"; interval "192.0.0.0" "192.0.0.255";
   interval "192.0.2.0" "192.0.2.255"; interval "192.31.196.0" "192.31.196.255";
   interval "192.52.193.0" "192.52.193.255"; interval "192.88.99.0" "192.88.99.255";
   interval "192.175.48.0" "192.175.48.255"; interval "198.18.0.0" "198.19.255.255";
   interval "198.51.100.0" "198.51.100.255"; interval "203.0.113.0" "203.0.113.255";
   interval "224.0.0.0" "239.255.255.255"; interval "240.0.0.0" "255.255.255.255"].
Definition special_ranges_v6 : list (ip * ip) :=
  [interval "2001::" "2001:1ff:ffff:ffff:ffff:ffff:ffff:ffff";
   interval "2001:db8::" "2001:db8:ffff:ffff:ffff:ffff:ffff:ffff";
   interval "2002::" "2002:ffff:ffff:ffff:ffff:ffff:ffff:ffff";
   interval "2620:4f:8000::" "2620:4f:8000:ffff:ffff:ffff:ffff:ffff";
   interval "3fff::" "3fff:fff:ffff:ffff:ffff:ffff:ffff:ffff"].
Definition global_range : ip * ip := interval "2000::" "3fff:ffff:ffff:ffff:ffff:ffff:ffff:ffff".

Definition in_ranges (a : ip) (rs : list (ip * ip)) : Prop := ∃ r, r ∈ rs ∧ between a r.1 r.2.

Definition network_range (n : network) : ip * ip := (net_address n, last_address n).

Lemma within_ranges a ns : Forall well_formed ns → within a ns = true ↔ in_ranges a (network_range <$> ns).
Proof.
  intros Hwf. unfold within, in_ranges. rewrite existsb_exists. split.
  - intros (n & Hn%list_elem_of_In & Hi). exists (network_range n). split; [by apply list_elem_of_fmap_2|].
    rewrite Forall_forall in Hwf. by apply (in_network_between _ _ (Hwf _ Hn)).
  - intros (r & (n & -> & Hn)%list_elem_of_fmap & Hb). exists n. split; [by apply list_elem_of_In|].
    rewrite Forall_forall in Hwf. by apply (in_network_between _ _ (Hwf _ Hn)).
Qed.

Lemma classes_wf : Forall well_formed (LOCAL ++ SPECIAL_V4 ++ SPECIAL_V6 ++ [GLOBAL_V6]).
Proof. by repeat constructor. Qed.

Lemma private_spec a : within a LOCAL = true ↔ in_ranges a private_ranges.
Proof.
  rewrite within_ranges by by repeat constructor.
  replace private_ranges with (network_range <$> LOCAL) by (vm_compute; reflexivity). done.
Qed.
Lemma special_v4_spec a : within a SPECIAL_V4 = true ↔ in_ranges a special_ranges_v4.
Proof.
  rewrite within_ranges by by repeat constructor.
  replace special_ranges_v4 with (network_range <$> SPECIAL_V4) by (vm_compute; reflexivity). done.
Qed.
Lemma special_v6_spec a : within a SPECIAL_V6 = true ↔ in_ranges a special_ranges_v6.
Proof.
  rewrite within_ranges by by repeat constructor.
  replace special_ranges_v6 with (network_range <$> SPECIAL_V6) by (vm_compute; reflexivity). done.
Qed.
Lemma global_spec a : in_network a GLOBAL_V6 = true ↔ between a global_range.1 global_range.2.
Proof.
  rewrite in_network_between by done.
  replace global_range with (network_range GLOBAL_V6) by (vm_compute; reflexivity). done.
Qed.

(** ** What a grant permits *)

Record permitted (g : route_grant) (a : ip) : Prop := {
  pm_metadata : Some a ≠ ip_address (str "fd00:ec2::254");
  pm_private : in_ranges a private_ranges → rg_allow_local g = true;
  pm_public : ¬ in_ranges a private_ranges →
    (version a = 4 → ¬ in_ranges a special_ranges_v4) ∧
    (version a = 6 → between a global_range.1 global_range.2 ∧ ¬ in_ranges a special_ranges_v6);
  pm_granted : ∃ s n, s ∈ rg_networks g ∧ ip_network s = Some n ∧ between a (net_address n) (last_address n);
}.

Lemma address_allowed_Ok s g out :
  address_allowed s g = Ok out → ∃ a, numeric_ip s = Ok a ∧ out = ip_str a ∧ permitted g a.
Proof.
  unfold address_allowed. intros E. apply bind_Ok in E as (a & Ha & E).
  apply bind_Ok in E as ([] & Hm%cneed_Ok & E). apply bind_Ok in E as ([] & Hc & E).
  apply bind_Ok in E as (ns & Hns & E). apply bind_Ok in E as ([] & Hw%cneed_Ok & E). injection E as <-.
  exists a. split_and!; [done|done|]. apply mapM_Ok_elem in Hns as [_ Hns].
  split.
  - apply negb_true_iff, bool_decide_eq_false in Hm. intros Hs. apply Hm, (inj Some). rewrite Hs. by vm_compute.
  - intros Hp. apply private_spec in Hp. rewrite Hp in Hc. by apply cneed_Ok in Hc.
  - intros Hp. destruct (within a LOCAL) eqn:Hl; [by apply private_spec in Hl|].
    destruct a; cbn [version] in *; [rewrite Z.eqb_refl in Hc|]; (split; [|]); try done; intros _.
    + apply cneed_Ok, negb_true_iff in Hc. rewrite <-special_v4_spec. by rewrite Hc.
    + change (6 =? 4) with false in Hc. apply cneed_Ok, andb_prop in Hc as [Hg Hs].
      rewrite <-global_spec, <-special_v6_spec. split; [done|]. apply negb_true_iff in Hs. by rewrite Hs.
  - apply existsb_exists in Hw as (n & Hn%list_elem_of_In & Hi). destruct (Hns n Hn) as (s' & Hs' & Ep).
    unfold parse_network in Ep. apply bind_Ok in Ep as ([] & _ & Ep).
    destruct (ip_network s') as [n'|] eqn:En; [|done]. injection Ep as ->.
    exists s', n. split_and!; [done|done|]. apply in_network_between; [by eapply ip_network_wf|done].
Qed.

Lemma first_occurrences_spec seen l :
  NoDup (first_occurrences seen l) ∧
  ∀ s, s ∈ first_occurrences seen l ↔ s ∈ l ∧ s ∉ seen.
Proof.
  revert seen. induction l as [|x l IH]; intros seen; cbn [first_occurrences].
  { split; [constructor|]. intros s. split; [by intros ?%not_elem_of_nil|by intros [?%not_elem_of_nil _]]. }
  destruct (IH seen) as [N1 H1]. destruct (IH ({[x]} ∪ seen)) as [N2 H2].
  case_bool_decide as Hx.
  - split; [done|]. intros s. rewrite H1, elem_of_cons. split; [naive_solver|].
    intros [[->|?] ?]; [done|by split].
  - split.
    + constructor; [|done]. rewrite H2. set_solver.
    + intros s. rewrite !elem_of_cons, H2. destruct (decide (s = x)); set_solver.
Qed.

Lemma first_occurrences_len seen l : len (first_occurrences seen l) <= len l.
Proof.
  revert seen. induction l as [|x l IH]; intros seen; cbn [first_occurrences]; [done|].
  case_bool_decide; rewrite ?len_cons; [pose proof (IH seen)|pose proof (IH ({[x]} ∪ seen))]; lia.
Qed.

Lemma authorized g res p generation ts :
  authorize_addresses g res p generation = Ok ts →
  ts ≠ [] ∧ NoDup (dt_ip <$> ts) ∧
  (∀ t, t ∈ ts → dt_peer t = rg_peer g ∧ dt_generation t = generation ∧
     ∃ a, dt_ip t = ip_str a ∧ permitted g a) ∧
  (∀ r, res = Some r → len ts <= max_addresses (po_budgets p) ∧
     ∀ s, s ∈ re_addresses r → ∃ a, numeric_ip s = Ok a ∧ permitted g a ∧ ip_str a ∈ dt_ip <$> ts).
Proof.
  unfold authorize_addresses. intros E. apply bind_Ok in E as (e & _ & E).
  apply bind_Ok in E as (addrs & Had & E). apply bind_Ok in E as (ips & Hips & E). injection E as <-.
  set (mk := λ a, DialTarget _ a _ _ _ _ _).
  assert (∀ l, dt_ip <$> (mk <$> l) = l) as Hmk by (intros l; rewrite <-list_fmap_compose; apply list_fmap_id).
  pose proof (mapM_Ok_elem _ _ _ Hips) as [Hall Hback].
  destruct (first_occurrences_spec ∅ ips) as [Hnd Hin]. rewrite Hmk.
  assert (addrs ≠ [] ∧ ∀ r, res = Some r → addrs = re_addresses r ∧ len addrs <= max_addresses (po_budgets p))
    as [Hne Hres].
  { unfold resolved_addresses in Had. destruct (ep_literal e) as [lit|].
    - apply bind_Ok in Had as ([] & Hn%cneed_Ok%bool_decide_eq_true & Had). injection Had as <-. by rewrite Hn.
    - apply bind_Ok in Had as (? & _ & Had). apply bind_Ok in Had as (r & Hr & Had).
      apply bind_Ok in Had as ([] & _ & Had). apply bind_Ok in Had as ([] & _ & Had).
      apply bind_Ok in Had as (? & _ & Had). apply bind_Ok in Had as ([] & Hb%cneed_Ok%Z.leb_le & Had).
      apply bind_Ok in Had as ([] & Hz%cneed_Ok & Had). injection Had as <-.
      destruct res as [r'|]; [|done]. injection Hr as ->. split; [|by intros ? [= ->]].
      by apply negb_true_iff, bool_decide_eq_false in Hz. }
  split_and!; [|done|..].
  - destruct addrs as [|a addrs]; [done|]. destruct (Hall a) as (y & _ & Hy); [by left|].
    intros Hn. assert (y ∈ first_occurrences ∅ ips) as Hy' by (apply Hin; set_solver).
    rewrite <-(Hmk (first_occurrences ∅ ips)), Hn in Hy'. by apply not_elem_of_nil in Hy'.
  - intros t (a & -> & Ha)%list_elem_of_fmap. split_and!; [done|done|]. cbn.
    apply Hin in Ha as [Ha _]. destruct (Hback a Ha) as (s & _ & Hs).
    apply address_allowed_Ok in Hs as (x & _ & -> & Hp). by exists x.
  - intros r Hr. destruct (Hres r Hr) as [-> Hl]. split.
    + unfold len at 1. rewrite length_fmap. pose proof (first_occurrences_len ∅ ips).
      apply mapM_Ok_length in Hips. unfold len in *. lia.
    + intros s Hs. destruct (Hall s Hs) as (y & Hy & Hyi).
      apply address_allowed_Ok in Hy as (x & Hx & -> & Hp). exists x. split_and!; [done|done|].
      apply Hin. set_solver.
Qed.

(** ** Properties *)

(** C21. No answer of a resolver can route a dial around the policy: all addresses of the answer are
    validated before any target exists, and every target is in a granted network, is not
    the cloud metadata address, is private only if the grant allows it and is otherwise
    global unicast outside every special range; IPv4-mapped forms count as IPv4. *)
Theorem targets_permitted g res p generation ts :
  authorize_addresses g res p generation = Ok ts →
  ts ≠ [] ∧ NoDup (dt_ip <$> ts) ∧
  (∀ t, t ∈ ts → dt_peer t = rg_peer g ∧ dt_generation t = generation ∧
     ∃ a, dt_ip t = ip_str a ∧ permitted g a) ∧
  (∀ r, res = Some r → len ts <= max_addresses (po_budgets p) ∧
     ∀ s, s ∈ re_addresses r → ∃ a, numeric_ip s = Ok a ∧ permitted g a ∧ ip_str a ∈ dt_ip <$> ts).
Proof. apply authorized. Qed.

(** ** Selection *)

Lemma find_grant_Some gs k g : find_grant gs k = Some g → g ∈ gs ∧ grant_key g = k.
Proof.
  unfold find_grant. intros [Hin Hk]%find_some. split; [|by apply bool_decide_eq_true in Hk].
  apply list_elem_of_In. by apply in_rev.
Qed.

Lemma find_grant_None gs k : find_grant gs k = None → k ∉ grant_key <$> gs.
Proof.
  unfold find_grant. intros Hn (g & -> & Hg)%list_elem_of_fmap.
  eapply find_none in Hn; [by apply bool_decide_eq_false in Hn|].
  apply in_rev. rewrite rev_involutive. by apply list_elem_of_In.
Qed.

(** The state after the candidates [cs]. *)
Definition selected (gs : list route_grant) (cs : list candidate)
    (st : gset (pystr * pystr * pystr) * list route_grant) : Prop :=
  (∀ k, k ∈ st.1 ↔ k ∈ candidate_key <$> cs) ∧ (∀ k, k ∈ st.1 ↔ k ∈ grant_key <$> st.2) ∧
  NoDup (grant_key <$> st.2) ∧ (∀ g, g ∈ st.2 → g ∈ gs) ∧
  sublist (grant_key <$> st.2) (candidate_key <$> cs).

Lemma select_one_Ok gs cs c st st' :
  select_one gs c st = Ok st' → selected gs cs st → selected gs (cs ++ [c]) st'.
Proof.
  unfold select_one. intros E (H1 & H2 & H3 & H4 & H5). apply bind_Ok in E as (g & Hg & E).
  destruct (find_grant gs (candidate_key c)) as [g'|] eqn:Ef; [|done]. injection Hg as ->.
  apply find_grant_Some in Ef as [Hin Hk]. unfold selected. rewrite !fmap_app. cbn [fmap list_fmap].
  case_bool_decide as Hs; injection E as <-; cbn [fst snd].
  - split_and!; [|done|done|done|by apply sublist_inserts_r].
    intros k. rewrite H1, elem_of_app, list_elem_of_singleton. split; [by left|].
    intros [?|Hk3]; [done|subst k; by apply H1].
  - rewrite fmap_app. cbn [fmap list_fmap]. rewrite Hk. split_and!.
    + intros k. rewrite elem_of_union, elem_of_singleton, H1, elem_of_app, list_elem_of_singleton. naive_solver.
    + intros k. rewrite elem_of_union, elem_of_singleton, H2, elem_of_app, list_elem_of_singleton. naive_solver.
    + apply NoDup_app. split_and!; [done| |repeat constructor; by apply not_elem_of_nil].
      intros k Hk' Hk2%list_elem_of_singleton; subst k. by apply Hs, H2.
    + intros x [Hx|Hx%list_elem_of_singleton]%elem_of_app; [by apply H4|by subst x].
    + by apply sublist_app.
Qed.

Lemma select_all_Ok gs l cs st st' :
  iter (select_one gs) l st = Ok st' → selected gs cs st → selected gs (cs ++ l) st'.
Proof.
  revert cs st. induction l as [|c l IH]; intros cs st E Hst; cbn [iter] in E.
  { injection E as <-. by rewrite app_nil_r. }
  destruct (select_one gs c st) as [t|] eqn:Ec; [|done].
  change (c :: l) with ([c] ++ l). rewrite (assoc_L (++)). eapply IH; [done|]. by eapply select_one_Ok.
Qed.

Lemma selection_sound cs p gs :
  select_candidates cs p = Ok gs → ∃ seen, selected (po_grants p) cs (seen, gs).
Proof.
  unfold select_candidates. intros E. do 3 (apply bind_Ok in E as (? & _ & E)).
  apply bind_Ok in E as ([seen gs'] & Es & E). injection E as <-. exists seen.
  apply (select_all_Ok _ _ []) in Es; [done|]. split_and!; cbn; [set_solver|set_solver|constructor|set_solver|constructor].
Qed.

Lemma selected_granted cs p gs g : select_candidates cs p = Ok gs → g ∈ gs → g ∈ po_grants p.
Proof. intros (seen & _ & _ & _ & H & _)%selection_sound. apply H. Qed.

(** Selection takes granted routes only: it succeeds exactly when egress is allowed, the
    candidates fit their budgets and each has a grant, and then gives the grants of the
    candidates once each, in the candidates' order. *)
Theorem selection_granted cs p :
  (is_ok (select_candidates cs p) = true ↔
     po_allow_egress p = true ∧ len cs <= max_candidates (po_budgets p) ∧
     fold_right Z.add 0 ((λ c, len (ca_endpoint c) + len (ca_peer c) + len (ca_source c)) <$> cs)
       <= max_candidate_bytes (po_budgets p) ∧
     ∀ c, c ∈ cs → candidate_key c ∈ grant_key <$> po_grants p) ∧
  ∀ gs, select_candidates cs p = Ok gs →
    (∀ g, g ∈ gs → g ∈ po_grants p) ∧ NoDup (grant_key <$> gs) ∧
    (∀ k, k ∈ grant_key <$> gs ↔ k ∈ candidate_key <$> cs) ∧
    sublist (grant_key <$> gs) (candidate_key <$> cs).
Proof.
  assert (∀ st, iter (select_one (po_grants p)) cs (∅, []) = Ok st → selected (po_grants p) cs st) as Hsel.
  { intros st E. apply (select_all_Ok _ _ []) in E; [done|]. split_and!; cbn; [set_solver|set_solver|constructor|set_solver|constructor]. }
  unfold select_candidates. split.
  - split.
    + intros Hok. destruct (po_allow_egress p); [|done]. cbn [cneed require mbind result_bind] in Hok.
      unfold bounded_tuple in Hok. destruct (len cs <=? _) eqn:Hn; [|done]. cbn in Hok.
      destruct (_ <=? max_candidate_bytes _) eqn:Hb; [|done]. cbn in Hok.
      destruct (iter _ _ _) as [st|] eqn:Es; [|done]. specialize (Hsel _ eq_refl) as (H1 & H2 & _ & H4 & _).
      split_and!; [done|by apply Z.leb_le..|]. intros c Hc.
      assert (candidate_key c ∈ grant_key <$> st.2) as Hk by by apply H2, H1, list_elem_of_fmap_2.
      apply list_elem_of_fmap in Hk as (g & -> & Hg). by apply list_elem_of_fmap_2, H4.
    + intros (He & Hn & Hb & Hall). rewrite He. cbn [cneed require mbind result_bind].
      unfold bounded_tuple. apply Z.leb_le in Hn as ->. cbn. apply Z.leb_le in Hb as ->. cbn.
      destruct (iter _ _ _) as [st|x] eqn:Es; [done|].
      apply iter_Err in Es as (c & st & Hc & Es). unfold select_one in Es.
      apply bind_Err in Es as [Es|(g & _ & Es)]; [|by case_bool_decide].
      destruct (find_grant _ _) eqn:Ef; [done|]. by apply find_grant_None in Ef as []; apply Hall.
  - intros gs (seen & H1 & H2 & H3 & H4 & H5)%selection_sound.
    split_and!; [done|done| |done]. intros k. by rewrite <-H2, H1.
Qed.

(** ** A grant, and an answer mixing a public and a mapped private address *)

#[local] Transparent parse_endpoint dns_name ip_address ip_network.

Definition sample_endpoint : pystr := str "quic://node.example.org:4433".
Definition sample_grant : route_grant :=
  RouteGrant sample_endpoint (str "peer-1") (str "manual") [str "0.0.0.0/0"; str "2000::/3"] false
    (Some (str "resolver")) [].
Definition sample_budgets : budgets := Budgets 16 8192 8 32 4 4 2 4.
Definition sample_policy : policy :=
  Policy [sample_grant] true false false sample_budgets (Some (5 # 1)%Q) (Some (1 # 4)%Q).
Definition sample_resolution : resolution :=
  Resolution (str "node.example.org") (str "resolver") [str "1.1.1.1"; str "2606:4700::1111"; str "::ffff:1.1.1.1"] [].
Definition sample_targets : list dial_target :=
  (λ a, DialTarget (str "quic") a 4433 (Some (str "node.example.org")) (str "peer-1") (str "manual") 7)
    <$> [str "1.1.1.1"; str "2606:4700::1111"].

Example mapped_private_denied :
  authorize_addresses sample_grant
    (Some (Resolution (str "node.example.org") (str "resolver") [str "1.1.1.1"; str "::ffff:10.0.0.1"] []))
    sample_policy 7 = Err (ConnectivityError "LOCAL_ADDRESS_DENIED").
Proof. vm_compute. done. Qed.

Lemma targets_permitted_witness :
  sample_targets ≠ [] ∧ NoDup (dt_ip <$> sample_targets) ∧
  (∀ t, t ∈ sample_targets → dt_peer t = rg_peer sample_grant ∧ dt_generation t = 7 ∧
     ∃ a, dt_ip t = ip_str a ∧ permitted sample_grant a) ∧
  (∀ r, Some sample_resolution = Some r → len sample_targets <= max_addresses (po_budgets sample_policy) ∧
     ∀ s, s ∈ re_addresses r → ∃ a, numeric_ip s = Ok a ∧ permitted sample_grant a ∧ ip_str a ∈ dt_ip <$> sample_targets).
Proof.
  exact (targets_permitted sample_grant (Some sample_resolution) sample_policy 7 sample_targets eq_refl).
Defined.
