(* ===== verification/Controller.v ===== *)
(** * The dial controller (product/wp09/par_connectivity/controller.py)

    Each [connect] is a job: the coroutine [_connect] suspended at one of its awaits.  A
    [step] is what runs between two awaits; the ports, the clock (read once per step), and
    the events of callers are its arguments.  Connections are named by [id(connection)].
    Cancellation of the coroutine itself by its caller's task is not modelled. *)

From S2P Require Import Prelude Bytes Value Codec Schema Json Ipaddr Connectivity.
From Stdlib Require Import QArith.
Local Open Scope Z_scope.

Definition TERMINAL : list string :=
  ["CLOSED"; "STALE_GENERATION"; "CANCELLED"; "DEADLINE"; "ATTEMPT_BUDGET"; "TOTAL_ADDRESS_BUDGET";
   "CLEANUP_PENDING"; "CLEANUP_FAILED"]%string.
Definition terminal (code : string) : bool := existsb (String.eqb code) TERMINAL.

Record attempt := Attempt {
  at_index : Z;
  at_stage : string;
  at_reason : string;
}.

(** Where a job is suspended; [WRetire] ends in an exception or goes on with the targets. *)
Inductive wait :=
| WResolve (e : endpoint)
| WDial (t : dial_target)
| WAuth (t : dial_target) (c : Z)
| WRetire (raise : option string).

(** [_Operation] and the local variables of [_connect]. *)
Record job := Job {
  j_generation : Z;
  j_deadline : Q;
  j_stop : bool;
  j_caller : option bool;
  j_policy : policy;
  j_rest : list (Z * route_grant);
  j_index : Z;
  j_grant : route_grant;
  j_targets : list dial_target;
  j_dials : Z;
  j_addresses : Z;
  j_reason : string;
  j_attempts : list attempt;
  j_wait : wait;
}.

(** An authenticated connection, with what it was admitted for. *)
Record active := Active {
  ac_connection : Z;
  ac_target : dial_target;
  ac_path : pystr;
}.

(** An abandoned task: whether its result is disposed of, and the result if it is known
    ([Some None]: it failed). *)
Record linger := Linger {
  lg_dispose : bool;
  lg_value : option (option Z);
}.

#[export] Instance linger_eq_dec : EqDecision linger.
Proof. solve_decision. Defined.

Record controller := Controller {
  k_policy : policy;
  k_resolver : bool;
  k_schemes : option (list pystr);
  k_auth : bool;
  k_scope : pystr;
  k_metered : bool;
  k_generation : Z;
  k_closed : bool;
  k_jobs : gmap Z job;
  k_active : gmap Z active;
  k_closing : gset Z;
  k_lingering : list linger;
  k_cleanup_failures : Z;
  k_failed : gset Z;
  k_next_id : Z;
}.

Definition with_jobs (js : gmap Z job) (k : controller) : controller :=
  Controller (k_policy k) (k_resolver k) (k_schemes k) (k_auth k) (k_scope k) (k_metered k)
    (k_generation k) (k_closed k) js (k_active k) (k_closing k) (k_lingering k)
    (k_cleanup_failures k) (k_failed k) (k_next_id k).
Definition with_resources (act : gmap Z active) (closing : gset Z) (l : list linger) (k : controller)
    : controller :=
  Controller (k_policy k) (k_resolver k) (k_schemes k) (k_auth k) (k_scope k) (k_metered k)
    (k_generation k) (k_closed k) (k_jobs k) act closing l (k_cleanup_failures k) (k_failed k)
    (k_next_id k).

Definition new_controller (p : policy) (resolver : bool) (schemes : option (list pystr)) (auth : bool)
    (scope : pystr) (metered : bool) : result controller :=
  _ ← identifier scope "INVALID_ID";
  Ok (Controller p resolver schemes auth scope metered 0 false ∅ ∅ ∅ [] 0 ∅ 1).

(** [_fence]: the first reason for the job to stop. *)
Definition fence (k : controller) (j : job) (now : Q) : option string :=
  if k_closed k then Some "CLOSED"%string
  else if negb (j_generation j =? k_generation k) then Some "STALE_GENERATION"%string
  else if bool_decide (j_caller j = Some true) then Some "CANCELLED"%string
  else if Qle_bool (j_deadline j) now then Some "DEADLINE"%string
  else if j_stop j then Some "CANCELLED"%string else None.

(** [_schedule_close]: the task of a connection already closing is reused. *)
Definition schedule_close (c : Z) (k : controller) : controller :=
  with_resources (k_active k) ({[c]} ∪ k_closing k) (k_lingering k) k.
(** [_abandon] *)
Definition abandon (l : linger) (k : controller) : controller :=
  with_resources (k_active k) (k_closing k) (k_lingering k ++ [l]) k.

(** ** Running a job to its next await *)

Inductive outcome :=
| Suspended (j : job)
| Raised_ (code : string) (attempts : list attempt)
| Connected (identity : Z) (path : pystr) (attempts : list attempt).

Definition set_wait (w : wait) (j : job) : job :=
  Job (j_generation j) (j_deadline j) (j_stop j) (j_caller j) (j_policy j) (j_rest j) (j_index j)
    (j_grant j) (j_targets j) (j_dials j) (j_addresses j) (j_reason j) (j_attempts j) w.
Definition set_grant (i : Z) (g : route_grant) (rest : list (Z * route_grant)) (j : job) : job :=
  Job (j_generation j) (j_deadline j) (j_stop j) (j_caller j) (j_policy j) rest i g (j_targets j)
    (j_dials j) (j_addresses j) (j_reason j) (j_attempts j) (j_wait j).
Definition set_targets (ts : list dial_target) (j : job) : job :=
  Job (j_generation j) (j_deadline j) (j_stop j) (j_caller j) (j_policy j) (j_rest j) (j_index j)
    (j_grant j) ts (j_dials j) (j_addresses j) (j_reason j) (j_attempts j) (j_wait j).
Definition add_dial (j : job) : job :=
  Job (j_generation j) (j_deadline j) (j_stop j) (j_caller j) (j_policy j) (j_rest j) (j_index j)
    (j_grant j) (j_targets j) (j_dials j + 1) (j_addresses j) (j_reason j) (j_attempts j) (j_wait j).
Definition add_addresses (n : Z) (j : job) : job :=
  Job (j_generation j) (j_deadline j) (j_stop j) (j_caller j) (j_policy j) (j_rest j) (j_index j)
    (j_grant j) (j_targets j) (j_dials j) (j_addresses j + n) (j_reason j) (j_attempts j) (j_wait j).
Definition set_stop (stop : bool) (j : job) : job :=
  Job (j_generation j) (j_deadline j) stop (j_caller j) (j_policy j) (j_rest j) (j_index j)
    (j_grant j) (j_targets j) (j_dials j) (j_addresses j) (j_reason j) (j_attempts j) (j_wait j).
Definition set_caller (j : job) : job :=
  Job (j_generation j) (j_deadline j) (j_stop j) (Some true) (j_policy j) (j_rest j) (j_index j)
    (j_grant j) (j_targets j) (j_dials j) (j_addresses j) (j_reason j) (j_attempts j) (j_wait j).
(** [reason = exc.code; attempts.append(Attempt(index, stage, reason))] *)
Definition add_attempt (stage code : string) (j : job) : job :=
  Job (j_generation j) (j_deadline j) (j_stop j) (j_caller j) (j_policy j) (j_rest j) (j_index j)
    (j_grant j) (j_targets j) (j_dials j) (j_addresses j) code
    (j_attempts j ++ [Attempt (j_index j) stage code]) (j_wait j).

Definition error_code (e : exn) : string :=
  match e with Raised _ code => code | _ => "INTERNAL"%string end.

(** The head of the loop over targets, then the start of the dial stage. *)
Definition start_dial (k : controller) (now : Q) (t : dial_target) (ts : list dial_target) (j : job) : outcome :=
  match fence k j now with
  | Some code => Raised_ code (j_attempts j)
  | None =>
      if max_attempts (po_budgets (j_policy j)) <=? j_dials j then Raised_ "ATTEMPT_BUDGET" (j_attempts j)
      else
        let j := add_dial (set_targets ts j) in
        match fence k j now with
        | Some code => Raised_ code (j_attempts (add_attempt "dial" code j))
        | None => Suspended (set_wait (WDial t) j)
        end
  end.

(** The checks of a grant before its name is resolved: the endpoint to resolve, or [None] for a
    literal address. *)
Definition grant_ready (k : controller) (g : route_grant) : result (option endpoint) :=
  _ ← cneed (negb (bool_decide (rg_source g = str "relay"))) "RELAY_UNAVAILABLE";
  e ← parse_endpoint (rg_endpoint g);
  _ ← cneed (match k_schemes k with Some ss => bool_decide (ep_scheme e ∈ ss) | None => false end)
        "ADAPTER_UNAVAILABLE";
  _ ← cneed (k_auth k) "AUTHENTICATOR_UNAVAILABLE";
  match ep_literal e with
  | Some _ => Ok None
  | None =>
      _ ← cneed (negb (bool_decide (rg_resolver g = None))) "DNS_NOT_GRANTED";
      _ ← cneed (k_resolver k) "RESOLVER_UNAVAILABLE";
      Ok (Some e)
  end.

(** The targets of a grant, with the total number of addresses counted. *)
Definition grant_targets (res : option resolution) (j : job) : result (job * list dial_target) :=
  ts ← authorize_addresses (j_grant j) res (j_policy j) (j_generation j);
  let j := add_addresses (match res with Some r => len (re_addresses r) | None => 1 end) j in
  _ ← cneed (j_addresses j <=? max_total_addresses (po_budgets (j_policy j))) "TOTAL_ADDRESS_BUDGET";
  Ok (j, ts).

(** The loop over grants.  The reset of [stop] is that of the [except] clause. *)
Fixpoint next_grant (k : controller) (now : Q) (rest : list (Z * route_grant)) (j : job) : outcome :=
  match rest with
  | [] => Raised_ (j_reason j) (j_attempts j)
  | (i, g) :: rest' =>
      match fence k j now with
      | Some code => Raised_ code (j_attempts j)
      | None =>
          let j := set_grant i g rest' j in
          let failed code :=
            let j := add_attempt "policy" code j in
            if terminal code then Raised_ code (j_attempts j) else next_grant k now rest' (set_stop false j) in
          match grant_ready k g with
          | Err e => failed (error_code e)
          | Ok (Some e) =>
              match fence k j now with
              | Some code => failed code
              | None => Suspended (set_wait (WResolve e) j)
              end
          | Ok None =>
              match grant_targets None j with
              | Err e => failed (error_code e)
              | Ok (j, []) => next_grant k now rest' j
              | Ok (j, t :: ts) => start_dial k now t ts j
              end
          end
      end
  end.

Definition next_target (k : controller) (now : Q) (j : job) : outcome :=
  match j_targets j with
  | [] => next_grant k now (j_rest j) j
  | t :: ts => start_dial k now t ts j
  end.

(** An exception in the resolution of the current grant. *)
Definition policy_failed (k : controller) (now : Q) (code : string) (j : job) : outcome :=
  let j := add_attempt "policy" code j in
  if terminal code then Raised_ code (j_attempts j) else next_grant k now (j_rest j) (set_stop false j).

(** After a target that failed without ending the job. *)
Definition after_target (k : controller) (now : Q) (j : job) : outcome :=
  if negb (k_cleanup_failures k =? 0) then Raised_ "CLEANUP_FAILED" (j_attempts j)
  else if negb (bool_decide (k_closing k = ∅)) then Raised_ "CLEANUP_PENDING" (j_attempts j)
  else next_target k now (set_stop false j).

(** An exception at a target, holding [c] or nothing. *)
Definition target_failed (now : Q) (stage code : string) (c : option Z) (j : job) (k : controller)
    : controller * outcome :=
  let j := add_attempt stage code j in
  match c with
  | Some c => (schedule_close c k, Suspended (set_wait (WRetire (if terminal code then Some code else None)) j))
  | None => (k, if terminal code then Raised_ code (j_attempts j) else after_target k now j)
  end.

(** ** The ports *)

(** What a port call gave when the wait ended: a value, a failure, or it is still running. *)
Inductive reply (A : Type) :=
| Returned (a : A)
| Failed_
| Running.
Arguments Returned {A} a.
Arguments Failed_ {A}.
Arguments Running {A}.

Record proof := PeerProof {
  pp_peer : pystr;
  pp_scope : pystr;
}.

(** [_stage] after its wait: the value, or the code raised. *)
Definition stage_result {A} (k : controller) (j : job) (now : Q) (failure : string) (r : reply A) : A + string :=
  match fence k j now with
  | Some code => inr code
  | None =>
      match r with
      | Returned a => inl a
      | Failed_ => inr failure
      | Running => inr "DEADLINE"%string
      end
  end.

(** [_check_peer]; [None] is an exception of [peername] or a malformed pair. *)
Definition check_peer (peer : option (pystr * Z)) (t : dial_target) : bool :=
  match peer with
  | Some (host, port) =>
      match numeric_ip host with
      | Ok a => bool_decide (ip_str a = dt_ip t) && (port =? dt_port t)
      | Err _ => false
      end
  | None => false
  end.

Definition resume_resolve (now : Q) (r : reply resolution) (j : job) (k : controller) : controller * outcome :=
  match stage_result k j now "RESOLVE_FAILED" r with
  | inr code => (abandon (Linger false None) k, policy_failed k now code j)
  | inl res =>
      (k, match grant_targets (Some res) j with
          | Err e => policy_failed k now (error_code e) j
          | Ok (j, ts) => next_target k now (set_targets ts j)
          end)
  end.

Definition resume_dial (now : Q) (t : dial_target) (r : reply Z) (peer : option (pystr * Z)) (j : job)
    (k : controller) : controller * outcome :=
  match stage_result k j now "DIAL_FAILED" r with
  | inr code =>
      let value := match r with Returned c => Some (Some c) | Failed_ => Some None | Running => None end in
      target_failed now "dial" code None j (abandon (Linger true value) k)
  | inl c =>
      if negb (check_peer peer t) then target_failed now "dial" "PEER_ADDRESS_MISMATCH" (Some c) j k
      else
        match fence k j now with
        | Some code => target_failed now "auth" code (Some c) j k
        | None => (k, Suspended (set_wait (WAuth t c) j))
        end
  end.

(** The tests between the proof and the activation. *)
Definition auth_result (k : controller) (t : dial_target) (p : proof) (peer : option (pystr * Z)) (path : pystr)
    : option string :=
  if negb (check_peer peer t) then Some "PEER_ADDRESS_MISMATCH"%string
  else if negb (bool_decide (pp_peer p = dt_peer t) && bool_decide (pp_scope p = k_scope k))
  then Some "AUTH_MISMATCH"%string
  else if negb (bool_decide (path = str "direct") || bool_decide (path = str "local-fixture"))
  then Some "PATH_UNVERIFIED"%string
  else None.

Definition activate (t : dial_target) (c : Z) (path : pystr) (k : controller) : controller :=
  Controller (k_policy k) (k_resolver k) (k_schemes k) (k_auth k) (k_scope k) (k_metered k)
    (k_generation k) (k_closed k) (k_jobs k) (<[k_next_id k := Active c t path]> (k_active k))
    (k_closing k) (k_lingering k) (k_cleanup_failures k) (k_failed k) (k_next_id k + 1).

Definition resume_auth (now : Q) (t : dial_target) (c : Z) (r : reply proof) (peer : option (pystr * Z))
    (path : pystr) (j : job) (k : controller) : controller * outcome :=
  match stage_result k j now "AUTH_FAILED" r with
  | inr code => target_failed now "auth" code (Some c) j (abandon (Linger false None) k)
  | inl p =>
      match fence k j now with
      | Some code => target_failed now "auth" code (Some c) j k
      | None =>
          match auth_result k t p peer path with
          | Some code => target_failed now "auth" code (Some c) j k
          | None =>
              (activate t c path k,
               Connected (k_next_id k) path (j_attempts (add_attempt "auth" "AUTHENTICATED" j)))
          end
      end
  end.

Definition resume_retire (now : Q) (raise : option string) (j : job) (k : controller) : controller * outcome :=
  (k, match raise with Some code => Raised_ code (j_attempts j) | None => after_target k now j end).

(** What a job waits for and receives. *)
Inductive event :=
| EvResolved (r : reply resolution)
| EvDialed (r : reply Z) (peer : option (pystr * Z))
| EvAuthenticated (r : reply proof) (peer : option (pystr * Z)) (path : pystr)
| EvRetired.

Definition resume (now : Q) (ev : event) (j : job) (k : controller) : option (controller * outcome) :=
  match j_wait j, ev with
  | WResolve _, EvResolved r => Some (resume_resolve now r j k)
  | WDial t, EvDialed r peer => Some (resume_dial now t r peer j k)
  | WAuth t c, EvAuthenticated r peer path => Some (resume_auth now t c r peer path j k)
  | WRetire raise, EvRetired => Some (resume_retire now raise j k)
  | _, _ => None
  end.

(** [connect]'s [finally]: a job that ended leaves the operations. *)
Definition settle (n : Z) (o : outcome) (k : controller) : controller :=
  match o with
  | Suspended j => with_jobs (<[n := j]> (k_jobs k)) k
  | _ => with_jobs (delete n (k_jobs k)) k
  end.

(** ** Admission *)

Definition size_z {A} (m : gmap Z A) : Z := Z.of_nat (size m).

(** The tests of [connect] before an operation exists. *)
Definition admission_check (k : controller) (cs : list candidate) (user : bool) (caller : option bool)
    : result (list route_grant) :=
  let p := k_policy k in
  let b := po_budgets p in
  _ ← cneed (negb (k_closed k)) "CLOSED";
  _ ← cneed (negb (bool_decide (caller = Some true))) "CANCELLED";
  _ ← cneed (k_cleanup_failures k =? 0) "CLEANUP_FAILED";
  _ ← cneed (size_z (k_jobs k) + len (k_lingering k) <? max_inflight b) "INFLIGHT_BUDGET";
  _ ← cneed (size_z (k_active k) + Z.of_nat (size (k_closing k)) + size_z (k_jobs k) + len (k_lingering k)
             <? max_connections b) "CONNECTION_BUDGET";
  _ ← cneed (negb (k_metered k && negb (if user then po_metered_user p else po_metered_background p)))
        "METERED_DENIED";
  gs ← select_candidates cs p;
  _ ← cneed (negb (bool_decide (gs = []))) "NO_CANDIDATES";
  Ok gs.

Definition new_job (k : controller) (gs : list route_grant) (caller : option bool) (now : Q) : job :=
  Job (k_generation k) (now + default 0 (po_timeout (k_policy k)))%Q false caller (k_policy k) []
    0 (RouteGrant [] [] [] [] false None []) [] 0 0 "NO_ROUTE" [] (WRetire None).

(** [enumerate(grants)] *)
Definition enumerate (gs : list route_grant) : list (Z * route_grant) :=
  zip (Z.of_nat <$> seq 0 (length gs)) gs.

Definition connect (n : Z) (cs : list candidate) (user : bool) (caller : option bool) (now : Q)
    (k : controller) : controller * result outcome :=
  match admission_check k cs user caller with
  | Err e => (k, Err e)
  | Ok gs =>
      let o := next_grant k now (enumerate gs) (new_job k gs caller now) in
      (settle n o k, Ok o)
  end.

(** ** Network changes, disconnection and closing *)

Definition stop_all (k : controller) : gmap Z job := set_stop true <$> k_jobs k.

(** [_drain_active], up to its wait. *)
Definition drain_active (k : controller) : controller :=
  with_resources ∅ (list_to_set (ac_connection <$> (map_to_list (k_active k)).*2) ∪ k_closing k)
    (k_lingering k) k.

Definition change_network (metered : bool) (p : option policy) (k : controller) : result controller :=
  _ ← cneed (negb (k_closed k)) "CLOSED";
  Ok (drain_active
        (Controller (default (k_policy k) p) (k_resolver k) (k_schemes k) (k_auth k) (k_scope k) metered
           (k_generation k + 1) (k_closed k) (stop_all k) (k_active k) (k_closing k) (k_lingering k)
           (k_cleanup_failures k) (k_failed k) (k_next_id k))).

Definition close_controller (k : controller) : controller :=
  drain_active
    (if k_closed k then k
     else Controller (k_policy k) (k_resolver k) (k_schemes k) (k_auth k) (k_scope k) (k_metered k)
            (k_generation k + 1) true (stop_all k) (k_active k) (k_closing k) (k_lingering k)
            (k_cleanup_failures k) (k_failed k) (k_next_id k)).

Definition disconnect (identity : Z) (k : controller) : result controller :=
  a ← of_option (ConnectivityError "CONNECTION_NOT_CURRENT") (k_active k !! identity);
  Ok (schedule_close (ac_connection a)
        (with_resources (delete identity (k_active k)) (k_closing k) (k_lingering k) k)).

(** The callback of a close: a failure keeps the resource and latches admission. *)
Definition close_done (c : Z) (ok : bool) (k : controller) : controller :=
  Controller (k_policy k) (k_resolver k) (k_schemes k) (k_auth k) (k_scope k) (k_metered k)
    (k_generation k) (k_closed k) (k_jobs k) (k_active k) (k_closing k ∖ {[c]}) (k_lingering k)
    (if ok then k_cleanup_failures k else k_cleanup_failures k + 1)
    (if ok then k_failed k else {[c]} ∪ k_failed k) (k_next_id k).

(** The callback of an abandoned task; [late] is its result when that was not known before. *)
Definition linger_done (before after : list linger) (l : linger) (late : option Z) (k : controller) : controller :=
  let k := with_resources (k_active k) (k_closing k) (before ++ after) k in
  match (if lg_dispose l then default late (lg_value l) else None) with
  | Some c => schedule_close c k
  | None => k
  end.

(** [diagnostics()["cleanup_complete"]] *)
Definition cleanup_complete (k : controller) : bool :=
  bool_decide (k_active k = ∅) && bool_decide (k_jobs k = ∅) && bool_decide (k_closing k = ∅)
  && bool_decide (k_lingering k = []) && (k_cleanup_failures k =? 0).

(** ** Steps *)

Inductive step : controller → controller → Prop :=
| step_connect n cs user caller now k :
    k_jobs k !! n = None → step k (connect n cs user caller now k).1
| step_resume n j now ev k k' o :
    k_jobs k !! n = Some j → resume now ev j k = Some (k', o) → step k (settle n o k')
| step_cancel n j k :
    k_jobs k !! n = Some j → step k (with_jobs (<[n := set_caller j]> (k_jobs k)) k)
| step_network metered p k k' :
    (∀ p', p = Some p' → new_policy p' = Ok p') → change_network metered p k = Ok k' → step k k'
| step_close k : step k (close_controller k)
| step_disconnect identity k k' : disconnect identity k = Ok k' → step k k'
| step_close_done c ok k : c ∈ k_closing k → step k (close_done c ok k)
| step_linger before l after late k :
    k_lingering k = before ++ l :: after → step k (linger_done before after l late k).
