(* ===== verification/ControllerSpec.v ===== *)
(** * The dial controller keeps its promises under every interleaving

    Reachability is over [step]: any order of connects, port results, cancellations,
    network changes, closes and cleanup callbacks. *)

From S2P Require Import Prelude Bytes Value Codec Schema Json Ipaddr Connectivity ConnectivitySpec Controller.
From Stdlib Require Import QArith.
Local Open Scope Z_scope.

#[local] Opaque parse_endpoint dns_name ip_address ip_network authorize_addresses select_candidates check_peer.

(** ** Well-formed jobs *)

(** A dial the policy allows in one generation. *)
Definition target_ok (p : policy) (generation : Z) (t : dial_target) : Prop :=
  dt_generation t = generation ∧
  ∃ g a, g ∈ po_grants p ∧ dt_peer t = rg_peer g ∧ dt_ip t = ip_str a ∧ permitted g a.

Definition wait_ok (p : policy) (generation : Z) (g : route_grant) (w : wait) : Prop :=
  match w with
  | WResolve _ => g ∈ po_grants p
  | WDial t | WAuth t _ => target_ok p generation t
  | WRetire _ => True
  end.

Record job_ok (j : job) : Prop := {
  jo_rest x : x ∈ j_rest j → x.2 ∈ po_grants (j_policy j);
  jo_targets t : t ∈ j_targets j → target_ok (j_policy j) (j_generation j) t;
  jo_wait : wait_ok (j_policy j) (j_generation j) (j_grant j) (j_wait j);
  jo_dials : 0 <= j_dials j <= max_attempts (po_budgets (j_policy j));
}.

(** The job goes on under the policy and generation it was admitted in, holding nothing. *)
Definition goes_on (j : job) (o : outcome) : Prop :=
  match o with
  | Suspended j' =>
      job_ok j' ∧ j_policy j' = j_policy j ∧ j_generation j' = j_generation j ∧
      ∀ t c, j_wait j' ≠ WAuth t c
  | Raised_ _ _ => True
  | Connected _ _ _ => False
  end.

Lemma goes_on_trans j j' o :
  j_policy j' = j_policy j → j_generation j' = j_generation j → goes_on j' o → goes_on j o.
Proof. intros Hp Hg. destruct o; cbn; [|done|done]. by rewrite Hp, Hg. Qed.

Lemma start_dial_ok k now t ts j :
  (∀ x, x ∈ j_rest j → x.2 ∈ po_grants (j_policy j)) →
  (∀ u, u ∈ t :: ts → target_ok (j_policy j) (j_generation j) u) → 0 <= j_dials j →
  goes_on j (start_dial k now t ts j).
Proof.
  intros Hr Ht Hd. unfold start_dial. destruct (fence k j now); [done|].
  destruct (_ <=? _) eqn:Hm; [done|]. apply Z.leb_gt in Hm.
  destruct (fence k _ now); [done|]. cbn. split_and!; [|done|done|done]. split; cbn.
  - done.
  - intros u Hu. apply Ht. by right.
  - apply Ht. by left.
  - lia.
Qed.

Lemma grant_targets_ok res j j' ts :
  grant_targets res j = Ok (j', ts) → j_grant j ∈ po_grants (j_policy j) →
  j' = add_addresses (match res with Some r => len (re_addresses r) | None => 1 end) j ∧
  ∀ t, t ∈ ts → target_ok (j_policy j) (j_generation j) t.
Proof.
  unfold grant_targets. intros E Hg. apply bind_Ok in E as (ts' & Ha & E).
  apply bind_Ok in E as ([] & _ & E). injection E as <- <-. split; [done|].
  apply authorized in Ha as (_ & _ & Ht & _). intros t Hin. destruct (Ht t Hin) as (Hp & Hgen & a & Ha & Hpm).
  split; [done|]. by exists (j_grant j), a.
Qed.

Lemma next_grant_ok k now rest j :
  (∀ x, x ∈ rest → x.2 ∈ po_grants (j_policy j)) → 0 <= j_dials j <= max_attempts (po_budgets (j_policy j)) →
  (∀ t, t ∈ j_targets j → target_ok (j_policy j) (j_generation j) t) →
  goes_on j (next_grant k now rest j).
Proof.
  revert j. induction rest as [|[i g] rest IH]; intros j Hr Hd Ht; [done|]. cbn [next_grant].
  destruct (fence k j now); [done|].
  assert (∀ x, x ∈ rest → x.2 ∈ po_grants (j_policy j)) as Hr' by (intros x Hx; apply Hr; by right).
  assert (g ∈ po_grants (j_policy j)) as Hg by (apply (Hr (i, g)); by left).
  set (j1 := set_grant i g rest j).
  assert (∀ code, goes_on j (if terminal code then Raised_ code (j_attempts (add_attempt "policy" code j1))
    else next_grant k now rest (set_stop false (add_attempt "policy" code j1)))) as Hf.
  { intros code. destruct (terminal code); [done|]. by apply (goes_on_trans j (set_stop false (add_attempt "policy" code j1))), IH. }
  destruct (grant_ready k g) as [[e|]|x]; [| |apply Hf].
  - destruct (fence k j1 now); [apply Hf|]. split_and!; [|done|done|done]. by split.
  - destruct (grant_targets None j1) as [[j2 ts]|x] eqn:Hgt; [|apply Hf].
    apply grant_targets_ok in Hgt as [-> Hts]; [|done].
    destruct ts as [|t ts]; [by apply (goes_on_trans j (add_addresses 1 j1)), IH|].
    apply (goes_on_trans j (add_addresses 1 j1)); [done|done|]. apply start_dial_ok; [done|done|cbn; lia].
Qed.

Lemma next_target_ok k now j : job_ok j → goes_on j (next_target k now j).
Proof.
  intros [H1 H2 _ H4]. unfold next_target. destruct (j_targets j) as [|t ts] eqn:E.
  - apply next_grant_ok; [done|done|]. rewrite E. by intros t ?%not_elem_of_nil.
  - apply start_dial_ok; [done|done|lia].
Qed.

Lemma after_target_ok k now j : job_ok j → goes_on j (after_target k now j).
Proof.
  intros Hj. unfold after_target. destruct (negb _); [done|]. destruct (negb _); [done|].
  apply (goes_on_trans j (set_stop false j)); [done|done|]. apply next_target_ok. by destruct Hj; split.
Qed.

Lemma policy_failed_ok k now code j : job_ok j → goes_on j (policy_failed k now code j).
Proof.
  intros [H1 H2 _ H4]. unfold policy_failed. destruct (terminal code); [done|].
  apply (goes_on_trans j (set_stop false (add_attempt "policy" code j))); [done|done|].
  by apply next_grant_ok.
Qed.

Lemma target_failed_ok now stage code c j k k' o :
  target_failed now stage code c j k = (k', o) → job_ok j → goes_on j o.
Proof.
  unfold target_failed. intros E Hj.
  assert (job_ok (add_attempt stage code j)) as Hj' by by destruct Hj; split.
  destruct c as [c|]; injection E as <- <-.
  - split_and!; [by destruct Hj; split|done|done|done].
  - destruct (terminal code); [done|]. by apply (goes_on_trans j (add_attempt stage code j)), after_target_ok.
Qed.


(** ** One resumption *)

(** All but the resources is kept. *)
Definition frame (k k' : controller) : Prop :=
  k' = with_resources (k_active k') (k_closing k') (k_lingering k') k.

(** What was established for a connection that becomes active. *)
Definition admitted_by (now : Q) (j : job) (k : controller) (a : active) : Prop :=
  fence k j now = None ∧ ∃ c p peer,
    j_wait j = WAuth (ac_target a) c ∧ ac_connection a = c ∧
    pp_peer p = dt_peer (ac_target a) ∧ pp_scope p = k_scope k ∧ check_peer peer (ac_target a) = true ∧
    (ac_path a = str "direct" ∨ ac_path a = str "local-fixture").

(** What a resumption may do. *)
Definition resumed (now : Q) (j : job) (k k' : controller) (o : outcome) : Prop :=
  match o with
  | Suspended j' =>
      frame k k' ∧ k_active k' = k_active k ∧ job_ok j' ∧ j_policy j' = j_policy j ∧
      j_generation j' = j_generation j
  | Raised_ _ _ => frame k k' ∧ k_active k' = k_active k
  | Connected identity path _ =>
      identity = k_next_id k ∧ ∃ t c, k' = activate t c path k ∧ admitted_by now j k (Active c t path)
  end.

Lemma frame_refl k : frame k k.
Proof. by destruct k. Qed.

Lemma goes_on_resumed now j k k' o :
  goes_on j o → frame k k' → k_active k' = k_active k → resumed now j k k' o.
Proof. destruct o; cbn; [naive_solver|done|done]. Qed.

Lemma frame_trans k1 k2 k3 : frame k1 k2 → frame k2 k3 → frame k1 k3.
Proof. unfold frame. intros H1 H2. rewrite H2, H1 at 1. done. Qed.

Lemma target_failed_resumed now stage code c j k0 k k' o :
  frame k0 k → k_active k = k_active k0 → target_failed now stage code c j k = (k', o) → job_ok j →
  resumed now j k0 k' o.
Proof.
  intros Hf Ha E Hj. apply goes_on_resumed; [by eapply target_failed_ok|..];
    unfold target_failed in E; destruct c; injection E as <- <-; try done.
  by eapply frame_trans.
Qed.

Lemma resume_ok now ev j k k' o :
  resume now ev j k = Some (k', o) → job_ok j → resumed now j k k' o.
Proof.
  intros E Hj. unfold resume in E. destruct (j_wait j) as [e|t|t c|raise] eqn:Hw, ev as [r|r peer|r peer path|];
    try done; apply (inj Some) in E.
  - unfold resume_resolve in E. destruct (stage_result k j now _ r) as [res|code]; injection E as <- <-.
    2: { apply goes_on_resumed; [by apply policy_failed_ok|done|done]. }
    apply goes_on_resumed; [|apply frame_refl|done].
    destruct (grant_targets (Some res) j) as [[j' ts]|x] eqn:Hg; [|by apply policy_failed_ok].
    pose proof (jo_wait _ Hj) as Hgr. rewrite Hw in Hgr.
    apply grant_targets_ok in Hg as [-> Hts]; [|done].
    apply (goes_on_trans j (set_targets ts (add_addresses (len (re_addresses res)) j))); [done|done|].
    apply next_target_ok. destruct Hj. split; [done|done|cbn; by rewrite Hw|done].
  - unfold resume_dial in E. destruct (stage_result k j now _ r) as [c|code].
    2: { eapply target_failed_resumed in E; [done|..|done]; done. }
    destruct (negb (check_peer peer t)); [by eapply target_failed_resumed in E; [|apply frame_refl|..]|].
    destruct (fence k j now); [by eapply target_failed_resumed in E; [|apply frame_refl|..]|].
    injection E as <- <-. split_and!; [apply frame_refl|done| |done|done].
    destruct Hj as [H1 H2 H3 H4]. split; [done|done| |done]. cbn. by rewrite Hw in H3.
  - unfold resume_auth in E. destruct (stage_result k j now _ r) as [p|code] eqn:Hs.
    2: { eapply target_failed_resumed in E; [done|..|done]; done. }
    destruct (fence k j now) eqn:Hf; [by eapply target_failed_resumed in E; [|apply frame_refl|..]|].
    unfold auth_result in E. destruct (check_peer peer t) eqn:Hp; cbn [negb] in E;
      [|by eapply target_failed_resumed in E; [|apply frame_refl|..]].
    destruct (bool_decide (pp_peer p = _) && _) eqn:Hq; cbn [negb] in E;
      [|by eapply target_failed_resumed in E; [|apply frame_refl|..]].
    destruct (bool_decide (path = _) || _) eqn:Hpath; cbn [negb] in E;
      [|by eapply target_failed_resumed in E; [|apply frame_refl|..]].
    injection E as <- <-. split; [done|]. exists t, c. split; [done|]. split; [done|].
    apply andb_prop in Hq as [H1%bool_decide_eq_true H2%bool_decide_eq_true].
    exists c, p, peer. split_and!; try done. cbn. apply orb_prop in Hpath as [Hx|Hx];
      apply bool_decide_eq_true in Hx; [by left|by right].
  - unfold resume_retire in E. injection E as <- <-. apply goes_on_resumed; [|apply frame_refl|done].
    destruct raise; [done|]. by apply after_target_ok.
Qed.

(** ** The invariant *)

Definition current (g : Z) (js : gmap Z job) : gset Z := dom (filter (λ nj, j_generation nj.2 = g) js).

Lemma elem_of_current g js n : n ∈ current g js ↔ ∃ j, js !! n = Some j ∧ j_generation j = g.
Proof.
  unfold current. rewrite elem_of_dom. split.
  - intros [j Hj]. apply map_lookup_filter_Some in Hj as [? ?]. by exists j.
  - intros (j & Hj & Hg). exists j. by apply map_lookup_filter_Some.
Qed.

Lemma current_size g js : (size (current g js) <= size js)%nat.
Proof.
  rewrite <-(size_dom (D := gset Z) js). apply subseteq_size. intros n Hn.
  apply elem_of_current in Hn as (j & Hj & _). apply elem_of_dom. by exists j.
Qed.

Definition path_ok (path : pystr) : Prop := path = str "direct" ∨ path = str "local-fixture".

Record controller_ok (k : controller) : Prop := {
  co_policy : new_policy (k_policy k) = Ok (k_policy k);
  co_jobs n j : k_jobs k !! n = Some j →
    job_ok j ∧ j_generation j <= k_generation k ∧ (j_generation j = k_generation k → j_policy j = k_policy k);
  co_active i a : k_active k !! i = Some a →
    target_ok (k_policy k) (k_generation k) (ac_target a) ∧ path_ok (ac_path a) ∧ i < k_next_id k;
  co_closed : k_closed k = true → k_active k = ∅ ∧ current (k_generation k) (k_jobs k) = ∅;
  co_budget : Z.of_nat (size (k_active k)) + Z.of_nat (size (current (k_generation k) (k_jobs k)))
    <= max_connections (po_budgets (k_policy k));
}.

Lemma policy_budget p : new_policy p = Ok p → 0 <= max_attempts (po_budgets p) ∧ 0 <= max_connections (po_budgets p).
Proof.
  unfold new_policy. intros E. do 2 (apply bind_Ok in E as ([] & _ & E)).
  apply bind_Ok in E as ([] & Hb%cneed_Ok & _). unfold budgets_ok in Hb. cbn in Hb. zb. lia.
Qed.

Lemma frame_ok k k' : frame k k' → k_active k' = k_active k → controller_ok k → controller_ok k'.
Proof. intros Hf Ha [H1 H2 H3 H4 H5]. rewrite Hf, Ha. by split. Qed.

Lemma with_jobs_ok k js :
  controller_ok k →
  (∀ n j, js !! n = Some j →
     job_ok j ∧ j_generation j <= k_generation k ∧ (j_generation j = k_generation k → j_policy j = k_policy k)) →
  (k_closed k = true → current (k_generation k) js = ∅) →
  Z.of_nat (size (k_active k)) + Z.of_nat (size (current (k_generation k) js))
    <= max_connections (po_budgets (k_policy k)) →
  controller_ok (with_jobs js k).
Proof. intros [H1 H2 H3 H4 H5] Hjs Hcl Hb. split; try done. cbn. intros Hk. split; [by apply H4|by apply Hcl]. Qed.

(** Replacing job [n] by one of its generation and policy, or removing it. *)
Lemma replace_ok k n j o :
  controller_ok k → k_jobs k !! n = Some j →
  match o with
  | Some j' => job_ok j' ∧ j_policy j' = j_policy j ∧ j_generation j' = j_generation j
  | None => True
  end →
  controller_ok (with_jobs (match o with Some j' => <[n := j']> (k_jobs k) | None => delete n (k_jobs k) end) k).
Proof.
  intros Hk Hj Ho. destruct (co_jobs _ Hk _ _ Hj) as (_ & Hle & Hpol).
  assert (current (k_generation k) (match o with Some j' => <[n := j']> (k_jobs k) | None => delete n (k_jobs k) end)
    ⊆ current (k_generation k) (k_jobs k)) as Hsub.
  { intros x (y & Hy & Hg)%elem_of_current. apply elem_of_current. destruct o as [j'|].
    - destruct Ho as (_ & _ & Hgen). apply lookup_insert_Some in Hy as [[<- <-]|[_ Hy]]; [exists j|exists y]; by rewrite <-?Hgen.
    - apply lookup_delete_Some in Hy as [_ Hy]. by exists y. }
  apply with_jobs_ok; [done|..].
  - intros m x Hx. destruct o as [j'|].
    + destruct Ho as (Hok & Hp & Hgen). apply lookup_insert_Some in Hx as [[<- <-]|[_ Hx]]; [|by apply (co_jobs _ Hk _ _ Hx)].
      rewrite Hgen, Hp. by split_and!.
    + apply lookup_delete_Some in Hx as [_ Hx]. by apply (co_jobs _ Hk _ _ Hx).
  - intros Hc. apply (co_closed _ Hk) in Hc as [_ Hc]. set_solver.
  - pose proof (subseteq_size _ _ Hsub). pose proof (co_budget _ Hk). lia.
Qed.

Lemma fence_generation k j now : fence k j now = None → k_closed k = false ∧ j_generation j = k_generation k.
Proof.
  unfold fence. destruct (k_closed k); [done|]. destruct (j_generation j =? k_generation k) eqn:E; [|done].
  apply Z.eqb_eq in E. done.
Qed.

Lemma activate_ok k n j now t c path :
  controller_ok k → k_jobs k !! n = Some j → admitted_by now j k (Active c t path) →
  controller_ok (with_jobs (delete n (k_jobs k)) (activate t c path k)).
Proof.
  intros Hk Hj (Hf & c' & p & peer & Hw & _ & _ & _ & _ & Hpath). cbn in Hw, Hpath.
  apply fence_generation in Hf as [Hcl Hg]. destruct (co_jobs _ Hk _ _ Hj) as (Hok & _ & Hpol).
  assert (n ∈ current (k_generation k) (k_jobs k)) as Hn by (apply elem_of_current; by exists j).
  assert (current (k_generation k) (delete n (k_jobs k)) = current (k_generation k) (k_jobs k) ∖ {[n]}) as Hcur.
  { apply set_eq. intros x. rewrite elem_of_difference, elem_of_singleton, !elem_of_current. split.
    - intros (y & [Hne Hy]%lookup_delete_Some & Hyg). split; [by exists y|done].
    - intros [(y & Hy & Hyg) Hne]. exists y. split; [|done]. by apply lookup_delete_Some. }
  assert (k_active k !! k_next_id k = None) as Hfresh.
  { destruct (k_active k !! k_next_id k) as [a|] eqn:Ha; [|done].
    apply (co_active _ Hk) in Ha as (_ & _ & Hlt). lia. }
  split; cbn [with_jobs activate k_policy k_jobs k_active k_closed k_generation k_next_id].
  - by apply (co_policy _ Hk).
  - intros m x [_ Hx]%lookup_delete_Some. by apply (co_jobs _ Hk _ _ Hx).
  - intros i a [[<- <-]|[Hne Ha]]%lookup_insert_Some.
    + split_and!; [|done|lia]. pose proof (jo_wait _ Hok) as Ht. rewrite Hw in Ht. cbn in Ht.
      by rewrite Hpol, Hg in Ht.
    + destruct (co_active _ Hk _ _ Ha) as (H1 & H2 & H3). split_and!; [done|done|lia].
  - congruence.
  - rewrite map_size_insert_None by done. rewrite Hcur, size_difference by set_solver. rewrite size_singleton.
    pose proof (co_budget _ Hk). assert (size (current (k_generation k) (k_jobs k)) ≠ 0%nat); [|lia].
    intros Hz%size_empty_inv. set_solver.
Qed.

Lemma resume_step_ok k n j now ev k' o :
  controller_ok k → k_jobs k !! n = Some j → resume now ev j k = Some (k', o) → controller_ok (settle n o k').
Proof.
  intros Hk Hj E. apply resume_ok in E; [|by apply (co_jobs _ Hk _ _ Hj)]. destruct o as [j'|code ats|i path ats].
  - destruct E as (Hf & Ha & Hok & Hp & Hg). pose proof (frame_ok _ _ Hf Ha Hk) as Hk'.
    assert (k_jobs k' = k_jobs k) as Hjs by by rewrite Hf.
    apply (replace_ok k' n j (Some j')); [done|by rewrite Hjs|by split_and!].
  - destruct E as (Hf & Ha). pose proof (frame_ok _ _ Hf Ha Hk) as Hk'.
    assert (k_jobs k' = k_jobs k) as Hjs by by rewrite Hf.
    apply (replace_ok k' n j None); [done|by rewrite Hjs|done].
  - destruct E as (-> & t & c & -> & Hadm). exact (activate_ok k n j now t c path Hk Hj Hadm).
Qed.

Lemma connect_ok k n cs user caller now :
  controller_ok k → k_jobs k !! n = None → controller_ok (connect n cs user caller now k).1.
Proof.
  intros Hk Hn. unfold connect. destruct (admission_check k cs user caller) as [gs|e] eqn:Ha; [|done]. cbn [fst].
  unfold admission_check in Ha. apply bind_Ok in Ha as ([] & Hcl%cneed_Ok & Ha).
  do 3 (apply bind_Ok in Ha as ([] & _ & Ha)). apply bind_Ok in Ha as ([] & Hb%cneed_Ok%Z.ltb_lt & Ha).
  apply bind_Ok in Ha as ([] & _ & Ha). apply bind_Ok in Ha as (gs' & Hs & Ha).
  apply bind_Ok in Ha as ([] & _ & Ha). injection Ha as ->.
  apply negb_true_iff in Hcl.
  assert (goes_on (new_job k gs caller now) (next_grant k now (enumerate gs) (new_job k gs caller now))) as Ho.
  { apply next_grant_ok; cbn.
    - intros [i g] Hx. apply (selected_granted cs _ gs); [done|]. by apply elem_of_zip_r in Hx.
    - pose proof (policy_budget _ (co_policy _ Hk)). lia.
    - by intros t ?%not_elem_of_nil. }
  pose proof (current_size (k_generation k) (k_jobs k)) as Hsz. unfold size_z in Hb.
  destruct (next_grant _ _ _ _) as [j'|code ats|i path ats]; [|..]; cbn [settle]; [|by destruct k; rewrite delete_id|done].
  destruct Ho as (Hok & Hp & Hg & _). cbn in Hp, Hg. apply with_jobs_ok; [done| |congruence|].
  - intros m x [[<- <-]|[_ Hx]]%lookup_insert_Some; [|by apply (co_jobs _ Hk _ _ Hx)]. split_and!; [done|lia|done].
  - assert (current (k_generation k) (<[n:=j']> (k_jobs k)) ⊆ {[n]} ∪ current (k_generation k) (k_jobs k)) as Hsub.
    { intros x (y & Hy & Hyg)%elem_of_current. apply lookup_insert_Some in Hy as [[<- _]|[_ Hy]]; [set_solver|].
      apply elem_of_union_r, elem_of_current. by exists y. }
    apply subseteq_size in Hsub. rewrite size_union_alt, size_singleton in Hsub.
    pose proof (subseteq_size (current (k_generation k) (k_jobs k) ∖ {[n]}) (current (k_generation k) (k_jobs k)) ltac:(set_solver)).
    pose proof (len_nonneg (k_lingering k)). lia.
Qed.

(** A drained controller of a new generation. *)
Lemma drained_ok k k' p :
  controller_ok k → new_policy p = Ok p →
  k_policy k' = p → k_generation k' = k_generation k + 1 → k_jobs k' = stop_all k → k_active k' = ∅ →
  controller_ok k'.
Proof.
  intros Hk Hp Hpol Hg Hjs Hact.
  assert (∀ n j, k_jobs k' !! n = Some j → job_ok j ∧ j_generation j <= k_generation k) as Hall.
  { intros n j. rewrite Hjs. unfold stop_all. rewrite lookup_fmap. intros Hl. apply fmap_Some in Hl as (j0 & Hj & ->).
    destruct (co_jobs _ Hk _ _ Hj) as (Hok & Hle & _). split; [by destruct Hok; split|done]. }
  assert (current (k_generation k') (k_jobs k') = ∅) as Hcur.
  { apply set_eq. intros n. rewrite elem_of_current. split; [|set_solver].
    intros (j & Hj & Hgen). apply Hall in Hj as [_ Hle]. lia. }
  split.
  - by rewrite Hpol.
  - intros n j Hj. destruct (Hall _ _ Hj) as [Hok Hle]. rewrite Hg. split_and!; [done|lia|lia].
  - intros i a. by rewrite Hact, lookup_empty.
  - by rewrite Hact.
  - rewrite Hact, Hcur, Hpol, map_size_empty, size_empty. pose proof (policy_budget _ Hp). lia.
Qed.

Lemma conn_step_ok k k' : step k k' → controller_ok k → controller_ok k'.
Proof.
  intros Hs Hk. destruct Hs as [n cs user caller now k Hn|n j now ev k k' o Hj E|n j k Hj|metered p k k' Hp E|k|
    i k k' E|c ok k Hc|before l after late k Hl].
  - by apply connect_ok.
  - by eapply resume_step_ok.
  - apply (replace_ok k n j (Some (set_caller j))); [done|done|]. destruct (co_jobs _ Hk _ _ Hj) as ([] & _).
    by split_and!; [split|..].
  - unfold change_network in E. apply bind_Ok in E as ([] & _ & E). injection E as <-.
    apply (drained_ok k _ (default (k_policy k) p)); [done| |done..].
    destruct p; [by apply Hp|by apply (co_policy _ Hk)].
  - unfold close_controller. destruct (k_closed k) eqn:Hcl.
    + destruct Hk as [H1 H2 H3 H4 H5]. destruct (H4 Hcl) as [Ha Hc].
      split; cbn; [done|done|by intros i a; rewrite lookup_empty|by intros _|by rewrite Ha in H5].
    + apply (drained_ok k _ (k_policy k)); [done|by apply (co_policy _ Hk)|done..].
  - unfold disconnect in E. apply bind_Ok in E as (a & Ha & E). injection E as <-.
    destruct (k_active k !! i) as [a'|] eqn:Hi; [|done].
    destruct Hk as [H1 H2 H3 H4 H5]. split; cbn; try done.
    + intros i' b [_ Hb]%lookup_delete_Some. by apply (H3 i').
    + intros Hcl. destruct (H4 Hcl) as [He Hc]. by rewrite He, lookup_empty in Hi.
    + rewrite map_size_delete, Hi. lia.
  - by destruct Hk; split.
  - unfold linger_done. destruct (if lg_dispose l then _ else _); by destruct Hk; split.
Qed.

Lemma reachable_conn_ok p resolver schemes auth scope metered k k' :
  new_policy p = Ok p → new_controller p resolver schemes auth scope metered = Ok k → rtc step k k' →
  controller_ok k'.
Proof.
  intros Hp E Hr. assert (controller_ok k) as Hk.
  { unfold new_controller in E. apply bind_Ok in E as ([] & _ & E). injection E as <-.
    pose proof (policy_budget _ Hp). split; cbn.
    - done.
    - intros n j. by rewrite lookup_empty.
    - intros i a. by rewrite lookup_empty.
    - done.
    - unfold current. rewrite map_filter_empty, dom_empty_L, map_size_empty, size_empty. lia. }
  clear E. induction Hr as [|x y z Hxy _ IH]; [done|]. by apply IH, (conn_step_ok x).
Qed.

(** ** Ownership of connections *)











(** ** Properties *)

(** C22. However ports, clock, owner and callers interleave, every active connection was dialed to an
    address which the policy in force permits for the peer of one of its grants, under the
    present network generation, and none outlives a network change or a close. *)
Theorem active_connections_current p resolver schemes auth scope metered k k' :
  new_policy p = Ok p → new_controller p resolver schemes auth scope metered = Ok k → rtc step k k' →
  (∀ i a, k_active k' !! i = Some a →
     target_ok (k_policy k') (k_generation k') (ac_target a) ∧ path_ok (ac_path a)) ∧
  (k_closed k' = true → k_active k' = ∅).
Proof.
  intros Hp E Hr. assert (controller_ok k') as [_ _ Hact Hcl _] by by eapply reachable_conn_ok. split.
  - intros i a Ha. by apply Hact in Ha as (? & ? & _).
  - intros Hc. by apply Hcl.
Qed.

(** C33. The budgets hold at every moment: the active connections and the jobs that could still add one
    are within [max_connections], and no job dials more than [max_attempts] times. *)
Theorem connection_budget p resolver schemes auth scope metered k k' :
  new_policy p = Ok p → new_controller p resolver schemes auth scope metered = Ok k → rtc step k k' →
  Z.of_nat (size (k_active k')) + Z.of_nat (size (current (k_generation k') (k_jobs k')))
    <= max_connections (po_budgets (k_policy k')) ∧
  ∀ n j, k_jobs k' !! n = Some j → j_dials j <= max_attempts (po_budgets (j_policy j)).
Proof.
  intros Hp E Hr. assert (controller_ok k') as [_ Hjs _ _ Hb] by by eapply reachable_conn_ok. split; [done|].
  intros n j Hj. apply Hjs in Hj as ([] & _). lia.
Qed.



(** ** One connection, from the call to the close *)

#[local] Transparent parse_endpoint dns_name ip_address ip_network authorize_addresses select_candidates check_peer.

Definition sample_scope : pystr := str "space-1".
Definition sample_start : controller :=
  Controller sample_policy true (Some [str "quic"]) true sample_scope false 0 false ∅ ∅ ∅ [] 0 ∅ 1.

(** A resumption of job [n], when it waits for this event. *)
Definition resume_job (n : Z) (now : Q) (ev : event) (k : controller) : controller :=
  match k_jobs k !! n with
  | Some j => match resume now ev j k with Some (k', o) => settle n o k' | None => k end
  | None => k
  end.

Lemma resume_job_step n now ev k : rtc step k (resume_job n now ev k).
Proof.
  unfold resume_job. destruct (k_jobs k !! n) as [j|] eqn:Hj; [|done].
  destruct (resume now ev j k) as [[k' o]|] eqn:E; [|done]. apply rtc_once. by eapply step_resume.
Qed.

Definition sample_peer : option (pystr * Z) := Some (str "1.1.1.1", 4433).
Definition sample_waiting : controller :=
  (connect 0 [Candidate sample_endpoint (str "peer-1") (str "manual")] true None 0%Q sample_start).1.
Definition sample_dialing : controller :=
  resume_job 0 1%Q (EvResolved (Returned sample_resolution)) sample_waiting.
Definition sample_authenticating : controller :=
  resume_job 0 1%Q (EvDialed (Returned 100) sample_peer) sample_dialing.
Definition sample_proof_event : event :=
  EvAuthenticated (Returned (PeerProof (str "peer-1") sample_scope)) sample_peer (str "direct").
Definition sample_connected : controller := resume_job 0 2%Q sample_proof_event sample_authenticating.

Lemma sample_authenticating_reached : rtc step sample_start sample_authenticating.
Proof.
  apply (rtc_l _ _ sample_waiting); [by apply step_connect|].
  etrans; [apply (resume_job_step 0 1%Q (EvResolved (Returned sample_resolution)))|].
  apply resume_job_step.
Qed.
Lemma sample_connected_reached : rtc step sample_start sample_connected.
Proof. etrans; [apply sample_authenticating_reached|apply resume_job_step]. Qed.



Lemma active_connections_current_witness :
  (∀ i a, k_active sample_connected !! i = Some a →
     target_ok (k_policy sample_connected) (k_generation sample_connected) (ac_target a) ∧ path_ok (ac_path a)) ∧
  (k_closed sample_connected = true → k_active sample_connected = ∅).
Proof.
  exact (active_connections_current sample_policy true (Some [str "quic"]) true sample_scope false
           sample_start sample_connected eq_refl eq_refl sample_connected_reached).
Defined.

Lemma connection_budget_witness :
  Z.of_nat (size (k_active sample_connected)) +
    Z.of_nat (size (current (k_generation sample_connected) (k_jobs sample_connected)))
    <= max_connections (po_budgets (k_policy sample_connected)) ∧
  ∀ n j, k_jobs sample_connected !! n = Some j → j_dials j <= max_attempts (po_budgets (j_policy j)).
Proof.
  exact (connection_budget sample_policy true (Some [str "quic"]) true sample_scope false
           sample_start sample_connected eq_refl eq_refl sample_connected_reached).
Defined.


