(* ===== verification/Crash.v ===== *)
(** * Computations over durable state, with their crash points

    A computation maps the durable state to the states it goes through, oldest first, the
    state it ends in and its outcome.  Each write is atomic, so a process that dies leaves
    one of the states visited; a run that is resumed starts from it.  [wp] is the weakest
    precondition of a computation: every state it passes satisfies the crash invariant,
    and its end satisfies the postcondition, whatever the outcome. *)

From S2P Require Import Prelude.

Definition crash (S A : Type) : Type := S → list S * S * result A.

#[export] Instance crash_ret {S} : MRet (crash S) := λ A a s, ([], s, Ok a).
#[export] Instance crash_bind {S} : MBind (crash S) := λ A B f m s,
  match m s with
  | (tr, s', Ok a) => match f a s' with (tr', s'', r) => (tr ++ tr', s'', r) end
  | (tr, s', Err e) => (tr, s', Err e)
  end.

Section Crash.
Context {S : Type}.

(** A computation that only reads. *)
Definition reads {A} (f : S → result A) : crash S A := λ s, ([], s, f s).
Definition raise {A} (e : exn) : crash S A := λ s, ([], s, Err e).
Definition lift {A} (r : result A) : crash S A := λ s, ([], s, r).
(** One durable write. *)
Definition write (f : S → S) : crash S unit := λ s, ([s], f s, Ok tt).

(** All the states a crash can leave, the final one included. *)
Definition visited {A} (m : crash S A) (s : S) : list S :=
  match m s with (tr, s', _) => tr ++ [s'] end.
Definition final {A} (m : crash S A) (s : S) : S := (m s).1.2.
Definition outcome {A} (m : crash S A) (s : S) : result A := (m s).2.

(** [try: m except: h(e); raise] is written with [recover]. *)
Definition recover {A} (f : exn → exn) (m : crash S A) : crash S A := λ s,
  match m s with
  | (tr, s', Ok a) => (tr, s', Ok a)
  | (tr, s', Err e) => (tr, s', Err (f e))
  end.

(** [try: m finally: f] *)
Definition finally {A} (f : crash S unit) (m : crash S A) : crash S A := λ s,
  match m s with
  | (tr, s', r) => match f s' with
                   | (tr', s'', Ok _) => (tr ++ tr', s'', r)
                   | (tr', s'', Err e) => (tr ++ tr', s'', Err e)
                   end
  end.

Definition wp {A} (m : crash S A) (I : S → Prop) (Q : result A → S → Prop) (s : S) : Prop :=
  match m s with (tr, s', r) => Forall I tr ∧ Q r s' end.

(** The postcondition that continues on success. *)
Definition next {A B} (k : A → S → Prop) (Q : result B → S → Prop) (r : result A) (s : S) : Prop :=
  match r with Ok a => k a s | Err e => Q (Err e) s end.

Lemma wp_ret {A} (a : A) I Q s : Q (Ok a) s → wp (mret a) I Q s.
Proof. intros H. split; [constructor|done]. Qed.

Lemma wp_raise {A} e I (Q : result A → S → Prop) s : Q (Err e) s → wp (raise e) I Q s.
Proof. intros H. split; [constructor|done]. Qed.

Lemma wp_reads {A} (f : S → result A) I Q s : Q (f s) s → wp (reads f) I Q s.
Proof. intros H. split; [constructor|done]. Qed.

Lemma wp_lift {A} (r : result A) I Q s : Q r s → wp (lift r) I Q s.
Proof. intros H. split; [constructor|done]. Qed.

Lemma wp_write f I (Q : result unit → S → Prop) s : I s → Q (Ok tt) (f s) → wp (write f) I Q s.
Proof. intros HI H. split; [by repeat constructor|done]. Qed.

Lemma wp_bind {A B} (m : crash S A) (f : A → crash S B) I Q s :
  wp m I (next (λ a, wp (f a) I Q) Q) s → wp (m ≫= f) I Q s.
Proof.
  unfold wp. unfold mbind, crash_bind. destruct (m s) as [[tr s'] [a|e]]; cbn; [|done].
  intros [Htr H]. unfold wp in H. destruct (f a s') as [[tr' s''] r].
  destruct H as [Htr' H]. split; [by apply Forall_app|done].
Qed.

(** A first step whose outcome is known. *)
Lemma wp_bind_reads {A B} (g : S → result A) (f : A → crash S B) a I Q s :
  g s = Ok a → wp (f a) I Q s → wp (reads g ≫= f) I Q s.
Proof. intros Hg Hf. apply wp_bind, wp_reads. by rewrite Hg. Qed.
Lemma wp_bind_lift {A B} (r : result A) (f : A → crash S B) a I Q s :
  r = Ok a → wp (f a) I Q s → wp (lift r ≫= f) I Q s.
Proof. intros -> Hf. by apply wp_bind, wp_lift. Qed.

Lemma wp_mono {A} (m : crash S A) (I I' : S → Prop) (Q Q' : result A → S → Prop) s :
  wp m I Q s → (∀ t, I t → I' t) → (∀ r t, Q r t → Q' r t) → wp m I' Q' s.
Proof.
  unfold wp. destruct (m s) as [[tr s'] r]. intros [H1 H2] HI HQ.
  split; [by eapply Forall_impl|auto].
Qed.

Lemma wp_recover {A} g (m : crash S A) I Q s :
  wp m I (λ r, match r with Ok a => Q (Ok a) | Err e => Q (Err (g e)) end) s → wp (recover g m) I Q s.
Proof. unfold wp, recover. by destruct (m s) as [[tr s'] [a|e]]. Qed.

Lemma wp_finally {A} f (m : crash S A) I Q s :
  wp m I (λ r, wp f I (λ r', match r' with Ok _ => Q r | Err e => Q (Err e) end)) s → wp (finally f m) I Q s.
Proof.
  unfold wp, finally. destruct (m s) as [[tr s'] r]. intros [Htr H].
  destruct (f s') as [[tr' s''] [u|e]]; destruct H as [Htr' H]; (split; [by apply Forall_app|done]).
Qed.

(** What a computation's weakest precondition says of its run. *)
Lemma wp_visited {A} (m : crash S A) I Q s :
  wp m I Q s → (∀ r t, Q r t → I t) → ∀ t, t ∈ visited m s → I t.
Proof.
  unfold wp, visited. destruct (m s) as [[tr s'] r]. intros [Htr HQ] HI t.
  rewrite elem_of_app, list_elem_of_singleton. intros [Ht| ->]; [|by eapply HI].
  by eapply Forall_forall in Htr.
Qed.

Lemma wp_outcome {A} (m : crash S A) I Q s : wp m I Q s → Q (outcome m s) (final m s).
Proof. unfold wp, outcome, final. destruct (m s) as [[tr s'] r]. by intros [_ ?]. Qed.

(** A computation that leaves a view of the state as it was, at every point. *)
Definition preserves {A X} (f : S → X) (m : crash S A) : Prop :=
  ∀ s, wp m (λ t, f t = f s) (λ _ t, f t = f s) s.

Lemma preserves_ret {A X} (f : S → X) (a : A) : preserves f (mret a).
Proof. intros s. by apply wp_ret. Qed.
Lemma preserves_raise {A X} (f : S → X) e : preserves (A := A) f (raise e).
Proof. intros s. by apply wp_raise. Qed.
Lemma preserves_reads {A X} (f : S → X) (g : S → result A) : preserves f (reads g).
Proof. intros s. by apply wp_reads. Qed.
Lemma preserves_lift {A X} (f : S → X) (r : result A) : preserves f (lift r).
Proof. intros s. by apply wp_lift. Qed.
Lemma preserves_write {X} (f : S → X) g : (∀ s, f (g s) = f s) → preserves f (write g).
Proof. intros Hg s. apply wp_write; [done|apply Hg]. Qed.
Lemma preserves_bind {A B X} (f : S → X) (m : crash S A) (k : A → crash S B) :
  preserves f m → (∀ a, preserves f (k a)) → preserves f (m ≫= k).
Proof.
  intros Hm Hk s. apply wp_bind. eapply wp_mono; [apply Hm|done|].
  intros [a|e] t Ht; cbn; [|done]. eapply wp_mono; [apply Hk|..]; cbn; intros; congruence.
Qed.

(** The final state is visited; so is the initial one when the run writes anything. *)
Lemma final_visited {A} (m : crash S A) s : final m s ∈ visited m s.
Proof. unfold final, visited. destruct (m s) as [[tr s'] r]. apply elem_of_app. right. by left. Qed.
End Crash.

#[global] Arguments wp : simpl never.
#[global] Arguments visited : simpl never.
#[global] Arguments final : simpl never.
#[global] Arguments outcome : simpl never.

(** Walks one bind of a computation. *)
Ltac wp_step :=
  lazymatch goal with
  | |- wp (_ ≫= _) _ _ _ => apply wp_bind
  | |- wp (mbind _ _) _ _ _ => apply wp_bind
  | |- wp (mret _) _ _ _ => apply wp_ret
  | |- wp (reads _) _ _ _ => apply wp_reads
  | |- wp (lift _) _ _ _ => apply wp_lift
  | |- wp (raise _) _ _ _ => apply wp_raise
  end; cbn beta.

Create HintDb crash_db discriminated.
#[export] Hint Resolve preserves_ret preserves_raise preserves_reads preserves_lift : crash_db.
(** Walks through a computation; the writes and what it calls are left to [crash_db]. *)
Ltac preserves :=
  repeat first
    [ solve [eauto with crash_db]
    | lazymatch goal with
      | |- preserves _ (mbind _ _) => apply preserves_bind; [|intros]
      | |- preserves _ (write _) => apply preserves_write; by intros
      | |- preserves _ (match ?x with _ => _ end) => destruct x
      end ].
