(* ===== verification/Sqlite.v ===== *)
(** * The SQLite databases of the migration

    A database is what a SQLite file holds: the objects of [sqlite_schema], the rows of the
    tables, [user_version] and the verdict of [PRAGMA quick_check].  The cells are those of
    the tables the code declares, which have no REAL column.  An INSERT stores a cell as it
    is: every value the code binds already has the storage class of its column, for which
    the column's affinity changes nothing.

    The file format is the parameter [Sqlite]: [sqlite_open] is what an immutable read-only
    connection sees ([None] for a file that is no database), [sqlite_image] the file a
    committed transaction leaves.  The laws are documented behaviour: a database within
    SQLite's limits reads back as committed, and an empty file is an empty database. *)

From S2P Require Import Prelude Bytes Value Json.
Local Open Scope Z_scope.

Inductive cell :=
| CNull
| CInt (z : Z)
| CText (s : pystr)
| CBlob (b : bytes).

#[export] Instance cell_eq_dec : EqDecision cell.
Proof. solve_decision. Defined.

(** Declared columns: [INTEGER]/[TEXT]/[BLOB], [PRIMARY KEY], [NOT NULL],
    [CHECK(c IN (...))] as the list of allowed integers ([None]: no check), [REFERENCES]. *)
Inductive affinity := INTEGER | TEXT | BLOB.
#[export] Instance affinity_eq_dec : EqDecision affinity.
Proof. solve_decision. Defined.

Record column := Column {
  col_name : string;
  col_type : affinity;
  col_primary : bool;
  col_not_null : bool;
  col_check : option (list Z);
  col_references : option (string * string);
}.
#[export] Instance column_eq_dec : EqDecision column.
Proof. solve_decision. Defined.

(** A row of [sqlite_schema]; the columns stand for the text of the statement. *)
Inductive schema_object :=
| Table (columns : list column)
| OtherObject (type table sql : string).
#[export] Instance schema_object_eq_dec : EqDecision schema_object.
Proof. solve_decision. Defined.

Definition row_t := list cell.

Record database := Database {
  db_sound : bool;
  db_user_version : Z;
  db_schema : gmap string schema_object;
  db_rows : gmap string (list row_t);
}.
#[export] Instance database_eq_dec : EqDecision database.
Proof. solve_decision. Defined.

Definition empty_database : database := Database true 0 ∅ ∅.

Class Sqlite := {
  sqlite_open : bytes → option database;
  sqlite_image : database → bytes;
  sqlite_limit : database → Prop;
  sqlite_open_image d : sqlite_limit d → sqlite_open (sqlite_image d) = Some d;
  sqlite_open_empty : sqlite_open [] = Some empty_database;
}.

Definition sqlite_error : exn := Raised "sqlite3.Error" "".

(** [except sqlite3.Error: raise e] *)
Definition catch_sqlite {A} (e : exn) (m : result A) : result A :=
  match m with Err e' => if bool_decide (e' = sqlite_error) then Err e else Err e' | Ok a => Ok a end.

(** The first statement on a connection to a file that is no database fails. *)
Definition database_of `{Sqlite} (b : bytes) : result database := of_option sqlite_error (sqlite_open b).

(** ** Queries *)

(** The order of SQLite values: NULL, integers, text, blobs. *)
Definition cell_leb (a b : cell) : bool :=
  match a, b with
  | CNull, _ => true
  | _, CNull => false
  | CInt x, CInt y => x <=? y
  | CInt _, _ => true
  | _, CInt _ => false
  | CText s, CText t => str_leb s t
  | CText _, CBlob _ => true
  | CBlob _, CText _ => false
  | CBlob s, CBlob t => str_leb (Z_of_byte <$> s) (Z_of_byte <$> t)
  end.

Definition column_names (cs : list column) : list string := col_name <$> cs.

Fixpoint position (name : string) (names : list string) : option nat :=
  match names with
  | [] => None
  | n :: names' => if String.eqb name n then Some O else S <$> position name names'
  end.

Definition cell_at (i : nat) (r : row_t) : cell := default CNull (r !! i).

(** [ORDER BY] a column: a stable sort. *)
Fixpoint order_insert (i : nat) (x : row_t) (l : list row_t) : list row_t :=
  match l with
  | [] => [x]
  | y :: l' => if cell_leb (cell_at i x) (cell_at i y) then x :: y :: l' else y :: order_insert i x l'
  end.
Definition order_by (i : nat) (l : list row_t) : list row_t := foldr (order_insert i) [] l.

Definition table_columns (d : database) (table : string) : result (list column) :=
  match db_schema d !! table with Some (Table cs) => Ok cs | _ => Err sqlite_error end.
Definition table_rows (d : database) (table : string) : list row_t := default [] (db_rows d !! table).

Definition column_position (cs : list column) (name : string) : result nat :=
  of_option sqlite_error (position name (column_names cs)).

(** [SELECT cols FROM table ORDER BY order] *)
Definition rows_of (d : database) (table : string) (cols : list string) (order : string)
    : result (list row_t) :=
  cs ← table_columns d table;
  ps ← mapM (column_position cs) cols;
  o ← column_position cs order;
  Ok ((λ r, (λ i, cell_at i r) <$> ps) <$> order_by o (table_rows d table)).

(** [SELECT cols FROM table WHERE singleton=1] *)
Definition singleton_of (d : database) (table : string) (cols : list string) : result (list row_t) :=
  cs ← table_columns d table;
  ps ← mapM (column_position cs) cols;
  o ← column_position cs "singleton";
  Ok ((λ r, (λ i, cell_at i r) <$> ps)
        <$> List.filter (λ r, bool_decide (cell_at o r = CInt 1)) (table_rows d table)).

(** [SELECT * FROM table WHERE singleton=1], with the column names of [sqlite3.Row]. *)
Definition named_row : Type := list string * row_t.
Definition singleton_star (d : database) (table : string) : result (list named_row) :=
  cs ← table_columns d table;
  o ← column_position cs "singleton";
  Ok (pair (column_names cs)
        <$> List.filter (λ r, bool_decide (cell_at o r = CInt 1)) (table_rows d table)).
(** [row['name']] *)
Definition row_item (r : named_row) (name : string) : result cell :=
  i ← of_option IndexError (position name r.1); Ok (cell_at i r.2).
Definition cell_value (x : cell) : value :=
  match x with CNull => VNone | CInt z => VInt z | CText s => VStr s | CBlob b => VBytes b end.

(** [SELECT COUNT( * ) FROM table] *)
Definition count_of (d : database) (table : string) : result Z :=
  _ ← table_columns d table; Ok (len (table_rows d table)).

(** The rows of [sqlite_schema], by name. *)
Definition schema_objects (d : database) : gmap string schema_object := db_schema d.

(** ** Writing *)

Definition not_null_ok (c : column) (x : cell) : bool :=
  negb (col_not_null c) || negb (bool_decide (x = CNull)).
Definition check_ok (c : column) (x : cell) : bool :=
  match col_check c, x with
  | None, _ | Some _, CNull => true
  | Some allowed, CInt z => bool_decide (z ∈ allowed)
  | Some _, _ => false
  end.
Definition primary_ok (c : column) (i : nat) (rows : list row_t) (x : cell) : bool :=
  negb (col_primary c) || bool_decide (x = CNull)
  || forallb (λ r, negb (bool_decide (cell_at i r = x))) rows.
(** [PRAGMA foreign_keys=ON] *)
Definition reference_ok (d : database) (c : column) (x : cell) : bool :=
  match col_references c with
  | None => true
  | Some (parent, key) =>
      bool_decide (x = CNull)
      || match table_columns d parent with
         | Ok cs => match position key (column_names cs) with
                    | Some k => existsb (λ r, bool_decide (cell_at k r = x)) (table_rows d parent)
                    | None => false
                    end
         | Err _ => false
         end
  end.

(** The constraints a row meets whatever the other rows of its table. *)
Definition cell_ok (d : database) (c : column) (x : cell) : bool :=
  not_null_ok c x && check_ok c x && reference_ok d c x.
Definition row_ok (d : database) (cs : list column) (r : row_t) : bool :=
  (len r =? len cs) && forallb (λ cx, cell_ok d cx.1 cx.2) (zip cs r).
Definition keys_free (cs : list column) (rows : list row_t) (r : row_t) : bool :=
  forallb (λ icx, primary_ok icx.2.1 icx.1 rows icx.2.2) (imap pair (zip cs r)).

Definition set_rows (table : string) (rows : list row_t) (d : database) : database :=
  Database (db_sound d) (db_user_version d) (db_schema d) (<[table := rows]> (db_rows d)).

(** [INSERT INTO table VALUES(...)] *)
Definition insert_into (table : string) (d : database) (r : row_t) : result database :=
  cs ← table_columns d table;
  _ ← require (row_ok d cs r && keys_free cs (table_rows d table) r) sqlite_error;
  Ok (set_rows table (table_rows d table ++ [r]) d).

(** [executescript] of CREATE TABLE statements, and [PRAGMA user_version=n]. *)
Definition create_tables (ddl : list (string * list column)) (d : database) : database :=
  Database (db_sound d) (db_user_version d)
    (foldr (λ t m, <[t.1 := Table t.2]> m) (db_schema d) ddl)
    (foldr (λ t m, <[t.1 := []]> m) (db_rows d) ddl).
Definition set_user_version (n : Z) (d : database) : database :=
  Database (db_sound d) n (db_schema d) (db_rows d).

Definition column_of (name : string) (type : affinity) : column := Column name type false true None None.
Definition key_of_table (name : string) : column := Column name TEXT true false None None.
Definition singleton_column : column := Column "singleton" INTEGER true false (Some [1]) None.
Definition flag_column (name : string) : column := Column name INTEGER false true (Some [0; 1]) None.
Definition foreign_key (name parent key : string) : column :=
  Column name TEXT true false None (Some (parent, key)).
