(* ===== verification/Migration.v ===== *)
(** * Store migration: data, the source store and the plan
    (product/wp14/par_migration/model.py, store.py, planner.py, fs.py)

    A store root holds [ACTIVE.json] and the directories of its generations; a migration
    keeps its own files under the work root.  [world] is the durable state one plan's
    migration reads and writes: each file is either the text of a JSON value or other
    bytes, and a directory maps names to files.  A file created but not yet written is
    [FBytes []], which is no JSON.  Permissions, symbolic links, the size limits of
    [read_strict_json] and failing system calls are outside. *)

From S2P Require Import Prelude Bytes Value Json Hash Crash Sqlite.
Local Open Scope Z_scope.

Definition MigrationError (code : string) : exn := Raised "MigrationError" code.
Definition mneed (ok : bool) (code : string) : result unit := require ok (MigrationError code).

Lemma mneed_true b code : b = true → mneed b code = Ok tt.
Proof. by intros ->. Qed.

(** The first step of a computation: a read known by [E], a check to prove. *)
Ltac reads_as E := refine (bind_step _ _ _ _ _ _); [exact E|cbv beta].
Ltac passes := refine (bind_step _ _ tt _ _ _); [apply mneed_true|cbv beta].

Definition is_migration_error (e : exn) : bool :=
  match e with Raised cls _ => String.eqb cls "MigrationError" | _ => false end.
(** [except MigrationError as exc: raise MigrationError(code) from exc] *)
Definition migration_as (code : string) (e : exn) : exn :=
  if is_migration_error e then MigrationError code else e.
Definition catch_migration {A} (code : string) (m : result A) : result A :=
  match m with Ok a => Ok a | Err e => Err (migration_as code e) end.
(** The handlers of the directory verifications: [MigrationError], [OSError],
    [ValueError], [TypeError] and [KeyError] become one code. *)
Definition invalid_as (code : string) (e : exn) : exn :=
  match e with
  | ValueError | TypeError | KeyError => MigrationError code
  | _ => migration_as code e
  end.
Definition catch_invalid {A} (code : string) (m : result A) : result A :=
  match m with Ok a => Ok a | Err e => Err (invalid_as code e) end.

(** ** model.py *)

Definition ROOT_PROFILE : pystr := str "par-local-migration-root-0057".
Definition PLAN_PROFILE : pystr := str "par-local-migration-plan-0057".
Definition SOURCE_SCHEMA_ID : pystr := str "par-local-migration-v1".
Definition TARGET_SCHEMA_ID : pystr := str "par-local-migration-v2".
Definition SOURCE_STORE_VERSION : Z := 1.
Definition TARGET_STORE_VERSION : Z := 2.
Definition SUPPORTED_CODECS : list pystr := [str "par.change.v1"; str "par.control.v1"].
Definition CONVERTER_ID : string := "par-local-v1-to-v2-explicit-copy-0057".
Definition VERSION_KEYS : list string := ["wire"; "suite"; "schema"; "store"; "sdk"; "ui"]%string.

Definition low_alnum (c : Z) : bool := ((48 <=? c) && (c <=? 57)) || ((97 <=? c) && (c <=? 122)).
Definition generation_char (c : Z) : bool := low_alnum c || (c =? 46) || (c =? 95) || (c =? 45).

Definition valid_generation (v : value) : result pystr :=
  match v with
  | VStr (c :: s) =>
      _ ← mneed (low_alnum c && forallb generation_char s && (len s <=? 95)) "GENERATION_INVALID";
      Ok (c :: s)
  | _ => Err (MigrationError "GENERATION_INVALID")
  end.

Definition valid_sha (v : value) (code : string) : result pystr :=
  match v with
  | VStr s => _ ← mneed (forallb is_hex s && (len s =? 64)) code; Ok s
  | _ => Err (MigrationError code)
  end.

(** A string of 1 to 96 characters. *)
Definition version_text (v : value) : bool :=
  match v with VStr s => (1 <=? len s) && (len s <=? 96) | _ => false end.
Definition natural (v : value) : bool := match v with VInt z => 0 <=? z | _ => false end.

Definition validate_versions (v : value) : result value :=
  match v with
  | VDict d =>
      _ ← mneed (str_keys VERSION_KEYS d) "VERSION_FIELDS";
      texts ← mapM (sitem v) ["wire"; "suite"; "schema"; "sdk"; "ui"]%string;
      _ ← mneed (forallb version_text texts) "VERSION_VALUE";
      store ← sitem v "store";
      _ ← mneed (natural store) "VERSION_VALUE";
      Ok v
  | _ => Err (MigrationError "VERSION_FIELDS")
  end.

Record active_pointer := ActivePointer {
  ap_generation : pystr;
  ap_store_sha256 : pystr;
  ap_store_version : Z;
}.

Definition pointer_dict (p : active_pointer) : value :=
  sdict [("profile"%string, VStr ROOT_PROFILE); ("generation"%string, VStr (ap_generation p));
         ("storeSha256"%string, VStr (ap_store_sha256 p)); ("storeVersion"%string, VInt (ap_store_version p))].

(** [ob_db] is the content of the file [db_path] names. *)
Record source_observation := SourceObservation {
  ob_generation : pystr;
  ob_store_sha256 : pystr;
  ob_source_digest : pystr;
  ob_source_size : Z;
  ob_versions : value;
  ob_inventory : value;
  ob_seed_sha256 : pystr;
  ob_frontier_sha256 : pystr;
  ob_db : bytes;
}.

(** Paths are the components of an absolute path. *)
Definition path : Type := list pystr.
Definition path_text (p : path) : pystr :=
  match p with [] => [47] | _ => p ≫= λ c, 47 :: c end.

Record migration_plan := MigrationPlan {
  p_store_root : path;
  p_work_root : path;
  p_observed_at : pystr;
  p_source_generation : pystr;
  p_source_store_sha256 : pystr;
  p_source_digest : pystr;
  p_source_size : Z;
  p_versions : value;
  p_inventory : value;
  p_seed_sha256 : pystr;
  p_frontier_sha256 : pystr;
  p_converter_digest : pystr;
  p_target_store_version : Z;
  p_target_schema_id : pystr;
  p_required_bytes : Z;
  p_available_bytes : Z;
  p_plan_digest : pystr;
  p_migration_id : pystr;
  p_target_generation : pystr;
}.

Definition identity_fields (p : migration_plan) : list (string * value) :=
  [("profile"%string, VStr PLAN_PROFILE);
   ("sourceGeneration"%string, VStr (p_source_generation p));
   ("sourceStoreSha256"%string, VStr (p_source_store_sha256 p));
   ("sourceDigest"%string, VStr (p_source_digest p));
   ("sourceSize"%string, VInt (p_source_size p));
   ("versions"%string, p_versions p);
   ("inventory"%string, p_inventory p);
   ("seedSha256"%string, VStr (p_seed_sha256 p));
   ("frontierSha256"%string, VStr (p_frontier_sha256 p));
   ("converterDigest"%string, VStr (p_converter_digest p));
   ("targetStoreVersion"%string, VInt (p_target_store_version p));
   ("targetSchemaId"%string, VStr (p_target_schema_id p));
   ("requiredBytes"%string, VInt (p_required_bytes p))].
Definition identity_dict (p : migration_plan) : value := sdict (identity_fields p).

Definition plan_dict (p : migration_plan) : value :=
  sdict (identity_fields p ++
    [("storeRoot"%string, VStr (path_text (p_store_root p)));
     ("workRoot"%string, VStr (path_text (p_work_root p)));
     ("observedAt"%string, VStr (p_observed_at p));
     ("availableBytes"%string, VInt (p_available_bytes p));
     ("planDigest"%string, VStr (p_plan_digest p));
     ("migrationId"%string, VStr (p_migration_id p));
     ("targetGeneration"%string, VStr (p_target_generation p))]).

(** ** The durable state *)

Inductive file := FJson (v : value) | FBytes (b : bytes).
Definition directory : Type := gmap pystr file.

Record world := World {
  w_active : option file;              (* store_root/ACTIVE.json *)
  w_pending : option file;             (* store_root/.ACTIVE.<migration id>.pending *)
  w_generations : gmap pystr directory; (* store_root/generations/ *)
  w_plan : option file;                (* work_root/<migration id>/PLAN.json *)
  w_journal : option file;             (* .../JOURNAL.json *)
  w_backup : option directory;         (* .../backup/ *)
  w_backup_pending : option directory; (* .../backup.pending/ *)
  w_shadow : option directory;         (* .../shadow/ *)
  w_shadow_pending : option directory; (* .../shadow.pending/ *)
}.

Definition set_active (f : option file) (w : world) : world :=
  World f (w_pending w) (w_generations w) (w_plan w) (w_journal w) (w_backup w)
    (w_backup_pending w) (w_shadow w) (w_shadow_pending w).
Definition set_pending (f : option file) (w : world) : world :=
  World (w_active w) f (w_generations w) (w_plan w) (w_journal w) (w_backup w)
    (w_backup_pending w) (w_shadow w) (w_shadow_pending w).
Definition set_generations (g : gmap pystr directory) (w : world) : world :=
  World (w_active w) (w_pending w) g (w_plan w) (w_journal w) (w_backup w)
    (w_backup_pending w) (w_shadow w) (w_shadow_pending w).
Definition set_plan (f : option file) (w : world) : world :=
  World (w_active w) (w_pending w) (w_generations w) f (w_journal w) (w_backup w)
    (w_backup_pending w) (w_shadow w) (w_shadow_pending w).
Definition set_journal (f : option file) (w : world) : world :=
  World (w_active w) (w_pending w) (w_generations w) (w_plan w) f (w_backup w)
    (w_backup_pending w) (w_shadow w) (w_shadow_pending w).
Definition set_backup (d : option directory) (w : world) : world :=
  World (w_active w) (w_pending w) (w_generations w) (w_plan w) (w_journal w) d
    (w_backup_pending w) (w_shadow w) (w_shadow_pending w).
Definition set_backup_pending (d : option directory) (w : world) : world :=
  World (w_active w) (w_pending w) (w_generations w) (w_plan w) (w_journal w) (w_backup w)
    d (w_shadow w) (w_shadow_pending w).
Definition set_shadow (d : option directory) (w : world) : world :=
  World (w_active w) (w_pending w) (w_generations w) (w_plan w) (w_journal w) (w_backup w)
    (w_backup_pending w) d (w_shadow_pending w).
Definition set_shadow_pending (d : option directory) (w : world) : world :=
  World (w_active w) (w_pending w) (w_generations w) (w_plan w) (w_journal w) (w_backup w)
    (w_backup_pending w) (w_shadow w) d.

(** ** fs.py *)

Definition STORE : pystr := str "store.sqlite".
Definition MANIFEST : pystr := str "MANIFEST.json".

Definition read_strict_json (f : option file) : result value :=
  match f with Some (FJson v) => Ok v | _ => Err (MigrationError "JSON_INVALID") end.

(** The bytes of a file: a JSON file is written by [canonical_text]. *)
Definition file_bytes (f : file) : bytes :=
  match f with FJson v => default [] (json_bytes v) ++ [x0a] | FBytes b => b end.

Definition regular_file (f : option file) : result bytes :=
  match f with Some f => Ok (file_bytes f) | None => Err (MigrationError "UNSAFE_PATH") end.

(** [write_json_exclusive] on an absent path: the file exists before it has content. *)
Definition write_json_exclusive (get : world → option file) (put : option file → world → world) (v : value)
    : crash world unit :=
  f ← reads (λ w, Ok (get w));
  match f with
  | Some _ => raise (MigrationError "DESTINATION_EXISTS")
  | None => _ ← write (put (Some (FBytes []))); write (put (Some (FJson v)))
  end.

(** [write_json_atomic]: the replacement is one step. *)
Definition write_json_atomic (put : option file → world → world) (v : value) : crash world unit :=
  write (put (Some (FJson v))).

(** [remove_owned_tree]: the entries go one at a time, then the directory. *)
Fixpoint unlink_all (put : option directory → world → world) (names : list pystr) (d : directory)
    : crash world unit :=
  match names with
  | [] => write (put None)
  | n :: names' => _ ← write (put (Some (delete n d))); unlink_all put names' (delete n d)
  end.
Definition remove_owned_tree (put : option directory → world → world) (d : option directory) : crash world unit :=
  match d with None => mret tt | Some d => unlink_all put (map_to_list d).*1 d end.

(** A file of a pending directory. *)
Definition dir_file (get : world → option directory) (name : pystr) (w : world) : option file :=
  get w ≫= λ d, d !! name.
Definition put_dir_file (get : world → option directory) (put : option directory → world → world)
    (name : pystr) (f : option file) (w : world) : world :=
  let d := default ∅ (get w) in
  put (Some (match f with Some f => <[name := f]> d | None => delete name d end)) w.

(** ** store.py *)

Definition SOURCE_DDL : list (string * list column) :=
  [("store_metadata"%string,
     [singleton_column; column_of "generation" TEXT; column_of "wire_version" TEXT;
      column_of "suite_version" TEXT; column_of "schema_id" TEXT; column_of "store_version" INTEGER;
      column_of "sdk_version" TEXT; column_of "ui_version" TEXT]);
   ("operation_ledger"%string,
     [key_of_table "operation_id"; column_of "state" TEXT; column_of "payload_hash" TEXT;
      column_of "outcome" TEXT]);
   ("outbox"%string,
     [foreign_key "operation_id" "operation_ledger" "operation_id"; column_of "envelope" BLOB;
      column_of "state" TEXT]);
   ("drafts"%string,
     [key_of_table "draft_id"; column_of "document_id" TEXT; column_of "payload" BLOB;
      flag_column "applied"]);
   ("signed_objects"%string,
     [key_of_table "object_id"; column_of "codec" TEXT; flag_column "mandatory";
      column_of "signed_bytes" BLOB; flag_column "applied"; column_of "ack_state" TEXT;
      flag_column "resigned"]);
   ("migration_seed"%string,
     [singleton_column; column_of "seed_bytes" BLOB; column_of "source_frontier" BLOB])].

Definition expected_source_schema : gmap string schema_object :=
  schema_objects (create_tables SOURCE_DDL empty_database).

Definition read_active_pointer (w : world) : result active_pointer :=
  raw ← catch_migration "ACTIVE_POINTER_INVALID" (read_strict_json (w_active w));
  _ ← mneed (match raw with
             | VDict d => str_keys ["profile"; "generation"; "storeSha256"; "storeVersion"]%string d
             | _ => false end) "ACTIVE_POINTER_INVALID";
  profile ← sitem raw "profile";
  _ ← mneed (py_eq profile (VStr ROOT_PROFILE)) "ACTIVE_POINTER_INVALID";
  generation ← sitem raw "generation"; generation ← valid_generation generation;
  digest ← sitem raw "storeSha256"; digest ← valid_sha digest "ACTIVE_POINTER_INVALID";
  version ← sitem raw "storeVersion";
  match version with
  | VInt z => _ ← mneed (0 <=? z) "ACTIVE_POINTER_INVALID"; Ok (ActivePointer generation digest z)
  | _ => Err (MigrationError "ACTIVE_POINTER_INVALID")
  end.

(** No write-ahead log, shared memory or rollback journal beside the database. *)
Definition SIDE_FILES : list pystr := [STORE ++ str "-wal"; STORE ++ str "-shm"; STORE ++ str "-journal"].
Definition quiescent (d : directory) : bool := forallb (λ n, bool_decide (d !! n = None)) SIDE_FILES.

(** The counts of the four tables. *)
Definition inventory_of (db : database) : result value :=
  ledger ← count_of db "operation_ledger"; outbox ← count_of db "outbox";
  drafts ← count_of db "drafts"; signed ← count_of db "signed_objects";
  Ok (sdict [("operationLedger"%string, VInt ledger); ("outbox"%string, VInt outbox);
             ("drafts"%string, VInt drafts); ("signedObjects"%string, VInt signed)]).

Section Migration.
Context `{Hash} `{Sqlite}.

Definition hexdigest (b : bytes) : pystr := hex (sha256 b).
Definition CONVERTER_DIGEST : pystr := hexdigest (raw (str CONVERTER_ID)).

(** [sha256_bytes(canonical_bytes(value))] *)
Definition digest_identity (v : value) : result pystr :=
  b ← of_option ValueError (json_bytes v); Ok (hexdigest b).

(** What [inspect_database] reads through the connection. *)
Definition inspect_tables (db : database) (generation : pystr) : result (value * value * pystr * pystr) :=
  _ ← mneed (db_sound db) "SOURCE_CORRUPT";
  rows ← singleton_star db "store_metadata";
  match rows with
  | [] => Err (MigrationError "SOURCE_SCHEMA_INVALID")
  | r :: _ =>
      store_version ← row_item r "store_version";
      _ ← mneed (bool_decide (store_version = CInt SOURCE_STORE_VERSION)
                 && (db_user_version db =? SOURCE_STORE_VERSION)) "UPGRADE_REQUIRED";
      wire ← row_item r "wire_version"; suite ← row_item r "suite_version";
      schema ← row_item r "schema_id"; sdk ← row_item r "sdk_version"; ui ← row_item r "ui_version";
      versions ← validate_versions
        (sdict [("wire"%string, cell_value wire); ("suite"%string, cell_value suite);
                ("schema"%string, cell_value schema); ("store"%string, cell_value store_version);
                ("sdk"%string, cell_value sdk); ("ui"%string, cell_value ui)]);
      g ← row_item r "generation";
      _ ← mneed (bool_decide (g = CText generation) && bool_decide (schema = CText SOURCE_SCHEMA_ID))
            "SOURCE_SCHEMA_INVALID";
      _ ← mneed (bool_decide (schema_objects db = expected_source_schema)) "SOURCE_SCHEMA_INVALID";
      inventory ← inventory_of db;
      seeds ← singleton_of db "migration_seed" ["seed_bytes"; "source_frontier"]%string;
      match seeds with
      | [CBlob seed; CBlob frontier] :: _ => Ok (versions, inventory, hexdigest seed, hexdigest frontier)
      | _ => Err (MigrationError "SOURCE_SCHEMA_INVALID")
      end
  end.

(** [inspect_database(d / 'store.sqlite', generation)] *)
Definition inspect_database (d : directory) (generation : pystr) : result source_observation :=
  generation ← valid_generation (VStr generation);
  b ← regular_file (d !! STORE);
  _ ← mneed (quiescent d) "SOURCE_NOT_QUIESCENT";
  '(versions, inventory, seed, frontier) ←
    catch_sqlite (MigrationError "SOURCE_SCHEMA_INVALID")
      (db ← database_of b; inspect_tables db generation);
  digest ← digest_identity
    (sdict [("generation"%string, VStr generation); ("storeSha256"%string, VStr (hexdigest b));
            ("versions"%string, versions); ("inventory"%string, inventory);
            ("seedSha256"%string, VStr seed); ("frontierSha256"%string, VStr frontier)]);
  Ok (SourceObservation generation (hexdigest b) digest (len b) versions inventory seed frontier b).

Definition inspect_generation (w : world) (generation : pystr) : result source_observation :=
  generation ← valid_generation (VStr generation);
  d ← of_option (MigrationError "UNSAFE_PATH") (w_generations w !! generation);
  inspect_database d generation.

(** ** planner.py *)

Definition is_relative_to (p root : path) : bool := bool_decide (root `prefix_of` p).

Definition separate_roots (store_root work_root : path) : result unit :=
  mneed (negb (bool_decide (work_root = store_root) || is_relative_to work_root store_root
               || is_relative_to store_root work_root)) "WORK_ROOT_NOT_SEPARATE".

(** The capacity reader's answer. *)
Definition read_capacity (answer : result value) : result Z :=
  match answer with
  | Ok (VInt z) => _ ← mneed (0 <=? z) "CAPACITY_UNAVAILABLE"; Ok z
  | Ok _ => Err (MigrationError "CAPACITY_UNAVAILABLE")
  | Err e => Err (if is_migration_error e then e else MigrationError "CAPACITY_UNAVAILABLE")
  end.

Definition provisional_plan (store_root work_root : path) (observed_at : pystr) (source : source_observation)
    (required available : Z) : migration_plan :=
  MigrationPlan store_root work_root observed_at (ob_generation source) (ob_store_sha256 source)
    (ob_source_digest source) (ob_source_size source) (ob_versions source) (ob_inventory source)
    (ob_seed_sha256 source) (ob_frontier_sha256 source) CONVERTER_DIGEST TARGET_STORE_VERSION
    TARGET_SCHEMA_ID required available (repeat 48 64) (str "migration-pending")
    (str "generation-pending").

Definition name_plan (p : migration_plan) (digest : pystr) : migration_plan :=
  MigrationPlan (p_store_root p) (p_work_root p) (p_observed_at p) (p_source_generation p)
    (p_source_store_sha256 p) (p_source_digest p) (p_source_size p) (p_versions p) (p_inventory p)
    (p_seed_sha256 p) (p_frontier_sha256 p) (p_converter_digest p) (p_target_store_version p)
    (p_target_schema_id p) (p_required_bytes p) (p_available_bytes p) digest
    (str "migration-" ++ take 20 digest) (str "generation-" ++ take 24 digest).

Definition plan_migration (w : world) (store_root work_root : path) (observed_at : value)
    (capacity : result value) : result migration_plan :=
  observed ← (match observed_at with
              | VStr s => _ ← mneed ((1 <=? len s) && (len s <=? 128)) "OBSERVED_AT_INVALID"; Ok s
              | _ => Err (MigrationError "OBSERVED_AT_INVALID") end);
  _ ← separate_roots store_root work_root;
  pointer ← read_active_pointer w;
  _ ← mneed (ap_store_version pointer =? SOURCE_STORE_VERSION) "UPGRADE_REQUIRED";
  source ← inspect_generation w (ap_generation pointer);
  _ ← mneed (bool_decide (ap_store_sha256 pointer = ob_store_sha256 source)) "ACTIVE_POINTER_MISMATCH";
  available ← read_capacity capacity;
  let required := ob_source_size source * 3 + 4 * 1024 * 1024 in
  _ ← mneed (required <=? available) "INSUFFICIENT_SPACE";
  let p := provisional_plan store_root work_root observed source required available in
  digest ← digest_identity (identity_dict p);
  Ok (name_plan p digest).
End Migration.
