(* ===== verification/MigrationBackup.v ===== *)
(** * Store migration: the journal and the verified backup
    (product/wp14/par_migration/journal.py, backup.py)

    The writers are computations over [world]; [env] is what they ask of the caller: the
    observer called at the named stages, whose exceptions propagate, and the device of the
    shadow directory.  Reads are functions of the world. *)

From S2P Require Import Prelude Bytes Value Json Hash Crash Sqlite Migration.
Local Open Scope Z_scope.

Record env := Env {
  observer : string → result unit;
  same_device : bool;
}.
Definition observe (e : env) (stage : string) : crash world unit := lift (observer e stage).

(** ** journal.py *)

Definition JOURNAL_PROFILE : pystr := str "par-local-migration-journal-0057".
Definition STAGES : list pystr :=
  [str "PLANNED"; str "BACKUP_VERIFIED"; str "SHADOW_BUILT"; str "SHADOW_VERIFIED"; str "PUBLISHED";
   str "ACTIVATED"].

Fixpoint index_in (l : list pystr) (s : pystr) : option nat :=
  match l with
  | [] => None
  | x :: l' => if bool_decide (s = x) then Some O else S <$> index_in l' s
  end.
(** [STAGES.index(stage)] *)
Definition stage_index (s : pystr) : result nat := of_option ValueError (index_in STAGES s).
Definition is_stage (s : pystr) : bool := bool_decide (s ∈ STAGES).

Record journal := Journal {
  j_plan_digest : pystr;
  j_source_digest : pystr;
  j_sequence : Z;
  j_stage : pystr;
}.

Definition journal_dict (j : journal) : value :=
  sdict [("profile"%string, VStr JOURNAL_PROFILE); ("planDigest"%string, VStr (j_plan_digest j));
         ("sourceDigest"%string, VStr (j_source_digest j)); ("sequence"%string, VInt (j_sequence j));
         ("stage"%string, VStr (j_stage j))].

(** The checks of [MigrationJournal.load] on the parsed text. *)
Definition journal_from_raw (p : migration_plan) (raw : value) : result journal :=
  _ ← mneed (match raw with
             | VDict d => str_keys ["profile"; "planDigest"; "sourceDigest"; "sequence"; "stage"]%string d
             | _ => false end) "JOURNAL_INVALID";
  profile ← sitem raw "profile"; plan_digest ← sitem raw "planDigest"; source ← sitem raw "sourceDigest";
  _ ← mneed (py_eq profile (VStr JOURNAL_PROFILE) && py_eq plan_digest (VStr (p_plan_digest p))
             && py_eq source (VStr (p_source_digest p))) "JOURNAL_INVALID";
  sequence ← sitem raw "sequence"; stage ← sitem raw "stage";
  match sequence, stage with
  | VInt n, VStr s =>
      _ ← mneed ((0 <=? n) && is_stage s) "JOURNAL_INVALID";
      Ok (Journal (p_plan_digest p) (p_source_digest p) n s)
  | _, _ => Err (MigrationError "JOURNAL_INVALID")
  end.

Definition load_journal (p : migration_plan) (w : world) : result journal :=
  match w_journal w with
  | None => Err (MigrationError "JOURNAL_MISSING")
  | Some _ =>
      raw ← catch_migration "JOURNAL_INVALID" (read_strict_json (w_journal w));
      journal_from_raw p raw
  end.

(** [MigrationJournal.initialize] *)
Definition initialize (p : migration_plan) : crash world journal :=
  saved ← reads (λ w, Ok (w_plan w));
  _ ← match saved with
      | Some _ =>
          reads (λ w, saved ← catch_migration "PLAN_IDENTITY_MISMATCH" (read_strict_json (w_plan w));
                      mneed (py_eq saved (plan_dict p)) "PLAN_IDENTITY_MISMATCH")
      | None => write_json_exclusive w_plan set_plan (plan_dict p)
      end;
  existing ← reads (λ w, Ok (w_journal w));
  match existing with
  | Some _ => reads (load_journal p)
  | None =>
      let j := Journal (p_plan_digest p) (p_source_digest p) 0 (str "PLANNED") in
      _ ← write_json_exclusive w_journal set_journal (journal_dict j);
      mret j
  end.

(** [MigrationJournal.advance] *)
Definition advance (p : migration_plan) (target : pystr) : crash world journal :=
  _ ← lift (mneed (is_stage target) "JOURNAL_STAGE_INVALID");
  current ← reads (load_journal p);
  ci ← lift (stage_index (j_stage current));
  ti ← lift (stage_index target);
  if (ti <=? ci)%nat then mret current
  else
    _ ← lift (mneed (ti =? S ci)%nat "JOURNAL_STAGE_INVALID");
    let updated := Journal (p_plan_digest p) (p_source_digest p) (j_sequence current + 1) target in
    _ ← write_json_atomic set_journal (journal_dict updated);
    mret updated.

(** The loop of [_advance_to]: one stage at a time. *)
Fixpoint advance_loop (fuel : nat) (p : migration_plan) (target : pystr) (current : journal)
    : crash world journal :=
  match fuel with
  | O => raise OutOfFuel
  | S fuel' =>
      ci ← lift (stage_index (j_stage current));
      ti ← lift (stage_index target);
      if (ci <? ti)%nat then
        stage ← lift (of_option IndexError (STAGES !! S ci));
        current' ← advance p stage;
        advance_loop fuel' p target current'
      else mret current
  end.
Definition advance_to (p : migration_plan) (target : pystr) : crash world journal :=
  _ ← lift (mneed (is_stage target) "JOURNAL_STAGE_INVALID");
  current ← reads (load_journal p);
  advance_loop (S (length STAGES)) p target current.

(** ** backup.py *)

Definition BACKUP_PROFILE : pystr := str "par-local-migration-backup-0057".

Record backup_manifest := BackupManifest {
  b_plan_digest : pystr;
  b_source_digest : pystr;
  b_source_generation : pystr;
  b_store_sha256 : pystr;
  b_size : Z;
  b_versions : value;
  b_inventory : value;
  b_seed_sha256 : pystr;
  b_frontier_sha256 : pystr;
}.

(** [readback_verified] is [True] in every manifest the code constructs. *)
Definition backup_dict (m : backup_manifest) : value :=
  sdict [("profile"%string, VStr BACKUP_PROFILE); ("planDigest"%string, VStr (b_plan_digest m));
         ("sourceDigest"%string, VStr (b_source_digest m));
         ("sourceGeneration"%string, VStr (b_source_generation m));
         ("storeSha256"%string, VStr (b_store_sha256 m)); ("size"%string, VInt (b_size m));
         ("versions"%string, b_versions m); ("inventory"%string, b_inventory m);
         ("seedSha256"%string, VStr (b_seed_sha256 m)); ("frontierSha256"%string, VStr (b_frontier_sha256 m));
         ("readbackVerified"%string, VBool true)].

Definition backup_fields : list string :=
  ["profile"; "planDigest"; "sourceDigest"; "sourceGeneration"; "storeSha256"; "size"; "versions";
   "inventory"; "seedSha256"; "frontierSha256"; "readbackVerified"]%string.

Definition is_dict (v : value) : bool := match v with VDict _ => true | _ => false end.
Definition is_true (v : value) : bool := match v with VBool true => true | _ => false end.

(** A string of 64 characters, an integer of at least one, as the manifests require. *)
Definition digest_field (code : string) (raw : value) (k : string) : result pystr :=
  v ← sitem raw k;
  match v with VStr s => _ ← mneed (len s =? 64) code; Ok s | _ => Err (MigrationError code) end.
Definition size_field (code : string) (raw : value) (minimum : Z) (k : string) : result Z :=
  v ← sitem raw k;
  match v with VInt z => _ ← mneed (minimum <=? z) code; Ok z | _ => Err (MigrationError code) end.
Definition text_field (code : string) (raw : value) (k : string) : result pystr :=
  v ← sitem raw k; match v with VStr s => Ok s | _ => Err (MigrationError code) end.

Definition backup_from_raw (raw : value) : result backup_manifest :=
  let bad := "BACKUP_INVALID"%string in
  _ ← mneed (match raw with VDict d => str_keys backup_fields d | _ => false end) bad;
  profile ← sitem raw "profile";
  _ ← mneed (py_eq profile (VStr BACKUP_PROFILE)) bad;
  size ← size_field bad raw 1 "size";
  readback ← sitem raw "readbackVerified"; versions ← sitem raw "versions"; inventory ← sitem raw "inventory";
  _ ← mneed (is_true readback && is_dict versions && is_dict inventory) bad;
  plan_digest ← digest_field bad raw "planDigest";
  source_digest ← digest_field bad raw "sourceDigest";
  store ← digest_field bad raw "storeSha256";
  seed ← digest_field bad raw "seedSha256";
  frontier ← digest_field bad raw "frontierSha256";
  generation ← text_field bad raw "sourceGeneration";
  Ok (BackupManifest plan_digest source_digest generation store size versions inventory seed frontier).

Definition dir_entries (names : list pystr) (d : directory) : bool := bool_decide (dom d = list_to_set (C := gset pystr) names).

Section Backup.
Context `{Hash} `{Sqlite}.

(** The observation is the one the plan records. *)
Definition observed_as_planned (p : migration_plan) (ob : source_observation) : bool :=
  bool_decide (ob_source_digest ob = p_source_digest p)
  && bool_decide (ob_store_sha256 ob = p_source_store_sha256 p)
  && py_eq (ob_inventory ob) (p_inventory p) && py_eq (ob_versions ob) (p_versions p)
  && bool_decide (ob_seed_sha256 ob = p_seed_sha256 p)
  && bool_decide (ob_frontier_sha256 ob = p_frontier_sha256 p).

Definition verify_current_source (p : migration_plan) (w : world) : result source_observation :=
  pointer ← read_active_pointer w;
  _ ← mneed (bool_decide (ap_generation pointer = p_source_generation p)) "SOURCE_DIGEST_MISMATCH";
  ob ← inspect_generation w (ap_generation pointer);
  _ ← mneed (bool_decide (ap_store_sha256 pointer = ob_store_sha256 ob)) "SOURCE_DIGEST_MISMATCH";
  _ ← mneed (observed_as_planned p ob) "SOURCE_DIGEST_MISMATCH";
  Ok ob.

Definition manifest_matches (ob : source_observation) (m : backup_manifest) : bool :=
  bool_decide (ob_store_sha256 ob = b_store_sha256 m) && bool_decide (ob_source_digest ob = b_source_digest m)
  && py_eq (ob_versions ob) (b_versions m) && py_eq (ob_inventory ob) (b_inventory m)
  && bool_decide (ob_seed_sha256 ob = b_seed_sha256 m)
  && bool_decide (ob_frontier_sha256 ob = b_frontier_sha256 m).

Definition verify_backup_directory (p : migration_plan) (d : option directory) : result backup_manifest :=
  let bad := "BACKUP_INVALID"%string in
  catch_invalid bad
    (d ← of_option (MigrationError "UNSAFE_PATH") d;
     _ ← mneed (dir_entries [MANIFEST; STORE] d) bad;
     raw ← read_strict_json (d !! MANIFEST);
     m ← backup_from_raw raw;
     _ ← mneed (bool_decide (b_plan_digest m = p_plan_digest p)
                && bool_decide (b_source_digest m = p_source_digest p)
                && bool_decide (b_source_generation m = p_source_generation p)) bad;
     db ← regular_file (d !! STORE);
     _ ← mneed ((len db =? b_size m) && bool_decide (hexdigest db = b_store_sha256 m)) bad;
     ob ← inspect_database d (p_source_generation p);
     _ ← mneed (manifest_matches ob m) bad;
     _ ← mneed (bool_decide (b_store_sha256 m = p_source_store_sha256 p)
                && py_eq (b_versions m) (p_versions p) && py_eq (b_inventory m) (p_inventory p)
                && bool_decide (b_seed_sha256 m = p_seed_sha256 p)
                && bool_decide (b_frontier_sha256 m = p_frontier_sha256 p)) bad;
     Ok m).

Definition verify_backup (p : migration_plan) (w : world) : result backup_manifest :=
  verify_backup_directory p (w_backup w).

Definition require_verified_backup (p : migration_plan) (w : world) : result backup_manifest :=
  _ ← mneed (negb (bool_decide (w_backup w = None))) "BACKUP_REQUIRED";
  verify_backup p w.

(** [copy_file_fsync]: the copy exists before it is complete. *)
Definition copy_file_fsync (data : bytes) (get : world → option directory)
    (put : option directory → world → world) : crash world (Z * pystr) :=
  _ ← write (put_dir_file get put STORE (Some (FBytes [])));
  _ ← write (put_dir_file get put STORE (Some (FBytes data)));
  reads (λ w, b ← regular_file (dir_file get STORE w); Ok (len b, hexdigest b)).

Definition rename_backup (w : world) : world := set_backup_pending None (set_backup (w_backup_pending w) w).

(** The body of the [try] of [create_verified_backup]. *)
Definition make_backup (e : env) (p : migration_plan) (source : source_observation) : crash world unit :=
  _ ← observe e "backup.before_copy";
  '(size, digest) ← copy_file_fsync (ob_db source) w_backup_pending set_backup_pending;
  _ ← observe e "backup.after_copy";
  readback ← reads (λ w, d ← of_option (MigrationError "UNSAFE_PATH") (w_backup_pending w);
                         inspect_database d (p_source_generation p));
  let m := BackupManifest (p_plan_digest p) (p_source_digest p) (p_source_generation p) digest size
             (ob_versions readback) (ob_inventory readback) (ob_seed_sha256 readback)
             (ob_frontier_sha256 readback) in
  _ ← lift (mneed (bool_decide (ob_source_digest readback = p_source_digest p)
                   && bool_decide (digest = p_source_store_sha256 p) && (size =? p_source_size p))
              "BACKUP_INVALID");
  _ ← write_json_exclusive (dir_file w_backup_pending MANIFEST)
        (put_dir_file w_backup_pending set_backup_pending MANIFEST) (backup_dict m);
  _ ← reads (λ w, verify_backup_directory p (w_backup_pending w));
  _ ← observe e "backup.after_readback";
  write rename_backup.

Definition create_verified_backup (e : env) (p : migration_plan) : crash world backup_manifest :=
  source ← reads (verify_current_source p);
  _ ← initialize p;
  existing ← reads (λ w, Ok (w_backup w));
  match existing with
  | Some _ =>
      m ← reads (verify_backup p);
      _ ← advance p (str "BACKUP_VERIFIED");
      mret m
  | None =>
      pending ← reads (λ w, Ok (w_backup_pending w));
      _ ← remove_owned_tree set_backup_pending pending;
      _ ← write (set_backup_pending (Some ∅));
      _ ← make_backup e p source;
      m ← reads (verify_backup p);
      _ ← advance p (str "BACKUP_VERIFIED");
      mret m
  end.
End Backup.
