(* ===== verification/MigrationShadow.v ===== *)
(** * Store migration: the shadow generation (product/wp14/par_migration/shadow.py)

    The converter copies the verified backup into a new database of the target schema,
    row by row; the verification compares a target directory with what the backup must
    convert to. *)

From S2P Require Import Prelude Bytes Value Json Hash Crash Sqlite Migration MigrationBackup.
Local Open Scope Z_scope.

Definition SHADOW_PROFILE : pystr := str "par-local-migration-shadow-0057".

Definition TARGET_DDL : list (string * list column) :=
  [("store_metadata"%string,
     [singleton_column; column_of "generation" TEXT; column_of "source_generation" TEXT;
      column_of "wire_version" TEXT; column_of "suite_version" TEXT; column_of "schema_id" TEXT;
      column_of "store_version" INTEGER; column_of "sdk_version" TEXT; column_of "ui_version" TEXT;
      column_of "source_digest" TEXT; column_of "plan_digest" TEXT; column_of "converter_digest" TEXT;
      column_of "seed_sha256" TEXT; column_of "frontier_sha256" TEXT;
      column_of "backup_store_sha256" TEXT]);
   ("operation_ledger"%string,
     [key_of_table "operation_id"; column_of "state" TEXT; column_of "payload_hash" TEXT;
      column_of "outcome" TEXT]);
   ("outbox"%string,
     [foreign_key "operation_id" "operation_ledger" "operation_id"; column_of "envelope" BLOB;
      column_of "state" TEXT]);
   ("drafts"%string,
     [key_of_table "draft_id"; column_of "document_id" TEXT; column_of "payload" BLOB;
      flag_column "applied"]);
   ("signed_objects"%string,
     [key_of_table "object_id"; column_of "codec" TEXT; flag_column "mandatory";
      column_of "signed_bytes" BLOB; flag_column "applied"; column_of "ack_state" TEXT;
      flag_column "resigned"; column_of "migration_status" TEXT]);
   ("migration_seed"%string,
     [singleton_column; column_of "seed_bytes" BLOB; column_of "source_frontier" BLOB;
      column_of "converter_digest" TEXT; column_of "source_digest" TEXT])].

Definition expected_target_schema : gmap string schema_object :=
  schema_objects (create_tables TARGET_DDL empty_database).

Record shadow_manifest := ShadowManifest {
  s_plan_digest : pystr;
  s_source_digest : pystr;
  s_source_generation : pystr;
  s_target_generation : pystr;
  s_source_store_sha256 : pystr;
  s_backup_store_sha256 : pystr;
  s_store_sha256 : pystr;
  s_size : Z;
  s_versions : value;
  s_inventory : value;
  s_seed_sha256 : pystr;
  s_frontier_sha256 : pystr;
  s_converter_digest : pystr;
  s_unknown_mandatory_count : Z;
}.

(** The three [..._verified] fields are [True] in every manifest the code constructs. *)
Definition shadow_dict (m : shadow_manifest) : value :=
  sdict [("profile"%string, VStr SHADOW_PROFILE); ("planDigest"%string, VStr (s_plan_digest m));
         ("sourceDigest"%string, VStr (s_source_digest m));
         ("sourceGeneration"%string, VStr (s_source_generation m));
         ("targetGeneration"%string, VStr (s_target_generation m));
         ("sourceStoreSha256"%string, VStr (s_source_store_sha256 m));
         ("backupStoreSha256"%string, VStr (s_backup_store_sha256 m));
         ("storeSha256"%string, VStr (s_store_sha256 m)); ("size"%string, VInt (s_size m));
         ("versions"%string, s_versions m); ("inventory"%string, s_inventory m);
         ("seedSha256"%string, VStr (s_seed_sha256 m)); ("frontierSha256"%string, VStr (s_frontier_sha256 m));
         ("converterDigest"%string, VStr (s_converter_digest m));
         ("unknownMandatoryCount"%string, VInt (s_unknown_mandatory_count m));
         ("logicalVerified"%string, VBool true); ("schemaVerified"%string, VBool true);
         ("hashVerified"%string, VBool true)].

Definition target_versions (p : migration_plan) : result value :=
  wire ← sitem (p_versions p) "wire"; suite ← sitem (p_versions p) "suite";
  sdk ← sitem (p_versions p) "sdk"; ui ← sitem (p_versions p) "ui";
  Ok (sdict [("wire"%string, wire); ("suite"%string, suite); ("schema"%string, VStr (p_target_schema_id p));
             ("store"%string, VInt (p_target_store_version p)); ("sdk"%string, sdk); ("ui"%string, ui)]).

(** [_expected_signed_rows]: one row, and whether it counts as an unknown mandatory one. *)
Definition convert_signed (r : row_t) : result (row_t * Z) :=
  match r with
  | [object_id; codec; mandatory; signed_bytes; applied; ack_state; resigned] =>
      if bool_decide (codec ∈ CText <$> SUPPORTED_CODECS)
      then Ok ([object_id; codec; mandatory; signed_bytes; applied; ack_state; resigned;
                CText (str "PRESERVED")], 0)
      else if bool_decide (mandatory = CInt 1)
      then Ok ([object_id; codec; mandatory; signed_bytes; CInt 0; CText (str "BLOCKED"); CInt 0;
                CText (str "UPGRADE_REQUIRED")], 1)
      else Ok ([object_id; codec; mandatory; signed_bytes; CInt 0; CText (str "OPAQUE"); CInt 0;
                CText (str "OPAQUE_OPTIONAL")], 0)
  | _ => Err ValueError
  end.

Definition ledger_columns : list string := ["operation_id"; "state"; "payload_hash"; "outcome"]%string.
Definition outbox_columns : list string := ["operation_id"; "envelope"; "state"]%string.
Definition draft_columns : list string := ["draft_id"; "document_id"; "payload"; "applied"]%string.
Definition signed_columns : list string :=
  ["object_id"; "codec"; "mandatory"; "signed_bytes"; "applied"; "ack_state"; "resigned"]%string.
(** The three tables copied as they are. *)
Definition COPIED : list (string * list string * string) :=
  [("operation_ledger", ledger_columns, "operation_id"); ("outbox", outbox_columns, "operation_id");
   ("drafts", draft_columns, "draft_id")]%string.

Definition expected_signed_rows (source : database) : result (list row_t * Z) :=
  rows ← rows_of source "signed_objects" signed_columns "object_id";
  out ← mapM convert_signed rows;
  Ok (out.*1, fold_right Z.add 0 out.*2).

Definition shadow_fields : list string :=
  ["profile"; "planDigest"; "sourceDigest"; "sourceGeneration"; "targetGeneration"; "sourceStoreSha256";
   "backupStoreSha256"; "storeSha256"; "size"; "versions"; "inventory"; "seedSha256"; "frontierSha256";
   "converterDigest"; "unknownMandatoryCount"; "logicalVerified"; "schemaVerified"; "hashVerified"]%string.

(** A non-empty string. *)
Definition name_field (code : string) (raw : value) (k : string) : result pystr :=
  s ← text_field code raw k; _ ← mneed (0 <? len s) code; Ok s.
Definition true_field (code : string) (raw : value) (k : string) : result unit :=
  v ← sitem raw k; mneed (is_true v) code.

Definition shadow_from_raw (raw : value) : result shadow_manifest :=
  let bad := "SHADOW_INVALID"%string in
  _ ← mneed (match raw with VDict d => str_keys shadow_fields d | _ => false end) bad;
  profile ← sitem raw "profile";
  _ ← mneed (py_eq profile (VStr SHADOW_PROFILE)) bad;
  plan_digest ← digest_field bad raw "planDigest";
  source_digest ← digest_field bad raw "sourceDigest";
  source_generation ← name_field bad raw "sourceGeneration";
  target_generation ← name_field bad raw "targetGeneration";
  source_store ← digest_field bad raw "sourceStoreSha256";
  backup_store ← digest_field bad raw "backupStoreSha256";
  store ← digest_field bad raw "storeSha256";
  seed ← digest_field bad raw "seedSha256";
  frontier ← digest_field bad raw "frontierSha256";
  converter ← digest_field bad raw "converterDigest";
  size ← size_field bad raw 1 "size";
  unknown ← size_field bad raw 0 "unknownMandatoryCount";
  versions ← sitem raw "versions"; inventory ← sitem raw "inventory";
  _ ← mneed (is_dict versions && is_dict inventory) bad;
  _ ← true_field bad raw "logicalVerified"; _ ← true_field bad raw "schemaVerified";
  _ ← true_field bad raw "hashVerified";
  Ok (ShadowManifest plan_digest source_digest source_generation target_generation source_store
        backup_store store size versions inventory seed frontier converter unknown).

(** Equality of the dataclass: field by field, dicts as Python compares them. *)
Definition same_manifest (a b : shadow_manifest) : bool :=
  bool_decide (s_plan_digest a = s_plan_digest b) && bool_decide (s_source_digest a = s_source_digest b)
  && bool_decide (s_source_generation a = s_source_generation b)
  && bool_decide (s_target_generation a = s_target_generation b)
  && bool_decide (s_source_store_sha256 a = s_source_store_sha256 b)
  && bool_decide (s_backup_store_sha256 a = s_backup_store_sha256 b)
  && bool_decide (s_store_sha256 a = s_store_sha256 b) && (s_size a =? s_size b)
  && py_eq (s_versions a) (s_versions b) && py_eq (s_inventory a) (s_inventory b)
  && bool_decide (s_seed_sha256 a = s_seed_sha256 b) && bool_decide (s_frontier_sha256 a = s_frontier_sha256 b)
  && bool_decide (s_converter_digest a = s_converter_digest b)
  && (s_unknown_mandatory_count a =? s_unknown_mandatory_count b).

(** A value bound to a statement's parameter. *)
Definition bind_value (v : value) : result cell :=
  match v with
  | VNone => Ok CNull
  | VInt z => Ok (CInt z)
  | VBool b => Ok (CInt (if b then 1 else 0))
  | VStr s => Ok (CText s)
  | VBytes b => Ok (CBlob b)
  | _ => Err sqlite_error
  end.

Definition metadata_columns : list string :=
  ["generation"; "source_generation"; "wire_version"; "suite_version"; "schema_id"; "store_version";
   "sdk_version"; "ui_version"; "source_digest"; "plan_digest"; "converter_digest"; "seed_sha256";
   "frontier_sha256"; "backup_store_sha256"]%string.

(** The row of [store_metadata], after [singleton]. *)
Definition metadata_row (p : migration_plan) (backup_sha : pystr) : result row_t :=
  wire ← sitem (p_versions p) "wire"; suite ← sitem (p_versions p) "suite";
  sdk ← sitem (p_versions p) "sdk"; ui ← sitem (p_versions p) "ui";
  wire ← bind_value wire; suite ← bind_value suite; sdk ← bind_value sdk; ui ← bind_value ui;
  Ok [CText (p_target_generation p); CText (p_source_generation p); wire; suite; CText TARGET_SCHEMA_ID;
      CInt TARGET_STORE_VERSION; sdk; ui; CText (p_source_digest p); CText (p_plan_digest p);
      CText (p_converter_digest p); CText (p_seed_sha256 p); CText (p_frontier_sha256 p); CText backup_sha].

(** The comparisons of [_validate_database] on the two open databases. *)
Definition same_table (source target : database) (t : string * list string * string) : result unit :=
  s ← rows_of source t.1.1 t.1.2 t.2; r ← rows_of target t.1.1 t.1.2 t.2;
  mneed (bool_decide (s = r)) "SHADOW_INVALID".

Definition validate_tables (p : migration_plan) (backup_sha : pystr) (source target : database)
    : result (value * Z) :=
  let bad := "SHADOW_INVALID"%string in
  _ ← mneed (db_sound target) bad;
  _ ← mneed (db_user_version target =? TARGET_STORE_VERSION) bad;
  _ ← mneed (bool_decide (schema_objects target = expected_target_schema)) bad;
  metadata ← singleton_of target "store_metadata" metadata_columns;
  expected ← metadata_row p backup_sha;
  _ ← mneed (bool_decide (metadata = [expected])) bad;
  _ ← iter (λ t _, same_table source target t) COPIED tt;
  '(signed, unknown) ← expected_signed_rows source;
  actual ← rows_of target "signed_objects" (signed_columns ++ ["migration_status"%string]) "object_id";
  _ ← mneed (bool_decide (actual = signed)) bad;
  source_seed ← singleton_of source "migration_seed" ["seed_bytes"; "source_frontier"]%string;
  target_seed ← singleton_of target "migration_seed"
                  ["seed_bytes"; "source_frontier"; "converter_digest"; "source_digest"]%string;
  _ ← mneed (match source_seed, target_seed with
             | [s], [t] => bool_decide (t = s ++ [CText (p_converter_digest p); CText (p_source_digest p)])
             | _, _ => false end) bad;
  inventory ← inventory_of target;
  _ ← mneed (py_eq inventory (p_inventory p)) bad;
  Ok (inventory, unknown).

Section Shadow.
Context `{Hash} `{Sqlite}.

(** [_validate_database]: the source is the backup's file. *)
Definition validate_database (p : migration_plan) (backup : backup_manifest) (w : world) (d : directory)
    : result (value * Z) :=
  b ← regular_file (dir_file w_backup STORE w);
  t ← regular_file (d !! STORE);
  _ ← mneed (quiescent d) "SHADOW_INVALID";
  catch_sqlite (MigrationError "SHADOW_INVALID")
    (target ← database_of t; source ← database_of b;
     validate_tables p (b_store_sha256 backup) source target).

Definition expected_manifest (p : migration_plan) (backup : backup_manifest) (target : bytes) (inventory : value)
    (unknown : Z) : result shadow_manifest :=
  versions ← target_versions p;
  Ok (ShadowManifest (p_plan_digest p) (p_source_digest p) (p_source_generation p) (p_target_generation p)
        (p_source_store_sha256 p) (b_store_sha256 backup) (hexdigest target) (len target) versions inventory
        (p_seed_sha256 p) (p_frontier_sha256 p) (p_converter_digest p) unknown).

Definition verify_shadow_directory (p : migration_plan) (backup : backup_manifest) (w : world)
    (d : option directory) : result shadow_manifest :=
  let bad := "SHADOW_INVALID"%string in
  catch_invalid bad
    (d ← of_option (MigrationError "UNSAFE_PATH") d;
     _ ← mneed (dir_entries [MANIFEST; STORE] d) bad;
     raw ← read_strict_json (d !! MANIFEST);
     m ← shadow_from_raw raw;
     '(inventory, unknown) ← validate_database p backup w d;
     t ← regular_file (d !! STORE);
     expected ← expected_manifest p backup t inventory unknown;
     _ ← mneed (same_manifest m expected) bad;
     Ok m).

Definition verify_shadow (p : migration_plan) (w : world) (location : option directory) : result shadow_manifest :=
  catch_migration "SHADOW_INVALID"
    (backup ← require_verified_backup p w; verify_shadow_directory p backup w location).

(** The statements of the transaction of [_build_database], by the observer's stages. *)
Definition convert_schema : database := create_tables TARGET_DDL empty_database.

Definition insert_rows (table : string) (rows : list row_t) (d : database) : result database :=
  iter (λ r d, insert_into table d r) rows d.

Definition copy_table (source target : database) (t : string * list string * string) : result database :=
  rows ← rows_of source t.1.1 t.1.2 t.2; insert_rows t.1.1 rows target.

Definition convert_rows (p : migration_plan) (backup_sha : pystr) (source : database) : result database :=
  meta ← metadata_row p backup_sha;
  d ← insert_into "store_metadata" convert_schema (CInt 1 :: meta);
  d ← iter (λ t d, copy_table source d t) COPIED d;
  '(signed, _) ← expected_signed_rows source;
  d ← insert_rows "signed_objects" signed d;
  seeds ← singleton_of source "migration_seed" ["seed_bytes"; "source_frontier"]%string;
  match seeds with
  | [] => Err (MigrationError "BACKUP_INVALID")
  | seed :: _ =>
      d ← insert_into "migration_seed" d
            (CInt 1 :: seed ++ [CText (p_converter_digest p); CText (p_source_digest p)]);
      Ok (set_user_version TARGET_STORE_VERSION d)
  end.

Definition put_shadow_file (name : pystr) (f : option file) : world → world :=
  put_dir_file w_shadow_pending set_shadow_pending name f.
Definition JOURNAL_SIDE : pystr := STORE ++ str "-journal".

(** [_build_database]: the transaction is durable with its COMMIT, which writes the rollback
    journal, the database and removes the journal.  An exception rolls it back, leaving the
    file empty. *)
Definition build_database (e : env) (p : migration_plan) (backup : backup_manifest) : crash world unit :=
  source ← reads (λ w, b ← regular_file (dir_file w_backup STORE w); Ok b);
  _ ← write (put_shadow_file STORE (Some (FBytes [])));
  _ ← observe e "shadow.after_schema";
  target ← lift (source ← database_of source; convert_rows p (b_store_sha256 backup) source);
  _ ← observe e "shadow.after_rows";
  _ ← write (put_shadow_file JOURNAL_SIDE (Some (FBytes [])));
  _ ← write (put_shadow_file STORE (Some (FBytes (sqlite_image target))));
  _ ← write (put_shadow_file JOURNAL_SIDE None);
  observe e "shadow.after_fsync".

Definition rename_shadow (w : world) : world := set_shadow_pending None (set_shadow (w_shadow_pending w) w).

Definition make_shadow (e : env) (p : migration_plan) (backup : backup_manifest) : crash world unit :=
  _ ← build_database e p backup;
  m ← reads (λ w, d ← of_option (MigrationError "UNSAFE_PATH") (w_shadow_pending w);
                  '(inventory, unknown) ← validate_database p backup w d;
                  t ← regular_file (d !! STORE);
                  expected_manifest p backup t inventory unknown);
  _ ← write_json_exclusive (dir_file w_shadow_pending MANIFEST) (put_shadow_file MANIFEST) (shadow_dict m);
  _ ← reads (λ w, verify_shadow_directory p backup w (w_shadow_pending w));
  write rename_shadow.

Definition build_shadow (e : env) (p : migration_plan) : crash world shadow_manifest :=
  backup ← reads (require_verified_backup p);
  _ ← initialize p;
  _ ← advance_to p (str "BACKUP_VERIFIED");
  existing ← reads (λ w, Ok (w_shadow w));
  pending ← reads (λ w, Ok (w_shadow_pending w));
  _ ← remove_owned_tree set_shadow_pending pending;
  match existing with
  | Some _ =>
      m ← reads (λ w, verify_shadow_directory p backup w (w_shadow w));
      _ ← advance_to p (str "SHADOW_VERIFIED");
      mret m
  | None =>
      _ ← write (set_shadow_pending (Some ∅));
      _ ← make_shadow e p backup;
      _ ← advance_to p (str "SHADOW_BUILT");
      m ← reads (λ w, verify_shadow_directory p backup w (w_shadow w));
      _ ← observe e "verify.after_shadow";
      _ ← advance_to p (str "SHADOW_VERIFIED");
      mret m
  end.
End Shadow.
