(* ===== verification/MigrationEngine.v ===== *)
(** * Store migration: the engine (product/wp14/par_migration/engine.py)

    [run_migration] takes the store from the source generation to the target one: backup,
    shadow, publication by renaming the shadow into place, and the switch of the active
    pointer.  Resuming is running again.  [busy] is whether another process holds the lock
    of the store root. *)

From S2P Require Import Prelude Bytes Value Json Hash Crash Sqlite Migration MigrationBackup MigrationShadow.
Local Open Scope Z_scope.

Record migration_result := MigrationResult {
  r_plan_digest : pystr;
  r_source_generation : pystr;
  r_target_generation : pystr;
  r_active_generation : pystr;
  r_target_store_sha256 : pystr;
  r_activated : bool;
  r_old_generation_retained : bool;
}.

(** [_validate_supported_versions] *)
Definition validate_supported_versions (l : list value) : result (list Z) :=
  _ ← mneed (negb (bool_decide (length l = 0%nat)) && forallb natural l) "SUPPORTED_VERSIONS_INVALID";
  mapM (λ v, match v with VInt z => Ok z | _ => Err (MigrationError "SUPPORTED_VERSIONS_INVALID") end) l.

Section Engine.
Context `{Hash} `{Sqlite}.

Definition require_source_active (p : migration_plan) (w : world) : result active_pointer :=
  pointer ← read_active_pointer w;
  if bool_decide (ap_generation pointer = p_source_generation p) then
    _ ← mneed ((ap_store_version pointer =? SOURCE_STORE_VERSION)
               && bool_decide (ap_store_sha256 pointer = p_source_store_sha256 p)) "SOURCE_DIGEST_MISMATCH";
    ob ← inspect_generation w (p_source_generation p);
    _ ← mneed (observed_as_planned p ob) "SOURCE_DIGEST_MISMATCH";
    Ok pointer
  else if bool_decide (ap_generation pointer = p_target_generation p) then Ok pointer
  else Err (MigrationError "ACTIVE_GENERATION_CHANGED").

Definition target_root (p : migration_plan) (w : world) : option directory :=
  w_generations w !! p_target_generation p.

Definition verify_published (p : migration_plan) (w : world) : result shadow_manifest :=
  catch_migration "PUBLISHED_INVALID" (verify_shadow p w (target_root p w)).

Definition require_target_pointer (p : migration_plan) (m : shadow_manifest) (w : world)
    : result active_pointer :=
  pointer ← read_active_pointer w;
  _ ← mneed (bool_decide (ap_generation pointer = p_target_generation p)
             && (ap_store_version pointer =? TARGET_STORE_VERSION)
             && bool_decide (ap_store_sha256 pointer = s_store_sha256 m)) "ACTIVE_POINTER_MISMATCH";
  Ok pointer.

Definition migration_result_of (p : migration_plan) (m : shadow_manifest) (w : world) : migration_result :=
  MigrationResult (p_plan_digest p) (p_source_generation p) (p_target_generation p)
    (p_target_generation p) (s_store_sha256 m) true
    (negb (bool_decide (w_generations w !! p_source_generation p = None))).

Definition target_pointer (p : migration_plan) (m : shadow_manifest) : active_pointer :=
  ActivePointer (p_target_generation p) (s_store_sha256 m) TARGET_STORE_VERSION.

Definition replace_active (w : world) : world := set_pending None (set_active (w_pending w) w).

(** [_remove_owned_pointer_temp], then [_switch_pointer] *)
Definition remove_pending : crash world unit :=
  f ← reads (λ w, Ok (w_pending w));
  match f with Some _ => write (set_pending None) | None => mret tt end.

Definition switch_pointer (e : env) (p : migration_plan) (m : shadow_manifest) : crash world unit :=
  _ ← remove_pending;
  _ ← write_json_exclusive w_pending set_pending (pointer_dict (target_pointer p m));
  _ ← observe e "switch.before_replace";
  _ ← write replace_active;
  observe e "switch.after_replace".

(** The end of the three branches that find or make the target active. *)
Definition finish (p : migration_plan) (m : shadow_manifest) : crash world migration_result :=
  _ ← reads (require_target_pointer p m);
  _ ← advance_to p (str "ACTIVATED");
  reads (λ w, Ok (migration_result_of p m w)).

Definition publish (p : migration_plan) (w : world) : world :=
  match w_shadow w with
  | Some d => set_shadow None (set_generations (<[p_target_generation p := d]> (w_generations w)) w)
  | None => w
  end.

(** The target generation: found, or published from the shadow. *)
Definition publish_target (e : env) (p : migration_plan) : crash world shadow_manifest :=
  existing ← reads (λ w, Ok (target_root p w));
  match existing with
  | Some _ =>
      m ← reads (verify_published p);
      _ ← advance_to p (str "PUBLISHED");
      mret m
  | None =>
      _ ← build_shadow e p;
      _ ← reads (require_source_active p);
      _ ← lift (mneed (same_device e) "CROSS_DEVICE_PUBLISH");
      _ ← observe e "publish.before_rename";
      _ ← write (publish p);
      _ ← observe e "publish.after_rename";
      m ← reads (verify_published p);
      _ ← advance_to p (str "PUBLISHED");
      mret m
  end.

Definition run_migration_locked (e : env) (p : migration_plan) : crash world migration_result :=
  active ← reads read_active_pointer;
  if bool_decide (ap_generation active = p_target_generation p) then
    m ← reads (verify_published p);
    finish p m
  else
    _ ← lift (mneed (bool_decide (ap_generation active = p_source_generation p)) "ACTIVE_GENERATION_CHANGED");
    _ ← reads (require_source_active p);
    _ ← create_verified_backup e p;
    m ← publish_target e p;
    active ← reads (require_source_active p);
    if bool_decide (ap_generation active = p_target_generation p) then finish p m
    else
      _ ← switch_pointer e p m;
      m ← reads (verify_published p);
      finish p m.

Definition run_migration (busy : bool) (e : env) (p : migration_plan) : crash world migration_result :=
  _ ← lift (mneed (negb busy) "MIGRATION_BUSY");
  run_migration_locked e p.

(** ** Opening the active store *)

Definition generation_directory (w : world) (generation : pystr) : result directory :=
  of_option (MigrationError "UNSAFE_PATH") (w_generations w !! generation).

(** The metadata row of the active store. *)
Definition metadata_is (db : database) (generation schema_id : pystr) (version : Z) : result unit :=
  rows ← singleton_of db "store_metadata" ["generation"; "schema_id"; "store_version"]%string;
  mneed (bool_decide (rows = [[CText generation; CText schema_id; CInt version]])) "ACTIVE_SCHEMA_INVALID".

(** [dict.get(k) == v] *)
Definition entry_is (v : value) (k : string) (x : value) : bool :=
  match v with
  | VDict d => match dict_sget d (str k) with Some y => py_eq y x | None => false end
  | _ => false
  end.

Definition active_manifest_ok (pointer : active_pointer) (d : directory) : result unit :=
  raw ← read_strict_json (d !! MANIFEST);
  m ← shadow_from_raw raw;
  mneed (bool_decide (s_target_generation m = ap_generation pointer)
         && bool_decide (s_store_sha256 m = ap_store_sha256 pointer)
         && entry_is (s_versions m) "schema" (VStr TARGET_SCHEMA_ID)
         && entry_is (s_versions m) "store" (VInt TARGET_STORE_VERSION)) "ACTIVE_SCHEMA_INVALID".

Definition open_active_readonly (w : world) (supported : list value) : result database :=
  supported ← validate_supported_versions supported;
  pointer ← read_active_pointer w;
  _ ← mneed ((ap_store_version pointer =? SOURCE_STORE_VERSION)
             || (ap_store_version pointer =? TARGET_STORE_VERSION)) "UPGRADE_REQUIRED";
  _ ← mneed (bool_decide (ap_store_version pointer ∈ supported)) "DOWNGRADE_REFUSED";
  d ← generation_directory w (ap_generation pointer);
  b ← regular_file (d !! STORE);
  _ ← mneed (bool_decide (hexdigest b = ap_store_sha256 pointer)) "ACTIVE_POINTER_MISMATCH";
  _ ← mneed (quiescent d) "ACTIVE_STORE_NOT_QUIESCENT";
  db ← database_of b;
  _ ← mneed (db_sound db) "ACTIVE_STORE_CORRUPT";
  _ ← mneed (db_user_version db =? ap_store_version pointer) "ACTIVE_POINTER_MISMATCH";
  if ap_store_version pointer =? SOURCE_STORE_VERSION then
    _ ← mneed (bool_decide (schema_objects db = expected_source_schema)) "ACTIVE_SCHEMA_INVALID";
    _ ← metadata_is db (ap_generation pointer) SOURCE_SCHEMA_ID SOURCE_STORE_VERSION;
    Ok db
  else
    _ ← mneed (dir_entries [MANIFEST; STORE] d) "ACTIVE_SCHEMA_INVALID";
    _ ← mneed (bool_decide (schema_objects db = expected_target_schema)) "ACTIVE_SCHEMA_INVALID";
    _ ← metadata_is db (ap_generation pointer) TARGET_SCHEMA_ID TARGET_STORE_VERSION;
    _ ← active_manifest_ok pointer d;
    Ok db.
End Engine.
