(* ===== verification/MigrationSample.v ===== *)
(** * A store to migrate, for the witnesses

    One operation with its outbox entry, a draft, and three signed objects: one of a supported
    codec, an unknown mandatory one and an unknown optional one. *)

From S2P Require Import Prelude Bytes Value Json Hash Sodium Toy Crash Sqlite Migration MigrationBackup MigrationShadow MigrationEngine.
Local Open Scope Z_scope.

Definition text (s : string) : cell := CText (str s).
Definition sample_generation : pystr := str "generation-1".

Definition sample_source : database :=
  Database true 1 expected_source_schema (list_to_map
    [("store_metadata", [[CInt 1; CText sample_generation; text "draft-2"; text "local-synthetic";
                          CText SOURCE_SCHEMA_ID; CInt 1; text "0056"; text "0053"]]);
     ("operation_ledger", [[text "op-2"; text "done"; text "h2"; text "ok"];
                           [text "op-1"; text "queued"; text "h1"; text "none"]]);
     ("outbox", [[text "op-1"; CBlob [x0a; x0b]; text "pending"]]);
     ("drafts", [[text "draft-1"; text "doc-1"; CBlob [x01]; CInt 0]]);
     ("signed_objects",
       [[text "object-3"; text "par.future.v9"; CInt 1; CBlob [x33]; CInt 1; text "ACKED"; CInt 0];
        [text "object-1"; text "par.change.v1"; CInt 1; CBlob [x31]; CInt 1; text "ACKED"; CInt 0];
        [text "object-2"; text "par.note.v7"; CInt 0; CBlob [x32]; CInt 0; text "NONE"; CInt 0]]);
     ("migration_seed", [[CInt 1; CBlob [x5e]; CBlob [xf0]]])]%string).

(** SQLite on the two databases of the sample; [target] is the converted one. *)
Definition toy_open (target : database) (b : bytes) : option database :=
  match b with
  | [] => Some empty_database
  | [x01] => Some sample_source
  | [x02] => Some target
  | _ => None
  end.
Definition toy_image (target d : database) : bytes :=
  if decide (d = sample_source) then [x01] else if decide (d = target) then [x02] else [x00].

Lemma toy_open_image target d :
  d = sample_source ∨ d = target → toy_open target (toy_image target d) = Some d.
Proof.
  unfold toy_image. intros [-> | ->]; [by rewrite decide_True|].
  destruct (decide _) as [->|]; [done|]. by rewrite decide_True.
Qed.

Definition toy_sqlite (target : database) : Sqlite := {|
  sqlite_open := toy_open target;
  sqlite_image := toy_image target;
  sqlite_limit d := d = sample_source ∨ d = target;
  sqlite_open_image := toy_open_image target;
  sqlite_open_empty := eq_refl;
|}.

Definition sample_directory : directory := {[STORE := FBytes [x01]]}.
Definition sample_pointer : active_pointer := ActivePointer sample_generation (hexdigest [x01]) 1.
Definition sample_world : world :=
  World (Some (FJson (pointer_dict sample_pointer))) None {[sample_generation := sample_directory]}
    None None None None None None.

Definition sample_roots : path * path := ([str "srv"; str "store"], [str "srv"; str "work"]).
Definition ok_value {A} (d : A) (r : result A) : A := match r with Ok a => a | Err _ => d end.
Definition no_plan : migration_plan :=
  MigrationPlan [] [] [] [] [] [] 0 VNone VNone [] [] [] 0 [] 0 0 [] [] [].
Definition sample_plan : migration_plan :=
  Eval vm_compute in ok_value no_plan
    (@plan_migration _ (toy_sqlite empty_database) sample_world sample_roots.1 sample_roots.2
       (VStr (str "2026-01-01")) (Ok (VInt 5000000))).
Definition sample_target : database :=
  Eval vm_compute in ok_value empty_database
    (convert_rows sample_plan (hexdigest [x01]) sample_source).

#[export] Instance sample_sqlite : Sqlite := toy_sqlite sample_target.

Definition quiet : env := Env (λ _, Ok tt) true.

Example sample_plan_ok :
  plan_migration sample_world sample_roots.1 sample_roots.2 (VStr (str "2026-01-01")) (Ok (VInt 5000000))
    = Ok sample_plan.
Proof. vm_compute. reflexivity. Qed.

Definition sample_final : world := final (run_migration false quiet sample_plan) sample_world.

Example sample_activated :
  w_active sample_final = Some (FJson (pointer_dict
    (ActivePointer (p_target_generation sample_plan) (hexdigest [x02]) TARGET_STORE_VERSION))).
Proof. vm_compute. reflexivity. Qed.
