(* ===== verification/MigrationSafety.v ===== *)
(** * Store migration: what a crash can leave (safety of the active pointer) *)

From S2P Require Import Prelude Bytes Value Json Hash Sodium Toy Crash Sqlite Migration MigrationBackup MigrationShadow MigrationEngine MigrationSample.
Local Open Scope Z_scope.

(** The part of the world that readers of the store see. *)
Definition store_view (w : world) : option file * gmap pystr directory := (w_active w, w_generations w).
(** The same with the backup, on which the verification of a generation also depends. *)
Definition verified_view (w : world) : option file * gmap pystr directory * option directory :=
  (w_active w, w_generations w, w_backup w).

Section Frames.
Context `{Hash} `{Sqlite} {X : Type} (f : world → X).

Lemma write_json_exclusive_preserves get put v :
  (∀ x w, f (put x w) = f w) → preserves f (write_json_exclusive get put v).
Proof. intros Hp. unfold write_json_exclusive. preserves. Qed.

Lemma remove_owned_tree_preserves put d :
  (∀ x w, f (put x w) = f w) → preserves f (remove_owned_tree put d).
Proof.
  intros Hp. destruct d as [d|]; cbn; [|preserves].
  generalize (map_to_list d).*1 as l. intros l. revert d.
  induction l as [|n l IH]; intros d; cbn; preserves.
Qed.

Lemma initialize_preserves p :
  (∀ x w, f (set_plan x w) = f w) → (∀ x w, f (set_journal x w) = f w) → preserves f (initialize p).
Proof.
  intros Hp Hj. unfold initialize. preserves; by apply write_json_exclusive_preserves.
Qed.

Lemma advance_preserves p target : (∀ x w, f (set_journal x w) = f w) → preserves f (advance p target).
Proof. intros Hj. unfold advance, write_json_atomic. preserves. Qed.

Lemma advance_to_preserves p target : (∀ x w, f (set_journal x w) = f w) → preserves f (advance_to p target).
Proof.
  intros Hj. unfold advance_to. preserves.
  match goal with |- preserves f (advance_loop ?n _ _ _) => generalize n end. intros n. revert a0.
  induction n as [|n IH]; intros j; cbn; preserves. by apply advance_preserves.
Qed.

Lemma put_dir_file_preserves get put name x w :
  (∀ d w, f (put d w) = f w) → f (put_dir_file get put name x w) = f w.
Proof. intros Hp. apply Hp. Qed.

Lemma create_verified_backup_preserves e p :
  (∀ x w, f (set_plan x w) = f w) → (∀ x w, f (set_journal x w) = f w) →
  (∀ x w, f (set_backup_pending x w) = f w) → (∀ x w, f (set_backup x w) = f w) →
  preserves f (create_verified_backup e p).
Proof.
  intros Hp Hj Hbp Hb. unfold create_verified_backup, make_backup, copy_file_fsync, observe.
  preserves; try (apply advance_preserves || apply initialize_preserves || apply remove_owned_tree_preserves
                  || apply write_json_exclusive_preserves; intros; try apply put_dir_file_preserves; done).
  all: apply preserves_write; intros s; unfold rename_backup.
  all: rewrite ?Hbp, ?Hb; try done; by apply put_dir_file_preserves.
Qed.

Lemma build_shadow_preserves e p :
  (∀ x w, f (set_plan x w) = f w) → (∀ x w, f (set_journal x w) = f w) →
  (∀ x w, f (set_shadow_pending x w) = f w) → (∀ x w, f (set_shadow x w) = f w) →
  preserves f (build_shadow e p).
Proof.
  intros Hp Hj Hbp Hb. unfold build_shadow, make_shadow, build_database, put_shadow_file, observe.
  preserves; try (apply advance_to_preserves || apply initialize_preserves || apply remove_owned_tree_preserves
                  || apply write_json_exclusive_preserves; intros; try apply put_dir_file_preserves; done).
  all: apply preserves_write; intros s; unfold rename_shadow.
  all: rewrite ?Hbp, ?Hb; try done; by apply put_dir_file_preserves.
Qed.
End Frames.

Section Safety.
Context `{Hash} `{Sqlite}.

(** The verification of a published generation depends on the view only. *)
Lemma verify_published_view p s t :
  verified_view t = verified_view s → verify_published p t = verify_published p s.
Proof.
  destruct s, t. unfold verified_view. cbn. intros [= -> -> ->]. reflexivity.
Qed.

(** The store is as [w] has it, up to generations that were added. *)
Definition kept (w t : world) : Prop :=
  w_active t = w_active w ∧ w_generations w ⊆ w_generations t.

Definition pointer_safe (p : migration_plan) (w t : world) : Prop :=
  w_generations w ⊆ w_generations t ∧
  (w_active t = w_active w ∨
   ∃ m, verify_published p t = Ok m ∧ w_active t = Some (FJson (pointer_dict (target_pointer p m)))).

Lemma kept_safe p w t : kept w t → pointer_safe p w t.
Proof. intros [? ?]. split; [done|by left]. Qed.

Lemma kept_view w s t : kept w s → store_view t = store_view s → kept w t.
Proof. unfold store_view, kept. intros [Ha Hg] [= E1 E2]. rewrite E1, E2. done. Qed.

Lemma verified_store s t : verified_view t = verified_view s → store_view t = store_view s.
Proof. unfold verified_view, store_view. intros [= E1 E2 E3]. congruence. Qed.

Lemma safe_view p w s t : pointer_safe p w s → verified_view t = verified_view s → pointer_safe p w t.
Proof.
  intros [Hg Ha] E. pose proof (verify_published_view p s t E) as Hv. unfold verified_view in E.
  injection E as E1 E2 E3.
  unfold pointer_safe. rewrite Hv, E1, E2. done.
Qed.

(** From a kept store, a computation that preserves the store's view keeps it. *)
Lemma wp_kept {A} (m : crash world A) p w s :
  preserves store_view m → kept w s → wp m (pointer_safe p w) (λ _ t, kept w t) s.
Proof.
  intros Hm Hk. eapply wp_mono; [apply Hm|..]; cbn; intros; [apply kept_safe|]; by eapply kept_view.
Qed.

Lemma wp_safe {A} (m : crash world A) p w s :
  preserves verified_view m → pointer_safe p w s →
  wp m (pointer_safe p w) (λ _ t, verified_view t = verified_view s ∧ pointer_safe p w t) s.
Proof.
  intros Hm Hk. eapply wp_mono; [apply Hm|..]; cbn; intros; [|split; [done|]]; by eapply safe_view.
Qed.

(** What holds between the publication and the switch. *)
Definition published (p : migration_plan) (w : world) (r : result shadow_manifest) (t : world) : Prop :=
  kept w t ∧ ∀ m, r = Ok m → verify_published p t = Ok m.

(** Verify, then record the stage. *)
Lemma wp_verified p w s stage :
  kept w s →
  wp (m ← reads (verify_published p); _ ← advance_to p stage; mret m) (pointer_safe p w) (published p w) s.
Proof.
  intros Hk. wp_step. wp_step. destruct (verify_published p s) as [m|e] eqn:Hv; cbn; [|by split].
  wp_step. eapply wp_mono; [apply wp_safe; [by apply advance_to_preserves|by apply kept_safe]|done|].
  intros r t [E Hs]. assert (kept w t) as Ht by (eapply kept_view; [done|by apply verified_store]).
  destruct r as [a|e]; cbn; [|by split]. apply wp_ret. split; [done|]. intros m' [= <-].
  by rewrite (verify_published_view p s t E).
Qed.

Lemma wp_publish e p w s :
  kept w s → wp (publish_target e p) (pointer_safe p w) (published p w) s.
Proof.
  intros Hk. unfold publish_target. wp_step. wp_step. cbn.
  destruct (target_root p s) as [d|] eqn:Ht; [by apply wp_verified|].
  wp_step. eapply wp_mono.
  { apply (wp_safe _ p w); [apply build_shadow_preserves; by intros|by apply kept_safe]. }
  { done. }
  intros [m|er] t [E Hs]; cbn; assert (kept w t) as Hkt by (eapply kept_view; [done|by apply verified_store]);
    [|by split].
  wp_step. wp_step. destruct (require_source_active p t); cbn; [|by split].
  wp_step. wp_step. destruct (same_device e); cbn; [|by split].
  wp_step. unfold observe. wp_step. destruct (observer e "publish.before_rename"); cbn; [|by split].
  wp_step. apply wp_write; [by apply kept_safe|]. cbn.
  assert (kept w (publish p t)) as Hp.
  { unfold verified_view in E. injection E as E1 E2 E3. unfold publish. destruct (w_shadow t) as [d|]; [|done].
    destruct Hkt as [Ha Hg]. split; [done|]. cbn.
    etrans; [exact Hg|]. apply insert_subseteq. rewrite E2. exact Ht. }
  wp_step. wp_step. destruct (observer e "publish.after_rename"); cbn; [|by split].
  by apply wp_verified.
Qed.

Lemma wp_finish p m w s :
  pointer_safe p w s → wp (finish p m) (pointer_safe p w) (λ _, pointer_safe p w) s.
Proof.
  intros Hs. eapply wp_mono; [apply wp_safe; [|exact Hs]|done|by intros ?? [_ ?]].
  unfold finish. preserves. by apply advance_to_preserves.
Qed.

Lemma wp_switch e p m w s :
  kept w s → verify_published p s = Ok m →
  wp (switch_pointer e p m) (pointer_safe p w) (λ _, pointer_safe p w) s.
Proof.
  intros Hk Hv. unfold switch_pointer. wp_step.
  assert (preserves verified_view remove_pending) as Hr by (unfold remove_pending; preserves).
  eapply wp_mono; [apply (wp_safe _ p w); [exact Hr|by apply kept_safe]|done|].
  intros [[]|er] t [E Hs]; cbn; [|done]. unfold write_json_exclusive.
  wp_step. wp_step. wp_step. cbn. destruct (w_pending t); [by apply wp_raise|].
  assert (kept w t) as Hkt by (eapply kept_view; [done|by apply verified_store]).
  wp_step. apply wp_write; [done|]. cbn. apply wp_write; [by apply kept_safe|]. cbn.
  wp_step. unfold observe. wp_step. destruct (observer e "switch.before_replace"); cbn; [|by apply kept_safe].
  wp_step. apply wp_write; [by apply kept_safe|]. cbn.
  assert (pointer_safe p w (replace_active (set_pending (Some (FJson (pointer_dict (target_pointer p m))))
            (set_pending (Some (FBytes [])) t)))) as Hf.
  { split; [apply Hkt|]. right. exists m. split; [|done]. rewrite <-Hv, <-(verify_published_view p s t E).
    done. }
  wp_step. by destruct (observer e "switch.after_replace").
Qed.

(** C3. No crash of a migration can leave the store without a sound active generation.  Whatever
    the store, the work directory and the exceptions of the observer, in every durable state a
    run passes through all generations of the store are kept unchanged, and the active pointer is
    either the one the run found or names the target generation, published and verified against
    the verified backup, with the digest of its database. *)
Theorem migration_pointer_safe busy e p w t :
  t ∈ visited (run_migration busy e p) w → pointer_safe p w t.
Proof.
  revert t. apply (wp_visited _ _ (λ _, pointer_safe p w)); [|done].
  assert (kept w w) as Hk by by split.
  unfold run_migration, run_migration_locked. wp_step. wp_step. destruct busy; cbn; [by apply kept_safe|].
  wp_step. wp_step. destruct (read_active_pointer w) as [active|]; cbn; [|by apply kept_safe].
  case_bool_decide.
  { wp_step. wp_step. destruct (verify_published p w); cbn; [apply wp_finish|]; by apply kept_safe. }
  wp_step. wp_step. case_bool_decide; cbn; [|by apply kept_safe].
  wp_step. wp_step. destruct (require_source_active p w); cbn; [|by apply kept_safe].
  wp_step. eapply wp_mono; [apply wp_kept; [apply create_verified_backup_preserves; by intros|exact Hk]|done|].
  intros [b|er] s Hs; cbn; [|by apply kept_safe].
  wp_step. eapply wp_mono; [by apply wp_publish|done|].
  intros [m|er] u [Hu Hm]; cbn; [|by apply kept_safe].
  wp_step. wp_step. destruct (require_source_active p u); cbn; [|by apply kept_safe].
  case_bool_decide; [by apply wp_finish, kept_safe|].
  wp_step. eapply wp_mono; [apply wp_switch; [done|by apply Hm]|done|].
  intros [[]|er] v Hv; cbn; [|done].
  wp_step. wp_step. destruct (verify_published p v) as [m'|]; cbn; [by apply wp_finish|done].
Qed.
End Safety.

Lemma migration_pointer_safe_witness :
  pointer_safe sample_plan sample_world sample_final ∧ w_active sample_final ≠ w_active sample_world.
Proof.
  split; [|by rewrite sample_activated].
  exact (migration_pointer_safe false quiet sample_plan sample_world sample_final (final_visited _ _)).
Defined.
