(* ===== verification/MigrationConvert.v ===== *)
(** * Store migration: the conversion is total on a sound source and passes its verification *)

From S2P Require Import Prelude Bytes Value Json Hash Crash Sqlite Migration MigrationBackup MigrationShadow.
Local Open Scope Z_scope.

(** ** Ordered rows *)

Lemma str_leb_total a b : str_leb a b = false → str_leb b a = true.
Proof.
  revert b. induction a as [|x a IH]; intros [|y b]; cbn; try done.
  destruct (x <? y) eqn:E1, (y <? x) eqn:E2; try done. apply IH.
Qed.

Lemma cell_leb_total a b : cell_leb a b = false → cell_leb b a = true.
Proof. destruct a, b; cbn; try done; [intros; zb; apply Z.leb_le; lia|apply str_leb_total..]. Qed.

Definition ordered (i : nat) : list row_t → Prop :=
  Sorted (λ a b, cell_leb (cell_at i a) (cell_at i b) = true).

Lemma order_insert_perm i x l : order_insert i x l ≡ₚ x :: l.
Proof.
  induction l as [|y l IH]; cbn; [done|]. destruct (cell_leb _ _); [done|]. rewrite IH. apply perm_swap.
Qed.
Lemma order_by_perm i l : order_by i l ≡ₚ l.
Proof. induction l as [|x l IH]; cbn; [done|]. by rewrite order_insert_perm, IH. Qed.

Lemma order_insert_ordered i x l : ordered i l → ordered i (order_insert i x l).
Proof.
  induction 1 as [|y l Hs IH Hd]; cbn; [by repeat constructor|].
  destruct (cell_leb _ _) eqn:E; [by repeat constructor|]. constructor; [done|].
  apply cell_leb_total in E. destruct Hd as [|z l Hz]; cbn; [by constructor|].
  by destruct (cell_leb (cell_at i x) _); constructor.
Qed.
Lemma order_by_ordered i l : ordered i (order_by i l).
Proof. induction l as [|x l IH]; cbn; [constructor|by apply order_insert_ordered]. Qed.

Lemma order_by_id i l : ordered i l → order_by i l = l.
Proof.
  induction 1 as [|x l Hs IH Hd]; cbn; [done|]. fold (order_by i l). rewrite IH.
  destruct Hd as [|z l Hz]; cbn; [done|]. by rewrite Hz.
Qed.

Lemma ordered_map (f : row_t → row_t) i l :
  (∀ r, r ∈ l → cell_at i (f r) = cell_at i r) → ordered i l → ordered i (f <$> l).
Proof.
  intros Hf. induction 1 as [|x l Hs IH Hd]; cbn; [constructor|].
  constructor; [apply IH; intros; apply Hf; by right|].
  destruct Hd as [|z l Hz]; cbn; constructor. rewrite !Hf by set_solver. done.
Qed.

(** ** Tables after insertions *)

Lemma table_rows_set t u rows d :
  table_rows (set_rows t rows d) u = if bool_decide (t = u) then rows else table_rows d u.
Proof.
  unfold table_rows, set_rows. cbn. case_bool_decide as E; [subst; by rewrite lookup_insert_eq|].
  by rewrite lookup_insert_ne.
Qed.

(** A row fits its table whatever rows the table holds. *)
Definition fits (d : database) (t : string) (cs : list column) (r : row_t) : Prop :=
  ∀ rows, row_ok (set_rows t rows d) cs r = true.

Definition key_first (cs : list column) : bool :=
  match cs with [] => false | _ :: cs' => forallb (λ c, negb (col_primary c)) cs' end.

Lemma keys_free_first cs rows r :
  key_first cs = true → cell_at 0 r ∉ cell_at 0 <$> rows → keys_free cs rows r = true.
Proof.
  intros Hk Hf. destruct cs as [|c cs]; [done|]. destruct r as [|x r]; [done|].
  unfold keys_free. cbn. apply andb_true_iff. split.
  - unfold primary_ok. cbn. apply orb_true_iff. right. apply forallb_forall. intros y Hy.
    apply negb_true_iff, bool_decide_eq_false. intros E. apply Hf. cbn. rewrite <-E.
    apply list_elem_of_fmap_2. by apply list_elem_of_In.
  - apply forallb_forall. intros [i [c' x']] Hin. apply list_elem_of_In, list_elem_of_lookup in Hin as [j Hj].
    rewrite list_lookup_imap in Hj. cbn in Hk.
    destruct (zip cs r !! j) as [[c2 x2]|] eqn:Hz; [|done]. cbn in Hj. injection Hj as <- <- <-.
    apply lookup_zip_Some in Hz as [Hc _]. cbn. unfold primary_ok.
    apply list_elem_of_lookup_2, list_elem_of_In in Hc. rewrite forallb_forall in Hk.
    by rewrite (Hk _ Hc).
Qed.

Lemma insert_rows_ok t cs rows d old :
  table_columns d t = Ok cs → db_rows d !! t = Some old → key_first cs = true →
  Forall (fits d t cs) rows → NoDup (cell_at 0 <$> old ++ rows) →
  insert_rows t rows d = Ok (set_rows t (old ++ rows) d).
Proof.
  revert d old. induction rows as [|r rows IH]; intros d old Hc Hold Hk Hf Hn.
  - unfold insert_rows. cbn. f_equal. rewrite app_nil_r. unfold set_rows. destruct d. cbn in *.
    by rewrite insert_id.
  - apply Forall_cons in Hf as [Hr Hf]. unfold insert_rows. cbn [iter].
    assert (table_rows d t = old) as Ho by (unfold table_rows; by rewrite Hold).
    assert (row_ok d cs r = true) as Hr1.
    { specialize (Hr old). replace (set_rows t old d) with d in Hr; [done|].
      unfold set_rows. destruct d. cbn in *. by rewrite insert_id. }
    assert (insert_into t d r = Ok (set_rows t (old ++ [r]) d)) as ->.
    { unfold insert_into. rewrite Hc, Ho. cbn [mbind result_bind]. rewrite Hr1, keys_free_first; [done|done|].
      rewrite fmap_app in Hn. cbn in Hn. apply NoDup_app in Hn as (_ & Hn & _). intros Hin.
      by apply (Hn _ Hin); left. }
    fold (insert_rows t rows (set_rows t (old ++ [r]) d)). rewrite (IH _ (old ++ [r])).
    + rewrite <-app_assoc. unfold set_rows. cbn. by rewrite insert_insert_eq.
    + done.
    + cbn. by rewrite lookup_insert_eq.
    + done.
    + eapply Forall_impl; [exact Hf|]. intros x Hx l. specialize (Hx l).
      unfold set_rows in *. cbn in *. by rewrite insert_insert_eq.
    + rewrite <-app_assoc. done.
Qed.

Lemma ordered_same_keys i l k : cell_at i <$> l = cell_at i <$> k → ordered i l → ordered i k.
Proof.
  intros E Hl. revert k E. induction Hl as [|x l Hs IH Hd]; intros [|y k] E; cbn in E; [constructor|done|done|].
  injection E as Exy E. constructor; [by apply IH|].
  destruct Hd as [|z l Hz]; destruct k as [|y' k]; cbn in E; [constructor|done|done|].
  injection E as Ezy E. constructor. congruence.
Qed.

Lemma cells_of r : (λ i, cell_at i r) <$> seq 0 (length r) = r.
Proof.
  apply list_eq. intros i. rewrite list_lookup_fmap.
  destruct (r !! i) as [x|] eqn:E.
  - rewrite lookup_seq_lt by (by apply lookup_lt_Some in E). cbn. unfold cell_at. by rewrite E.
  - rewrite lookup_seq_ge by (by apply lookup_ge_None). done.
Qed.

(** A query for all the columns in their declared order. *)
Lemma rows_of_all d t cs cols order :
  db_schema d !! t = Some (Table cs) → mapM (column_position cs) cols = Ok (seq 0 (length cs)) →
  column_position cs order = Ok 0%nat → Forall (λ r, length r = length cs) (table_rows d t) →
  rows_of d t cols order = Ok (order_by 0 (table_rows d t)).
Proof.
  intros Hs Hc Ho Hl. unfold rows_of, table_columns. rewrite Hs. cbn [mbind result_bind].
  rewrite Hc. cbn [mbind result_bind]. rewrite Ho. cbn [mbind result_bind]. f_equal.
  assert (Forall (λ r, length r = length cs) (order_by 0 (table_rows d t))) as Hf
    by (rewrite (order_by_perm 0 (table_rows d t)); exact Hl).
  induction Hf as [|r l Hr _ IH]; [done|]. rewrite fmap_cons, IH. f_equal. by rewrite <-Hr, cells_of.
Qed.

(** ** A sound source *)

(** Every row meets the constraints of its table, and the keys are distinct. *)
Definition table_sound (d : database) (t : string * list column) : bool :=
  forallb (row_ok d t.2) (table_rows d t.1) && bool_decide (NoDup (cell_at 0 <$> table_rows d t.1)).
Definition constraints_hold (d : database) : bool := forallb (table_sound d) SOURCE_DDL.

Definition ledger_table : list column :=
  [key_of_table "operation_id"; column_of "state" TEXT; column_of "payload_hash" TEXT; column_of "outcome" TEXT].

Lemma row_ok_length d cs r : row_ok d cs r = true → length r = length cs.
Proof. unfold row_ok, len. intros [H _]%andb_prop. zb. lia. Qed.

Lemma sound_table d t cs :
  constraints_hold d = true → (t, cs) ∈ SOURCE_DDL →
  Forall (λ r, row_ok d cs r = true) (table_rows d t) ∧ NoDup (cell_at 0 <$> table_rows d t).
Proof.
  intros Hc Hin. unfold constraints_hold in Hc. rewrite forallb_forall in Hc.
  apply list_elem_of_In in Hin. specialize (Hc _ Hin). apply andb_prop in Hc as [H1 H2].
  apply bool_decide_eq_true in H2. split; [|done]. rewrite forallb_forall in H1.
  apply Forall_forall. intros r Hr. apply H1. by apply list_elem_of_In.
Qed.

(** Without references the constraints of a row do not depend on the database. *)
Lemma row_ok_any d d' cs r :
  forallb (λ c, bool_decide (col_references c = None)) cs = true → row_ok d cs r = row_ok d' cs r.
Proof.
  intros Hc. unfold row_ok. f_equal. clear -Hc. revert r.
  induction cs as [|c cs IH]; intros [|x r]; cbn in *; try done.
  apply andb_prop in Hc as [Hr Hc]. apply bool_decide_eq_true in Hr. rewrite (IH Hc). f_equal.
  unfold cell_ok, reference_ok. by rewrite Hr.
Qed.

Lemma fits_any d d' t cs r :
  forallb (λ c, bool_decide (col_references c = None)) cs = true → row_ok d cs r = true → fits d' t cs r.
Proof. intros Hc Hr rows. by rewrite (row_ok_any _ d). Qed.

(** What the source must be for the conversion to succeed. *)
Record convertible (p : migration_plan) (s : database) : Prop := Convertible {
  cv_schema : schema_objects s = expected_source_schema;
  cv_sound : constraints_hold s = true;
  cv_inventory : inventory_of s = Ok (p_inventory p);
  cv_seed : ∃ seed frontier rest,
    singleton_of s "migration_seed" ["seed_bytes"; "source_frontier"]%string
      = Ok ([CBlob seed; CBlob frontier] :: rest);
  cv_versions : ∃ wire suite sdk ui,
    sitem (p_versions p) "wire" = Ok (VStr wire) ∧ sitem (p_versions p) "suite" = Ok (VStr suite)
    ∧ sitem (p_versions p) "sdk" = Ok (VStr sdk) ∧ sitem (p_versions p) "ui" = Ok (VStr ui);
}.

(** One signed object and its converted row. *)
Definition signed_spec (r r' : row_t) (n : Z) : Prop :=
  take 4 r' = take 4 r ∧ length r' = 8%nat ∧
  (cell_at 1 r ∈ CText <$> SUPPORTED_CODECS → r' = r ++ [CText (str "PRESERVED")] ∧ n = 0) ∧
  (cell_at 1 r ∉ CText <$> SUPPORTED_CODECS →
     cell_at 4 r' = CInt 0 ∧ cell_at 6 r' = CInt 0 ∧
     (cell_at 2 r = CInt 1 →
        cell_at 5 r' = CText (str "BLOCKED") ∧ cell_at 7 r' = CText (str "UPGRADE_REQUIRED") ∧ n = 1) ∧
     (cell_at 2 r ≠ CInt 1 →
        cell_at 5 r' = CText (str "OPAQUE") ∧ cell_at 7 r' = CText (str "OPAQUE_OPTIONAL") ∧ n = 0)).

Lemma convert_signed_exact r r' n : convert_signed r = Ok (r', n) → signed_spec r r' n.
Proof.
  destruct r as [|x0 [|x1 [|x2 [|x3 [|x4 [|x5 [|x6 [|]]]]]]]]; cbn [convert_signed]; try done.
  unfold signed_spec. change (cell_at 1 _) with x1. change (cell_at 2 _) with x2.
  case_bool_decide as Hc; [intros [= <- <-]; by split_and!|].
  case_bool_decide as Hm; intros [= <- <-]; by split_and!.
Qed.

Lemma convert_signed_total r : length r = 7%nat → ∃ x, convert_signed r = Ok x.
Proof.
  destruct r as [|x0 [|x1 [|x2 [|x3 [|x4 [|x5 [|x6 [|]]]]]]]]; try done. intros _. cbn.
  repeat case_bool_decide; by eexists.
Qed.

(** ** The converted database *)

Ltac in_ddl :=
  unfold SOURCE_DDL; cbn; repeat first [apply list_elem_of_here|apply list_elem_of_further].

Section Convert.
Context (p : migration_plan) (sha : pystr) (s : database) (Hs : convertible p s).

Definition source_rows (t : string) : list row_t := order_by 0 (table_rows s t).

Lemma source_table t cs : (t, cs) ∈ SOURCE_DDL → db_schema s !! t = Some (Table cs).
Proof using Hs.
  intros Hin. pose proof (cv_schema _ _ Hs) as E. unfold schema_objects in E. rewrite E.
  unfold SOURCE_DDL in Hin. repeat (apply elem_of_cons in Hin as [[= -> ->]|Hin]; [vm_compute; reflexivity|]).
  by apply not_elem_of_nil in Hin.
Qed.

Lemma source_sound t cs :
  (t, cs) ∈ SOURCE_DDL →
  Forall (λ r, row_ok s cs r = true) (source_rows t) ∧ NoDup (cell_at 0 <$> source_rows t)
  ∧ ordered 0 (source_rows t).
Proof using Hs.
  intros Hin. destruct (sound_table s t cs (cv_sound _ _ Hs) Hin) as [Hr Hn].
  pose proof (order_by_perm 0 (table_rows s t)) as Hp. unfold source_rows. split_and!.
  - by rewrite Hp.
  - by rewrite Hp.
  - apply order_by_ordered.
Qed.

Lemma source_query t cs cols order :
  (t, cs) ∈ SOURCE_DDL → mapM (column_position cs) cols = Ok (seq 0 (length cs)) →
  column_position cs order = Ok 0%nat → rows_of s t cols order = Ok (source_rows t).
Proof using Hs.
  intros Hin Hc Ho. eapply rows_of_all; [by apply source_table|done|done|].
  destruct (sound_table s t cs (cv_sound _ _ Hs) Hin) as [Hr _].
  eapply Forall_impl; [exact Hr|]. intros r. apply row_ok_length.
Qed.

Lemma source_copied t : t ∈ COPIED → rows_of s t.1.1 t.1.2 t.2 = Ok (source_rows t.1.1).
Proof using Hs.
  intros Hin. unfold COPIED in Hin. rewrite !elem_of_cons in Hin.
  destruct Hin as [->|[->|[->|Hin%not_elem_of_nil]]]; [..|done];
    (eapply source_query; [in_ddl|reflexivity|reflexivity]).
Qed.

Lemma source_signed :
  ∃ out, mapM convert_signed (source_rows "signed_objects") = Ok out
         ∧ expected_signed_rows s = Ok (out.*1, fold_right Z.add 0 out.*2).
Proof using Hs.
  destruct (mapM_total convert_signed (source_rows "signed_objects")) as [out Hout].
  - intros r Hr. apply convert_signed_total.
    edestruct (source_sound "signed_objects") as [Hf _]; [in_ddl|].
    rewrite Forall_forall in Hf. exact (row_ok_length _ _ _ (Hf _ Hr)).
  - exists out. split; [done|]. unfold expected_signed_rows.
    eapply bind_step; [eapply source_query; [in_ddl|reflexivity|reflexivity]|].
    by run Hout.
Qed.

Lemma source_seed :
  ∃ seed frontier, singleton_of s "migration_seed" ["seed_bytes"; "source_frontier"]%string
    = Ok [[CBlob seed; CBlob frontier]].
Proof using Hs.
  destruct (cv_seed _ _ Hs) as (seed & frontier & rest & E). exists seed, frontier. rewrite E.
  destruct (sound_table s "migration_seed" (nth 5 SOURCE_DDL ("", [])%string).2 (cv_sound _ _ Hs)) as [_ Hn];
    [cbn; in_ddl|].
  unfold singleton_of, table_columns in E. rewrite (source_table "migration_seed"
    (nth 5 SOURCE_DDL ("", [])%string).2) in E by (cbn; in_ddl).
  cbn [mbind result_bind] in E. revert E.
  match goal with |- mapM ?f ?l ≫= _ = _ → _ => change (mapM f l) with (@Ok (list nat) [1; 2]%nat) end.
  cbn [mbind result_bind]. match goal with |- column_position ?f ?l ≫= _ = _ → _ =>
    change (column_position f l) with (@Ok nat 0%nat) end. cbn [mbind result_bind].
  intros E. do 2 f_equal. destruct rest as [|r rest]; [done|]. exfalso.
  injection E as E. revert E Hn. generalize (table_rows s "migration_seed") as l.
  induction l as [|x l IH]; cbn [List.filter]; [done|]. intros E [Hx Hn]%NoDup_cons.
  case_bool_decide as Hk; [|by apply IH]. rewrite fmap_cons in E.
  injection E as _ _ E.
  destruct (List.filter _ l) as [|y l'] eqn:El; [done|].
  assert (y ∈ List.filter (λ r : row_t, bool_decide (cell_at 0 r = CInt 1)) l) as Hy by (rewrite El; by left).
  apply list_elem_of_In, filter_In in Hy as [Hy Hky]. apply bool_decide_eq_true in Hky.
  apply Hx. rewrite Hk, <-Hky. apply list_elem_of_fmap_2. by apply list_elem_of_In.
Qed.

Definition signed_table : list column := (nth 4 SOURCE_DDL ("", [])%string).2.
Definition target_signed_table : list column := (nth 4 TARGET_DDL ("", [])%string).2.

Lemma row_ok_mono d d' cs r :
  (∀ c x, c ∈ cs → reference_ok d c x = true → reference_ok d' c x = true) →
  row_ok d cs r = true → row_ok d' cs r = true.
Proof using Type.
  intros Hr. unfold row_ok. intros [Hl H]%andb_prop. rewrite Hl. cbn [andb]. clear Hl. revert r H.
  induction cs as [|c cs IH]; intros [|x r]; cbn; try done. intros [Hc H]%andb_prop.
  rewrite (IH ltac:(intros; apply Hr; [by right|done]) r H). unfold cell_ok in *.
  apply andb_prop in Hc as [Hc Hx]. rewrite Hc, (Hr c x); [done|by left|done].
Qed.

Lemma signed_fits d r x : row_ok d signed_table r = true → convert_signed r = Ok x →
  fits convert_schema "signed_objects" target_signed_table x.1.
Proof using Type.
  intros Hr Hx. apply (fits_any d); [reflexivity|].
  pose proof (row_ok_length _ _ _ Hr) as Hl.
  destruct r as [|x0 [|x1 [|x2 [|x3 [|x4 [|x5 [|x6 [|]]]]]]]]; try done. clear Hl.
  unfold row_ok in Hr. apply andb_prop in Hr as [_ Hr]. cbn [signed_table nth SOURCE_DDL zip zip_with forallb fst snd] in Hr.
  repeat (apply andb_prop in Hr as [? Hr]). cbn [convert_signed] in Hx.
  unfold row_ok. apply andb_true_iff. split; [repeat case_bool_decide; by injection Hx as <-|].
  repeat case_bool_decide; injection Hx as <-;
    cbn [target_signed_table nth TARGET_DDL zip zip_with forallb fst snd];
    repeat first [assumption|reflexivity|apply andb_true_iff; split].
Qed.

Lemma copy_step t cs d :
  t ∈ COPIED → (t.1.1, cs) ∈ SOURCE_DDL → table_columns d t.1.1 = Ok cs → db_rows d !! t.1.1 = Some [] →
  key_first cs = true → Forall (fits d t.1.1 cs) (source_rows t.1.1) →
  copy_table s d t = Ok (set_rows t.1.1 (source_rows t.1.1) d).
Proof using Hs.
  intros Ht Hin Hc Hd Hk Hf. unfold copy_table. run (source_copied t Ht).
  rewrite (insert_rows_ok _ cs _ _ []); [done|done|done|done|done|].
  cbn. by apply source_sound in Hin as (_ & Hn & _).
Qed.

Lemma plain_fits t cs d :
  (t, cs) ∈ SOURCE_DDL → forallb (λ c, bool_decide (col_references c = None)) cs = true →
  Forall (fits d t cs) (source_rows t).
Proof using Hs.
  intros Hin Hc. apply source_sound in Hin as [Hf _]. eapply Forall_impl; [exact Hf|].
  intros r. by apply fits_any.
Qed.

(** The outbox refers to operations the copied ledger has. *)
Lemma outbox_fits d :
  table_columns d "operation_ledger" = Ok ledger_table →
  table_rows d "operation_ledger" = source_rows "operation_ledger" →
  Forall (fits d "outbox" (nth 2 SOURCE_DDL ("", [])%string).2) (source_rows "outbox").
Proof using Hs.
  intros Hc Hr. destruct (source_sound "outbox" (nth 2 SOURCE_DDL ("", [])%string).2) as [Hf _]; [in_ddl|].
  eapply Forall_impl; [exact Hf|]. intros r. intros Hrow rows. revert Hrow. apply row_ok_mono.
  intros c x Hin. cbn in Hin. rewrite !elem_of_cons in Hin.
  destruct Hin as [->|[->|[->|Hin%not_elem_of_nil]]]; [|done|done|done].
  unfold reference_ok. cbn [foreign_key col_references].
  unfold table_columns in Hc |- *. cbn [set_rows db_schema].
  rewrite (source_table "operation_ledger" ledger_table) by in_ddl.
  destruct (db_schema d !! "operation_ledger"%string) as [[cs|]|]; try done. injection Hc as ->.
  cbn [ledger_table column_names position].
  change (table_rows (set_rows "outbox" rows d) "operation_ledger") with
    (default [] (<["outbox"%string := rows]> (db_rows d) !! "operation_ledger"%string)).
  rewrite lookup_insert_ne by done. fold (table_rows d "operation_ledger"). rewrite Hr.
  intros [->|Hx]%orb_prop; [done|]. apply orb_true_iff. right.
  change (position "operation_id" (column_names ledger_table)) with (Some 0%nat) in *.
  apply existsb_exists in Hx as (y & Hy & Hx). apply existsb_exists. exists y. split; [|done].
  apply list_elem_of_In. unfold source_rows. rewrite order_by_perm. by apply list_elem_of_In.
Qed.

(** The rows of the converted database. *)
Definition with_tables (rows : list (string * list row_t)) (d : database) : database :=
  foldl (λ d t, set_rows t.1 t.2 d) d rows.
Definition seed_row (seed frontier : bytes) : row_t :=
  [CInt 1; CBlob seed; CBlob frontier; CText (p_converter_digest p); CText (p_source_digest p)].
Definition converted (meta : row_t) (signed : list row_t) (seed frontier : bytes) : database :=
  set_user_version TARGET_STORE_VERSION (with_tables
    [("store_metadata", [CInt 1 :: meta]); ("operation_ledger", source_rows "operation_ledger");
     ("outbox", source_rows "outbox"); ("drafts", source_rows "drafts"); ("signed_objects", signed);
     ("migration_seed", [seed_row seed frontier])]%string convert_schema).

Lemma metadata_total : ∃ meta, metadata_row p sha = Ok meta ∧ length meta = 14%nat ∧
  insert_into "store_metadata" convert_schema (CInt 1 :: meta)
    = Ok (with_tables [("store_metadata"%string, [CInt 1 :: meta])] convert_schema).
Proof using Hs.
  destruct (cv_versions _ _ Hs) as (wire & suite & sdk & ui & E1 & E2 & E3 & E4).
  eexists. split; [unfold metadata_row; run E1; run E2; run E3; run E4; reflexivity|].
  split; [done|reflexivity].
Qed.

Lemma signed_insert out d :
  mapM convert_signed (source_rows "signed_objects") = Ok out →
  table_columns d "signed_objects" = Ok target_signed_table → db_rows d !! "signed_objects"%string = Some [] →
  insert_rows "signed_objects" out.*1 d = Ok (set_rows "signed_objects" out.*1 d)
  ∧ ordered 0 out.*1.
Proof using Hs.
  intros Hout Hc Hd. destruct (source_sound "signed_objects" signed_table) as (Hf & Hn & Ho); [in_ddl|].
  pose proof (mapM_Ok_Forall2 _ _ _ Hout) as H2.
  assert (cell_at 0 <$> source_rows "signed_objects" = cell_at 0 <$> out.*1) as Hkeys.
  { clear -H2. induction H2 as [|r [r' n] l k Hr _ IH]; [done|]. cbn. f_equal; [|done].
    destruct r as [|x0 [|x1 [|x2 [|x3 [|x4 [|x5 [|x6 [|]]]]]]]]; try done. cbn in Hr.
    by repeat case_bool_decide; injection Hr as <- <-. }
  split; [|by eapply ordered_same_keys].
  rewrite (insert_rows_ok _ target_signed_table _ _ []); [done..|reflexivity| |cbn; by rewrite <-Hkeys].
  clear -H2 Hf. induction H2 as [|r x l k Hr _ IH]; cbn; constructor.
  - apply Forall_cons in Hf as [Hf _]. intros rows.
    rewrite (row_ok_any _ (set_rows "signed_objects" rows convert_schema)) by reflexivity.
    by eapply signed_fits.
  - apply IH. by apply Forall_cons in Hf as [_ ?].
Qed.

Lemma convert_ok :
  ∃ meta out seed frontier,
    metadata_row p sha = Ok meta ∧ length meta = 14%nat
    ∧ mapM convert_signed (source_rows "signed_objects") = Ok out ∧ ordered 0 out.*1
    ∧ singleton_of s "migration_seed" ["seed_bytes"; "source_frontier"]%string = Ok [[CBlob seed; CBlob frontier]]
    ∧ expected_signed_rows s = Ok (out.*1, fold_right Z.add 0 out.*2)
    ∧ convert_rows p sha s = Ok (converted meta out.*1 seed frontier).
Proof using Hs.
  destruct metadata_total as (meta & Hmeta & Hml & Hins).
  destruct source_seed as (seed & frontier & Eseed). destruct source_signed as (out & Hout & Hsigned).
  destruct (signed_insert out (with_tables
    [("store_metadata", [CInt 1 :: meta]); ("operation_ledger", source_rows "operation_ledger");
     ("outbox", source_rows "outbox"); ("drafts", source_rows "drafts")]%string convert_schema)
    Hout eq_refl eq_refl) as [Hs_ins Ho].
  exists meta, out, seed, frontier. split_and!; [done..|].
  unfold convert_rows. run Hmeta. run Hins. unfold COPIED. cbn [iter].
  rewrite (copy_step _ (nth 1 SOURCE_DDL ("", [])%string).2);
    [|by left|in_ddl|reflexivity|reflexivity|reflexivity|apply plain_fits; [in_ddl|reflexivity]].
  rewrite (copy_step _ (nth 2 SOURCE_DDL ("", [])%string).2);
    [|by right; left|in_ddl|reflexivity|reflexivity|reflexivity|by apply outbox_fits].
  rewrite (copy_step _ (nth 3 SOURCE_DDL ("", [])%string).2);
    [|by do 2 right; left|in_ddl|reflexivity|reflexivity|reflexivity|apply plain_fits; [in_ddl|reflexivity]].
  cbn [mbind result_bind]. rewrite Hsigned. cbn [mbind result_bind]. run Hs_ins. run Eseed.
  reflexivity.
Qed.

(** ** The verification of the converted database *)

Lemma target_query meta out seed frontier t cs cols order rows :
  length meta = 14%nat → db_schema convert_schema !! t = Some (Table cs) →
  mapM (column_position cs) cols = Ok (seq 0 (length cs)) → column_position cs order = Ok 0%nat →
  table_rows (converted meta out seed frontier) t = rows →
  Forall (λ r, length r = length cs) rows → ordered 0 rows →
  rows_of (converted meta out seed frontier) t cols order = Ok rows.
Proof using Type.
  intros Hm Hs' Hc Ho Hr Hl Hord. rewrite (rows_of_all _ t cs); [|exact Hs'|done|done|by rewrite Hr].
  rewrite Hr. by rewrite order_by_id.
Qed.

Lemma source_lengths t cs : (t, cs) ∈ SOURCE_DDL → Forall (λ r, length r = length cs) (source_rows t).
Proof using Hs.
  intros Hin. destruct (source_sound t cs Hin) as [Hf _]. eapply Forall_impl; [exact Hf|].
  intros r. apply row_ok_length.
Qed.

Lemma same_copied meta out seed frontier :
  length meta = 14%nat →
  iter (λ t _, same_table s (converted meta out seed frontier) t) COPIED tt = Ok tt.
Proof using Hs.
  intros Hm. apply iter_check. intros t Hin. unfold same_table. run (source_copied t Hin).
  assert (rows_of (converted meta out seed frontier) t.1.1 t.1.2 t.2 = Ok (source_rows t.1.1)) as E.
  { unfold COPIED in Hin. rewrite !elem_of_cons in Hin.
    destruct Hin as [->|[->|[->|Hin%not_elem_of_nil]]]; [..|done]; cbn [fst snd];
      (eapply target_query; [done|reflexivity|reflexivity|reflexivity|reflexivity| |]);
      [eapply (source_lengths _ (nth 1 SOURCE_DDL ("", [])%string).2); in_ddl
      |eapply (source_sound _ (nth 1 SOURCE_DDL ("", [])%string).2); in_ddl
      |eapply (source_lengths _ (nth 2 SOURCE_DDL ("", [])%string).2); in_ddl
      |eapply (source_sound _ (nth 2 SOURCE_DDL ("", [])%string).2); in_ddl
      |eapply (source_lengths _ (nth 3 SOURCE_DDL ("", [])%string).2); in_ddl
      |eapply (source_sound _ (nth 3 SOURCE_DDL ("", [])%string).2); in_ddl]. }
  run E. by rewrite bool_decide_true.
Qed.

Lemma converted_inventory meta out seed frontier :
  length out = length (source_rows "signed_objects") →
  inventory_of (converted meta out seed frontier) = Ok (p_inventory p).
Proof using Hs.
  intros Hl. rewrite <-(cv_inventory _ _ Hs).
  assert (∀ t cs, (t, cs) ∈ SOURCE_DDL → count_of s t = Ok (len (source_rows t))) as Hc.
  { intros t cs Hin. unfold count_of, table_columns. rewrite (source_table t cs Hin). cbn. f_equal.
    unfold len, source_rows. by rewrite order_by_perm. }
  unfold inventory_of.
  rewrite (Hc "operation_ledger" ledger_table), (Hc "outbox" (nth 2 SOURCE_DDL ("", [])%string).2),
    (Hc "drafts" (nth 3 SOURCE_DDL ("", [])%string).2), (Hc "signed_objects" signed_table)
    by in_ddl.
  unfold count_of.
  change (table_columns (converted meta out seed frontier) ?t) with (table_columns convert_schema t).
  change (table_rows (converted meta out seed frontier) "operation_ledger") with (source_rows "operation_ledger").
  change (table_rows (converted meta out seed frontier) "outbox") with (source_rows "outbox").
  change (table_rows (converted meta out seed frontier) "drafts") with (source_rows "drafts").
  change (table_rows (converted meta out seed frontier) "signed_objects") with out.
  unfold len. rewrite Hl. reflexivity.
Qed.

Lemma inventory_refl db inv : inventory_of db = Ok inv → py_eq inv inv = true.
Proof using Type.
  unfold inventory_of. intros E. do 4 apply bind_Ok in E as (? & _ & E). injection E as <-.
  apply py_eq_sdict; [reflexivity|]. rewrite !Forall_cons. split_and!; [by apply py_eq_atom..|done].
Qed.

Lemma converted_valid :
  ∃ t n, convert_rows p sha s = Ok t ∧ validate_tables p sha s t = Ok (p_inventory p, n) ∧ 0 <= n.
Proof using Hs.
  destruct convert_ok as (meta & out & seed & frontier & Hmeta & Hml & Hout & Hord & Hseed & Hsig & Hconv).
  eexists _, _. split; [exact Hconv|]. pose proof (mapM_Ok_Forall2 _ _ _ Hout) as H2.
  assert (Forall (λ r, length r = 8%nat) out.*1) as Hl8.
  { clear -H2. induction H2 as [|r [r' n] l k Hr _ IH]; cbn; constructor; [|done].
    by apply convert_signed_exact in Hr as (_ & ? & _). }
  split.
  - unfold validate_tables. run_eq. run_eq.
    refine (bind_step _ _ tt _ _ _); [by rewrite bool_decide_true|cbv beta].
    refine (bind_step _ _ [meta] _ _ _);
      [do 14 (destruct meta as [|? meta]; [done|]); destruct meta; [reflexivity|done]|cbv beta].
    run Hmeta. refine (bind_step _ _ tt _ _ _); [by rewrite bool_decide_true|cbv beta].
    run (same_copied meta out.*1 seed frontier Hml). run Hsig. cbv iota.
    assert (rows_of (converted meta out.*1 seed frontier) "signed_objects"
              (signed_columns ++ ["migration_status"%string]) "object_id" = Ok out.*1) as E.
    { by eapply (target_query meta out.*1 seed frontier "signed_objects" target_signed_table). }
    run E. refine (bind_step _ _ tt _ _ _); [by rewrite bool_decide_true|cbv beta].
    run Hseed. refine (bind_step _ _ [[CBlob seed; CBlob frontier; CText (p_converter_digest p);
      CText (p_source_digest p)]] _ _ _); [reflexivity|cbv beta].
    refine (bind_step _ _ tt _ _ _); [by rewrite bool_decide_true|cbv beta].
    pose proof (converted_inventory meta out.*1 seed frontier) as Hinv.
    rewrite length_fmap, (mapM_Ok_length _ _ _ Hout) in Hinv. run (Hinv eq_refl).
    rewrite (inventory_refl s) by apply (cv_inventory _ _ Hs). reflexivity.
  - clear -H2. induction H2 as [|r [r' n] l k Hr _ IH]; cbn; [done|].
    assert (0 <= n); [|cbn in *; lia].
    destruct r as [|x0 [|x1 [|x2 [|x3 [|x4 [|x5 [|x6 [|]]]]]]]]; try done. cbn in Hr.
    repeat case_bool_decide; injection Hr as <- <-; lia.
Qed.
End Convert.
