(* ===== verification/MigrationFacts.v ===== *)
(** * Store migration: the files round trip, and what a plan records of its source *)

From S2P Require Import Prelude Bytes Value Json Hash Crash Sqlite Migration MigrationBackup MigrationShadow MigrationEngine MigrationConvert.
Local Open Scope Z_scope.

(** ** Round trips of the JSON files *)

Section RoundTrips.
Context `{Hash} `{Sqlite}.

Lemma len_hexdigest b : len (hexdigest b) = 64.
Proof. unfold hexdigest. by rewrite len_hex, sha256_len. Qed.


Lemma digest_field_ok code raw k s :
  sitem raw k = Ok (VStr s) → len s = 64 → digest_field code raw k = Ok s.
Proof. intros E Hl. unfold digest_field. run E. by rewrite Hl. Qed.
Lemma name_field_ok code raw k s :
  sitem raw k = Ok (VStr s) → 0 < len s → name_field code raw k = Ok s.
Proof.
  intros E Hl. unfold name_field, text_field. rewrite E. cbn [mbind result_bind].
  passes; [by apply Z.ltb_lt|done].
Qed.
Lemma size_field_ok code raw k m z :
  sitem raw k = Ok (VInt z) → m <= z → size_field code raw m k = Ok z.
Proof. intros E Hl. unfold size_field. run E. passes; [by apply Z.leb_le|done]. Qed.

Lemma backup_round_trip m :
  len (b_plan_digest m) = 64 → len (b_source_digest m) = 64 → len (b_store_sha256 m) = 64 →
  len (b_seed_sha256 m) = 64 → len (b_frontier_sha256 m) = 64 → 1 <= b_size m →
  is_dict (b_versions m) = true → is_dict (b_inventory m) = true →
  backup_from_raw (backup_dict m) = Ok m.
Proof.
  intros H1 H2 H3 H4 H5 H6 H7 H8. unfold backup_from_raw.
  passes; [vm_compute; reflexivity|]. reads_as (eq_refl (Ok (VStr BACKUP_PROFILE))).
  passes; [by apply (py_eq_atom (VStr BACKUP_PROFILE))|].
  reads_as (size_field_ok "BACKUP_INVALID" (backup_dict m) "size" 1 (b_size m) eq_refl H6).
  reads_as (eq_refl (Ok (VBool true))). reads_as (eq_refl (Ok (b_versions m))). reads_as (eq_refl (Ok (b_inventory m))).
  passes; [by rewrite H7, H8|].
  reads_as (digest_field_ok "BACKUP_INVALID" (backup_dict m) "planDigest" _ eq_refl H1).
  reads_as (digest_field_ok "BACKUP_INVALID" (backup_dict m) "sourceDigest" _ eq_refl H2).
  reads_as (digest_field_ok "BACKUP_INVALID" (backup_dict m) "storeSha256" _ eq_refl H3).
  reads_as (digest_field_ok "BACKUP_INVALID" (backup_dict m) "seedSha256" _ eq_refl H4).
  reads_as (digest_field_ok "BACKUP_INVALID" (backup_dict m) "frontierSha256" _ eq_refl H5).
  reads_as (eq_refl (Ok (b_source_generation m))). by destruct m.
Qed.

(** What a shadow manifest the code writes satisfies. *)
Record manifest_wf (m : shadow_manifest) : Prop := ManifestWf {
  mw_digests : Forall (λ s, len s = 64) [s_plan_digest m; s_source_digest m; s_source_store_sha256 m;
    s_backup_store_sha256 m; s_store_sha256 m; s_seed_sha256 m; s_frontier_sha256 m; s_converter_digest m];
  mw_names : 0 < len (s_source_generation m) ∧ 0 < len (s_target_generation m);
  mw_size : 1 <= s_size m;
  mw_unknown : 0 <= s_unknown_mandatory_count m;
  mw_dicts : is_dict (s_versions m) = true ∧ is_dict (s_inventory m) = true;
}.

Lemma shadow_round_trip m : manifest_wf m → shadow_from_raw (shadow_dict m) = Ok m.
Proof.
  intros [Hd [Hn1 Hn2] Hs Hu [Hv Hi]]. rewrite !Forall_cons in Hd.
  destruct Hd as (H1 & H2 & H3 & H4 & H5 & H6 & H7 & H8 & _). unfold shadow_from_raw.
  passes; [vm_compute; reflexivity|]. reads_as (eq_refl (Ok (VStr SHADOW_PROFILE))).
  passes; [by apply (py_eq_atom (VStr SHADOW_PROFILE))|].
  reads_as (digest_field_ok "SHADOW_INVALID" (shadow_dict m) "planDigest" _ eq_refl H1).
  reads_as (digest_field_ok "SHADOW_INVALID" (shadow_dict m) "sourceDigest" _ eq_refl H2).
  reads_as (name_field_ok "SHADOW_INVALID" (shadow_dict m) "sourceGeneration" _ eq_refl Hn1).
  reads_as (name_field_ok "SHADOW_INVALID" (shadow_dict m) "targetGeneration" _ eq_refl Hn2).
  reads_as (digest_field_ok "SHADOW_INVALID" (shadow_dict m) "sourceStoreSha256" _ eq_refl H3).
  reads_as (digest_field_ok "SHADOW_INVALID" (shadow_dict m) "backupStoreSha256" _ eq_refl H4).
  reads_as (digest_field_ok "SHADOW_INVALID" (shadow_dict m) "storeSha256" _ eq_refl H5).
  reads_as (digest_field_ok "SHADOW_INVALID" (shadow_dict m) "seedSha256" _ eq_refl H6).
  reads_as (digest_field_ok "SHADOW_INVALID" (shadow_dict m) "frontierSha256" _ eq_refl H7).
  reads_as (digest_field_ok "SHADOW_INVALID" (shadow_dict m) "converterDigest" _ eq_refl H8).
  reads_as (size_field_ok "SHADOW_INVALID" (shadow_dict m) "size" 1 _ eq_refl Hs).
  reads_as (size_field_ok "SHADOW_INVALID" (shadow_dict m) "unknownMandatoryCount" 0 _ eq_refl Hu).
  reads_as (eq_refl (Ok (s_versions m))). reads_as (eq_refl (Ok (s_inventory m))).
  passes; [by rewrite Hv, Hi|]. do 3 (reads_as (eq_refl (Ok tt))). by destruct m.
Qed.

Lemma valid_sha_hex b code : valid_sha (VStr (hexdigest b)) code = Ok (hexdigest b).
Proof.
  unfold valid_sha. passes; [|done]. unfold hexdigest.
  by rewrite hex_is_hex, len_hex, sha256_len.
Qed.

Lemma pointer_round_trip w g b v :
  w_active w = Some (FJson (pointer_dict (ActivePointer g (hexdigest b) v))) →
  valid_generation (VStr g) = Ok g → 0 <= v →
  read_active_pointer w = Ok (ActivePointer g (hexdigest b) v).
Proof.
  intros Hw Hg Hv. unfold read_active_pointer. rewrite Hw.
  reads_as (eq_refl (Ok (pointer_dict (ActivePointer g (hexdigest b) v)))).
  passes; [vm_compute; reflexivity|]. reads_as (eq_refl (Ok (VStr ROOT_PROFILE))).
  passes; [by apply (py_eq_atom (VStr ROOT_PROFILE))|].
  reads_as (eq_refl (Ok (VStr g))). reads_as Hg. reads_as (eq_refl (Ok (VStr (hexdigest b)))).
  reads_as (valid_sha_hex b "ACTIVE_POINTER_INVALID"). reads_as (eq_refl (Ok (VInt v))).
  passes; [by apply Z.leb_le|done].
Qed.

Lemma journal_round_trip p n s :
  0 <= n → s ∈ STAGES →
  journal_from_raw p (journal_dict (Journal (p_plan_digest p) (p_source_digest p) n s))
    = Ok (Journal (p_plan_digest p) (p_source_digest p) n s).
Proof.
  intros Hn Hs. unfold journal_from_raw. passes; [vm_compute; reflexivity|].
  reads_as (eq_refl (Ok (VStr JOURNAL_PROFILE))). reads_as (eq_refl (Ok (VStr (p_plan_digest p)))).
  reads_as (eq_refl (Ok (VStr (p_source_digest p)))).
  passes; [by rewrite !(py_eq_atom (VStr _)) by done|].
  reads_as (eq_refl (Ok (VInt n))). reads_as (eq_refl (Ok (VStr s))).
  passes; [|done]. apply andb_true_iff. split; [by apply Z.leb_le|by apply bool_decide_eq_true].
Qed.
End RoundTrips.

(** ** What a plan records of the source *)

Section Planned.
Context `{Hash} `{Sqlite}.

(** The source generation [sd], its database file [b] holding [s], as the plan [p] has them. *)
Record planned (p : migration_plan) (sd : directory) (b : bytes) (s : database) : Prop := Planned {
  pl_file : regular_file (sd !! STORE) = Ok b;
  pl_quiet : quiescent sd = true;
  pl_inspect : inspect_database sd (p_source_generation p) = Ok
    (SourceObservation (p_source_generation p) (hexdigest b) (p_source_digest p) (len b) (p_versions p)
       (p_inventory p) (p_seed_sha256 p) (p_frontier_sha256 p) b);
  pl_open : sqlite_open b = Some s;
  pl_sha : p_source_store_sha256 p = hexdigest b;
  pl_size : p_source_size p = len b;
  pl_digests : len (p_source_digest p) = 64 ∧ len (p_plan_digest p) = 64 ∧ len (p_seed_sha256 p) = 64
    ∧ len (p_frontier_sha256 p) = 64 ∧ len (p_converter_digest p) = 64;
  pl_schema : schema_objects s = expected_source_schema;
  pl_inventory : inventory_of s = Ok (p_inventory p);
  pl_seed : ∃ seed frontier rest,
    singleton_of s "migration_seed" ["seed_bytes"; "source_frontier"]%string
      = Ok ([CBlob seed; CBlob frontier] :: rest);
  pl_versions : ∃ wire suite sdk ui schema store, p_versions p =
    sdict [("wire"%string, VStr wire); ("suite"%string, VStr suite); ("schema"%string, schema);
           ("store"%string, store); ("sdk"%string, VStr sdk); ("ui"%string, VStr ui)]
    ∧ atom schema = true ∧ atom store = true;
  pl_source : valid_generation (VStr (p_source_generation p)) = Ok (p_source_generation p);
  pl_target : valid_generation (VStr (p_target_generation p)) = Ok (p_target_generation p);
}.

Lemma valid_generation_str v g : valid_generation v = Ok g → v = VStr g.
Proof.
  unfold valid_generation. destruct v as [| | | |[|c l]| | |]; try done.
  intros E. apply bind_Ok in E as (? & _ & E). by injection E as <-.
Qed.

(** A digest: the hexadecimal of some SHA-256. *)
Definition is_digest (d : pystr) : Prop := ∃ x, d = hexdigest x.
Lemma is_digest_len d : is_digest d → len d = 64.
Proof. intros [x ->]. apply len_hexdigest. Qed.
Lemma hexdigest_is b : is_digest (hexdigest b).
Proof. by exists b. Qed.

Lemma digest_identity_ok v d : digest_identity v = Ok d → is_digest d.
Proof. unfold digest_identity. intros E. apply bind_Ok in E as (x & _ & E). injection E as <-. by exists x. Qed.

Lemma low_hex c : is_hex c = true → low_alnum c = true.
Proof.
  unfold is_hex, low_alnum. intros [E|E]%orb_prop; apply andb_prop in E as [E1 E2]; zb;
    apply orb_true_iff; [left|right]; apply andb_true_iff; split; apply Z.leb_le; lia.
Qed.

Lemma target_generation_valid b :
  valid_generation (VStr (str "generation-" ++ take 24 (hexdigest b)))
    = Ok (str "generation-" ++ take 24 (hexdigest b)).
Proof.
  assert (forallb generation_char (take 24 (hexdigest b)) = true) as Hh.
  { pose proof (hex_is_hex (sha256 b)) as Hx. fold (hexdigest b) in Hx.
    rewrite <-(take_drop 24 (hexdigest b)), forallb_app in Hx. apply andb_prop in Hx as [Hx _].
    rewrite forallb_forall in Hx. apply forallb_forall. intros c Hc. unfold generation_char.
    by rewrite (low_hex c (Hx c Hc)). }
  revert Hh. generalize (len_hexdigest b). generalize (hexdigest b) as h. intros h Hl Hh.
  change (str "generation-" ++ take 24 h) with (103 :: drop 1 (str "generation-") ++ take 24 h).
  unfold valid_generation. rewrite mneed_true; [done|]. rewrite forallb_app, Hh.
  assert (len (drop 1 (str "generation-") ++ take 24 h) <= 95) as Hb.
  { rewrite len_app. unfold len. rewrite length_take. change (length (drop 1 (str "generation-"))) with 10%nat. lia. }
  apply Z.leb_le in Hb. rewrite Hb. reflexivity.
Qed.

Lemma inspect_tables_ok db g v inv sd fr :
  inspect_tables db g = Ok (v, inv, sd, fr) →
  schema_objects db = expected_source_schema ∧ inventory_of db = Ok inv ∧ is_digest sd ∧ is_digest fr ∧ validate_versions v = Ok v ∧
  (∃ seed frontier rest, singleton_of db "migration_seed" ["seed_bytes"; "source_frontier"]%string
      = Ok ([CBlob seed; CBlob frontier] :: rest)) ∧
  ∃ wire suite sdk ui schema store, v =
    sdict [("wire"%string, VStr wire); ("suite"%string, VStr suite); ("schema"%string, schema);
           ("store"%string, store); ("sdk"%string, VStr sdk); ("ui"%string, VStr ui)]
    ∧ atom schema = true ∧ atom store = true.
Proof.
  unfold inspect_tables. intros E. apply bind_Ok in E as (? & _ & E).
  apply bind_Ok in E as ([|r rows] & _ & E); [done|].
  apply bind_Ok in E as (sv & _ & E). apply bind_Ok in E as (? & _ & E).
  apply bind_Ok in E as (wire & _ & E). apply bind_Ok in E as (suite & _ & E).
  apply bind_Ok in E as (schema & _ & E). apply bind_Ok in E as (sdk & _ & E).
  apply bind_Ok in E as (ui & _ & E). apply bind_Ok in E as (versions & Hv & E).
  do 2 apply bind_Ok in E as (? & _ & E). apply bind_Ok in E as ([] & Hs & E).
  apply bind_Ok in E as (inventory & Hi & E). apply bind_Ok in E as (seeds & Hseed & E).
  destruct seeds as [|[|[| | |seed] [|[| | |frontier] [|]]] rest]; try done. injection E as <- <- <- <-.
  split_and!; [|done|apply hexdigest_is..| |by eexists _, _, _|].
  { apply require_Ok in Hs. by apply bool_decide_eq_true in Hs. }
  { pose proof Hv as Hv'. unfold validate_versions in Hv'. cbn [sdict] in Hv'.
    do 5 apply bind_Ok in Hv' as (? & _ & Hv'). injection Hv' as <-. exact Hv. }
  unfold validate_versions in Hv. cbn [sdict fmap list_fmap fst snd] in Hv.
  apply bind_Ok in Hv as (? & _ & Hv). apply bind_Ok in Hv as (texts & Ht & Hv).
  apply bind_Ok in Hv as ([] & Htext & Hv). do 2 apply bind_Ok in Hv as (? & _ & Hv). injection Hv as <-.
  match type of Ht with mapM (sitem ?v) _ = _ =>
    change (mapM (sitem v) _) with
      (@Ok (list value) [cell_value wire; cell_value suite; cell_value schema; cell_value sdk; cell_value ui]) in Ht
  end.
  injection Ht as <-. apply require_Ok in Htext. cbn [forallb] in Htext.
  apply andb_prop in Htext as [H1 Htext]. apply andb_prop in Htext as [H2 Htext].
  apply andb_prop in Htext as [_ Htext]. apply andb_prop in Htext as [H3 Htext].
  apply andb_prop in Htext as [H4 _].
  destruct wire, suite, sdk, ui; try done. eexists _, _, _, _, _, _. split; [reflexivity|].
  split; [by destruct schema|by destruct sv].
Qed.

Lemma inspect_database_ok d g ob :
  inspect_database d g = Ok ob → ∃ b s v inv sd fr dg,
    regular_file (d !! STORE) = Ok b ∧ quiescent d = true ∧ sqlite_open b = Some s ∧
    inspect_tables s g = Ok (v, inv, sd, fr) ∧ valid_generation (VStr g) = Ok g ∧ is_digest dg ∧
    ob = SourceObservation g (hexdigest b) dg (len b) v inv sd fr b.
Proof.
  unfold inspect_database. intros E. apply bind_Ok in E as (g' & Hg & E).
  pose proof (valid_generation_str _ _ Hg) as [= <-].
  apply bind_Ok in E as (b & Hb & E). apply bind_Ok in E as ([] & Hq & E). apply require_Ok in Hq.
  apply bind_Ok in E as ([[[v inv] sd] fr] & Ht & E). apply bind_Ok in E as (dg & Hd & E). injection E as <-.
  unfold catch_sqlite in Ht. destruct (database_of b ≫= _) as [x|] eqn:Ex; [|by case_bool_decide].
  apply bind_Ok in Ex as (s & Hs & Ht'). injection Ht as ->.
  unfold database_of, of_option in Hs. destruct (sqlite_open b) as [s'|] eqn:Ho; [|done]. injection Hs as ->.
  apply digest_identity_ok in Hd. by exists b, s, v, inv, sd, fr, dg.
Qed.

Lemma plan_planned w sr wr at_ cap p :
  plan_migration w sr wr at_ cap = Ok p →
  ∃ sd b s, planned p sd b s ∧ w_generations w !! p_source_generation p = Some sd ∧
    read_active_pointer w = Ok (ActivePointer (p_source_generation p) (hexdigest b) SOURCE_STORE_VERSION) ∧
    p_target_schema_id p = TARGET_SCHEMA_ID ∧ p_target_store_version p = TARGET_STORE_VERSION.
Proof.
  unfold plan_migration. intros E. apply bind_Ok in E as (obs & _ & E). apply bind_Ok in E as (? & _ & E).
  apply bind_Ok in E as (ptr & Hptr & E). apply bind_Ok in E as ([] & Hv & E).
  apply require_Ok, Z.eqb_eq in Hv. apply bind_Ok in E as (ob & Hob & E).
  apply bind_Ok in E as ([] & Hsha & E). apply require_Ok, bool_decide_eq_true in Hsha.
  apply bind_Ok in E as (av & _ & E). apply bind_Ok in E as (? & _ & E).
  apply bind_Ok in E as (dg & Hdg & E). injection E as <-.
  unfold inspect_generation in Hob. apply bind_Ok in Hob as (g & Hg & Hob).
  pose proof (valid_generation_str _ _ Hg) as [= Hge]. subst g.
  apply bind_Ok in Hob as (sd & Hsd & Hob). unfold of_option in Hsd.
  destruct (w_generations w !! ap_generation ptr) as [sd'|] eqn:Hgen; [|done]. injection Hsd as ->.
  pose proof (inspect_database_ok _ _ _ Hob) as (b & s & v & inv & sdg & fr & odg & Hb & Hq & Ho & Ht & Hvg & Hl & Eob).
  subst ob. cbn in Hsha. exists sd, b, s.
  pose proof (inspect_tables_ok _ _ _ _ _ _ Ht) as (Hschema & Hinv & Hsdl & Hfrl & _ & Hseed & Hver).
  destruct (digest_identity_ok _ _ Hdg) as [dgx Hdgx]. subst dg.
  split_and!; [|done| |done|done].
  - constructor; cbn; try done.
    + split_and!; apply is_digest_len; try done; apply hexdigest_is.
    + apply target_generation_valid.
  - cbn. rewrite Hptr. destruct ptr. cbn in *. by subst.
Qed.

Lemma planned_nonempty p sd b s : planned p sd b s → 1 <= len b.
Proof.
  intros Hp. destruct b as [|x b]; [|rewrite len_cons; pose proof (len_nonneg b); lia].
  pose proof (pl_open _ _ _ _ Hp) as E. rewrite sqlite_open_empty in E. injection E as <-.
  by pose proof (pl_schema _ _ _ _ Hp).
Qed.

Lemma planned_versions p sd b s : planned p sd b s → py_eq (p_versions p) (p_versions p) = true.
Proof.
  intros Hp. destruct (pl_versions _ _ _ _ Hp) as (? & ? & ? & ? & ? & ? & -> & ? & ?).
  apply py_eq_sdict; [reflexivity|]. rewrite !Forall_cons. split_and!; [by apply py_eq_atom..|done].
Qed.

Lemma planned_convertible p sd b s : planned p sd b s → constraints_hold s = true → convertible p s.
Proof.
  intros Hp Hc. constructor; [apply Hp|done|apply Hp|apply Hp|].
  destruct (pl_versions _ _ _ _ Hp) as (wire & suite & sdk & ui & ? & ? & -> & _).
  by exists wire, suite, sdk, ui.
Qed.
End Planned.
