(* ===== verification/MigrationResume.v ===== *)
(** * Store migration: a migration interrupted anywhere completes when it is run again

    [interrupted] is the invariant of the durable state of a migration; from a state that
    satisfies it, [wp_run] takes a run to its end, whose only errors are the observer's, and
    every state it passes satisfies the invariant again, but for a PLAN.json or JOURNAL.json
    created and not yet written. *)

From S2P Require Import Prelude Bytes Value Json Hash Crash Sqlite Migration MigrationBackup MigrationShadow MigrationEngine MigrationConvert MigrationFacts.
Local Open Scope Z_scope.

(** ** Resuming *)

Section Resume.
Context `{Hash} `{Sqlite}.
Context (e : env) (p : migration_plan) (sd : directory) (b : bytes) (s t : database) (unknown : Z) (w0 : world).
Context (Hp : planned p sd b s).
Context (Hptr : read_active_pointer w0
                = Ok (ActivePointer (p_source_generation p) (hexdigest b) SOURCE_STORE_VERSION)).
Context (Hconv : convert_rows p (hexdigest b) s = Ok t).
Context (Hvalid : validate_tables p (hexdigest b) s t = Ok (p_inventory p, unknown)).
Context (Hunknown : 0 <= unknown) (Hlimit : sqlite_limit t).
Context (Hne : p_source_generation p ≠ p_target_generation p).
Context (Hdev : same_device e = true).
Context (Hconstraints : constraints_hold s = true).
Context (Hschema : p_target_schema_id p = TARGET_SCHEMA_ID).
Context (Hversion : p_target_store_version p = TARGET_STORE_VERSION).

Definition the_observation : source_observation :=
  SourceObservation (p_source_generation p) (hexdigest b) (p_source_digest p) (len b) (p_versions p)
    (p_inventory p) (p_seed_sha256 p) (p_frontier_sha256 p) b.
Definition the_backup : backup_manifest :=
  BackupManifest (p_plan_digest p) (p_source_digest p) (p_source_generation p) (hexdigest b) (len b)
    (p_versions p) (p_inventory p) (p_seed_sha256 p) (p_frontier_sha256 p).
Definition image : bytes := sqlite_image t.
Definition the_versions : value := match target_versions p with Ok v => v | Err _ => VNone end.
Definition the_shadow : shadow_manifest :=
  ShadowManifest (p_plan_digest p) (p_source_digest p) (p_source_generation p) (p_target_generation p)
    (p_source_store_sha256 p) (hexdigest b) (hexdigest image) (len image) the_versions (p_inventory p)
    (p_seed_sha256 p) (p_frontier_sha256 p) (p_converter_digest p) unknown.
Definition backup_dir : directory := <[MANIFEST := FJson (backup_dict the_backup)]> {[STORE := FBytes b]}.
Definition target_dir : directory := <[MANIFEST := FJson (shadow_dict the_shadow)]> {[STORE := FBytes image]}.
Definition target_active : file := FJson (pointer_dict (target_pointer p the_shadow)).

Lemma image_open : sqlite_open image = Some t.
Proof using Hlimit. by apply sqlite_open_image. Qed.

Lemma target_schema : schema_objects t = expected_target_schema.
Proof using Hvalid.
  pose proof Hvalid as E. clear - E. unfold validate_tables in E. apply bind_Ok in E as (? & _ & E). apply bind_Ok in E as (? & _ & E).
  apply bind_Ok in E as ([] & Hs & _). by apply require_Ok, bool_decide_eq_true in Hs.
Qed.

Lemma image_size : 1 <= len image.
Proof using Hlimit Hvalid.
  pose proof image_open as E. pose proof target_schema as Hs. destruct image as [|x l].
  - rewrite sqlite_open_empty in E. injection E as E. by rewrite <-E in Hs.
  - rewrite len_cons. pose proof (len_nonneg l). lia.
Qed.

Lemma versions_total : target_versions p = Ok the_versions ∧ py_eq the_versions the_versions = true
  ∧ is_dict the_versions = true.
Proof using Hp.
  destruct (pl_versions _ _ _ _ Hp) as (? & ? & ? & ? & ? & ? & E & _).
  unfold the_versions, target_versions. rewrite E. split_and!; [reflexivity| |reflexivity].
  apply py_eq_sdict; [reflexivity|]. rewrite !Forall_cons. split_and!; [by apply py_eq_atom..|done].
Qed.

Lemma versions_dict : is_dict (p_versions p) = true ∧ is_dict (p_inventory p) = true.
Proof using Hp.
  destruct (pl_versions _ _ _ _ Hp) as (? & ? & ? & ? & ? & ? & E & _). rewrite E. split; [done|].
  pose proof (pl_inventory _ _ _ _ Hp) as Ei. unfold inventory_of in Ei.
  do 4 apply bind_Ok in Ei as (? & _ & Ei). by injection Ei as <-.
Qed.

Lemma inventory_same : py_eq (p_inventory p) (p_inventory p) = true.
Proof using Hp. eapply inventory_refl, Hp. Qed.
Lemma versions_same : py_eq (p_versions p) (p_versions p) = true.
Proof using Hp. eapply planned_versions, Hp. Qed.

(** Inspecting any quiescent directory that holds the source's bytes. *)
Lemma inspect_copy d :
  regular_file (d !! STORE) = Ok b → quiescent d = true →
  inspect_database d (p_source_generation p) = Ok the_observation.
Proof using Hp.
  intros Hf Hq. etrans; [|exact (pl_inspect _ _ _ _ Hp)]. unfold inspect_database.
  by rewrite Hf, Hq, (pl_file _ _ _ _ Hp), (pl_quiet _ _ _ _ Hp).
Qed.

Lemma observed_same : observed_as_planned p the_observation = true.
Proof using Hp.
  unfold observed_as_planned. cbn. rewrite inventory_same, versions_same, (pl_sha _ _ _ _ Hp).
  by rewrite !bool_decide_true.
Qed.

Lemma catch_invalid_Ok {A} code (m : result A) a : m = Ok a → catch_invalid code m = Ok a.
Proof using Type. by intros ->. Qed.


Lemma backup_verified : verify_backup_directory p (Some backup_dir) = Ok the_backup.
Proof using Hp.
  destruct (pl_digests _ _ _ _ Hp) as (H1 & H2 & H3 & H4 & _). destruct versions_dict as [Hvd Hid].
  apply catch_invalid_Ok. reads_as (eq_refl (Ok backup_dir)). passes; [vm_compute; reflexivity|].
  reads_as (eq_refl (Ok (backup_dict the_backup))).
  reads_as (backup_round_trip the_backup H2 H1 (len_hexdigest b) H3 H4 (planned_nonempty _ _ _ _ Hp) Hvd Hid).
  passes; [by rewrite !bool_decide_true|]. reads_as (eq_refl (Ok b)).
  passes; [cbn; by rewrite Z.eqb_refl, bool_decide_true|].
  reads_as (inspect_copy backup_dir eq_refl eq_refl).
  passes; [unfold manifest_matches; cbn; by rewrite inventory_same, versions_same, !bool_decide_true|].
  passes; [cbn; by rewrite inventory_same, versions_same, (pl_sha _ _ _ _ Hp), !bool_decide_true|done].
Qed.

Lemma validated w d :
  dir_file w_backup STORE w = Some (FBytes b) → d !! STORE = Some (FBytes image) → quiescent d = true →
  validate_database p the_backup w d = Ok (p_inventory p, unknown).
Proof using Hp Hvalid Hlimit.
  intros Hb Hd Hq. unfold validate_database. rewrite Hb, Hd, Hq.
  reads_as (eq_refl (Ok b)). reads_as (eq_refl (Ok image)). reads_as (eq_refl (Ok tt)).
  unfold database_of. rewrite image_open, (pl_open _ _ _ _ Hp). cbn [of_option mbind result_bind].
  cbn [the_backup b_store_sha256]. by rewrite Hvalid.
Qed.

Lemma shadow_wf : manifest_wf the_shadow.
Proof using Hp Hvalid Hlimit Hunknown.
  destruct (pl_digests _ _ _ _ Hp) as (H1 & H2 & H3 & H4 & H5). constructor; cbn.
  - rewrite !Forall_cons, (pl_sha _ _ _ _ Hp). split_and!; try done; apply len_hexdigest.
  - assert (∀ g, valid_generation (VStr g) = Ok g → 0 < len g) as Hg.
    { intros [|c l]; [done|]. rewrite len_cons. pose proof (len_nonneg l). lia. }
    split; apply Hg; apply Hp.
  - apply image_size.
  - done.
  - split; [apply versions_total|apply versions_dict].
Qed.

Lemma manifest_same : same_manifest the_shadow the_shadow = true.
Proof using Hp.
  unfold same_manifest. destruct versions_total as (_ & Hv & _). cbn.
  by rewrite Hv, inventory_same, !Z.eqb_refl, !bool_decide_true.
Qed.

Lemma expected_the_shadow : expected_manifest p the_backup image (p_inventory p) unknown = Ok the_shadow.
Proof using Hp. unfold expected_manifest. destruct versions_total as (Hv & _). by rewrite Hv. Qed.

Lemma shadow_verified w :
  dir_file w_backup STORE w = Some (FBytes b) →
  verify_shadow_directory p the_backup w (Some target_dir) = Ok the_shadow.
Proof using Hp Hvalid Hlimit Hunknown.
  intros Hb. apply catch_invalid_Ok. reads_as (eq_refl (Ok target_dir)). passes; [vm_compute; reflexivity|].
  reads_as (eq_refl (Ok (shadow_dict the_shadow))). reads_as (shadow_round_trip the_shadow shadow_wf).
  reads_as (validated w target_dir Hb eq_refl eq_refl). cbv beta iota. reads_as (eq_refl (Ok image)).
  reads_as expected_the_shadow. passes; [apply manifest_same|done].
Qed.

Lemma backup_required w : w_backup w = Some backup_dir → require_verified_backup p w = Ok the_backup.
Proof using Hp.
  intros Hb. unfold require_verified_backup, verify_backup. rewrite Hb.
  passes; [by rewrite bool_decide_false|]. apply backup_verified.
Qed.

Lemma published_verified w :
  w_backup w = Some backup_dir → w_generations w !! p_target_generation p = Some target_dir →
  verify_published p w = Ok the_shadow.
Proof using Hp Hvalid Hlimit Hunknown.
  intros Hb Ht. unfold verify_published, verify_shadow, target_root.
  rewrite (backup_required w Hb). cbn [mbind result_bind]. rewrite Ht, shadow_verified; [done|].
  unfold dir_file. by rewrite Hb.
Qed.

Lemma active_source w :
  w_active w = w_active w0 → read_active_pointer w
    = Ok (ActivePointer (p_source_generation p) (hexdigest b) SOURCE_STORE_VERSION).
Proof using Hptr. intros E. rewrite <-Hptr. unfold read_active_pointer. by rewrite E. Qed.

Lemma active_target w :
  w_active w = Some target_active → read_active_pointer w
    = Ok (ActivePointer (p_target_generation p) (hexdigest image) TARGET_STORE_VERSION).
Proof using Hp. intros E. by apply (pointer_round_trip w _ image); [|apply Hp|]. Qed.

Lemma source_inspected w :
  w_generations w !! p_source_generation p = Some sd →
  inspect_generation w (p_source_generation p) = Ok the_observation.
Proof using Hp.
  intros Hg. unfold inspect_generation. rewrite (pl_source _ _ _ _ Hp). cbn [mbind result_bind].
  rewrite Hg. apply (inspect_copy sd); apply Hp.
Qed.

Lemma source_active w :
  w_active w = w_active w0 → w_generations w !! p_source_generation p = Some sd →
  require_source_active p w = Ok (ActivePointer (p_source_generation p) (hexdigest b) SOURCE_STORE_VERSION).
Proof using Hp Hptr.
  intros Ha Hg. unfold require_source_active. run (active_source w Ha). cbn [ap_generation].
  rewrite bool_decide_true by done. passes; [cbn; by rewrite (pl_sha _ _ _ _ Hp), bool_decide_true|].
  run (source_inspected w Hg). passes; [apply observed_same|done].
Qed.

Lemma source_current w :
  w_active w = w_active w0 → w_generations w !! p_source_generation p = Some sd →
  verify_current_source p w = Ok the_observation.
Proof using Hp Hptr.
  intros Ha Hg. unfold verify_current_source. run (active_source w Ha). cbn [ap_generation ap_store_sha256].
  passes; [by apply bool_decide_eq_true|]. run (source_inspected w Hg).
  passes; [by apply bool_decide_eq_true|]. passes; [apply observed_same|done].
Qed.

(** The journal and the durable state of an interrupted migration. *)
Definition stage_ok (m : Z) (st : pystr) : Prop := 0 <= m ∧ st ∈ STAGES.
Definition journal_at (m : Z) (st : pystr) : journal := Journal (p_plan_digest p) (p_source_digest p) m st.
Definition journal_file (m : Z) (st : pystr) : file := FJson (journal_dict (journal_at m st)).
Definition journaled (w : world) : Prop := ∃ m st, stage_ok m st ∧ w_journal w = Some (journal_file m st).

(** [torn] says whether PLAN.json or JOURNAL.json may be a file created and not yet written. *)
Record interrupted (torn : Prop) (w : world) : Prop := Interrupted {
  i_source : w_generations w !! p_source_generation p = Some sd;
  i_plan : w_plan w = None ∨ w_plan w = Some (FJson (plan_dict p)) ∨ torn ∧ w_plan w = Some (FBytes []);
  i_journal : w_journal w = None ∨ journaled w ∨ torn ∧ w_journal w = Some (FBytes []);
  i_backup : w_backup w = None ∨ w_backup w = Some backup_dir;
  i_shadow : w_shadow w = None ∨ w_shadow w = Some target_dir;
  i_stage :
    (w_generations w !! p_target_generation p = None ∧ w_active w = w_active w0) ∨
    (w_generations w !! p_target_generation p = Some target_dir ∧ w_backup w = Some backup_dir ∧ journaled w ∧
     (w_active w = w_active w0 ∨ w_active w = Some target_active));
}.
Local Notation inv := (interrupted False).
Local Notation crashed := (interrupted True).

Lemma inv_crashed w : inv w → crashed w.
Proof using Type. intros [? ? ? ? ? ?]. constructor; try done; naive_solver. Qed.

(** The invariant sees nothing of the pending directories and the pending pointer. *)
Definition core (w : world) :=
  (w_active w, w_generations w, w_plan w, w_journal w, w_backup w, w_shadow w).
Lemma core_inv torn w v : core v = core w → interrupted torn w → interrupted torn v.
Proof using Type.
  destruct w, v. unfold core. cbn. intros [= -> -> -> -> -> ->] [? ? ? ? ? ?]. by constructor.
Qed.

(** The only errors of a resumed run are the observer's. *)
Definition post {A} (k : A → world → Prop) (r : result A) (w : world) : Prop :=
  inv w ∧ match r with Ok a => k a w | Err er => ∃ stage, observer e stage = Err er end.

Lemma wp_then {A B} (m : crash world A) (f : A → crash world B) k k' w :
  wp m crashed (post k) w → (∀ a v, inv v → k a v → wp (f a) crashed (post k') v) →
  wp (m ≫= f) crashed (post k') w.
Proof using Type.
  intros Hm Hf. apply wp_bind. eapply wp_mono; [exact Hm|done|]. intros [a|er] v [Hi Hk]; cbn; [by apply Hf|by split].
Qed.
Lemma wp_see {A B} (g : world → result A) (f : A → crash world B) a k w :
  g w = Ok a → wp (f a) crashed (post k) w → wp (reads g ≫= f) crashed (post k) w.
Proof using Type. apply wp_bind_reads. Qed.
Lemma wp_is {A B} (r : result A) (f : A → crash world B) a k w :
  r = Ok a → wp (f a) crashed (post k) w → wp (lift r ≫= f) crashed (post k) w.
Proof using Type. apply wp_bind_lift. Qed.
Lemma wp_put {B} g (f : unit → crash world B) k w :
  inv w → wp (f tt) crashed (post k) (g w) → wp (write g ≫= f) crashed (post k) w.
Proof using Type. intros Hi Hf. wp_step. apply wp_write; [by apply inv_crashed|done]. Qed.
Lemma wp_watch {B} stage (f : unit → crash world B) k w :
  inv w → wp (f tt) crashed (post k) w → wp (observe e stage ≫= f) crashed (post k) w.
Proof using Type.
  intros Hi Hf. wp_step. unfold observe. wp_step. destruct (observer e stage) as [[]|er] eqn:E; cbn; [done|].
  split; [done|by exists stage].
Qed.
Lemma wp_done {A} (a : A) (k : A → world → Prop) w : inv w → k a w → wp (mret a) crashed (post k) w.
Proof using Type. intros Hi Hk. apply wp_ret. by split. Qed.
Lemma wp_weaken {A} (m : crash world A) (k k' : A → world → Prop) w :
  wp m crashed (post k) w → (∀ a v, inv v → k a v → k' a v) → wp m crashed (post k') w.
Proof using Type.
  intros Hm Hk. eapply wp_mono; [exact Hm|done|]. intros [a|er] v [Hi Hka]; split; try done. by apply Hk.
Qed.

(** Moving the journal of a world. *)
Definition at_stage (m : Z) (st : pystr) (w : world) : world := set_journal (Some (journal_file m st)) w.

Lemma at_stage_inv torn m st w : stage_ok m st → interrupted torn w → interrupted torn (at_stage m st w).
Proof using Type.
  intros Hm [? ? ? ? ? Hs]. assert (journaled (at_stage m st w)) by (by exists m, st).
  constructor; cbn; try done; [by right; left|]. destruct Hs as [?|(? & ? & ? & ?)]; [by left|by right].
Qed.

Lemma load_at m st w : stage_ok m st → w_journal w = Some (journal_file m st) → load_journal p w = Ok (journal_at m st).
Proof using Type.
  intros [Hm Hs] Hw. unfold load_journal. rewrite Hw. cbn [journal_file read_strict_json catch_migration mbind result_bind].
  by apply journal_round_trip.
Qed.

Lemma stage_index_ok st : st ∈ STAGES → ∃ i, stage_index st = Ok i ∧ (i <= 5)%nat ∧ STAGES !! i = Some st.
Proof using Type.
  unfold STAGES at 1. rewrite !elem_of_cons.
  intros [->|[->|[->|[->|[->|[->|Hin%not_elem_of_nil]]]]]]; [..|done];
    (eexists; split; [vm_compute; reflexivity|]; split; [lia|reflexivity]).
Qed.
Lemma stage_at i : (i <= 5)%nat → ∃ st, STAGES !! i = Some st ∧ st ∈ STAGES ∧ stage_index st = Ok i.
Proof using Type.
  intros Hi. do 6 (destruct i as [|i]; [eexists; split; [reflexivity|]; split;
    [unfold STAGES; repeat (apply list_elem_of_here || apply list_elem_of_further)|vm_compute; reflexivity]|]). lia.
Qed.

(** From a journal at some stage, what advancing leaves: a journal at some stage. *)
Definition moved (w v : world) : Prop := ∃ m st, stage_ok m st ∧ v = at_stage m st w.

Lemma wp_advance w m st i target ti :
  inv w → stage_ok m st → stage_index st = Ok i → target ∈ STAGES → stage_index target = Ok ti → (ti <= S i)%nat →
  wp (advance p target) crashed (post (λ j v, ∃ m' st', stage_ok m' st' ∧ j = journal_at m' st'
      ∧ v = at_stage m' st' w ∧ stage_index st' = Ok (Nat.max i ti))) (at_stage m st w).
Proof using Type.
  intros Hi Hm Hst Ht Hti Hle. unfold advance.
  assert (inv (at_stage m st w)) as Hw by by apply at_stage_inv.
  eapply wp_is; [apply mneed_true; by apply bool_decide_eq_true|].
  eapply wp_see; [by apply (load_at m st)|]. cbn [journal_at j_stage j_sequence].
  eapply wp_is; [exact Hst|]. eapply wp_is; [exact Hti|]. destruct (ti <=? i)%nat eqn:E.
  - apply Nat.leb_le in E. apply wp_done; [done|]. exists m, st. split_and!; try done.
    by rewrite Nat.max_l.
  - apply Nat.leb_gt in E. assert (ti = S i) as -> by lia.
    eapply wp_is; [apply mneed_true; by apply Nat.eqb_eq|]. unfold write_json_atomic.
    assert (stage_ok (m + 1) target) as Hm' by (destruct Hm; split; [lia|done]).
    apply wp_put; [done|]. change (set_journal _ _) with (at_stage (m + 1) target w).
    apply wp_done; [by apply at_stage_inv|]. exists (m + 1), target. split_and!; try done.
    by rewrite Nat.max_r by lia.
Qed.

Lemma wp_advance_loop fuel w m st i target ti :
  inv w → stage_ok m st → stage_index st = Ok i → target ∈ STAGES → stage_index target = Ok ti → (ti <= 5)%nat →
  (ti - i < fuel)%nat →
  wp (advance_loop fuel p target (journal_at m st)) crashed (post (λ _, moved w)) (at_stage m st w).
Proof using Type.
  intros Hi. revert m st i. induction fuel as [|fuel IH]; intros m st i Hm Hst Ht Hti H5 Hf; [lia|].
  cbn [advance_loop journal_at j_stage]. eapply wp_is; [exact Hst|]. eapply wp_is; [exact Hti|].
  destruct (i <? ti)%nat eqn:E.
  - apply Nat.ltb_lt in E. destruct (stage_at (S i)) as (nx & Hnx & Hnxs & Hnxi); [lia|].
    eapply wp_is; [by rewrite Hnx|]. eapply wp_then; [by eapply wp_advance|].
    intros j v Hv (m' & st' & Hm' & -> & -> & Hi'). rewrite Nat.max_r in Hi' by lia.
    eapply wp_weaken; [eapply (IH m' st' (S i)); [done|done|done|done|done|lia]|done].
  - apply wp_done; [by apply at_stage_inv|]. by exists m, st.
Qed.

Lemma wp_advance_to w target :
  inv w → journaled w → target ∈ STAGES → wp (advance_to p target) crashed (post (λ _, moved w)) w.
Proof using Type.
  intros Hi (m & st & Hm & Hw) Ht. unfold advance_to.
  eapply wp_is; [apply mneed_true; by apply bool_decide_eq_true|]. eapply wp_see; [by apply load_at|].
  destruct (stage_index_ok st) as (i & Hst & _ & _); [apply Hm|].
  destruct (stage_index_ok target Ht) as (ti & Hti & H5 & _).
  assert (at_stage m st w = w) as Ew by (destruct w; cbn in Hw; by rewrite Hw).
  change (length STAGES) with 6%nat. pose proof (wp_advance_loop 7 w m st i target ti Hi Hm Hst Ht Hti H5) as HL.
  rewrite Ew in HL. apply HL. lia.
Qed.

(** ** The operations *)

Definition ready (w : world) : Prop := w_plan w = Some (FJson (plan_dict p)) ∧ journaled w.
(** What [initialize] and the journal never touch. *)
Definition store_and_dirs (w : world) := (w_active w, w_generations w, w_backup w, w_shadow w).

Lemma moved_ready w v : moved w v → ready w → ready v.
Proof using Type. intros (m & st & Hm & ->) [Hpl _]. split; [done|]. by exists m, st. Qed.
Lemma moved_same w v : moved w v → store_and_dirs v = store_and_dirs w.
Proof using Type. by intros (m & st & Hm & ->). Qed.

Lemma plan_same : py_eq (plan_dict p) (plan_dict p) = true.
Proof using Hp.
  apply py_eq_sdict; [vm_compute; reflexivity|]. pose proof versions_same. pose proof inventory_same.
  unfold identity_fields. cbn [app]. rewrite !Forall_cons. split_and!; try done; by apply py_eq_atom.
Qed.

Lemma wp_journal w : inv w → w_plan w = Some (FJson (plan_dict p)) →
  wp (existing ← reads (λ w, Ok (w_journal w));
      match existing with
      | Some _ => reads (load_journal p)
      | None =>
          _ ← write_json_exclusive w_journal set_journal (journal_dict (journal_at 0 (str "PLANNED")));
          mret (journal_at 0 (str "PLANNED"))
      end) crashed (post (λ _ v, ready v ∧ store_and_dirs v = store_and_dirs w)) w.
Proof using Type.
  intros Hi Hpl. eapply wp_see; [reflexivity|].
  destruct (i_journal _ _ Hi) as [Hj|[(m & st & Hm & Hj)|[[] _]]]; rewrite Hj.
  - assert (stage_ok 0 (str "PLANNED")) as H0s by (split; [done|unfold STAGES; apply list_elem_of_here]).
    assert (inv (at_stage 0 (str "PLANNED") w)) as Hi' by by apply at_stage_inv.
    apply wp_bind. unfold write_json_exclusive. apply wp_bind. wp_step. rewrite Hj. cbn [next].
    apply wp_bind. apply wp_write; [by apply inv_crashed|]. cbn [next].
    apply wp_write; cbn [next].
    { destruct Hi as [? ? ? ? ? Hs]. constructor; cbn; try done; [by destruct i_plan0 as [?|[?|[[] _]]]; auto| |].
      - by right; right.
      - left. destruct Hs as [?|(_ & _ & (? & ? & _ & Hx) & _)]; [done|]. congruence. }
    change (set_journal (Some (FJson _)) (set_journal _ w)) with (at_stage 0 (str "PLANNED") w).
    apply wp_done; [done|]. split; [|done]. split; [done|]. by exists 0, (str "PLANNED").
  - wp_step. rewrite (load_at m st w Hm Hj). split; [done|]. split; [|done]. split; [done|]. by exists m, st.
Qed.

Lemma wp_initialize w : inv w →
  wp (initialize p) crashed (post (λ _ v, ready v ∧ store_and_dirs v = store_and_dirs w)) w.
Proof using Hp.
  intros Hi. unfold initialize. eapply wp_see; [reflexivity|].
  destruct (i_plan _ _ Hi) as [Hpl|[Hpl|[[] _]]]; rewrite Hpl.
  - assert (inv (set_plan (Some (FJson (plan_dict p))) w)) as Hi'.
    { destruct Hi as [? ? ? ? ? Hs]. constructor; cbn; try done. by right; left. }
    apply wp_bind. unfold write_json_exclusive. apply wp_bind. wp_step. rewrite Hpl. cbn [next].
    apply wp_bind. apply wp_write; [by apply inv_crashed|]. cbn [next]. apply wp_write; cbn [next].
    { destruct Hi as [? ? Hj ? ? Hs]. constructor; cbn; try done; [by right; right|].
      destruct Hj as [?|[?|[[] _]]]; auto. }
    change (set_plan (Some (FJson ?v)) (set_plan _ w)) with (set_plan (Some (FJson v)) w).
    by apply (wp_journal (set_plan (Some (FJson (plan_dict p))) w)).
  - eapply wp_see; [|by apply wp_journal].
    rewrite Hpl. cbn [read_strict_json catch_migration mbind result_bind]. by rewrite plan_same.
Qed.

Lemma stage_member st : is_stage st = true → st ∈ STAGES.
Proof using Type. apply bool_decide_eq_true. Qed.

Lemma wp_remove_tree {B} put d (f : unit → crash world B) k w :
  (∀ x v, core (put x v) = core v) → inv w →
  (∀ v, core v = core w → wp (f tt) crashed (post k) v) →
  wp (remove_owned_tree put d ≫= f) crashed (post k) w.
Proof using Type.
  intros Hput Hi Hf. eapply (wp_then _ _ (λ _ v, core v = core w)); [|by intros [] v _ Hv; apply Hf].
  destruct d as [d|]; cbn [remove_owned_tree]; [|by apply wp_done].
  assert (core w = core w) as Hw by done. revert Hw. generalize w at 1 4 as v. generalize (map_to_list d).*1 as l.
  intros l. revert d. induction l as [|x l IH]; intros d v Hv; cbn [unlink_all].
  - apply wp_write; [apply inv_crashed; by eapply core_inv|].
    assert (core (put None v) = core w) as E by by rewrite Hput. split; [by eapply core_inv|done].
  - apply wp_put; [by eapply core_inv|]. apply IH. by rewrite Hput.
Qed.

(** Writing a manifest into a pending directory that has none. *)
Lemma wp_manifest {B} get put v (f : unit → crash world B) k w d :
  (∀ x u, core (put x u) = core u) → (∀ x u, get (put x u) = x) → (∀ x y u, put x (put y u) = put x u) →
  inv w → get w = Some d → d !! MANIFEST = None →
  wp (f tt) crashed (post k) (put (Some (<[MANIFEST := FJson v]> d)) w) →
  wp (write_json_exclusive (dir_file get MANIFEST) (put_dir_file get put MANIFEST) v ≫= f) crashed (post k) w.
Proof using Type.
  intros Hcore Hget Hput Hi Hw Hd Hf. apply wp_bind. unfold write_json_exclusive.
  apply wp_bind. wp_step. unfold dir_file. rewrite Hw. cbn [mbind option_bind]. rewrite Hd. cbn [next].
  apply wp_bind. unfold put_dir_file. apply wp_write; [by apply inv_crashed|]. cbn [next]. rewrite Hw. cbn [default].
  apply wp_write; [apply inv_crashed; eapply core_inv; [apply Hcore|done]|]. cbn [next].
  rewrite Hget. cbn. rewrite Hput. unfold directory in *. rewrite insert_insert_eq. exact Hf.
Qed.

Definition in_backup (d : directory) (w : world) : world := set_backup_pending (Some d) w.

Lemma in_backup_inv d w : inv w → inv (in_backup d w).
Proof using Type. by apply core_inv. Qed.

(** The backup is made: what the migration directory holds then. *)
Definition backed_up (w v : world) : Prop :=
  w_active v = w_active w ∧ w_generations v = w_generations w ∧ ready v ∧ w_backup v = Some backup_dir.

Lemma set_backup_inv w :
  inv w → inv (set_backup_pending None (set_backup (Some backup_dir) w)).
Proof using Type.
  intros [? ? ? ? ? Hs]. constructor; cbn; try done; [by right|].
  destruct Hs as [?|(? & ? & ? & ?)]; [by left|by right].
Qed.

Lemma wp_make_backup w : inv w → ready w →
  wp (make_backup e p the_observation) crashed (post (λ _ v, backed_up w v)) (in_backup ∅ w).
Proof using Hp.
  intros Hi Hr. unfold make_backup. apply wp_watch; [by apply in_backup_inv|].
  eapply (wp_then _ _ (λ r v, r = (len b, hexdigest b) ∧ v = in_backup {[STORE := FBytes b]} w)).
  { unfold copy_file_fsync. apply wp_put; [by apply in_backup_inv|].
    apply wp_put; [exact (in_backup_inv {[STORE := FBytes []]} w Hi)|]. wp_step.
    change (put_dir_file _ _ _ _ (put_dir_file _ _ _ _ (in_backup ∅ w))) with (in_backup {[STORE := FBytes b]} w).
    split; [by apply in_backup_inv|]. by split. }
  intros [size digest] v _ [[= -> ->] ->]. assert (inv (in_backup {[STORE := FBytes b]} w)) as Hv by by apply in_backup_inv.
  apply wp_watch; [done|].
  eapply wp_see; [exact (inspect_copy {[STORE := FBytes b]} eq_refl eq_refl)|].
  eapply wp_is.
  { apply mneed_true. cbn. by rewrite (pl_sha _ _ _ _ Hp), (pl_size _ _ _ _ Hp), Z.eqb_refl, !bool_decide_true. }
  eapply (wp_manifest _ _ _ _ _ _ {[STORE := FBytes b]}); [done..|].
  change (set_backup_pending _ (in_backup _ w)) with (in_backup backup_dir w).
  assert (inv (in_backup backup_dir w)) as Hb by by apply in_backup_inv.
  eapply wp_see; [exact backup_verified|]. apply wp_watch; [done|].
  apply wp_write; [by apply inv_crashed|].
  change (rename_backup (in_backup backup_dir w)) with (set_backup_pending None (set_backup (Some backup_dir) w)).
  split; [by apply set_backup_inv|]. by repeat split; try apply Hr.
Qed.

Lemma wp_backup_stage w : inv w → backed_up w w →
  wp (m ← reads (verify_backup p); _ ← advance p (str "BACKUP_VERIFIED"); mret m) crashed
    (post (λ m v, m = the_backup ∧ backed_up w v)) w.
Proof using Hp.
  intros Hi (_ & _ & [Hpl (m & st & Hm & Hj)] & Hb). eapply wp_see.
  { unfold verify_backup. rewrite Hb. exact backup_verified. }
  destruct (stage_index_ok st) as (i & Hst & _ & _); [apply Hm|].
  assert (at_stage m st w = w) as Ew by (destruct w; cbn in Hj; by rewrite Hj).
  pose proof (wp_advance w m st i (str "BACKUP_VERIFIED") 1%nat Hi Hm Hst (stage_member (str "BACKUP_VERIFIED") eq_refl) eq_refl
    (le_n_S _ _ (Nat.le_0_l i))) as HA. rewrite Ew in HA.
  eapply wp_then; [exact HA|]. intros j v Hv (m' & st' & Hm' & -> & -> & _). apply wp_done; [done|].
  split; [done|]. split_and!; try done. split; [done|]. by exists m', st'.
Qed.

Lemma wp_backup w : inv w → w_active w = w_active w0 →
  wp (create_verified_backup e p) crashed (post (λ _ v, backed_up w v)) w.
Proof using Hp Hptr.
  intros Hi Ha. unfold create_verified_backup.
  eapply wp_see; [exact (source_current w Ha (i_source _ _ Hi))|].
  eapply wp_then; [by apply wp_initialize|]. intros _ v Hv [Hr Hsame]. unfold store_and_dirs in Hsame.
  injection Hsame as Ea Eg Eb Es.
  eapply wp_see; [reflexivity|].
  destruct (i_backup _ _ Hv) as [Hb|Hb]; rewrite Hb.
  - eapply wp_see; [reflexivity|]. apply wp_remove_tree; [done|done|]. intros u Hu.
    assert (inv u) as Hiu by by eapply core_inv. unfold core in Hu. injection Hu as Ua Ug Up Uj Ub Us.
    assert (ready u) as Hru.
    { destruct Hr as [Hpl (m & st & Hm & Hj)]. split; [congruence|]. exists m, st. split; [done|congruence]. }
    apply wp_put; [done|]. eapply wp_then; [exact (wp_make_backup u Hiu Hru)|].
    intros _ x Hx (Xa & Xg & Xr & Xb).
    eapply wp_weaken; [by apply wp_backup_stage|]. intros m y _ [_ (Ya & Yg & Yr & Yb)].
    split_and!; congruence || done.
  - eapply wp_weaken; [by apply wp_backup_stage|]. intros m y _ [_ (Ya & Yg & Yr & Yb)].
    split_and!; congruence || done.
Qed.

Lemma backed_up_core w u v : core v = core u → backed_up w u → backed_up w v.
Proof using Type.
  unfold core. intros [= Ua Ug Up Uj Ub Us] (Ha & Hg & [Hpl (m & st & Hm & Hj)] & Hb).
  split_and!; try congruence. split; [congruence|]. exists m, st. split; [done|congruence].
Qed.

Lemma backed_up_moved w u v : moved u v → backed_up w u → backed_up w v.
Proof using Type.
  intros (m & st & Hm & ->) (Ha & Hg & [Hpl _] & Hb). split_and!; try done. split; [done|]. by exists m, st.
Qed.

Lemma backed_up_file w u : backed_up w u → dir_file w_backup STORE u = Some (FBytes b).
Proof using Type. intros (_ & _ & _ & Hb). unfold dir_file. by rewrite Hb. Qed.

Definition in_shadow (d : directory) (w : world) : world := set_shadow_pending (Some d) w.
Lemma in_shadow_inv d w : inv w → inv (in_shadow d w).
Proof using Type. by apply core_inv. Qed.

Lemma wp_build_database w : inv w → w_backup w = Some backup_dir →
  wp (build_database e p the_backup) crashed (post (λ _ v, v = in_shadow {[STORE := FBytes image]} w)) (in_shadow ∅ w).
Proof using Hp Hconv.
  intros Hi Hb. unfold build_database.
  eapply wp_see. { unfold dir_file. change (w_backup (in_shadow ∅ w)) with (w_backup w). rewrite Hb. reflexivity. }
  apply wp_put; [by apply in_shadow_inv|]. apply wp_watch; [exact (in_shadow_inv {[STORE := FBytes []]} w Hi)|].
  eapply wp_is.
  { change (file_bytes (FBytes b)) with b. unfold database_of. rewrite (pl_open _ _ _ _ Hp). exact Hconv. }
  apply wp_watch; [exact (in_shadow_inv {[STORE := FBytes []]} w Hi)|].
  apply wp_put; [exact (in_shadow_inv {[STORE := FBytes []]} w Hi)|].
  apply wp_put; [exact (in_shadow_inv (<[JOURNAL_SIDE := FBytes []]> {[STORE := FBytes []]}) w Hi)|].
  apply wp_put; [exact (in_shadow_inv (<[STORE := FBytes image]> (<[JOURNAL_SIDE := FBytes []]> {[STORE := FBytes []]})) w Hi)|].
  match goal with |- wp _ _ _ ?x => change x with (in_shadow {[STORE := FBytes image]} w) end.
  assert (inv (in_shadow {[STORE := FBytes image]} w)) as Hs by by apply in_shadow_inv.
  unfold observe. wp_step. destruct (observer e "shadow.after_fsync") eqn:E; split; try done. by eexists.
Qed.

Lemma set_shadow_inv w : inv w → inv (set_shadow_pending None (set_shadow (Some target_dir) w)).
Proof using Type. intros [? ? ? ? ? Hs]. constructor; cbn; try done. by right. Qed.

Lemma image_dir :
  ({[STORE := FBytes image]} : directory) !! STORE = Some (FBytes image)
  ∧ quiescent {[STORE := FBytes image]} = true.
Proof using Type. split; vm_compute; reflexivity. Qed.

Lemma wp_make_shadow w : inv w → backed_up w w →
  wp (make_shadow e p the_backup) crashed
    (post (λ _ v, backed_up w v ∧ w_shadow v = Some target_dir)) (in_shadow ∅ w).
Proof using Hp Hconv Hvalid Hlimit Hunknown.
  intros Hi Hbu. assert (w_backup w = Some backup_dir) as Hb by apply Hbu. unfold make_shadow.
  eapply wp_then; [by apply wp_build_database|]. intros _ v Hv ->.
  assert (∀ d, dir_file w_backup STORE (in_shadow d w) = Some (FBytes b)) as Hd by (intros d; by apply (backed_up_file w)).
  eapply wp_see.
  { change (w_shadow_pending (in_shadow ?d w)) with (Some d). cbn [of_option mbind result_bind].
    rewrite (validated _ _ (Hd _) (proj1 image_dir) (proj2 image_dir)). exact expected_the_shadow. }
  unfold put_shadow_file. eapply (wp_manifest _ _ _ _ _ _ {[STORE := FBytes image]}); [done..|].
  change (set_shadow_pending _ (in_shadow _ w)) with (in_shadow target_dir w).
  assert (inv (in_shadow target_dir w)) as Ht by by apply in_shadow_inv.
  eapply wp_see; [exact (shadow_verified _ (Hd _))|].
  apply wp_write; [by apply inv_crashed|].
  change (rename_shadow (in_shadow target_dir w)) with (set_shadow_pending None (set_shadow (Some target_dir) w)).
  split; [by apply set_shadow_inv|]. split; [|done].
  destruct Hbu as (_ & _ & Hr & _). by split_and!.
Qed.

Lemma wp_shadow_stage w st : inv w → backed_up w w → w_shadow w = Some target_dir → st ∈ STAGES →
  wp (advance_to p st) crashed (post (λ _ v, backed_up w v ∧ w_shadow v = Some target_dir)) w.
Proof using Type.
  intros Hi Hb Hs Hst. eapply wp_weaken; [apply wp_advance_to; [done|apply Hb|done]|].
  intros j v _ Hm. cbn beta in Hm. split; [by eapply backed_up_moved|]. apply moved_same in Hm. unfold store_and_dirs in Hm. congruence.
Qed.

Lemma backed_up_refl w v : backed_up w v → backed_up v v.
Proof using Type. intros (_ & _ & ? & ?). by split_and!. Qed.
Lemma backed_up_trans w u v : backed_up w u → backed_up u v → backed_up w v.
Proof using Type. intros (? & ? & _ & _) (? & ? & ? & ?). split_and!; congruence || done. Qed.

Lemma shadow_read w u : backed_up w u → w_shadow u = Some target_dir →
  verify_shadow_directory p the_backup u (w_shadow u) = Ok the_shadow.
Proof using Hp Hvalid Hlimit Hunknown. intros Hb ->. apply shadow_verified. by eapply backed_up_file. Qed.

Lemma wp_shadow w : inv w → backed_up w w →
  wp (build_shadow e p) crashed (post (λ _ v, backed_up w v ∧ w_shadow v = Some target_dir)) w.
Proof using Hp Hconv Hvalid Hlimit Hunknown.
  intros Hi Hbu. unfold build_shadow.
  eapply wp_see; [apply backup_required; apply Hbu|].
  eapply wp_then; [by apply wp_initialize|]. intros _ v1 H1 [Hr1 Hs1].
  assert (backed_up w v1) as B1.
  { unfold store_and_dirs in Hs1. injection Hs1 as ? ? Eb ?. destruct Hbu as (_ & _ & _ & Hb).
    split_and!; congruence || done. }
  eapply wp_then; [apply wp_advance_to; [done|apply B1|by apply stage_member]|]. intros j2 v2 H2 M2. cbn beta in M2.
  assert (backed_up w v2) as B2 by by eapply backed_up_moved.
  eapply wp_see; [reflexivity|]. eapply wp_see; [reflexivity|].
  apply wp_remove_tree; [done|done|]. intros v3 C3.
  assert (inv v3) as H3 by by eapply core_inv.
  assert (backed_up w v3) as B3 by by eapply backed_up_core.
  assert (w_shadow v3 = w_shadow v2) as E3 by (unfold core in C3; congruence).
  destruct (i_shadow _ _ H2) as [Hs|Hs]; rewrite Hs; rewrite Hs in E3.
  - apply wp_put; [done|].
    eapply wp_then; [apply (wp_make_shadow v3); [done|by eapply backed_up_refl]|]. intros _ v4 H4 [B4 S4].
    assert (backed_up w v4) as B4' by by eapply backed_up_trans.
    eapply wp_then; [apply wp_shadow_stage; [done|by eapply backed_up_refl|done|by apply stage_member]|].
    intros _ v5 H5 [B5 S5]. eapply wp_see; [by eapply shadow_read|]. apply wp_watch; [done|].
    assert (backed_up w v5) as B5' by by eapply backed_up_trans.
    eapply wp_then; [apply wp_shadow_stage; [done|by eapply backed_up_refl|done|by apply stage_member]|].
    intros _ v6 H6 [B6 S6]. apply wp_done; [done|]. split; [by eapply backed_up_trans|done].
  - eapply wp_see; [by eapply shadow_read|].
    eapply wp_then; [apply wp_shadow_stage; [done|by eapply backed_up_refl|done|by apply stage_member]|].
    intros _ v6 H6 [B6 S6]. apply wp_done; [done|]. split; [by eapply backed_up_trans|done].
Qed.

(** The target is published; the active pointer is as given. *)
Definition released (f : option file) (w : world) : Prop :=
  w_generations w !! p_target_generation p = Some target_dir ∧ w_backup w = Some backup_dir ∧ journaled w ∧ w_active w = f.

Lemma released_moved f w v : moved w v → released f w → released f v.
Proof using Type.
  intros (m & st & Hm & ->) (? & ? & _ & ?). split_and!; try done. by exists m, st.
Qed.

Lemma wp_release st f w : inv w → released f w → st ∈ STAGES →
  wp (m ← reads (verify_published p); _ ← advance_to p st; mret m) crashed
    (post (λ m v, m = the_shadow ∧ released f v)) w.
Proof using Hp Hvalid Hlimit Hunknown.
  intros Hi Hr Hst. eapply wp_see; [by apply published_verified; apply Hr|].
  eapply wp_then; [apply wp_advance_to; [done|apply Hr|done]|]. intros j v Hv Hm. cbn beta in Hm.
  apply wp_done; [done|]. split; [done|by eapply released_moved].
Qed.

Lemma publish_inv w : inv w → backed_up w w → w_shadow w = Some target_dir → w_active w = w_active w0 →
  inv (publish p w) ∧ released (w_active w0) (publish p w).
Proof using Hne.
  intros [? ? ? ? ? Hs] (_ & _ & [_ Hr] & Hb) Hsh Ha. unfold publish. rewrite Hsh. split.
  - constructor; cbn; try done; [by rewrite lookup_insert_ne|by left|].
    right. rewrite lookup_insert_eq. split_and!; try done; by left.
  - split_and!; try done. cbn. by rewrite lookup_insert_eq.
Qed.

Lemma wp_publish_target w : inv w → backed_up w w → w_active w = w_active w0 →
  wp (publish_target e p) crashed (post (λ m v, m = the_shadow ∧ released (w_active w0) v)) w.
Proof using Hp Hptr Hconv Hvalid Hlimit Hunknown Hne Hdev.
  intros Hi Hb Ha. unfold publish_target. eapply wp_see; [reflexivity|].
  destruct (target_root p w) as [d|] eqn:Ht.
  - assert (released (w_active w0) w) as Hr.
    { unfold target_root in Ht. destruct (i_stage _ _ Hi) as [[E _]|(E & ? & ? & _)]; [congruence|].
      by split_and!. }
    by apply wp_release; [..|apply stage_member].
  - eapply wp_then; [by apply wp_shadow|]. intros m v Hv [Bv Sv].
    assert (w_active v = w_active w0) as Av by (destruct Bv as (? & _); congruence).
    eapply wp_see; [by apply source_active; [|apply Hv]|].
    eapply wp_is; [by apply mneed_true|]. apply wp_watch; [done|]. apply wp_put; [done|].
    destruct (publish_inv v) as [Hpi Hpr]; [done|by eapply backed_up_refl|done|done|].
    apply wp_watch; [done|]. by apply wp_release; [..|apply stage_member].
Qed.

Lemma set_pending_inv f w : inv w → inv (set_pending f w).
Proof using Type. by apply core_inv. Qed.

Lemma wp_switch_pointer w : inv w → released (w_active w0) w →
  wp (switch_pointer e p the_shadow) crashed (post (λ _ v, released (Some target_active) v)) w.
Proof using Type.
  intros Hi Hr. unfold switch_pointer.
  eapply (wp_then _ _ (λ _ v, v = set_pending None w)).
  { unfold remove_pending. eapply wp_see; [reflexivity|]. destruct (w_pending w) as [f|] eqn:E.
    - apply wp_write; [by apply inv_crashed|]. split; [by apply set_pending_inv|done].
    - apply wp_done; [done|]. destruct w; cbn in *; by subst. }
  intros _ v Hv ->. apply wp_bind. unfold write_json_exclusive. apply wp_bind. wp_step. cbn [next].
  change (w_pending (set_pending None w)) with (@None file). cbn iota.
  apply wp_bind. apply wp_write; [by apply inv_crashed|]. cbn [next].
  apply wp_write; [apply inv_crashed; exact (set_pending_inv (Some (FBytes [])) w Hi)|]. cbn [next].
  apply wp_watch; [exact (set_pending_inv (Some target_active) w Hi)|].
  apply wp_put; [exact (set_pending_inv (Some target_active) w Hi)|].
  match goal with |- wp _ _ _ ?x => change x with (set_pending None (set_active (Some target_active) w)) end.
  assert (inv (set_pending None (set_active (Some target_active) w))) as Hf.
  { destruct Hi as [? ? ? ? ? Hs]. destruct Hr as (? & ? & ? & _). constructor; cbn; try done.
    right. split_and!; try done. by right. }
  unfold observe. wp_step. destruct (observer e "switch.after_replace") as [[]|er] eqn:E; cbn; split; try done.
  - destruct Hr as (? & ? & ? & _). by split_and!.
  - by exists "switch.after_replace"%string.
Qed.

(** What a run that returns leaves. *)
Definition activated (r : migration_result) (w : world) : Prop :=
  r = migration_result_of p the_shadow w ∧ r_old_generation_retained r = true ∧
  w_active w = Some target_active ∧ w_generations w !! p_target_generation p = Some target_dir ∧
  w_generations w !! p_source_generation p = Some sd ∧ w_backup w = Some backup_dir.

Lemma wp_finish_run w : inv w → released (Some target_active) w →
  wp (finish p the_shadow) crashed (post activated) w.
Proof using Hp.
  intros Hi Hr. unfold finish. eapply wp_see.
  { unfold require_target_pointer. run (active_target w (proj2 (proj2 (proj2 Hr)))). cbn [ap_generation ap_store_version ap_store_sha256].
    rewrite mneed_true; [reflexivity|]. by rewrite !bool_decide_true. }
  eapply wp_then; [apply wp_advance_to; [done|apply Hr|by apply stage_member]|]. intros j v Hv Hm. cbn beta in Hm.
  assert (released (Some target_active) v) as (Hg & Hb & _ & Ha) by by eapply released_moved.
  wp_step. split; [done|]. pose proof (i_source _ _ Hv) as Hs. split_and!; try done. cbn. by rewrite Hs.
Qed.

(** From every interrupted state, a run ends with the target active, unless the observer stops it;
    and all the states it passes can be resumed in turn, but for torn files. *)
Lemma wp_run w : inv w → wp (run_migration false e p) crashed (post activated) w.
Proof using Hp Hptr Hconv Hvalid Hlimit Hunknown Hne Hdev.
  intros Hi. unfold run_migration, run_migration_locked. eapply wp_is; [done|].
  assert (w_active w = w_active w0 ∨ released (Some target_active) w ∧ w_active w = Some target_active) as Ha.
  { destruct (i_stage _ _ Hi) as [[_ ?]|(Hg & Hb & Hj & [?|?])]; [by left|by left|].
    right. by split_and!. }
  destruct Ha as [Ha|[Hr Ha]].
  - eapply wp_see; [by apply active_source|]. cbn [ap_generation]. rewrite bool_decide_false by done.
    eapply wp_is; [apply mneed_true; by rewrite bool_decide_true|].
    eapply wp_see; [by apply source_active; [|apply Hi]|].
    eapply wp_then; [by apply wp_backup|]. intros m1 v Hv Bv. cbn beta in Bv.
    assert (w_active v = w_active w0) as Av by (destruct Bv as (? & _); congruence).
    eapply wp_then; [apply wp_publish_target; [done|by eapply backed_up_refl|done]|]. intros m u Hu [-> Ru].
    eapply wp_see; [apply source_active; [apply Ru|apply Hu]|]. cbn [ap_generation].
    rewrite bool_decide_false by done.
    eapply wp_then; [by apply wp_switch_pointer|]. intros m3 x Hx Rx. cbn beta in Rx.
    eapply wp_see; [by apply published_verified; apply Rx|]. by apply wp_finish_run.
  - eapply wp_see; [by apply active_target|]. cbn [ap_generation]. rewrite bool_decide_true by done.
    eapply wp_see; [by apply published_verified; apply Hr|]. by apply wp_finish_run.
Qed.

(** ** Opening the store a run leaves *)

Lemma target_metadata :
  db_sound t = true ∧ db_user_version t = TARGET_STORE_VERSION ∧
  metadata_is t (p_target_generation p) TARGET_SCHEMA_ID TARGET_STORE_VERSION = Ok tt.
Proof using Hp Hconv Hconstraints.
  pose proof (planned_convertible _ _ _ _ Hp Hconstraints) as Hcv.
  destruct (convert_ok p (hexdigest b) s Hcv) as (meta & out & seed & frontier & Hm & _ & _ & _ & _ & _ & Hc).
  rewrite Hconv in Hc. injection Hc as Hc. rewrite Hc.
  destruct (cv_versions _ _ Hcv) as (? & ? & ? & ? & E1 & E2 & E3 & E4).
  unfold metadata_row in Hm. rewrite E1, E2, E3, E4 in Hm. cbn [mbind result_bind bind_value] in Hm.
  injection Hm as <-. clear Hc. split_and!; [reflexivity..|]. unfold metadata_is.
  eapply bind_step; [reflexivity|]. apply mneed_true. by rewrite bool_decide_true.
Qed.

Lemma target_manifest_ok :
  active_manifest_ok (target_pointer p the_shadow) target_dir = Ok tt.
Proof using Hp Hvalid Hlimit Hunknown Hschema Hversion.
  unfold active_manifest_ok. reads_as (eq_refl (Ok (shadow_dict the_shadow))).
  reads_as (shadow_round_trip the_shadow shadow_wf). apply mneed_true.
  destruct (pl_versions _ _ _ _ Hp) as (? & ? & ? & ? & ? & ? & E & _).
  assert (the_versions = sdict [("wire"%string, VStr x); ("suite"%string, VStr x0);
    ("schema"%string, VStr TARGET_SCHEMA_ID); ("store"%string, VInt TARGET_STORE_VERSION);
    ("sdk"%string, VStr x1); ("ui"%string, VStr x2)]) as Ev.
  { unfold the_versions, target_versions. by rewrite E, Hschema, Hversion. }
  cbn [the_shadow s_target_generation s_store_sha256 s_versions target_pointer ap_generation ap_store_sha256].
  rewrite Ev, !bool_decide_true by done. vm_compute. reflexivity.
Qed.

Lemma activated_opens r w : activated r w →
  open_active_readonly w [VInt 1; VInt 2] = Ok t ∧
  open_active_readonly w [VInt 1] = Err (MigrationError "DOWNGRADE_REFUSED").
Proof using Hp Hconv Hconstraints Hvalid Hlimit Hunknown Hschema Hversion.
  intros (_ & _ & Ha & Hg & _ & _). pose proof (active_target w Ha) as Hr. split.
  - unfold open_active_readonly. reads_as (eq_refl (Ok [1; 2])). reads_as Hr.
    cbn [ap_generation ap_store_sha256 ap_store_version].
    passes; [done|]. passes; [done|]. unfold generation_directory. rewrite Hg.
    reads_as (eq_refl (Ok target_dir)). reads_as (eq_refl (Ok image)). passes; [by rewrite bool_decide_true|].
    passes; [vm_compute; reflexivity|]. unfold database_of. rewrite image_open. reads_as (eq_refl (Ok t)).
    destruct target_metadata as (H1 & H2 & H3). passes; [done|]. passes; [by rewrite H2|].
    change (TARGET_STORE_VERSION =? SOURCE_STORE_VERSION) with false. cbv iota.
    passes; [vm_compute; reflexivity|]. passes; [rewrite target_schema; by rewrite bool_decide_true|].
    reads_as H3. reads_as target_manifest_ok. done.
  - unfold open_active_readonly. reads_as (eq_refl (Ok [1])). run Hr. reflexivity.
Qed.
End Resume.

(** ** Interruptions *)

Section Restart.
Context `{Hash} `{Sqlite}.

(** Neither file of the migration directory was caught between its creation and its content. *)
Definition whole (w : world) : Prop := w_plan w ≠ Some (FBytes []) ∧ w_journal w ≠ Some (FBytes []).

(** One interrupted run, by a crash at any durable write or an exception of the observer. *)
Definition interrupted_run (p : migration_plan) (w v : world) : Prop :=
  ∃ e, same_device e = true ∧ v ∈ visited (run_migration false e p) w ∧ whole v.

(** The migration has not begun, and its source is a sound database. *)
Record startable (p : migration_plan) (w : world) : Prop := Startable {
  st_empty : w_plan w = None ∧ w_journal w = None ∧ w_backup w = None ∧ w_shadow w = None;
  st_free : w_generations w !! p_target_generation p = None;
  st_sound : ∀ d b s, w_generations w !! p_source_generation p = Some d →
    regular_file (d !! STORE) = Ok b → sqlite_open b = Some s →
    constraints_hold s = true ∧ ∀ t, convert_rows p (hexdigest b) s = Ok t → sqlite_limit t;
}.

Lemma crashed_whole p sd b t n w0 v :
  interrupted p sd b t n w0 True v → whole v → interrupted p sd b t n w0 False v.
Proof. intros [? ? ? ? ? ?] [H1 H2]. constructor; naive_solver. Qed.

(** What a completed migration leaves. *)
Definition migrated (p : migration_plan) (r : migration_result) (w v : world) : Prop :=
  r_active_generation r = p_target_generation p ∧ r_old_generation_retained r = true ∧
  w_generations v !! p_source_generation p = w_generations w !! p_source_generation p ∧
  (∃ m, verify_published p v = Ok m ∧ w_active v = Some (FJson (pointer_dict (target_pointer p m)))) ∧
  (∃ db, open_active_readonly v [VInt 1; VInt 2] = Ok db) ∧
  open_active_readonly v [VInt 1] = Err (MigrationError "DOWNGRADE_REFUSED").
End Restart.
