(* ===== verification/MigrationSpec.v ===== *)
(** * Store migration: properties *)

From S2P Require Import Prelude Bytes Value Json Hash Sodium Toy Crash Sqlite Migration MigrationBackup MigrationShadow MigrationEngine MigrationSample MigrationConvert MigrationFacts MigrationResume.
Local Open Scope Z_scope.




Section Spec.
Context `{Hash} `{Sqlite}.





(** C40. A torn plan file blocks its migration for good: while PLAN.json is a file that does not
    hold JSON, which a crash between its creation and its content leaves, every run from the
    intact source fails with [PLAN_IDENTITY_MISMATCH] and changes nothing. *)
Theorem torn_plan_blocks e p w data ptr ob :
  w_plan w = Some (FBytes data) → ap_generation ptr ≠ p_target_generation p →
  require_source_active p w = Ok ptr → verify_current_source p w = Ok ob →
  outcome (run_migration false e p) w = Err (MigrationError "PLAN_IDENTITY_MISMATCH") ∧
  final (run_migration false e p) w = w.
Proof.
  intros Hpl Hne Hsrc Hcur.
  assert (wp (run_migration false e p) (λ _, True) (λ r v, r = Err (MigrationError "PLAN_IDENTITY_MISMATCH") ∧ v = w) w) as H'.
  { assert (read_active_pointer w = Ok ptr) as Hptr.
    { unfold require_source_active in Hsrc. apply bind_Ok in Hsrc as (a & Ha & E). rewrite Ha.
      case_bool_decide; [do 3 apply bind_Ok in E as (? & _ & E); by simplify_eq|].
      case_bool_decide; by simplify_eq. }
    assert (ap_generation ptr = p_source_generation p) as Hg.
    { unfold require_source_active in Hsrc. rewrite Hptr in Hsrc. cbn [mbind result_bind] in Hsrc.
      case_bool_decide; [done|]. by case_bool_decide. }
    unfold run_migration, run_migration_locked. eapply wp_bind_lift; [done|]. eapply wp_bind_reads; [exact Hptr|].
    rewrite bool_decide_false by done. eapply wp_bind_lift; [apply mneed_true; by rewrite bool_decide_true|].
    eapply wp_bind_reads; [exact Hsrc|]. apply wp_bind. unfold create_verified_backup.
    eapply wp_bind_reads; [exact Hcur|]. apply wp_bind. unfold initialize.
    eapply wp_bind_reads; [reflexivity|]. rewrite Hpl. apply wp_bind, wp_reads. by rewrite Hpl. }
  by apply wp_outcome in H'.
Qed.

(** The fields of a plan have the types and ranges the rest of the migration relies on. *)
Record plan_typed (p : migration_plan) : Prop := PlanTyped {
  pt_source : valid_generation (VStr (p_source_generation p)) = Ok (p_source_generation p);
  pt_target : valid_generation (VStr (p_target_generation p)) = Ok (p_target_generation p);
  pt_digests : Forall (λ d, ∀ code, valid_sha (VStr d) code = Ok d)
    [p_source_store_sha256 p; p_source_digest p; p_seed_sha256 p; p_frontier_sha256 p; p_converter_digest p;
     p_plan_digest p];
  pt_versions : validate_versions (p_versions p) = Ok (p_versions p);
  pt_inventory : ∃ a b c d, Forall (Z.le 0) [a; b; c; d] ∧ p_inventory p =
    sdict [("operationLedger"%string, VInt a); ("outbox"%string, VInt b); ("drafts"%string, VInt c);
           ("signedObjects"%string, VInt d)];
  pt_space : 0 <= p_source_size p ∧ p_required_bytes p = 3 * p_source_size p + 4194304
             ∧ p_required_bytes p <= p_available_bytes p;
  pt_roots : ¬ p_store_root p `prefix_of` p_work_root p ∧ ¬ p_work_root p `prefix_of` p_store_root p;
}.

Lemma is_digest_valid d code : is_digest d → valid_sha (VStr d) code = Ok d.
Proof. intros [x ->]. apply valid_sha_hex. Qed.

(** C39. Every plan the planner makes is well typed: its generation names and digests have their
    syntax, the versions and the inventory their fields, the capacity required covers three copies
    of the source and is available, and neither root contains the other. *)
Theorem planned_is_typed w sr wr at_ cap p :
  plan_migration w sr wr at_ cap = Ok p → plan_typed p.
Proof.
  unfold plan_migration. intros E. apply bind_Ok in E as (obs & _ & E). apply bind_Ok in E as ([] & Hroots & E).
  apply bind_Ok in E as (ptr & _ & E). apply bind_Ok in E as (? & _ & E). apply bind_Ok in E as (ob & Hob & E).
  apply bind_Ok in E as (? & _ & E). apply bind_Ok in E as (av & _ & E). apply bind_Ok in E as ([] & Hreq & E).
  apply bind_Ok in E as (dg & Hdg & E). injection E as <-. apply require_Ok, Z.leb_le in Hreq.
  unfold inspect_generation in Hob. apply bind_Ok in Hob as (g & _ & Hob). apply bind_Ok in Hob as (sd & _ & Hob).
  apply inspect_database_ok in Hob as (b & s & v & inv & sdg & fr & odg & _ & _ & _ & Ht & Hg & Hod & ->).
  apply inspect_tables_ok in Ht as (_ & Hinv & Hsd & Hfr & Hv & _).
  apply digest_identity_ok in Hdg. cbn in Hreq. constructor; cbn.
  - done.
  - destruct Hdg as [dgx ->]. apply target_generation_valid.
  - rewrite !Forall_cons. split_and!; try done; intros; apply is_digest_valid; done || apply hexdigest_is.
  - done.
  - unfold inventory_of in Hinv.
    assert (∀ t z, count_of s t = Ok z → 0 <= z) as Hc.
    { intros t z Ez. unfold count_of in Ez. apply bind_Ok in Ez as (? & _ & Ez). injection Ez as <-. apply len_nonneg. }
    apply bind_Ok in Hinv as (c1 & H1 & Hinv). apply bind_Ok in Hinv as (c2 & H2 & Hinv).
    apply bind_Ok in Hinv as (c3 & H3 & Hinv). apply bind_Ok in Hinv as (c4 & H4 & Hinv). injection Hinv as <-.
    exists c1, c2, c3, c4. split; [|done]. rewrite !Forall_cons. split_and!; [by eapply Hc..|done].
  - pose proof (len_nonneg b). lia.
  - unfold separate_roots, is_relative_to in Hroots. apply require_Ok, negb_true_iff in Hroots.
    apply orb_false_elim in Hroots as [Hroots H2]. apply orb_false_elim in Hroots as [_ H1].
    by rewrite !bool_decide_eq_false in *.
Qed.
End Spec.

(** ** Witnesses *)

Definition sample_torn : world := set_plan (Some (FBytes [])) sample_world.




Definition sample_observation : source_observation :=
  Eval vm_compute in ok_value (SourceObservation [] [] [] 0 VNone VNone [] [] [])
    (verify_current_source sample_plan sample_world).

(** The future object is blocked: its row in the converted database. *)
Example sample_blocked :
  (λ r, (cell_at 0 r, cell_at 4 r, cell_at 5 r)) <$> table_rows sample_target "signed_objects"
    = [(text "object-1", CInt 1, text "ACKED"); (text "object-2", CInt 0, text "OPAQUE");
       (text "object-3", CInt 0, text "BLOCKED")].
Proof. vm_compute. reflexivity. Qed.


(** The first crash of the sample's first run leaves the torn file. *)
Lemma torn_plan_blocks_witness :
  visited (run_migration false quiet sample_plan) sample_world !! 1%nat = Some sample_torn ∧
  outcome (run_migration false quiet sample_plan) sample_torn
    = Err (MigrationError "PLAN_IDENTITY_MISMATCH") ∧
  final (run_migration false quiet sample_plan) sample_torn = sample_torn.
Proof.
  split; [vm_compute; reflexivity|].
  assert (E1 : require_source_active sample_plan sample_torn = Ok sample_pointer) by (vm_compute; reflexivity).
  assert (E2 : verify_current_source sample_plan sample_torn = Ok sample_observation) by (vm_compute; reflexivity).
  assert (Hne : ap_generation sample_pointer ≠ p_target_generation sample_plan) by (vm_compute; discriminate).
  exact (torn_plan_blocks quiet sample_plan sample_torn [] sample_pointer sample_observation eq_refl Hne E1 E2).
Defined.

Lemma planned_is_typed_witness : plan_typed sample_plan.
Proof.
  exact (planned_is_typed sample_world sample_roots.1 sample_roots.2 (VStr (str "2026-01-01"))
    (Ok (VInt 5000000)) sample_plan sample_plan_ok).
Defined.
