(* ===== verification/EventPayload.v ===== *)
(** * Event payloads (product/wp10/events.py, lines 44-92)

    The schema of a stream, the validation and canonical encoding of a payload and its
    decoding.  [event code] is [EventError(code)]; the operation id some errors carry next
    to their code is not kept. *)

From S2P Require Import Prelude Bytes Value Codec Flat Json.
Local Open Scope Z_scope.

Definition event (code : string) : exn := Raised "EventError" code.

(** [need(ok, code)] *)
Definition eneed (ok : bool) (code : string) : result unit := require ok (event code).

Definition efixed (b : bytes) (n : Z) : result unit := eneed (len b =? n) "INVALID_INPUT".

Definition MAX_PAYLOAD : Z := 16384.

(** ** Schemas *)

Inductive kind := Text | Uint64 | Int64 | Bool | Bytes.
#[export] Instance kind_eq_dec : EqDecision kind.
Proof. solve_decision. Defined.

Definition kind_name (t : kind) : string :=
  match t with Text => "text" | Uint64 => "uint64" | Int64 => "int64" | Bool => "bool" | Bytes => "bytes" end.
Definition kind_code (t : kind) : Z :=
  match t with Text => 0 | Uint64 => 1 | Int64 => 2 | Bool => 3 | Bytes => 4 end.

(** [v in ('text', 'uint64', 'int64', 'bool', 'bytes')] *)
Definition kind_of (s : pystr) : option kind :=
  List.find (λ t, bool_decide (s = str (kind_name t))) [Text; Uint64; Int64; Bool; Bytes].

(** [[a-z][a-z0-9_]{0,31}] *)
Definition field_name_ok (s : pystr) : bool :=
  match s with
  | [] => false
  | c :: cs =>
      ((97 <=? c) && (c <=? 122)) && (len cs <=? 31)
      && forallb (λ c, ((97 <=? c) && (c <=? 122)) || ((48 <=? c) && (c <=? 57)) || (c =? 95)) cs
  end.

(** The items of a schema dict, checked. *)
Definition schema_items (d : list (pykey * value)) : result (list (pystr * pystr)) :=
  mapM (λ kv, match kv with
              | (KStr k, VStr t) =>
                  _ ← eneed (field_name_ok k && bool_decide (is_Some (kind_of t))) "SCHEMA_INVALID";
                  Ok (k, t)
              | _ => Err (event "SCHEMA_INVALID")
              end) d.

Definition field_le {A} (a b : pystr * A) : Prop := str_le a.1 b.1.
#[export] Instance field_le_dec {A} : RelDecision (@field_le A).
Proof. intros a b. unfold field_le. apply _. Defined.

Definition schema_bytes (schema : value) : result bytes :=
  match schema with
  | VDict d =>
      _ ← eneed ((1 <=? len d) && (len d <=? 16)) "SCHEMA_INVALID";
      items ← schema_items d;
      encode (VList ((λ kt : pystr * pystr, VList [VStr kt.1; VStr kt.2]) <$> merge_sort field_le items))
  | _ => Err (event "SCHEMA_INVALID")
  end.

(** [dict(decode(schema_bytes(schema)))]: the fields in order with their kinds. *)
Definition schema_fields (b : bytes) : result (list (pystr * kind)) :=
  v ← decode b;
  match v with
  | VList l =>
      mapM (λ x, match x with
                 | VList [VStr k; VStr t] => t ← of_option KeyError (kind_of t); Ok (k, t)
                 | _ => Err TypeError
                 end) l
  | _ => Err TypeError
  end.

(** ** Validation *)

(** [set(payload) == set(schema)] *)
Definition same_fields (schema : list (pystr * kind)) (d : list (pykey * value)) : bool :=
  forallb (λ kv, match kv.1 with KStr k => bool_decide (k ∈ schema.*1) | _ => false end) d
  && forallb (λ kt : pystr * kind, bool_decide (is_Some (dict_sget d kt.1))) schema.

Definition kind_ok (t : kind) (v : value) : bool :=
  match t, v with
  | Text, VStr _ => true
  | Uint64, VInt z => (0 <=? z) && (z <? 2 ^ 64)
  | Int64, VInt z => (- 2 ^ 63 <=? z) && (z <? 2 ^ 63)
  | Bool, VBool _ => true
  | Bytes, VBytes _ => true
  | _, _ => false
  end.

(** The length test on [str] and [bytes]. *)
Definition length_ok (v : value) : result unit :=
  match v with
  | VStr s =>
      b ← of_option (event "SCHEMA_INVALID") (utf8_encode s);
      eneed (len b <=? MAX_PAYLOAD) "RESOURCE_LIMIT"
  | VBytes b => eneed (len b <=? MAX_PAYLOAD) "RESOURCE_LIMIT"
  | _ => Ok tt
  end.

Definition check_field (d : list (pykey * value)) (kt : pystr * kind) : result unit :=
  v ← of_option KeyError (dict_sget d kt.1);
  _ ← eneed (kind_ok kt.2 v) "SCHEMA_INVALID";
  length_ok v.

(** [(v<<1) if v>=0 else ((-v<<1)-1)] *)
Definition zigzag (z : Z) : Z := if 0 <=? z then Z.shiftl z 1 else Z.shiftl (- z) 1 - 1.

Definition wire_field (t : kind) (v : value) : value :=
  match t, v with Int64, VInt z => VInt (zigzag z) | _, _ => v end.

(** [[k, code, value]] for a field of the payload. *)
Definition payload_field (schema : list (pystr * kind)) (d : list (pykey * value)) (k : pystr)
    : result value :=
  t ← of_option KeyError (snd <$> List.find (λ kt, bool_decide (kt.1 = k)) schema);
  v ← of_option KeyError (dict_sget d k);
  Ok (VList [VStr k; VInt (kind_code t); wire_field t v]).

Definition str_keys (d : list (pykey * value)) : list pystr :=
  omap (λ kv, match kv.1 with KStr k => Some k | _ => None end) d.

Definition validate_payload (schema : list (pystr * kind)) (payload : value) : result bytes :=
  match payload with
  | VDict d =>
      _ ← eneed (same_fields schema d) "SCHEMA_INVALID";
      _ ← iter (λ kt _, check_field d kt) schema tt;
      fields ← mapM (payload_field schema d) (sorted_strs (str_keys d));
      b ← encode (VList fields);
      _ ← eneed (len b <=? MAX_PAYLOAD) "RESOURCE_LIMIT";
      Ok b
  | _ => Err (event "SCHEMA_INVALID")
  end.

(** ** Decoding *)

(** [(v>>1) if v%2==0 else -(v>>1)-1] *)
Definition unzigzag (z : Z) : Z :=
  if z mod 2 =? 0 then Z.shiftr z 1 else - Z.shiftr z 1 - 1.

Definition decode_field (p : pystr * (Z * value)) : result (pystr * value) :=
  let '(k, (code, v)) := p in
  _ ← eneed (match v with
             | VStr _ => code =? 0
             | VInt z => ((code =? 1) || (code =? 2)) && ((0 <=? z) && (z <? 2 ^ 64))
             | VBool _ => code =? 3
             | VBytes _ => code =? 4
             | _ => false
             end) "SCHEMA_INVALID";
  Ok (k, match v with VInt z => if code =? 2 then VInt (unzigzag z) else v | _ => v end).

(** [type(p) is list and len(p)==3 and type(p[0]) is str and type(p[1]) is int] *)
Definition triple (v : value) : option (pystr * (Z * value)) :=
  match v with VList [VStr k; VInt c; x] => Some (k, (c, x)) | _ => None end.

(** [keys == sorted(set(keys))] *)
Definition strictly_sorted (keys : list pystr) : bool :=
  bool_decide (NoDup keys) && bool_decide (sorted_strs keys = keys).

Definition decode_payload (b : bytes) : result value :=
  match decode_with MAX_PAYLOAD MAX_NODES b with
  | Err _ => Err (event "SCHEMA_INVALID")
  | Ok (VList pairs) =>
      _ ← eneed ((1 <=? len pairs) && (len pairs <=? 16)) "SCHEMA_INVALID";
      triples ← of_option (event "SCHEMA_INVALID") (mapM triple pairs);
      _ ← eneed (strictly_sorted triples.*1) "SCHEMA_INVALID";
      out ← mapM decode_field triples;
      Ok (VDict ((λ kv : pystr * value, (KStr kv.1, kv.2)) <$> out))
  | Ok _ => Err (event "SCHEMA_INVALID")
  end.

(** ** Examples *)

Definition demo_schema : value := VDict [(KStr (str "n"), VStr (str "int64")); (KStr (str "body"), VStr (str "text"))].

Example schema_ex :
  (b ← schema_bytes demo_schema; schema_fields b) = Ok [(str "body", Text); (str "n", Int64)].
Proof. vm_compute. reflexivity. Qed.

Example payload_ex :
  (b ← schema_bytes demo_schema; s ← schema_fields b;
   p ← validate_payload s (VDict [(KStr (str "n"), VInt (-3)); (KStr (str "body"), VStr (str "x"))]);
   decode_payload p) = Ok (VDict [(KStr (str "body"), VStr (str "x")); (KStr (str "n"), VInt (-3))]).
Proof. vm_compute. reflexivity. Qed.

(** ** The order of strings *)

Lemma str_leb_refl a : str_leb a a = true.
Proof. induction a as [|x a IH]; cbn; [done|]. by rewrite Z.ltb_irrefl. Qed.

#[export] Instance str_le_trans : Transitive str_le.
Proof.
  unfold str_le. intros a. induction a as [|x a IH]; intros [|y b] [|z c]; cbn; try done.
  destruct (Z.ltb_spec x y), (Z.ltb_spec y x), (Z.ltb_spec y z), (Z.ltb_spec z y),
    (Z.ltb_spec x z), (Z.ltb_spec z x); try done; try lia. apply IH.
Qed.
#[export] Instance str_le_total : Total str_le.
Proof.
  unfold str_le. intros a. induction a as [|x a IH]; intros [|y b]; cbn; try auto.
  destruct (Z.ltb_spec x y), (Z.ltb_spec y x); auto; lia.
Qed.
#[export] Instance str_le_antisymm : AntiSymm eq str_le.
Proof.
  unfold str_le. intros a. induction a as [|x a IH]; intros [|y b]; cbn; try done.
  destruct (Z.ltb_spec x y), (Z.ltb_spec y x); try done; try lia.
  intros H1 H2. f_equal; [lia|by apply IH].
Qed.

Lemma sorted_strs_perm l : sorted_strs l ≡ₚ l.
Proof. apply merge_sort_Permutation. Qed.
Lemma sorted_strs_id l : StronglySorted str_le l → sorted_strs l = l.
Proof.
  intros Hl. apply (StronglySorted_unique str_le); [|done|apply sorted_strs_perm].
  apply StronglySorted_merge_sort; apply _.
Qed.
Lemma sorted_strs_twice l : sorted_strs (sorted_strs l) = sorted_strs l.
Proof. apply sorted_strs_id. apply StronglySorted_merge_sort; apply _. Qed.
Lemma sorted_strs_cong l k : l ≡ₚ k → sorted_strs l = sorted_strs k.
Proof.
  intros Hp. apply (StronglySorted_unique str_le);
    [apply StronglySorted_merge_sort; apply _..|by rewrite !sorted_strs_perm].
Qed.

(** ** Dicts with string keys *)

Definition of_pairs (l : list (pystr * value)) : list (pykey * value) :=
  (λ kv : pystr * value, (KStr kv.1, kv.2)) <$> l.

Lemma str_keys_pairs l : str_keys (of_pairs l) = l.*1.
Proof. unfold str_keys, of_pairs. induction l as [|[k v] l IH]; [done|]. cbn. by rewrite IH. Qed.

Lemma sget_pairs l k v : NoDup l.*1 → (k, v) ∈ l → dict_sget (of_pairs l) k = Some v.
Proof.
  induction l as [|[k' v'] l IH]; [by intros _ ?%not_elem_of_nil|].
  cbn [fmap list_fmap fst]. intros [Hk Hn]%NoDup_cons [[= -> ->]|Hin]%elem_of_cons; cbn.
  - by rewrite bool_decide_eq_true_2.
  - rewrite bool_decide_eq_false_2; [by apply IH|]. intros ->. apply Hk, list_elem_of_fmap. by exists (k', v).
Qed.

Lemma sget_in d k v : dict_sget d k = Some v → (KStr k, v) ∈ d.
Proof.
  induction d as [|[[z|b|s|b|] x] d IH]; cbn; try done; try (intros E; right; by apply IH).
  case_bool_decide as Hk; [intros [= ->]; subst; by left|intros E; right; by apply IH].
Qed.

Lemma str_keys_in d k : k ∈ str_keys d ↔ ∃ v, (KStr k, v) ∈ d.
Proof.
  unfold str_keys. rewrite list_elem_of_omap. split.
  - intros ([[]?] & Hin & Hk); simplify_eq/=. eauto.
  - intros [v Hin]. by exists (KStr k, v).
Qed.

Lemma str_keys_sget d k : k ∈ str_keys d → is_Some (dict_sget d k).
Proof.
  intros [v Hin]%str_keys_in. induction d as [|[[z|b|s|b|] x] d IH]; [by apply not_elem_of_nil in Hin|..];
    apply elem_of_cons in Hin as [[=]|Hin]; cbn; subst; try by apply IH.
  - by rewrite bool_decide_eq_true_2.
  - case_bool_decide; [done|by apply IH].
Qed.

Lemma str_keys_NoDup d : NoDup d.*1 → NoDup (str_keys d).
Proof.
  induction d as [|[key v] d IH]; [by constructor|]. cbn [fmap list_fmap fst]. intros [Hk Hn]%NoDup_cons.
  unfold str_keys in *. destruct key as [z|b|s|b|]; cbn; try by apply IH.
  apply NoDup_cons. split; [|by apply IH]. intros Hin. apply Hk.
  apply (str_keys_in d s) in Hin as [v' Hin]. apply list_elem_of_fmap. by exists (KStr s, v').
Qed.

(** ** Round trip *)

Lemma zigzag_spec z : - 2 ^ 63 <= z < 2 ^ 63 → 0 <= zigzag z < 2 ^ 64 ∧ unzigzag (zigzag z) = z.
Proof.
  intros Hz. unfold zigzag, unzigzag. rewrite !Z.shiftr_div_pow2, !Z.shiftl_mul_pow2 by lia.
  change (2 ^ 1) with 2. destruct (Z.leb_spec 0 z).
  - replace (z * 2 mod 2 =? 0) with true by (symmetry; apply Z.eqb_eq; div_lia). split; [lia|div_lia].
  - replace ((- z * 2 - 1) mod 2 =? 0) with false by (symmetry; apply Z.eqb_neq; div_lia).
    split; [lia|div_lia].
Qed.

Lemma wire_field_decodes k t v :
  kind_ok t v = true → decode_field (k, (kind_code t, wire_field t v)) = Ok (k, v) ∧ leaf (wire_field t v).
Proof.
  destruct t, v; cbn -[Z.pow zigzag unzigzag]; try done; intros Hk.
  - rewrite Hk. by split.
  - assert (- 2 ^ 63 <= z < 2 ^ 63) as [Hr Hu]%zigzag_spec by lia.
    rewrite (proj2 (Z.leb_le _ _)), (proj2 (Z.ltb_lt _ _)) by lia. cbn -[Z.pow zigzag unzigzag].
    by rewrite Hu.
Qed.

(** What [validate_payload] has checked of a field. *)
Definition field_of (schema : list (pystr * kind)) (d : list (pykey * value)) (k : pystr)
    (tv : kind * value) : Prop :=
  payload_field schema d k = Ok (VList [VStr k; VInt (kind_code tv.1); wire_field tv.1 tv.2]) ∧
  dict_sget d k = Some tv.2 ∧ kind_ok tv.1 tv.2 = true.

Lemma payload_field_Ok schema d k f :
  (∀ kt, kt ∈ schema → check_field d kt = Ok tt) → payload_field schema d k = Ok f →
  ∃ tv, field_of schema d k tv ∧ f = VList [VStr k; VInt (kind_code tv.1); wire_field tv.1 tv.2].
Proof.
  intros Hc E. pose proof E as E'. unfold payload_field in E.
  apply bind_Ok in E as (t & Et & E). apply bind_Ok in E as (v & Ev & E). injection E as <-.
  destruct (List.find _ schema) as [[k' t']|] eqn:Ef; [injection Et as ->|done].
  apply find_some in Ef as [Hin Hk%bool_decide_eq_true]. cbn [fst] in Hk. subst k'.
  apply list_elem_of_In in Hin.
  destruct (dict_sget d k) as [v'|] eqn:Eg; [injection Ev as ->|done].
  exists (t, v). split; [|done]. split; [done|]. split; [done|].
  specialize (Hc _ Hin). unfold check_field in Hc. cbn [fst snd] in Hc. rewrite Eg in Hc. cbn in Hc.
  by apply bind_Ok in Hc as ([] & ?%require_Ok & _).
Qed.

Definition fields_of (ks : list pystr) (tvs : list (kind * value)) : list value :=
  zip_with (λ k tv, VList [VStr k; VInt (kind_code tv.1); wire_field tv.1 tv.2]) ks tvs.

Lemma payload_fields_Ok schema d ks fs :
  (∀ kt, kt ∈ schema → check_field d kt = Ok tt) → mapM (payload_field schema d) ks = Ok fs →
  ∃ tvs, Forall2 (field_of schema d) ks tvs ∧ fs = fields_of ks tvs.
Proof.
  intros Hc E%mapM_Ok_Forall2. induction E as [|k f ks fs Hk _ (tvs & Htvs & ->)]; [by exists []|].
  destruct (payload_field_Ok _ _ _ _ Hc Hk) as (tv & Htv & ->).
  exists (tv :: tvs). by split; [constructor|].
Qed.

Lemma fields_normal ks tvs :
  Forall2 (λ k tv, kind_ok tv.1 tv.2 = true) ks tvs →
  wf_value (VList (fields_of ks tvs)) ∧ norm (VList (fields_of ks tvs)) = VList (fields_of ks tvs).
Proof.
  intros H. apply normal_list. induction H as [|k tv ks tvs Hk _ IH]; [constructor|].
  constructor; [|done]. apply leaves_list. pose proof (wire_field_decodes k _ _ Hk) as [_ ?].
  by repeat constructor.
Qed.

Lemma fields_triples ks tvs :
  length ks = length tvs →
  mapM triple (fields_of ks tvs) = Some (zip_with (λ k tv, (k, (kind_code tv.1, wire_field tv.1 tv.2))) ks tvs).
Proof.
  unfold fields_of. revert tvs. induction ks as [|k ks IH]; intros [|tv tvs]; cbn; try done.
  intros [= Hl]. by rewrite (IH tvs Hl).
Qed.

Lemma fields_decode ks tvs :
  Forall2 (λ k tv, kind_ok tv.1 tv.2 = true) ks tvs →
  mapM decode_field (zip_with (λ k tv, (k, (kind_code tv.1, wire_field tv.1 tv.2))) ks tvs)
  = Ok (zip ks tvs.*2).
Proof.
  induction 1 as [|k tv ks tvs Hk _ IH]; [done|]. cbn [zip_with mapM fmap list_fmap].
  change (decode_field (k, (kind_code tv.1, wire_field tv.1 tv.2)) ≫=
    (λ y, mapM decode_field (zip_with (λ k tv, (k, (kind_code tv.1, wire_field tv.1 tv.2))) ks tvs) ≫=
      λ l, Ok (y :: l)) = Ok ((k, tv.2) :: zip ks tvs.*2)).
  rewrite (proj1 (wire_field_decodes k _ _ Hk)). cbn [mbind result_bind]. by rewrite IH.
Qed.

(** A schema as [schema_fields] gives it. *)
Definition schema_ok (schema : list (pystr * kind)) : Prop :=
  NoDup schema.*1 ∧ 1 <= len schema <= 16.

Lemma same_fields_keys schema d :
  same_fields schema d = true → NoDup schema.*1 → NoDup d.*1 → str_keys d ≡ₚ schema.*1.
Proof.
  unfold same_fields. intros [Hin Hall]%andb_true_iff Hs Hd.
  rewrite !forallb_forall in Hin, Hall.
  apply NoDup_Permutation; [by apply str_keys_NoDup|done|]. intros k. split.
  - intros [v Hk]%str_keys_in. apply list_elem_of_In, Hin in Hk. cbn in Hk. by apply bool_decide_eq_true in Hk.
  - intros ([k' t] & -> & Hk)%list_elem_of_fmap. apply list_elem_of_In, Hall, bool_decide_eq_true in Hk as [v Hv].
    apply str_keys_in. exists v. by apply sget_in.
Qed.

(** Validation looks at nothing but the fields and their values. *)
Lemma validate_ext schema d e :
  same_fields schema e = same_fields schema d → (∀ k, dict_sget e k = dict_sget d k) →
  str_keys e ≡ₚ str_keys d → validate_payload schema (VDict e) = validate_payload schema (VDict d).
Proof.
  intros Hsame Hget Hkeys. unfold validate_payload. rewrite Hsame, (sorted_strs_cong _ _ Hkeys).
  assert (∀ kt, check_field e kt = check_field d kt) as Hc by (intros kt; unfold check_field; by rewrite Hget).
  assert (∀ k, payload_field schema e k = payload_field schema d k) as Hp
    by (intros k; unfold payload_field; by rewrite Hget).
  apply bind_cong. intros _.
  assert (∀ l, iter (λ kt _, check_field e kt) l tt = iter (λ kt _, check_field d kt) l tt) as ->.
  { induction l as [|kt l IH]; [done|]. cbn [iter]. rewrite Hc. destruct (check_field d kt) as [[]|]; [done|done]. }
  apply bind_cong. intros _.
  assert (∀ l, mapM (payload_field schema e) l = mapM (payload_field schema d) l) as ->; [|done].
  induction l as [|k l IH]; [done|]. cbn [mapM]. by rewrite Hp, IH.
Qed.

Lemma payload_decoded schema d b :
  schema_ok schema → NoDup d.*1 → validate_payload schema (VDict d) = Ok b →
  ∃ l, decode_payload b = Ok (VDict (of_pairs l)) ∧ l.*1 = sorted_strs (str_keys d) ∧
    Forall (λ kv, dict_sget d kv.1 = Some kv.2) l.
Proof.
  intros [Hsn Hsl] Hd E. unfold validate_payload in E.
  apply bind_Ok in E as ([] & Hsame%require_Ok & E). apply bind_Ok in E as ([] & Hc & E).
  assert (∀ kt, kt ∈ schema → check_field d kt = Ok tt) as Hc' by (by apply iter_check).
  apply bind_Ok in E as (fs & Hfs & E). apply bind_Ok in E as (b' & Hb & E).
  apply bind_Ok in E as ([] & Hlen%require_Ok & [= <-]). apply Z.leb_le in Hlen.
  pose proof (same_fields_keys _ _ Hsame Hsn Hd) as Hperm.
  destruct (payload_fields_Ok _ _ _ _ Hc' Hfs) as (tvs & Htvs & ->).
  set (ks := sorted_strs (str_keys d)) in *.
  assert (Forall2 (λ k tv, kind_ok tv.1 tv.2 = true) ks tvs) as Hk
    by (eapply Forall2_impl; [exact Htvs|]; by intros k tv (_ & _ & ?)).
  pose proof (Forall2_length _ _ _ Hk) as Hkl. destruct (fields_normal _ _ Hk) as [Hwf Hn].
  exists (zip ks tvs.*2).
  assert ((zip ks tvs.*2).*1 = ks) as Hfst by (apply fst_zip; rewrite length_fmap; lia).
  split; [|split; [done|]].
  - unfold decode_payload.
    rewrite (decode_limit MAX_PAYLOAD _ _ Hwf Hb Hlen) by (vm_compute; discriminate). rewrite Hn.
    assert (len (fields_of ks tvs) = len schema) as Hlf.
    { unfold len, fields_of. rewrite length_zip_with. rewrite <-Hkl, Nat.min_id. unfold ks.
      by rewrite (Permutation_length (sorted_strs_perm _)), (Permutation_length Hperm), length_fmap. }
    rewrite Hlf, !(proj2 (Z.leb_le _ _)) by lia. cbn [andb eneed require mbind result_bind].
    rewrite fields_triples by done. cbn [of_option mbind result_bind].
    assert ((zip_with (λ k (tv : kind * value), (k, (kind_code tv.1, wire_field tv.1 tv.2))) ks tvs).*1 = ks) as ->.
    { clear -Hkl. revert tvs Hkl. induction ks as [|k ks IH]; intros [|tv tvs]; cbn; try done.
      intros [= Hl]. by rewrite IH. }
    assert (strictly_sorted ks = true) as ->.
    { unfold strictly_sorted, ks. rewrite !bool_decide_eq_true_2; [done|apply sorted_strs_twice|].
      rewrite (sorted_strs_perm _). by apply str_keys_NoDup. }
    cbn [eneed require mbind result_bind]. by rewrite (fields_decode _ _ Hk).
  - clear -Htvs. induction Htvs as [|k tv ks tvs (_ & Hg & _) _ IH]; [constructor|]. by constructor.
Qed.

(** A validated payload decodes to a dict with the same fields, which validates again. *)
Lemma payload_validates_again schema d b :
  schema_ok schema → NoDup d.*1 → validate_payload schema (VDict d) = Ok b →
  ∃ e, decode_payload b = Ok (VDict e) ∧ (∀ k, dict_sget e k = dict_sget d k) ∧
    str_keys e = sorted_strs (str_keys d) ∧ validate_payload schema (VDict e) = Ok b.
Proof.
  intros Hs Hd E. destruct (payload_decoded _ _ _ Hs Hd E) as (l & Hdec & Hks & Hget).
  assert (NoDup l.*1) as Hl.
  { rewrite Hks, (sorted_strs_perm _). by apply str_keys_NoDup. }
  assert (∀ k, dict_sget (of_pairs l) k = dict_sget d k) as Hsame.
  { intros k. destruct (decide (k ∈ l.*1)) as [Hin|Hni].
    - apply list_elem_of_fmap in Hin as ([k' v] & -> & Hin). cbn [fst].
      rewrite (sget_pairs _ _ _ Hl Hin). rewrite Forall_forall in Hget. symmetry. exact (Hget _ Hin).
    - destruct (dict_sget d k) as [v|] eqn:Eg.
      + exfalso. apply Hni. rewrite Hks, (sorted_strs_perm _). apply str_keys_in. exists v. by apply sget_in.
      + destruct (dict_sget (of_pairs l) k) as [v|] eqn:Ee; [|done]. exfalso. apply Hni.
        rewrite <-str_keys_pairs. apply str_keys_in. exists v. by apply sget_in. }
  exists (of_pairs l). split; [done|]. split; [done|]. rewrite str_keys_pairs. split; [done|].
  rewrite <-E. apply validate_ext; [|done|by rewrite str_keys_pairs, Hks, sorted_strs_perm].
  assert (same_fields schema d = true) as Hd'.
  { unfold validate_payload in E. by apply bind_Ok in E as ([] & ?%require_Ok & _). }
  rewrite Hd'. pose proof (same_fields_keys _ _ Hd' (proj1 Hs) Hd) as Hperm.
  unfold same_fields in *. apply andb_true_iff in Hd' as [_ Hall]. apply andb_true_iff. split.
  - apply forallb_forall. intros kv Hkv. apply list_elem_of_In, list_elem_of_fmap in Hkv as ([k v] & -> & Hkv).
    cbn. apply bool_decide_eq_true. rewrite <-Hperm, <-(sorted_strs_perm (str_keys d)), <-Hks.
    apply list_elem_of_fmap. by exists (k, v).
  - apply forallb_forall. intros kt Hkt. rewrite forallb_forall in Hall. rewrite Hsame. by apply Hall.
Qed.

(** The keys of a Python dict are distinct. *)
Definition py_dict (v : value) : Prop := match v with VDict d => NoDup d.*1 | _ => True end.

Lemma validate_Ok schema v b :
  schema_ok schema → py_dict v → validate_payload schema v = Ok b →
  len b <= MAX_PAYLOAD ∧ ∃ e, decode_payload b = Ok e ∧ validate_payload schema e = Ok b.
Proof.
  intros Hs Hd E. destruct v as [| | | | | |d|]; try done.
  destruct (payload_validates_again _ _ _ Hs Hd E) as (e & He & _ & _ & Hv).
  split; [|by exists (VDict e)]. unfold validate_payload in E.
  apply bind_Ok in E as ([] & _ & E). apply bind_Ok in E as ([] & _ & E). apply bind_Ok in E as (fs & _ & E).
  apply bind_Ok in E as (b' & _ & E). apply bind_Ok in E as ([] & Hl%require_Ok%Z.leb_le & [= <-]). done.
Qed.

(** A schema dict that encodes reads back as its fields. *)
Lemma schema_items_Ok d items :
  schema_items d = Ok items → NoDup d.*1 → NoDup items.*1 ∧ length items = length d.
Proof.
  intros E Hn. split; [|by eapply mapM_Ok_length].
  assert (d.*1 = KStr <$> items.*1) as Hk.
  { apply mapM_Ok_Forall2 in E. clear Hn. induction E as [|[k v] [k' t] d items Hx _ IH]; [done|].
    cbn in *. f_equal; [|exact IH]. destruct k, v; try done. by apply bind_Ok in Hx as ([] & _ & [= <- <-]). }
  rewrite Hk in Hn. by eapply NoDup_fmap_1.
Qed.

Lemma schema_fields_Ok s b fs :
  py_dict s → schema_bytes s = Ok b → schema_fields b = Ok fs → schema_ok fs.
Proof.
  intros Hd E Ef. destruct s as [| | | | | |d|]; try done. cbn [schema_bytes py_dict] in *.
  apply bind_Ok in E as ([] & Hl%require_Ok & E). apply bind_Ok in E as (items & Hi & E).
  destruct (schema_items_Ok _ _ Hi Hd) as [Hn Hlen].
  set (srt := merge_sort field_le items) in *.
  assert (srt ≡ₚ items) as Hp by apply merge_sort_Permutation.
  set (pair := λ kt : pystr * pystr, VList [VStr kt.1; VStr kt.2]) in *.
  destruct (normal_list (pair <$> srt)) as [Hw Hnorm].
  { apply Forall_fmap, Forall_true. intros kt. apply leaves_list. by repeat constructor. }
  unfold schema_fields in Ef. apply bind_Ok in Ef as (v & Hv & Ef).
  pose proof (proj1 (decode_encoded _ _ Hw E)) as Hdec. rewrite Hnorm, Hv in Hdec. injection Hdec as ->.
  assert (fs.*1 = srt.*1) as Hfst.
  { clear -Ef. apply mapM_Ok_Forall2 in Ef. revert fs Ef. induction srt as [|kt srt IH]; intros fs Ef.
    - by inversion Ef.
    - inversion Ef as [|? f ? fs' Hf Hr]; subst. cbn. f_equal; [|by apply IH].
      unfold pair in Hf. cbn in Hf. by apply bind_Ok in Hf as (t & _ & [= <-]). }
  split.
  - rewrite Hfst, Hp. done.
  - assert (length fs = length d) as Hfl.
    { rewrite <-Hlen, <-(Permutation_length Hp), <-(length_fmap fst fs), Hfst. apply length_fmap. }
    unfold len in *. rewrite Hfl. zb. lia.
Qed.

(** C38. A payload that validates decodes to the same fields in sorted order, which validate
    to the same bytes again; and a payload validates to those bytes only if it has the same
    value under every name.  So a record determines its payload. *)
Theorem payload_round_trip schema d b :
  schema_ok schema → NoDup d.*1 → validate_payload schema (VDict d) = Ok b →
  (∃ e, decode_payload b = Ok (VDict e) ∧ (∀ k, dict_sget e k = dict_sget d k) ∧
     str_keys e = sorted_strs (str_keys d) ∧ validate_payload schema (VDict e) = Ok b) ∧
  ∀ d', NoDup d'.*1 → validate_payload schema (VDict d') = Ok b →
    (∀ k, dict_sget d' k = dict_sget d k) ∧ str_keys d' ≡ₚ str_keys d.
Proof.
  intros Hs Hd E. destruct (payload_validates_again _ _ _ Hs Hd E) as (e & He & Hget & Hkeys & Hv).
  split; [by exists e|]. intros d' Hd' E'.
  destruct (payload_validates_again _ _ _ Hs Hd' E') as (e' & He' & Hget' & Hkeys' & _).
  rewrite He in He'. injection He' as <-. split.
  - intros k. by rewrite <-Hget', Hget.
  - by rewrite <-(sorted_strs_perm (str_keys d')), <-Hkeys', Hkeys, sorted_strs_perm.
Qed.

Lemma payload_round_trip_witness :
  let s := [(str "body", Text); (str "n", Int64)] in
  let d := [(KStr (str "n"), VInt (-3)); (KStr (str "body"), VStr (str "x"))] in
  ∃ b e, validate_payload s (VDict d) = Ok b ∧ decode_payload b = Ok (VDict e) ∧
    validate_payload s (VDict e) = Ok b.
Proof.
  intros s d. destruct (validate_payload s (VDict d)) as [b|] eqn:E; [|vm_compute in E; discriminate].
  assert (schema_ok s) as Hs.
  { split; [apply (bool_decide_eq_true_1 _); vm_compute; reflexivity|by split]. }
  assert (NoDup d.*1) as Hd by (apply (bool_decide_eq_true_1 _); vm_compute; reflexivity).
  destruct (payload_round_trip s d b Hs Hd E) as [(e & H1 & _ & _ & H2) _].
  exists b, e. split; [done|]. split; [exact H1|exact H2].
Defined.
