(* ===== verification/Events.v ===== *)
(** * The durable event journal (product/wp10/events.py)

    [edb] is the content of the SQLite file: one row of [metadata] and the rows of the
    other tables, those of [events] and [nonces] in the order of their primary keys.
    [memory] is what the object keeps besides its immutable [config].  An operation is a
    computation over both ([jstate]); only a COMMIT is durable, so the states a crash can
    leave are those before and after each commit.

    [world] is everything the outside decides during one operation: the owner object at
    each point where it is consulted, which statements fail and whether a failed COMMIT
    took effect, which observer calls raise, what the cancellation probe answers, the
    random bytes and the outcome of the path checks.  Points are named by the labels the
    code gives its observer.

    The thread and process test, the [_busy] flag and the file-system calls have no
    counterpart: calls run one after the other, and a call made from a callback is refused. *)

From S2P Require Import Prelude Bytes Value Codec Flat Json Hash Sodium Primitives Objects Membership Authority Activation Crash EventPayload.
Local Open Scope Z_scope.

Definition PROFILE : pystr := str "par-local-durable-events-0037".
Definition MAX_EVENT_BYTES : Z := 32768.
Definition MAX_PARENTS : Z := 16.
Definition MAX_NONCES : Z := 4096.

(** ** Tables *)

Record event_row := EventRow {
  er_sequence : Z;
  er_operation : bytes;
  er_input : bytes;
  er_id : bytes;
  er_record : bytes;
  er_chain : bytes;
}.
Record nonce_row := NonceRow {
  nr_reservation : Z;
  nr_nonce : bytes;
  nr_operation : bytes;
  nr_chain : bytes;
}.
Record consumer_row := ConsumerRow {
  cr_consumer : bytes;
  cr_position : Z;
  cr_event : bytes;
  cr_revision : Z;
  cr_seal : bytes;
}.
Record meta_row := MetaRow {
  mt_generation : bytes;
  mt_context : bytes;
  mt_tail : Z;
  mt_chain : bytes;
  mt_issued : Z;
  mt_nonce_chain : bytes;
  mt_seal : bytes;
}.

(** [db_schema]: the tables are those of [DDL] and [user_version] is 1. *)
Record edb := Edb {
  db_schema : bool;
  db_meta : option meta_row;
  db_nonces : list nonce_row;
  db_events : list event_row;
  db_consumers : list consumer_row;
}.

Definition set_meta_row (m : meta_row) (d : edb) : edb :=
  Edb (db_schema d) (Some m) (db_nonces d) (db_events d) (db_consumers d).

Definition sqlite_error (code : string) : exn := Raised "sqlite3.Error" code.
Definition os_error (code : string) : exn := Raised "OSError" code.

(** The place of a row among rows ordered by key. *)
Definition put_row {A} (key : A → Z) (r : A) (l : list A) : list A :=
  List.filter (λ x, key x <? key r) l ++ r :: List.filter (λ x, key r <? key x) l.

(** [INSERT INTO events], with the primary key and the two UNIQUE columns. *)
Definition insert_event (r : event_row) (d : edb) : result edb :=
  if existsb (λ x, (er_sequence x =? er_sequence r) || bool_decide (er_operation x = er_operation r)
                   || bool_decide (er_id x = er_id r)) (db_events d)
  then Err (sqlite_error "CONSTRAINT")
  else Ok (Edb (db_schema d) (db_meta d) (db_nonces d) (put_row er_sequence r (db_events d)) (db_consumers d)).

Definition insert_nonce (r : nonce_row) (d : edb) : result edb :=
  if existsb (λ x, (nr_reservation x =? nr_reservation r) || bool_decide (nr_nonce x = nr_nonce r)) (db_nonces d)
  then Err (sqlite_error "CONSTRAINT")
  else Ok (Edb (db_schema d) (db_meta d) (put_row nr_reservation r (db_nonces d)) (db_events d) (db_consumers d)).

Definition insert_consumer (r : consumer_row) (d : edb) : result edb :=
  if existsb (λ x, bool_decide (cr_consumer x = cr_consumer r)) (db_consumers d)
  then Err (sqlite_error "CONSTRAINT")
  else Ok (Edb (db_schema d) (db_meta d) (db_nonces d) (db_events d) (db_consumers d ++ [r])).

(** [UPDATE consumers SET ... WHERE consumer=?] *)
Definition update_consumer (r : consumer_row) (d : edb) : edb :=
  Edb (db_schema d) (db_meta d) (db_nonces d) (db_events d)
    ((λ x, if bool_decide (cr_consumer x = cr_consumer r) then r else x) <$> db_consumers d).

Definition find_operation (op : bytes) (d : edb) : option event_row :=
  List.find (λ r, bool_decide (er_operation r = op)) (db_events d).
Definition find_consumer (consumer : bytes) (d : edb) : option consumer_row :=
  List.find (λ r, bool_decide (cr_consumer r = consumer)) (db_consumers d).
(** [SELECT operation FROM nonces WHERE nonce=?] *)
Definition nonce_operation (nonce : bytes) (l : list nonce_row) : option bytes :=
  nr_operation <$> List.find (λ r, bool_decide (nr_nonce r = nonce)) l.
(** [SELECT coalesce(sum(length(record)),0) FROM events] *)
Definition used_bytes (l : list event_row) : Z := fold_right Z.add 0 ((λ r, len (er_record r)) <$> l).

(** ** The object *)

Record config := Config {
  c_certificate : bytes;
  c_seed : bytes;
  c_public : bytes;
  c_space : bytes;
  c_epoch : Z;
  c_app : pystr;
  c_schema : list (pystr * kind);
  c_context : bytes;
  c_generation : bytes;
  c_key : bytes;
  c_mac_key : bytes;
  c_max_events : Z;
  c_max_bytes : Z;
  c_max_consumers : Z;
}.

(** [EventReceipt]; [replicated] is always [False]. *)
Record receipt := Receipt {
  rc_state : string;
  rc_operation : bytes;
  rc_event : option bytes;
  rc_sequence : option Z;
  rc_cancellation : bool;
}.

Record event_t := Event {
  ev_sequence : Z;
  ev_id : bytes;
  ev_operation : bytes;
  ev_parents : list bytes;
  ev_payload : bytes;
}.

Record batch := Batch {
  bt_events : list event_t;
  bt_token : option bytes;
  bt_more : bool;
}.

(** A live [Subscription]; a cancelled one is not kept. *)
Record subscription := Subscription {
  sb_session : bytes;
  sb_pending : option (batch * bytes);     (* [_pending] and [_stamp] *)
  sb_last : option (bytes * bytes);
}.

Record memory := Memory {
  m_closed : bool;
  m_uncertain : bool;
  m_known : gmap bytes (Z * Z);
  m_known_tail : Z;
  m_known_chain : bytes;
  m_subs : gmap bytes subscription;
}.

Record jstate := Jstate { js_db : edb; js_mem : memory }.

Definition set_uncertain (m : memory) : memory :=
  Memory (m_closed m) true (m_known m) (m_known_tail m) (m_known_chain m) (m_subs m).
Definition set_sub (consumer : bytes) (s : option subscription) (m : memory) : memory :=
  Memory (m_closed m) (m_uncertain m) (m_known m) (m_known_tail m) (m_known_chain m)
    (partial_alter (λ _, s) consumer (m_subs m)).

(** ** The owner and the world *)

(** What [_guard] sees of the AuthorityStore. *)
Record eowner := Eowner {
  eo_enter : bool → result unit;      (* [_enter(write)] *)
  eo_failed : gset bytes;
  eo_load : result (bytes * authority);  (* the row digest and the state of [_load] *)
  eo_fencing : value;
}.

Record world := World {
  w_path : result unit;
  w_owner : string → eowner;
  w_observer : string → option exn;
  w_sql : string → option exn;
  w_applied : string → bool;
  w_cancel : Z → option bool;
  w_random : Z → option bytes;
}.

Definition raised (o : option exn) : result unit := match o with Some e => Err e | None => Ok tt end.
Definition notify (w : world) (label : string) : result unit := raised (w_observer w label).
Definition sql (w : world) (label : string) : result unit := raised (w_sql w label).

Section Journal.
Context `{Hash} `{Sodium}.

(** ** Keys and seals *)

Definition derive (generation context secret : bytes) : result (bytes * bytes) :=
  prk ← hkdf_extract (sha256 (generation ++ context)) secret;
  key ← hkdf_expand prk (ascii "PAR local events 0037") 32;
  mac_key ← hkdf_expand key (ascii "journal and cursor authentication") 32;
  Ok (key, mac_key).

Definition mac (cfg : config) (label : string) (parts : list value) : result bytes :=
  d ← domain label parts; Ok (hmac (c_mac_key cfg) d).

Definition meta_seal (cfg : config) (tail : Z) (chain : bytes) (issued : Z) (nonce_chain : bytes)
    : result bytes :=
  mac cfg "events/meta" [VBytes (c_generation cfg); VBytes (c_context cfg); VInt tail; VBytes chain;
                         VInt issued; VBytes nonce_chain].

(** [_set_meta] with all four values; the two-argument call keeps the nonce fields. *)
Definition set_meta (cfg : config) (tail : Z) (chain : bytes) (issued : Z) (nonce_chain : bytes) (d : edb)
    : result edb :=
  seal ← meta_seal cfg tail chain issued nonce_chain;
  Ok (set_meta_row (MetaRow (c_generation cfg) (c_context cfg) tail chain issued nonce_chain seal) d).

Definition get_meta (d : edb) : result meta_row := of_option TypeError (db_meta d).

Definition consumer_seal (cfg : config) (consumer : bytes) (position : Z) (event_id : bytes) (revision : Z)
    : result bytes :=
  mac cfg "events/consumer" [VBytes (c_generation cfg); VBytes consumer; VInt position; VBytes event_id;
                             VInt revision].

Definition nonce_link (cfg : config) (chain : bytes) (n : Z) (nonce op : bytes) : result bytes :=
  mac cfg "events/nonce-chain" [VBytes chain; VInt n; VBytes nonce; VBytes op].

Definition event_link (cfg : config) (chain : bytes) (n : Z) (op input id : bytes) : result bytes :=
  mac cfg "events/chain" [VBytes chain; VInt n; VBytes op; VBytes input; VBytes id].

Definition input_digest (cfg : config) (op : bytes) (parents : list bytes) (payload : bytes) : result bytes :=
  mac cfg "events/input" [VBytes op; VList (VBytes <$> parents); VBytes payload].

(** ** Records *)

Definition corrupt : exn := event "JOURNAL_CORRUPT".
Definition cneed (ok : bool) : result unit := require ok corrupt.

Definition event_header (cfg : config) (op : bytes) (sequence : Z) (parents : list bytes) (nonce input : bytes)
    : value :=
  dict [(0, VBytes (c_context cfg)); (1, VBytes op); (2, VInt sequence); (3, VList (VBytes <$> parents));
        (4, VBytes nonce); (5, VBytes (c_certificate cfg)); (6, VBytes input)].

(** The parents of a header: distinct 32-byte strings.  (An unhashable element raises
    [TypeError] in the code; every caller maps both to one error.) *)
Definition read_parents (v : value) : result (list bytes) :=
  match v with
  | VList l =>
      _ ← cneed ((len l <=? MAX_PARENTS) && bool_decide (NoDup l));
      mapM (λ p, b ← bytes_arg p; _ ← efixed b 32; Ok b) l
  | _ => Err corrupt
  end.

Definition decode_event (cfg : config) (nonces : list nonce_row) (r : event_row) : result event_t :=
  obj ← decode_with MAX_EVENT_BYTES MAX_NODES (er_record r);
  _ ← match obj with VDict d => cneed (keys_exactly 3 d) | _ => Err corrupt end;
  header ← getitem obj 0; cipher ← getitem obj 1; sig ← getitem obj 2;
  _ ← match header with VDict d => cneed (keys_exactly 7 d) | _ => Err corrupt end;
  h0 ← getitem header 0; h1 ← getitem header 1; h2 ← getitem header 2;
  _ ← cneed (py_eq h0 (VBytes (c_context cfg)) && py_eq h1 (VBytes (er_operation r))
             && py_eq h2 (VInt (er_sequence r)));
  h3 ← getitem header 3;
  parents ← read_parents h3;
  h4 ← getitem header 4; nonce ← bytes_arg h4;
  _ ← efixed nonce 24;
  h5 ← getitem header 5; h6 ← getitem header 6;
  _ ← cneed (py_eq h5 (VBytes (c_certificate cfg)) && py_eq h6 (VBytes (er_input r)));
  m ← domain "events/sign" [header; cipher];
  s ← bytes_arg sig;
  _ ← verify (c_public cfg) m s;
  id ← hashed "events/id" [VBytes (er_record r)];
  _ ← cneed (bool_decide (er_id r = id));
  _ ← cneed (bool_decide (nonce_operation nonce nonces = Some (er_operation r)));
  aad ← domain "events/aad" [header];
  ct ← bytes_arg cipher;
  plain ← open (c_key cfg) nonce aad ct;
  payload ← decode_payload plain;
  again ← validate_payload (c_schema cfg) payload;
  _ ← cneed (bool_decide (again = plain));
  dg ← input_digest cfg (er_operation r) parents plain;
  _ ← cneed (bool_decide (er_input r = dg));
  Ok (Event (er_sequence r) (er_id r) (er_operation r) parents plain).

(** ** The audit *)

(** The nonce table: consecutive reservations under one chain, which is returned. *)
Fixpoint audit_nonces (cfg : config) (n : Z) (chain : bytes) (l : list nonce_row) : result bytes :=
  match l with
  | [] => Ok chain
  | r :: l' =>
      _ ← efixed (nr_nonce r) 24; _ ← efixed (nr_operation r) 16;
      chain ← nonce_link cfg chain n (nr_nonce r) (nr_operation r);
      _ ← cneed ((nr_reservation r =? n) && bool_decide (nr_chain r = chain));
      audit_nonces cfg (n + 1) chain l'
  end.

(** The event table: [ids] are the ids of the earlier events, [seen] as a set. *)
Fixpoint audit_events (cfg : config) (nonces : list nonce_row) (n : Z) (chain : bytes) (ids : list bytes)
    (l : list event_row) : result (bytes * list bytes) :=
  match l with
  | [] => Ok (chain, ids)
  | r :: l' =>
      e ← decode_event cfg nonces r;
      _ ← cneed ((ev_sequence e =? n) && forallb (λ p, bool_decide (p ∈ ids)) (ev_parents e));
      chain ← event_link cfg chain n (ev_operation e) (er_input r) (ev_id e);
      _ ← cneed (bool_decide (er_chain r = chain));
      audit_events cfg nonces (n + 1) chain (ids ++ [ev_id e]) l'
  end.

(** [ids[position]]: the id of the event at a position, [b''] at 0. *)
Definition id_at (ids : list bytes) (position : Z) : option bytes :=
  if position =? 0 then Some []
  else if 1 <=? position then ids !! Z.to_nat (position - 1) else None.

Definition audit_consumer (cfg : config) (ids : list bytes) (known : gmap bytes (Z * Z)) (r : consumer_row)
    : result unit :=
  _ ← efixed (cr_consumer r) 16;
  seal ← consumer_seal cfg (cr_consumer r) (cr_position r) (cr_event r) (cr_revision r);
  _ ← cneed (bool_decide (id_at ids (cr_position r) = Some (cr_event r)) && (0 <=? cr_revision r)
             && bool_decide (cr_seal r = seal));
  match known !! cr_consumer r with
  | Some (position, revision) => cneed ((position <=? cr_position r) && (revision <=? cr_revision r))
  | None => Ok tt
  end.

Definition known_rows (l : list consumer_row) : gmap bytes (Z * Z) :=
  list_to_map ((λ r, (cr_consumer r, (cr_position r, cr_revision r))) <$> l).

(** What [_audit] checks of the tables. *)
Definition audit_db (cfg : config) (known : gmap bytes (Z * Z)) (known_tail : Z) (known_chain : bytes) (d : edb)
    : result (gmap bytes (Z * Z) * Z * bytes) :=
  _ ← cneed (db_schema d);
  m ← of_option corrupt (db_meta d);
  seal ← meta_seal cfg (mt_tail m) (mt_chain m) (mt_issued m) (mt_nonce_chain m);
  _ ← cneed (bool_decide (mt_generation m = c_generation cfg) && bool_decide (mt_context m = c_context cfg)
             && bool_decide (mt_seal m = seal));
  _ ← cneed ((len (db_events d) <=? c_max_events cfg) && (used_bytes (db_events d) <=? c_max_bytes cfg));
  _ ← cneed ((len (db_nonces d) <=? MAX_NONCES) && (mt_issued m =? len (db_nonces d)));
  nc ← audit_nonces cfg 1 [] (db_nonces d);
  _ ← cneed (bool_decide (mt_nonce_chain m = nc));
  '(chain, ids) ← audit_events cfg (db_nonces d) 1 [] [] (db_events d);
  _ ← cneed ((mt_tail m =? len (db_events d)) && bool_decide (mt_chain m = chain));
  _ ← cneed (known_tail <=? len (db_events d));
  _ ← cneed (negb (len (db_events d) =? known_tail) || bool_decide (chain = known_chain));
  _ ← cneed (len (db_consumers d) <=? c_max_consumers cfg);
  _ ← iter (λ r _, audit_consumer cfg ids known r) (db_consumers d) tt;
  _ ← cneed (bool_decide (dom known ⊆@{gset bytes} list_to_set (cr_consumer <$> db_consumers d)));
  Ok (known_rows (db_consumers d), len (db_events d), chain).

(** [_audit]: any failure is [JOURNAL_CORRUPT]; the object learns what it saw. *)
Definition audit_mem (cfg : config) (m : memory) (d : edb) : result memory :=
  '(known, tail, chain) ← catch_any corrupt (audit_db cfg (m_known m) (m_known_tail m) (m_known_chain m) d);
  Ok (Memory (m_closed m) (m_uncertain m) known tail chain (m_subs m)).

(** ** Authority *)

Definition not_authorized : exn := event "NOT_AUTHORIZED".

(** [_guard] *)
Definition guard (cfg : config) (ow : eowner) (write : bool) : result bytes :=
  catch_any not_authorized
    (_ ← eo_enter ow write;
     _ ← eneed (negb (bool_decide (c_space cfg ∈ eo_failed ow))) "NOT_AUTHORIZED";
     '(row, st) ← eo_load ow;
     p ← authorize st (c_certificate cfg) (if write then "write" else "read");
     e ← epoch st;
     _ ← eneed (bool_decide (a_app st = c_app cfg) && (e =? c_epoch cfg)) "NOT_AUTHORIZED";
     encode (VList [VBytes row; eo_fencing ow; VBytes (pm_device p)])).

Definition recheck (cfg : config) (w : world) (label : string) (stamp : bytes) (write : bool) : result unit :=
  now ← catch_any (event "AUTHORITY_CHANGED") (guard cfg (w_owner w label) write);
  eneed (bool_decide (now = stamp)) "AUTHORITY_CHANGED".

(** ** Operations *)

Definition read_db : crash jstate edb := reads (λ s, Ok (js_db s)).
Definition read_mem : crash jstate memory := reads (λ s, Ok (js_mem s)).
(** A change of the object only. *)
Definition set_mem (f : memory → memory) : crash jstate unit :=
  λ s, ([], Jstate (js_db s) (f (js_mem s)), Ok tt).
(** A COMMIT that takes effect. *)
Definition commit_db (d : edb) : crash jstate unit := write (λ s, Jstate d (js_mem s)).

Definition enter (w : world) : crash jstate unit :=
  m ← read_mem;
  _ ← lift (eneed (negb (m_closed m)) "CLOSED");
  _ ← lift (eneed (negb (m_uncertain m)) "JOURNAL_UNCERTAIN");
  lift (w_path w).

Definition run_audit (cfg : config) : crash jstate unit :=
  m ← read_mem; d ← read_db;
  m' ← lift (audit_mem cfg m d);
  set_mem (λ _, m').

(** [_operation]: what precedes the body of every method. *)
Definition operation (cfg : config) (w : world) (write : bool) : crash jstate bytes :=
  _ ← enter w;
  stamp ← lift (guard cfg (w_owner w "start") write);
  _ ← run_audit cfg;
  mret stamp.

(** The error an exception inside a transaction becomes. *)
Definition storage_error (e : exn) : exn :=
  match e with
  | Raised cls code =>
      if String.eqb cls "sqlite3.Error" then
        if String.eqb code "BUSY" || String.eqb code "LOCKED" then event "STORAGE_BUSY"
        else if String.eqb code "FULL" then event "STORAGE_FULL" else event "STORAGE_ERROR"
      else if String.eqb cls "OSError" then event "STORAGE_ERROR" else e
  | _ => e
  end.

Definition outcome_unknown : exn := event "EVENT_OUTCOME_UNKNOWN".

(** Everything between BEGIN and COMMIT. *)
Definition inside (cfg : config) (w : world) (stage : string) (stamp : bytes) (wr : bool)
    (body : edb → result edb) (d : edb) : result edb :=
  _ ← notify w (stage ++ ".after_begin");
  d' ← body d;
  _ ← notify w (stage ++ ".before_commit");
  _ ← recheck cfg w (stage ++ ".recheck") stamp wr;
  Ok d'.

(** [self._uncertain=True; raise EventError('EVENT_OUTCOME_UNKNOWN')] *)
Definition unknown {A} : crash jstate A :=
  _ ← set_mem set_uncertain; raise outcome_unknown.

Definition transaction (cfg : config) (w : world) (stage : string) (stamp : bytes) (wr : bool)
    (body : edb → result edb) : crash jstate unit :=
  d ← read_db;
  match sql w (stage ++ ".begin") with
  | Err e => raise (storage_error e)
  | Ok _ =>
      match inside cfg w stage stamp wr body d with
      | Err e =>
          match sql w (stage ++ ".rollback") with
          | Err _ => unknown
          | Ok _ => raise (storage_error e)
          end
      | Ok d' =>
          match sql w (stage ++ ".commit") with
          | Err _ => _ ← (if w_applied w stage then commit_db d' else mret tt); unknown
          | Ok _ =>
              _ ← commit_db d';
              m ← read_mem;
              match (_ ← notify w (stage ++ ".after_commit"); audit_mem cfg m d') with
              | Err _ => unknown
              | Ok m' => set_mem (λ _, m')
              end
          end
      end
  end.

(** The cancellation probe; [None]: it raised or gave no [bool]. *)
Definition cancel (w : world) (i : Z) : result bool :=
  of_option (event "CANCEL_PROBE_FAILED") (w_cancel w i).

Definition receipt_of (r : event_row) : receipt :=
  Receipt "LOCAL_EVENT_COMMITTED" (er_operation r) (Some (er_id r)) (Some (er_sequence r)) false.
Definition cancelled_receipt (op : bytes) : receipt := Receipt "CANCELLED" op None None false.

(** ** Publishing *)

(** The nonce is reserved in a transaction of its own, before anything is encrypted. *)
Definition reserve_body (cfg : config) (op nonce : bytes) (d : edb) : result edb :=
  m ← get_meta d;
  let number := mt_issued m + 1 in
  nc ← nonce_link cfg (mt_nonce_chain m) number nonce op;
  d ← insert_nonce (NonceRow number nonce op nc) d;
  set_meta cfg (mt_tail m) (mt_chain m) number nc d.

Definition commit_body (cfg : config) (w : world) (tail : Z) (op input id record : bytes) (d : edb) : result edb :=
  m ← get_meta d;
  _ ← eneed (mt_tail m =? tail) "STALE_FRONTIER";
  chain ← event_link cfg (mt_chain m) (tail + 1) op input id;
  d ← insert_event (EventRow (tail + 1) op input id record chain) d;
  _ ← notify w "event.after_insert";
  d ← set_meta cfg (tail + 1) chain (mt_issued m) (mt_nonce_chain m) d;
  _ ← notify w "event.after_frontier";
  Ok d.

(** The encrypted and signed record of an event, and its id. *)
Definition seal_record (cfg : config) (op : bytes) (sequence : Z) (parents : list bytes)
    (nonce input payload : bytes) : result (bytes * bytes) :=
  let header := event_header cfg op sequence parents nonce input in
  aad ← domain "events/aad" [header];
  ct ← seal (c_key cfg) nonce aad payload;
  m ← domain "events/sign" [header; VBytes ct];
  sg ← sign (c_seed cfg) m;
  record ← encode (dict [(0, header); (1, VBytes ct); (2, VBytes sg)]);
  _ ← eneed (len record <=? MAX_EVENT_BYTES) "RESOURCE_LIMIT";
  id ← hashed "events/id" [VBytes record];
  Ok (record, id).

(** The bound that reserves room for a record before its nonce is spent. *)
Definition room (cfg : config) (used : Z) (payload : bytes) (parents : list bytes) : bool :=
  used + len payload + len (c_context cfg) + len (c_certificate cfg) + len parents * 34 + 512
    <=? c_max_bytes cfg.

(** The arguments, before the object is entered. *)
Definition publish_input (cfg : config) (op : bytes) (payload : value) (parents : list bytes)
    : result (list bytes * bytes) :=
  _ ← efixed op 16;
  _ ← eneed (len parents <=? MAX_PARENTS) "INVALID_INPUT";
  _ ← iter (λ p _, efixed p 32) parents tt;
  _ ← eneed (bool_decide (NoDup parents)) "INVALID_INPUT";
  raw ← validate_payload (c_schema cfg) payload;
  Ok (sorted_bytes parents, raw).

(** The checks of a new operation, up to the first probe: the tail it extends. *)
Definition publish_checks (cfg : config) (parents : list bytes) (raw : bytes) (d : edb) : result Z :=
  _ ← iter (λ p _, eneed (existsb (λ r, bool_decide (er_id r = p)) (db_events d)) "DEPENDENCIES_PENDING")
        parents tt;
  m ← get_meta d;
  _ ← eneed (mt_tail m <? c_max_events cfg) "RESOURCE_LIMIT";
  _ ← eneed (len (db_nonces d) <? MAX_NONCES) "RESOURCE_LIMIT";
  _ ← eneed (room cfg (used_bytes (db_events d)) raw parents) "RESOURCE_LIMIT";
  Ok (mt_tail m).

(** [event.after_encrypt]: an [OSError] of the observer is a storage error. *)
Definition notify_encrypted (w : world) : result unit :=
  match notify w "event.after_encrypt" with
  | Err (Raised cls code) => if String.eqb cls "OSError" then Err (event "STORAGE_ERROR") else Err (Raised cls code)
  | r => r
  end.

(** The last probe: its failure leaves the outcome unknown. *)
Definition cancellation_requested (w : world) : crash jstate bool :=
  match cancel w 3 with Ok b => mret b | Err _ => unknown end.

Definition publish_new (cfg : config) (w : world) (stamp op : bytes) (parents : list bytes) (raw dg : bytes)
    : crash jstate receipt :=
  d ← read_db;
  tail ← lift (publish_checks cfg parents raw d);
  c1 ← lift (cancel w 1);
  if (c1 : bool) then mret (cancelled_receipt op)
  else
    nonce ← lift (random_bytes (w_random w) 24);
    _ ← transaction cfg w "nonce" stamp true (reserve_body cfg op nonce);
    '(record, id) ← lift (seal_record cfg op (tail + 1) parents nonce dg raw);
    _ ← lift (notify_encrypted w);
    c2 ← lift (cancel w 2);
    if (c2 : bool) then mret (cancelled_receipt op)
    else
      _ ← transaction cfg w "event" stamp true (commit_body cfg w tail op dg id record);
      requested ← cancellation_requested w;
      mret (Receipt "LOCAL_EVENT_COMMITTED" op (Some id) (Some (tail + 1)) requested).

Definition publish (cfg : config) (w : world) (op : bytes) (payload : value) (parents : list bytes)
    : crash jstate receipt :=
  '(parents, raw) ← lift (publish_input cfg op payload parents);
  stamp ← operation cfg w true;
  dg ← lift (input_digest cfg op parents raw);
  d ← read_db;
  match find_operation op d with
  | Some old =>
      _ ← lift (eneed (bool_decide (er_input old = dg)) "OPERATION_CONFLICT");
      _ ← lift (recheck cfg w "recheck" stamp true);
      mret (receipt_of old)
  | None => publish_new cfg w stamp op parents raw dg
  end.

(** ** Inspection *)

Record inspection := Inspection { in_events : Z; in_nonces : Z; in_consumers : Z; in_bytes : Z }.

Definition inspect_journal (cfg : config) (w : world) : crash jstate inspection :=
  stamp ← operation cfg w false;
  d ← read_db;
  _ ← lift (recheck cfg w "recheck" stamp false);
  mret (Inspection (len (db_events d)) (len (db_nonces d)) (len (db_consumers d)) (used_bytes (db_events d))).

Definition inspect_operation (cfg : config) (w : world) (op : bytes) : crash jstate (option receipt) :=
  _ ← lift (efixed op 16);
  stamp ← operation cfg w false;
  d ← read_db;
  _ ← lift (recheck cfg w "recheck" stamp false);
  mret (receipt_of <$> find_operation op d).

(** ** Tokens *)

Definition make_token (cfg : config) (label : string) (data : list value) : result bytes :=
  b ← encode (VList data);
  m ← mac cfg label [VBytes b];
  encode (VList [VBytes b; VBytes m]).

Definition cursor_invalid : exn := event "CURSOR_INVALID".

Definition open_token (cfg : config) (label : string) (token : bytes) : result value :=
  catch_any cursor_invalid
    (_ ← require (len token <=? 4096) cursor_invalid;
     pair ← decode_with 4096 MAX_NODES token;
     match pair with
     | VList [VBytes b; VBytes m] =>
         expected ← mac cfg label [VBytes b];
         _ ← require (bool_decide (m = expected)) cursor_invalid;
         decode_with 4096 MAX_NODES b
     | _ => Err cursor_invalid
     end).

(** ** Subscriptions *)

(** The test of an expected cursor against the consumer's row. *)
Definition check_cursor (cfg : config) (consumer token : bytes) (r : option consumer_row) (d : edb) : result unit :=
  data ← open_token cfg "events/cursor" token;
  match data with
  | VList [g; c; k; VInt position; id; VInt revision] =>
      _ ← require (py_eq g (VBytes (c_generation cfg)) && py_eq c (VBytes (sha256 (c_context cfg)))
                   && py_eq k (VBytes consumer)) cursor_invalid;
      r ← of_option cursor_invalid r;
      _ ← require ((position <=? cr_position r) && (revision <=? cr_revision r)) cursor_invalid;
      require (((position =? 0) && py_eq id (VBytes []))
               || match List.find (λ e, er_sequence e =? position) (db_events d) with
                  | Some e => py_eq (VBytes (er_id e)) id | None => false end) cursor_invalid
  | _ => Err cursor_invalid
  end.

Definition subscribe_body (cfg : config) (consumer : bytes) (d : edb) : result edb :=
  seal ← consumer_seal cfg consumer 0 [] 0;
  insert_consumer (ConsumerRow consumer 0 [] 0 seal) d.

Definition subscribe (cfg : config) (w : world) (consumer : bytes) (expected_cursor : option bytes)
    : crash jstate unit :=
  _ ← lift (efixed consumer 16);
  stamp ← operation cfg w false;
  m ← read_mem;
  _ ← lift (eneed (bool_decide (m_subs m !! consumer = None)) "SUBSCRIPTION_BUSY");
  d ← read_db;
  let r := find_consumer consumer d in
  _ ← (match expected_cursor with Some token => lift (check_cursor cfg consumer token r d) | None => mret tt end);
  _ ← (match r with
       | Some _ => mret tt
       | None =>
           _ ← lift (eneed (len (db_consumers d) <? c_max_consumers cfg) "RESOURCE_LIMIT");
           transaction cfg w "subscribe" stamp false (subscribe_body cfg consumer)
       end);
  _ ← lift (recheck cfg w "recheck" stamp false);
  session ← lift (random_bytes (w_random w) 16);
  set_mem (set_sub consumer (Some (Subscription session None None))).

(** [_check]: a live subscription of the consumer. *)
Definition live_sub (w : world) (consumer : bytes) : crash jstate subscription :=
  _ ← enter w;
  m ← read_mem;
  lift (of_option (event "SUBSCRIPTION_CLOSED") (m_subs m !! consumer)).

(** [_row] *)
Definition consumer_row_of (consumer : bytes) (d : edb) : result consumer_row :=
  of_option corrupt (find_consumer consumer d).

(** The loop of [poll]: the events that fit the byte window. *)
Fixpoint take_window (cfg : config) (nonces : list nonce_row) (byte_limit size : Z) (first : bool)
    (rows : list event_row) : result (list event_t) :=
  match rows with
  | [] => Ok []
  | r :: rows' =>
      e ← decode_event cfg nonces r;
      if byte_limit <? size + len (ev_payload e) then
        _ ← eneed (negb first) "EVENT_EXCEEDS_WINDOW"; Ok []
      else
        es ← take_window cfg nonces byte_limit (size + len (ev_payload e)) false rows';
        Ok (e :: es)
  end.

Definition delivery_token (cfg : config) (consumer session : bytes) (r : consumer_row) (e : event_t) (stamp : bytes)
    : result bytes :=
  make_token cfg "events/delivery"
    [VBytes (c_generation cfg); VBytes (sha256 (c_context cfg)); VBytes consumer; VBytes session;
     VInt (cr_position r); VInt (cr_revision r); VInt (ev_sequence e); VBytes (ev_id e); VBytes stamp].

Definition poll (cfg : config) (w : world) (consumer : bytes) (limit byte_limit : Z) : crash jstate batch :=
  sub ← live_sub w consumer;
  _ ← lift (eneed ((1 <=? limit) && (limit <=? 32) && (1 <=? byte_limit) && (byte_limit <=? 512 * 1024))
              "INVALID_INPUT");
  stamp ← operation cfg w false;
  match sb_pending sub with
  | Some (b, stamp0) => _ ← lift (recheck cfg w "recheck" stamp0 false); mret b
  | None =>
      d ← read_db;
      r ← lift (consumer_row_of consumer d);
      let rows := take (Z.to_nat (limit + 1)) (List.filter (λ e, cr_position r <? er_sequence e) (db_events d)) in
      events ← lift (take_window cfg (db_nonces d) byte_limit 0 true (take (Z.to_nat limit) rows));
      _ ← lift (recheck cfg w "recheck" stamp false);
      match last events with
      | None => mret (Batch [] None false)
      | Some e =>
          token ← lift (delivery_token cfg consumer (sb_session sub) r e stamp);
          let b := Batch events (Some token) (len events <? len rows) in
          _ ← set_mem (set_sub consumer (Some (Subscription (sb_session sub) (Some (b, stamp)) (sb_last sub))));
          mret b
      end
  end.

Definition cursor_token (cfg : config) (consumer : bytes) (position : Z) (id : bytes) (revision : Z) : result bytes :=
  make_token cfg "events/cursor"
    [VBytes (c_generation cfg); VBytes (sha256 (c_context cfg)); VBytes consumer; VInt position; VBytes id;
     VInt revision].

Definition ack_body (cfg : config) (w : world) (consumer : bytes) (position : Z) (id : bytes) (revision : Z)
    (d : edb) : result edb :=
  seal ← consumer_seal cfg consumer position id revision;
  let d := update_consumer (ConsumerRow consumer position id revision seal) d in
  _ ← notify w "ack.after_update";
  Ok d.

Definition ack_pending (cfg : config) (w : world) (consumer token : bytes) (sub : subscription)
    (stamp : bytes) (p0 v0 : value) (position : Z) (id stamp0 : bytes) : crash jstate bytes :=
  _ ← lift (require (match sb_pending sub with
                     | Some (b, _) => bool_decide (bt_token b = Some token) | None => false end) cursor_invalid);
  _ ← lift (recheck cfg w "recheck" stamp0 false);
  d ← read_db;
  r ← lift (consumer_row_of consumer d);
  _ ← lift (eneed (py_eq (VInt (cr_position r)) p0 && py_eq (VInt (cr_revision r)) v0) "CURSOR_STALE");
  _ ← transaction cfg w "ack" stamp false (ack_body cfg w consumer position id (cr_revision r + 1));
  result ← lift (cursor_token cfg consumer position id (cr_revision r + 1));
  _ ← set_mem (set_sub consumer (Some (Subscription (sb_session sub) None (Some (token, result)))));
  mret result.

(** A token that opens was made by this object, so the last fields have their types. *)
Definition ack (cfg : config) (w : world) (consumer token : bytes) : crash jstate bytes :=
  sub ← live_sub w consumer;
  stamp ← operation cfg w false;
  data ← lift (open_token cfg "events/delivery" token);
  match data with
  | VList [g; c; k; s; p0; v0; VInt position; VBytes id; VBytes stamp0] =>
      _ ← lift (require (py_eq g (VBytes (c_generation cfg)) && py_eq c (VBytes (sha256 (c_context cfg)))
                         && py_eq k (VBytes consumer) && py_eq s (VBytes (sb_session sub))) cursor_invalid);
      match sb_last sub with
      | Some (t, result) =>
          if bool_decide (t = token) then _ ← lift (recheck cfg w "recheck" stamp0 false); mret result
          else ack_pending cfg w consumer token sub stamp p0 v0 position id stamp0
      | None => ack_pending cfg w consumer token sub stamp p0 v0 position id stamp0
      end
  | _ => raise cursor_invalid
  end.

Definition position (cfg : config) (w : world) (consumer : bytes) : crash jstate Z :=
  _ ← live_sub w consumer;
  _ ← operation cfg w false;
  d ← read_db;
  r ← lift (consumer_row_of consumer d);
  mret (cr_position r).

Definition cursor (cfg : config) (w : world) (consumer : bytes) : crash jstate bytes :=
  _ ← live_sub w consumer;
  stamp ← operation cfg w false;
  d ← read_db;
  r ← lift (consumer_row_of consumer d);
  _ ← lift (recheck cfg w "recheck" stamp false);
  lift (cursor_token cfg consumer (cr_position r) (cr_event r) (cr_revision r)).

(** [Subscription.cancel] *)
Definition cancel_sub (consumer : bytes) : crash jstate unit := set_mem (set_sub consumer None).

(** [close] *)
Definition close : crash jstate unit :=
  set_mem (λ m, Memory true (m_uncertain m) (m_known m) (m_known_tail m) (m_known_chain m)
                  (if m_closed m then m_subs m else ∅)).

(** ** Opening *)

Record arguments := Arguments {
  ag_owner : eowner;
  ag_legacy : bool;                 (* the provider is the legacy experiment *)
  ag_allow_legacy : bool;
  ag_certificate : bytes;
  ag_sign_seed : bytes;
  ag_local_secret : bytes;
  ag_app : pystr;
  ag_space : bytes;
  ag_stream : bytes;
  ag_epoch : Z;
  ag_schema : value;
  ag_max_events : Z;
  ag_max_bytes : Z;
  ag_max_consumers : Z;
}.

Definition within (x lo hi : Z) : bool := (lo <=? x) && (x <=? hi).

Definition check_arguments (g : arguments) : result unit :=
  _ ← efixed (ag_sign_seed g) 32; _ ← efixed (ag_local_secret g) 32;
  _ ← efixed (ag_space g) 32; _ ← efixed (ag_stream g) 32;
  _ ← eneed ((0 <? len (ag_certificate g)) && (len (ag_certificate g) <=? 4096)) "INVALID_INPUT";
  _ ← eneed (key_app_ok (ag_app g)) "INVALID_INPUT";
  _ ← eneed ((1 <=? ag_epoch g) && (ag_epoch g <? 2 ^ 64)) "INVALID_INPUT";
  eneed (within (ag_max_events g) 1 4096 && within (ag_max_bytes g) 1024 (64 * 1024 * 1024)
         && within (ag_max_consumers g) 1 128) "INVALID_INPUT".

(** The context that binds a journal to its stream, schema, certificate and limits. *)
Definition make_context (g : arguments) (schema : bytes) : result bytes :=
  encode (VList [VStr PROFILE; VStr (ag_app g); VBytes (ag_space g); VBytes (ag_stream g); VInt (ag_epoch g);
                 VBytes schema; VBytes (sha256 (ag_certificate g)); VInt (ag_max_events g);
                 VInt (ag_max_bytes g); VInt (ag_max_consumers g)]).

(** The part of [__init__] before the file is touched; the generation comes later. *)
Definition prepare (g : arguments) : result (bytes → result config) :=
  _ ← check_arguments g;
  sb ← schema_bytes (ag_schema g);
  fields ← schema_fields sb;
  _ ← eneed (negb (ag_legacy g) || ag_allow_legacy g) "DEPENDENCY_UPGRADE_REQUIRED";
  public ← sign_public (ag_sign_seed g);
  _ ← eo_enter (ag_owner g) false;
  '(_, st) ← eo_load (ag_owner g);
  view ← current_membership st;
  cert ← member_certificate (ag_app g) view (ag_certificate g);
  pk ← getitem cert 3;
  _ ← eneed (bool_decide (pk = VBytes public)) "SIGNER_MISMATCH";
  context ← make_context g sb;
  Ok (λ generation,
    '(key, mac_key) ← derive generation context (ag_local_secret g);
    Ok (Config (ag_certificate g) (ag_sign_seed g) public (ag_space g) (ag_epoch g) (ag_app g) fields context
          generation key mac_key (ag_max_events g) (ag_max_bytes g) (ag_max_consumers g))).

Definition fresh_memory : memory := Memory false false ∅ 0 [] ∅.

(** What both ways of opening end with. *)
Definition finish_open (g : arguments) (cfg : config) (d : edb) : result memory :=
  _ ← cneed (db_schema d);
  m ← audit_mem cfg fresh_memory d;
  _ ← guard cfg (ag_owner g) false;
  Ok m.

(** [EventJournal.open] on a file that holds [d]. *)
Definition open_journal (g : arguments) (d : edb) : result (config * memory) :=
  make ← prepare g;
  row ← of_option corrupt (db_meta d);
  _ ← efixed (mt_generation row) 32;
  cfg ← make (mt_generation row);
  seal ← meta_seal cfg (mt_tail row) (mt_chain row) (mt_issued row) (mt_nonce_chain row);
  _ ← eneed (bool_decide (mt_context row = c_context cfg) && bool_decide (mt_seal row = seal))
        "KEY_OR_CONTEXT_MISMATCH";
  m ← finish_open g cfg d;
  Ok (cfg, m).

Definition empty_edb : edb := Edb true None [] [] [].

(** [EventJournal.create]: the file its first transaction leaves. *)
Definition create_journal (g : arguments) (random : Z → option bytes) : result (config * jstate) :=
  make ← prepare g;
  generation ← random_bytes random 32;
  cfg ← make generation;
  d ← set_meta cfg 0 [] 0 [] empty_edb;
  m ← finish_open g cfg d;
  Ok (cfg, Jstate d m).
End Journal.
