(* ===== verification/EventsSpec.v ===== *)
(** * Soundness of the event journal: the audit as a specification

    [audited] is what a passing audit says of the tables, [aware] what it says of the
    object's memory, [extends] how a journal grows.  Every transaction body of the journal
    takes an audited database to an audited one that extends it. *)

From S2P Require Import Prelude Bytes Value Codec Flat Json Hash Sodium Primitives Objects ObjectsSpec Membership Authority Activation Crash EventPayload Events.
Local Open Scope Z_scope.

#[local] Opaque encode encode_with decode decode_with crypt domain verify sign hashed hmac validate_payload decode_payload.

Lemma bool_decide_refl `{EqDecision A} (x : A) : bool_decide (x = x) = true.
Proof. by apply bool_decide_eq_true. Qed.

Lemma bind_mono {A B} (m : result A) (f g : A → result B) b :
  (∀ a, f a = Ok b → g a = Ok b) → m ≫= f = Ok b → m ≫= g = Ok b.
Proof. destruct m; cbn; auto. Qed.

(** Drops the steps of a successful computation. *)
Ltac unbind E :=
  repeat lazymatch type of E with
  | (_ ≫= _) = Ok _ => let x := fresh "x" in apply bind_Ok in E as (x & _ & E)
  end.

Section Audit.
Context `{Hash} `{Sodium}.
Implicit Types (cfg : config) (d : edb) (m : memory).

(** ** What SQLite guarantees of the tables *)

Record db_keys d : Prop := {
  dk_operations : NoDup (er_operation <$> db_events d);
  dk_ids : NoDup (er_id <$> db_events d);
  dk_nonces : NoDup (nr_nonce <$> db_nonces d);
  dk_consumers : NoDup (cr_consumer <$> db_consumers d);
}.

(** ** A passing audit *)

Record audited cfg d (nc chain : bytes) (ids : list bytes) : Prop := {
  au_schema : db_schema d = true;
  au_meta : ∃ seal, db_meta d =
      Some (MetaRow (c_generation cfg) (c_context cfg) (len (db_events d)) chain (len (db_nonces d)) nc seal) ∧
    meta_seal cfg (len (db_events d)) chain (len (db_nonces d)) nc = Ok seal;
  au_events : audit_events cfg (db_nonces d) 1 [] [] (db_events d) = Ok (chain, ids);
  au_nonces : audit_nonces cfg 1 [] (db_nonces d) = Ok nc;
  au_max_events : len (db_events d) <= c_max_events cfg;
  au_max_bytes : used_bytes (db_events d) <= c_max_bytes cfg;
  au_max_nonces : len (db_nonces d) <= MAX_NONCES;
  au_max_consumers : len (db_consumers d) <= c_max_consumers cfg;
  au_consumers r : r ∈ db_consumers d → audit_consumer cfg ids ∅ r = Ok tt;
}.

(** What the object knows is still so. *)
Record aware (known : gmap bytes (Z * Z)) (known_tail : Z) (known_chain : bytes) d (chain : bytes) : Prop := {
  aw_tail : known_tail <= len (db_events d);
  aw_chain : len (db_events d) = known_tail → chain = known_chain;
  aw_rows r p v : r ∈ db_consumers d → known !! cr_consumer r = Some (p, v) →
    p <= cr_position r ∧ v <= cr_revision r;
  aw_dom : dom known ⊆@{gset bytes} list_to_set (cr_consumer <$> db_consumers d);
}.

Lemma audit_consumer_known cfg ids known r :
  audit_consumer cfg ids known r = Ok tt ↔
  audit_consumer cfg ids ∅ r = Ok tt ∧
  ∀ p v, known !! cr_consumer r = Some (p, v) → p <= cr_position r ∧ v <= cr_revision r.
Proof.
  unfold audit_consumer. rewrite lookup_empty.
  destruct (efixed _ _) as [[]|]; cbn [mbind result_bind]; [|by split; [|intros []]].
  destruct (consumer_seal _ _ _ _ _) as [seal|]; cbn [mbind result_bind]; [|by split; [|intros []]].
  destruct (cneed _) as [[]|]; cbn [mbind result_bind]; [|by split; [|intros []]].
  destruct (known !! cr_consumer r) as [[p v]|]; [|by split].
  unfold cneed. rewrite require_Ok, andb_true_iff, !Z.leb_le. naive_solver.
Qed.

Lemma audit_db_Ok cfg known kt kc d x :
  audit_db cfg known kt kc d = Ok x ↔
  ∃ nc chain ids, audited cfg d nc chain ids ∧ aware known kt kc d chain ∧
    x = (known_rows (db_consumers d), len (db_events d), chain).
Proof.
  unfold audit_db. split.
  - intros E. apply bind_Ok in E as ([] & Hs%require_Ok & E). apply bind_Ok in E as (m & Hm & E).
    apply bind_Ok in E as (seal & Hseal & E). apply bind_Ok in E as ([] & H1%require_Ok & E).
    apply bind_Ok in E as ([] & H2%require_Ok & E). apply bind_Ok in E as ([] & H3%require_Ok & E).
    apply bind_Ok in E as (nc & Hnc & E). apply bind_Ok in E as ([] & H4%require_Ok & E).
    apply bind_Ok in E as ([chain ids] & Hev & E). apply bind_Ok in E as ([] & H5%require_Ok & E).
    apply bind_Ok in E as ([] & H6%require_Ok & E). apply bind_Ok in E as ([] & H7%require_Ok%orb_prop & E).
    apply bind_Ok in E as ([] & H8%require_Ok & E). apply bind_Ok in E as ([] & H9 & E).
    apply bind_Ok in E as ([] & H10%require_Ok & [= <-]).
    destruct (db_meta d) as [[gen ctx tail ch iss nch se]|] eqn:Em; [injection Hm as <-|done].
    cbn [mt_generation mt_context mt_tail mt_chain mt_issued mt_nonce_chain mt_seal] in *.
    zb. rewrite !bool_decide_eq_true in *. subst.
    exists nc, chain, ids.
    assert (len (db_events d) = kt → chain = kc) as Hkc.
    { intros Hl. destruct H7 as [H7|H7]; [by apply negb_true_iff, Z.eqb_neq in H7|exact H7]. }
    zb.
    assert (∀ r, r ∈ db_consumers d → audit_consumer cfg ids known r = Ok tt) as Hrows by by apply iter_check.
    split; [split|split; [split|]]; try done; try lia.
    + by exists seal.
    + intros r Hr. exact (proj1 (proj1 (audit_consumer_known _ _ _ _) (Hrows r Hr))).
    + intros r p v Hr. exact (proj2 (proj1 (audit_consumer_known _ _ _ _) (Hrows r Hr)) p v).
  - intros (nc & chain & ids & [Hs (seal & Hm & Hseal) Hev Hnc ???? Hrows] & [? Htail Hk ?] & ->).
    unfold cneed. rewrite Hs, Hm. cbn [require of_option mbind result_bind].
    cbn [mt_generation mt_context mt_tail mt_chain mt_issued mt_nonce_chain mt_seal].
    rewrite Hseal, Hnc, Hev. cbn [mbind result_bind].
    rewrite !bool_decide_refl, (bool_decide_eq_true_2 (dom _ ⊆ _)), !Z.eqb_refl by done. rewrite !(proj2 (Z.leb_le _ _)) by assumption.
    cbn [andb orb require mbind result_bind].
    assert (negb (len (db_events d) =? kt) || bool_decide (chain = kc) = true) as ->.
    { destruct (Z.eqb_spec (len (db_events d)) kt); [|done]. by apply bool_decide_eq_true_2, Htail. }
    cbn [require mbind result_bind].
    assert (iter (λ r _, audit_consumer cfg ids known r) (db_consumers d) tt = Ok tt) as ->; [|done].
    apply iter_check. intros r Hr. apply audit_consumer_known. split; [by apply Hrows|intros p v; by apply Hk].
Qed.

(** ** Appending to the tables *)

Lemma audit_nonces_app cfg n chain l r nc nc' :
  audit_nonces cfg n chain l = Ok nc → nr_reservation r = n + len l →
  len (nr_nonce r) = 24 → len (nr_operation r) = 16 →
  nonce_link cfg nc (n + len l) (nr_nonce r) (nr_operation r) = Ok nc' → nr_chain r = nc' →
  audit_nonces cfg n chain (l ++ [r]) = Ok nc'.
Proof.
  revert n chain. induction l as [|x l IH]; intros n chain E Hn H1 H2 Hl Hc.
  - injection E as <-. len_nil. rewrite Z.add_0_r in *. cbn [app audit_nonces].
    unfold efixed, eneed, cneed. rewrite !(proj2 (Z.eqb_eq _ _)) by done. cbn [require mbind result_bind].
    rewrite Hl. cbn [mbind result_bind]. rewrite Hc, bool_decide_refl. done.
  - cbn [app audit_nonces] in *. rewrite len_cons in *.
    destruct (efixed (nr_nonce x) 24) as [[]|]; cbn [mbind result_bind] in *; [|done].
    destruct (efixed (nr_operation x) 16) as [[]|]; cbn [mbind result_bind] in *; [|done].
    destruct (nonce_link cfg chain n (nr_nonce x) (nr_operation x)) as [c|]; cbn [mbind result_bind] in *; [|done].
    destruct (cneed _) as [[]|]; cbn [mbind result_bind] in *; [|done].
    replace (n + (len l + 1)) with (n + 1 + len l) in * by lia. by apply IH.
Qed.

Lemma audit_events_app cfg nonces n chain ids l r c k e c' :
  audit_events cfg nonces n chain ids l = Ok (c, k) →
  decode_event cfg nonces r = Ok e → ev_sequence e = n + len l → (∀ p, p ∈ ev_parents e → p ∈ k) →
  event_link cfg c (n + len l) (ev_operation e) (er_input r) (ev_id e) = Ok c' → er_chain r = c' →
  audit_events cfg nonces n chain ids (l ++ [r]) = Ok (c', k ++ [ev_id e]).
Proof.
  revert n chain ids. induction l as [|x l IH]; intros n chain ids E Hd Hs Hp Hl Hc.
  - injection E as -> ->. len_nil. rewrite Z.add_0_r in *. cbn [app audit_events].
    rewrite Hd. cbn [mbind result_bind]. rewrite Hs, Z.eqb_refl.
    rewrite (proj2 (forallb_forall _ _)).
    + cbn [cneed require andb mbind result_bind]. rewrite Hl. cbn [mbind result_bind].
      by rewrite Hc, bool_decide_refl.
    + intros p Hin%list_elem_of_In. by apply bool_decide_eq_true, Hp.
  - cbn [app audit_events] in *. rewrite len_cons in *.
    destruct (decode_event cfg nonces x) as [ex|]; cbn [mbind result_bind] in *; [|done].
    destruct (cneed _) as [[]|]; cbn [mbind result_bind] in *; [|done].
    destruct (event_link cfg chain n (ev_operation ex) (er_input x) (ev_id ex)) as [cx|]; cbn [mbind result_bind] in *; [|done].
    destruct (cneed _) as [[]|]; cbn [mbind result_bind] in *; [|done].
    replace (n + (len l + 1)) with (n + 1 + len l) in * by lia. by eapply IH.
Qed.

(** The ids the audit collects are those of the rows, and every row decodes. *)
Lemma decode_event_row cfg nonces r e :
  decode_event cfg nonces r = Ok e →
  ev_sequence e = er_sequence r ∧ ev_id e = er_id r ∧ ev_operation e = er_operation r.
Proof.
  unfold decode_event. intros E. unbind E. injection E as <-. done.
Qed.

Lemma audit_events_inv cfg nonces n chain ids l c k :
  audit_events cfg nonces n chain ids l = Ok (c, k) →
  k = ids ++ (er_id <$> l) ∧
  ∀ i r, l !! i = Some r → er_sequence r = n + Z.of_nat i ∧ ∃ e, decode_event cfg nonces r = Ok e.
Proof.
  revert n chain ids. induction l as [|x l IH]; intros n chain ids E.
  - injection E as -> ->. split; [by rewrite app_nil_r|by intros i r ?].
  - cbn [audit_events] in E. apply bind_Ok in E as (e & He & E).
    apply bind_Ok in E as ([] & Hs%require_Ok & E). apply bind_Ok in E as (c1 & _ & E).
    apply bind_Ok in E as ([] & _ & E). apply IH in E as [-> Hr].
    pose proof (decode_event_row _ _ _ _ He) as (H1 & H2 & _). zb. split.
    + cbn. rewrite H2. by rewrite <-app_assoc.
    + intros [|i] r; cbn; [intros [= <-]; split; [lia|by exists e]|].
      intros Hi. destruct (Hr i r Hi) as [? ?]. split; [lia|done].
Qed.

(** Decoding looks up one nonce only. *)
Lemma decode_event_nonces cfg nonces nonces' r e :
  (∀ x op, nonce_operation x nonces = Some op → nonce_operation x nonces' = Some op) →
  decode_event cfg nonces r = Ok e → decode_event cfg nonces' r = Ok e.
Proof.
  intros Hn. unfold decode_event.
  repeat lazymatch goal with
  | |- (cneed (bool_decide (nonce_operation _ _ = _)) ≫= _) = _ → _ => fail
  | |- (_ ≫= _) = Ok _ → _ => refine (bind_mono _ _ _ _ _); let x := fresh "x" in intros x
  end.
  intros ([] & Hx%require_Ok%bool_decide_eq_true & E)%bind_Ok. apply Hn in Hx.
  refine (bind_step _ _ tt _ _ E). by rewrite Hx, bool_decide_refl.
Qed.

Lemma audit_events_nonces cfg nonces nonces' n chain ids l x :
  (∀ x op, nonce_operation x nonces = Some op → nonce_operation x nonces' = Some op) →
  audit_events cfg nonces n chain ids l = Ok x → audit_events cfg nonces' n chain ids l = Ok x.
Proof.
  intros Hn. revert n chain ids. induction l as [|r l IH]; intros n chain ids E; [done|].
  cbn [audit_events] in *. apply bind_Ok in E as (e & He & E).
  rewrite (decode_event_nonces _ _ _ _ _ Hn He). cbn [mbind result_bind].
  destruct (cneed _) as [[]|]; cbn [mbind result_bind] in *; [|done].
  destruct (event_link _ _ _ _ _ _) as [c|]; cbn [mbind result_bind] in *; [|done].
  destruct (cneed _) as [[]|]; cbn [mbind result_bind] in *; [|done]. by apply IH.
Qed.

Lemma nonce_operation_app x l k op :
  nonce_operation x l = Some op → nonce_operation x (l ++ k) = Some op.
Proof.
  unfold nonce_operation. induction l as [|r l IH]; cbn; [done|]. by case_bool_decide.
Qed.

Lemma nonce_operation_new l r :
  nr_nonce r ∉ nr_nonce <$> l → nonce_operation (nr_nonce r) (l ++ [r]) = Some (nr_operation r).
Proof.
  unfold nonce_operation. induction l as [|x l IH]; cbn; [by rewrite bool_decide_refl|].
  intros [Hx Hl]%not_elem_of_cons. rewrite bool_decide_eq_false_2 by done. by apply IH.
Qed.
End Audit.

(** ** Records *)

Section Records.
Context `{Hash} `{SodiumLaws}.
Implicit Types (cfg : config) (d : edb).

(** What opening has checked of the configuration. *)
Record config_ok cfg : Prop := {
  co_signer : sign_public (c_seed cfg) = Ok (c_public cfg);
  co_schema : schema_ok (c_schema cfg);
}.

(** What [publish] knows of its parents when it seals a record. *)
Definition parents_ok (parents : list bytes) : Prop :=
  len parents <= MAX_PARENTS ∧ NoDup parents ∧ Forall (λ p, len p = 32) parents.

Lemma header_normal cfg op seq parents nonce input :
  wf_value (event_header cfg op seq parents nonce input) ∧
  norm (event_header cfg op seq parents nonce input) = event_header cfg op seq parents nonce input.
Proof.
  assert (wf_value (VList (VBytes <$> parents)) ∧ norm (VList (VBytes <$> parents)) = VList (VBytes <$> parents)) as [Hw Hn].
  { apply leaves_list. by apply Forall_fmap, Forall_true. }
  unfold event_header. split.
  - apply wf_to_dict; [apply (bool_decide_eq_true_1 _); reflexivity|]. by repeat constructor.
  - apply norm_to_dict; [by repeat constructor|]. by repeat constructor.
Qed.

Definition event_record (header : value) (ct sg : bytes) : value :=
  dict [(0, header); (1, VBytes ct); (2, VBytes sg)].

Lemma record_normal cfg op seq parents nonce input ct sg :
  let v := event_record (event_header cfg op seq parents nonce input) ct sg in wf_value v ∧ norm v = v.
Proof.
  destruct (header_normal cfg op seq parents nonce input) as [Hw Hn]. cbv zeta. unfold event_record. split.
  - apply wf_to_dict; [apply (bool_decide_eq_true_1 _); reflexivity|]. repeat apply Forall_cons_2; done.
  - apply norm_to_dict; [by repeat constructor|]. repeat apply Forall_cons_2; done.
Qed.

Lemma read_parents_bytes parents :
  parents_ok parents → read_parents (VList (VBytes <$> parents)) = Ok parents.
Proof.
  intros (Hl & Hn & Hp). unfold read_parents. rewrite len_map, (proj2 (Z.leb_le _ _) Hl).
  rewrite bool_decide_eq_true_2; [|by apply NoDup_fmap_2; [intros ?? [=]|]].
  cbn [cneed require andb mbind result_bind].
  clear Hl Hn.
  assert (∀ p, len p = 32 → (b ← bytes_arg (VBytes p); _ ← efixed b 32; Ok b) = Ok p) as Hf.
  { intros p Hpl. unfold efixed, eneed. cbn [bytes_arg mbind result_bind]. by rewrite (proj2 (Z.eqb_eq _ _)). }
  induction Hp as [|p l Hpl _ IH]; [done|]. cbn [fmap list_fmap mapM].
  refine (bind_step _ _ _ _ (Hf p Hpl) _). refine (bind_step _ _ _ _ IH _). done.
Qed.

Lemma header_items cfg op seq parents nonce input :
  let h := event_header cfg op seq parents nonce input in
  (match h with VDict d => cneed (keys_exactly 7 d) | _ => Err corrupt end) = Ok tt ∧
  getitem h 0 = Ok (VBytes (c_context cfg)) ∧ getitem h 1 = Ok (VBytes op) ∧ getitem h 2 = Ok (VInt seq) ∧
  getitem h 3 = Ok (VList (VBytes <$> parents)) ∧ getitem h 4 = Ok (VBytes nonce) ∧
  getitem h 5 = Ok (VBytes (c_certificate cfg)) ∧ getitem h 6 = Ok (VBytes input).
Proof. by split_and!. Qed.

Lemma record_items header ct sg :
  let r := event_record header ct sg in
  (match r with VDict d => cneed (keys_exactly 3 d) | _ => Err corrupt end) = Ok tt ∧
  getitem r 0 = Ok header ∧ getitem r 1 = Ok (VBytes ct) ∧ getitem r 2 = Ok (VBytes sg).
Proof. by split_and!. Qed.

(** What [seal_record] did. *)
Lemma seal_record_Ok cfg op seq parents nonce input payload record id :
  seal_record cfg op seq parents nonce input payload = Ok (record, id) →
  let h := event_header cfg op seq parents nonce input in
  ∃ aad ct m sg, domain "events/aad" [h] = Ok aad ∧ seal (c_key cfg) nonce aad payload = Ok ct ∧
    domain "events/sign" [h; VBytes ct] = Ok m ∧ sign (c_seed cfg) m = Ok sg ∧
    encode (event_record h ct sg) = Ok record ∧ len record <= MAX_EVENT_BYTES ∧
    hashed "events/id" [VBytes record] = Ok id.
Proof.
  intros E h. unfold seal_record in E. cbv zeta in E.
  apply bind_Ok in E as (aad & Haad & E). apply bind_Ok in E as (ct & Hct & E).
  apply bind_Ok in E as (m & Hm & E). apply bind_Ok in E as (sg & Hsg & E).
  apply bind_Ok in E as (r & Hr & E). apply bind_Ok in E as ([] & Hl%require_Ok%Z.leb_le & E).
  apply bind_Ok in E as (i & Hi & E). injection E as -> ->. exists aad, ct, m, sg. split_and!; assumption.
Qed.

(** ** A sealed record decodes to its event *)
Lemma sealed_decodes cfg nonces op seq parents nonce input payload record id chain v :
  config_ok cfg → seal_record cfg op seq parents nonce input payload = Ok (record, id) →
  parents_ok parents → len nonce = 24 → len payload <= MAX_PAYLOAD →
  decode_payload payload = Ok v → validate_payload (c_schema cfg) v = Ok payload →
  input_digest cfg op parents payload = Ok input → nonce_operation nonce nonces = Some op →
  decode_event cfg nonces (EventRow seq op input id record chain) = Ok (Event seq id op parents payload).
Proof.
  intros [Hpk _] (aad & ct & m & sg & Haad & Hct & Hm & Hsg & Hr & Hl & Hid)%seal_record_Ok Hpar Hn Hp Hd Hv Hdg Hop.
  destruct (record_normal cfg op seq parents nonce input ct sg) as [Hw Hnorm].
  apply sign_Ok in Hsg as (_ & _ & _ & pk & Hpk' & Hver). rewrite Hpk in Hpk'. injection Hpk' as <-.
  apply open_seal in Hct as [Hopen _]; [|unfold MAX_PAYLOAD, MAX_INPUT in *; lia].
  unfold decode_event. cbn [er_record er_operation er_sequence er_input er_id].
  assert (MAX_EVENT_BYTES <= MAX_BYTES) as Hmax by done.
  assert (decode_with MAX_EVENT_BYTES MAX_NODES record = Ok (event_record (event_header cfg op seq parents nonce input) ct sg)) as Hdec.
  { rewrite <-Hnorm. exact (decode_limit _ _ _ Hw Hr Hl Hmax). }
  set (h := event_header cfg op seq parents nonce input) in *.
  assert (∀ b, py_eq (VBytes b) (VBytes b) = true) as Hb by (intros b; by apply py_eq_atom).
  destruct (header_items cfg op seq parents nonce input) as (Hk & G0 & G1 & G2 & G3 & G4 & G5 & G6).
  destruct (record_items h ct sg) as (Hk' & R0 & R1 & R2). fold h in Hk, G0, G1, G2, G3, G4, G5, G6.
  clearbody h. set (rec := event_record h ct sg) in *. clearbody rec.
  run Hdec. run Hk'. run R0. run R1. run R2. run Hk. run G0. run G1. run G2.
  refine (bind_step _ _ tt _ _ _); [by rewrite !Hb, py_eq_atom|cbv beta].
  run G3. run (read_parents_bytes _ Hpar). run G4. cbn [bytes_arg]. run (eq_refl (Ok nonce)).
  refine (bind_step _ _ tt _ _ _); [unfold efixed, eneed; by rewrite (proj2 (Z.eqb_eq _ _) Hn)|cbv beta].
  run G5. run G6. refine (bind_step _ _ tt _ _ _); [by rewrite !Hb|cbv beta].
  run Hm. cbn [bytes_arg]. run (eq_refl (Ok sg)). run Hver. run Hid.
  refine (bind_step _ _ tt _ _ _); [by rewrite bool_decide_refl|cbv beta].
  refine (bind_step _ _ tt _ _ _); [by rewrite Hop, bool_decide_refl|cbv beta].
  run Haad. run (eq_refl (Ok ct)). run Hopen. run Hd. run Hv.
  refine (bind_step _ _ tt _ _ _); [by rewrite bool_decide_refl|cbv beta].
  run Hdg. refine (bind_step _ _ tt _ _ _); [by rewrite bool_decide_refl|cbv beta]. done.
Qed.


(** ** The room [publish] reserves is enough *)

Lemma sized_cons_eq v l n m k : sized v n → sized_all l m → k = n + m → sized_all (v :: l) k.
Proof. intros ?? ->. by constructor. Qed.

Lemma parents_sized parents :
  Forall (λ p, len p = 32) parents → sized (VList (VBytes <$> parents)) (9 + 41 * len parents).
Proof.
  intros Hp. constructor. induction Hp as [|p l Hpl _ IH]; [constructor|].
  eapply sized_cons_eq; [by constructor|exact IH|]. cbn [leaf_size]. len_lia.
Qed.

(** The heads of a record: 3 entries of the record, 7 of the header. *)
Lemma record_fits cfg op seq parents nonce input payload record id :
  seal_record cfg op seq parents nonce input payload = Ok (record, id) → parents_ok parents →
  len op = 16 → len nonce = 24 → len input = 32 → len payload <= MAX_PAYLOAD →
  len record <= len payload + len (c_context cfg) + len (c_certificate cfg) + len parents * 34 + 512.
Proof.
  intros (aad & ct & m & sg & _ & Hct & _ & Hsg & Hr & _ & _)%seal_record_Ok (Hpn & _ & Hp) Ho Hn Hi Hpl.
  apply sign_Ok in Hsg as (_ & _ & Hsg & _).
  apply open_seal in Hct as [_ Hct]; [|unfold MAX_PAYLOAD, MAX_INPUT in *; lia].
  assert (sized (event_header cfg op seq parents nonce input)
            (9 + (63 + (9 + len (c_context cfg)) + 25 + 9 + (9 + 41 * len parents) + 33
                  + (9 + len (c_certificate cfg)) + 41))) as Hh.
  { unfold event_header. constructor; [by repeat constructor|]. cbn [flat_map app fst snd].
    repeat (eapply sized_cons_eq; [first [by apply parents_sized|by constructor]| |]).
    all: try constructor. all: cbn [leaf_size]; try reflexivity. lia. }
  eapply encode_sized in Hr.
  2:{ constructor; [by repeat constructor|]. cbn [flat_map app fst snd].
    repeat (eapply sized_cons; [first [exact Hh|by constructor]|]). constructor. }
  cbn [leaf_size] in Hr. unfold MAX_PARENTS in Hpn. lia.
Qed.
End Records.

#[local] Opaque decode_event.

Section Growth.
Context `{Hash} `{Sodium}.
Implicit Types (cfg : config) (d : edb) (m : memory).

(** ** Growth *)

(** No event or nonce is lost, changed or reordered, and no consumer goes back. *)
Record grows d d' : Prop := {
  gr_events : db_events d `prefix_of` db_events d';
  gr_nonces : db_nonces d `prefix_of` db_nonces d';
  gr_consumers r : r ∈ db_consumers d → ∃ r', r' ∈ db_consumers d' ∧ cr_consumer r' = cr_consumer r ∧
    cr_position r <= cr_position r' ∧ cr_revision r <= cr_revision r';
}.

#[export] Instance grows_preorder : PreOrder grows.
Proof.
  split.
  - intros d. split; [done|done|]. intros r Hr. exists r. split; [done|]. split; [done|lia].
  - intros d1 d2 d3 [H1 H2 H3] [H4 H5 H6]. split; [by etrans|by etrans|]. intros r Hr.
    destruct (H3 r Hr) as (r2 & Hr2 & E2 & ? & ?). destruct (H6 r2 Hr2) as (r3 & Hr3 & E3 & ? & ?).
    exists r3. rewrite E3, E2. split; [done|]. split; [done|lia].
Qed.

Lemma audited_ids cfg d nc chain ids :
  audited cfg d nc chain ids → ids = er_id <$> db_events d.
Proof. intros Ha. by destruct (audit_events_inv _ _ _ _ _ _ _ _ (au_events _ _ _ _ _ Ha)) as [-> _]. Qed.

Lemma audited_event cfg d nc chain ids i r :
  audited cfg d nc chain ids → db_events d !! i = Some r →
  er_sequence r = Z.of_nat i + 1 ∧ ∃ e, decode_event cfg (db_nonces d) r = Ok e.
Proof.
  intros Ha Hr. destruct (audit_events_inv _ _ _ _ _ _ _ _ (au_events _ _ _ _ _ Ha)) as [_ Hd].
  destruct (Hd i r Hr) as [-> ?]. split; [lia|done].
Qed.

Lemma audit_nonces_inv cfg n chain l nc :
  audit_nonces cfg n chain l = Ok nc → ∀ i r, l !! i = Some r → nr_reservation r = n + Z.of_nat i.
Proof.
  revert n chain. induction l as [|x l IH]; intros n chain E [|i] r; cbn; try done;
    cbn [audit_nonces] in E; apply bind_Ok in E as ([] & _ & E); apply bind_Ok in E as ([] & _ & E);
    apply bind_Ok in E as (c & _ & E); apply bind_Ok in E as ([] & Hc%require_Ok & E).
  - intros [= <-]. zb. lia.
  - intros Hi. rewrite (IH _ _ E i r Hi). lia.
Qed.

Lemma put_row_last {A} (key : A → Z) r l : (∀ x, x ∈ l → key x < key r) → put_row key r l = l ++ [r].
Proof.
  intros Hl. unfold put_row. f_equal; [|f_equal].
  - induction l as [|x l IH]; [done|]. cbn. rewrite (proj2 (Z.ltb_lt _ _)) by (apply Hl; by left).
    f_equal. apply IH. intros y Hy. apply Hl. by right.
  - induction l as [|x l IH]; [done|]. cbn. rewrite (proj2 (Z.ltb_ge _ _)).
    + apply IH. intros y Hy. apply Hl. by right.
    + specialize (Hl x ltac:(by left)). lia.
Qed.

Lemma keyed_below {A} (key : A → Z) l n :
  (∀ i r, l !! i = Some r → key r = n + Z.of_nat i) → ∀ r, r ∈ l → key r < n + len l.
Proof.
  intros Hk r [i Hi]%list_elem_of_lookup. rewrite (Hk i r Hi). apply lookup_lt_Some in Hi. unfold len. lia.
Qed.

Lemma existsb_no {A} (f : A → bool) l : existsb f l = false ↔ ∀ x, x ∈ l → f x = false.
Proof.
  induction l as [|x l IH]; cbn; [split; [by intros _ ? ?%not_elem_of_nil|done]|].
  rewrite orb_false_iff, IH. split.
  - intros [? Hl] y [->|Hy]%elem_of_cons; [done|by apply Hl].
  - intros Hl. split; [apply Hl; by left|intros y Hy; apply Hl; by right].
Qed.

Lemma NoDup_snoc {A} (x : A) l : NoDup l → x ∉ l → NoDup (l ++ [x]).
Proof. intros ??. apply NoDup_app. split; [done|]. split; [by intros y ? ->%list_elem_of_singleton|apply NoDup_singleton]. Qed.

(** The object's knowledge stays true as the journal grows. *)
Lemma aware_grows cfg known kt kc d d' nc nc' chain chain' ids ids' :
  aware known kt kc d chain → audited cfg d nc chain ids → audited cfg d' nc' chain' ids' →
  db_keys d' → grows d d' → aware known kt kc d' chain'.
Proof.
  intros [Ht Hc Hr Hd] Ha Ha' Hk [[k He] [kn Hn] Hg].
  assert (len (db_events d) <= len (db_events d')) as Hle by (rewrite He; len_lia).
  split.
  - lia.
  - intros Hl. assert (k = []) as ->. { apply len_zero. rewrite He in Hl, Hle. len_lia. }
    rewrite app_nil_r in He. rewrite <-Hc by (rewrite He in Hl; done).
    pose proof (au_events _ _ _ _ _ Ha) as E.
    eapply (audit_events_nonces _ _ (db_nonces d')) in E.
    + pose proof (au_events _ _ _ _ _ Ha') as E'. rewrite He, E in E'. by injection E' as ->.
    + intros x op. rewrite Hn. apply nonce_operation_app.
  - intros r p v Hin Hkn. assert (cr_consumer r ∈ dom known) as Hdom by by eapply elem_of_dom_2.
    apply Hd, elem_of_list_to_set, list_elem_of_fmap in Hdom as (r0 & E0 & Hr0).
    destruct (Hg r0 Hr0) as (r1 & Hr1 & E1 & Hp & Hv).
    assert (r1 = r) as ->.
    { apply (NoDup_key cr_consumer (db_consumers d')); [apply Hk|done|done|congruence]. }
    rewrite E0 in Hkn. destruct (Hr r0 p v Hr0 Hkn). lia.
  - intros c Hcin%Hd%elem_of_list_to_set. apply list_elem_of_fmap in Hcin as (r0 & -> & Hr0).
    destruct (Hg r0 Hr0) as (r1 & Hr1 & <- & _). apply elem_of_list_to_set, list_elem_of_fmap. by exists r1.
Qed.
End Growth.

Section Bodies.
Context `{Hash} `{Sodium}.
Implicit Types (cfg : config) (d : edb).

(** ** Transaction bodies *)

(** A database that passes the audit and keeps its keys distinct. *)
Definition sound cfg d : Prop := db_keys d ∧ ∃ nc chain ids, audited cfg d nc chain ids.

Lemma set_meta_Ok cfg tail chain issued nc d d' :
  set_meta cfg tail chain issued nc d = Ok d' →
  ∃ seal, meta_seal cfg tail chain issued nc = Ok seal ∧
    d' = set_meta_row (MetaRow (c_generation cfg) (c_context cfg) tail chain issued nc seal) d.
Proof. unfold set_meta. intros (seal & Hs & [= <-])%bind_Ok. by exists seal. Qed.

Lemma reserve_body_Ok cfg op nonce d d' :
  sound cfg d → reserve_body cfg op nonce d = Ok d' →
  len nonce = 24 → len op = 16 → len (db_nonces d) < MAX_NONCES →
  sound cfg d' ∧ grows d d' ∧ nonce_operation nonce (db_nonces d') = Some op ∧
  db_events d' = db_events d ∧ db_consumers d' = db_consumers d.
Proof.
  intros [[K1 K2 K3 K4] (nc & chain & ids & [Hs (seal & Hm & Hseal) Hev Hnc ???? Hrows])] E Hn Ho Hmax.
  unfold reserve_body in E. unfold get_meta in E. rewrite Hm in E. cbn [of_option mbind result_bind] in E.
  cbn [mt_issued mt_nonce_chain mt_tail mt_chain] in E.
  apply bind_Ok in E as (nc' & Hl & E). apply bind_Ok in E as (d1 & Hi & E).
  unfold insert_nonce in Hi. cbn [nr_reservation nr_nonce] in Hi.
  destruct (existsb _ _) eqn:Hex; [done|]. rewrite existsb_no in Hex.
  set (row := NonceRow (len (db_nonces d) + 1) nonce op nc') in *.
  assert (nonce ∉ nr_nonce <$> db_nonces d) as Hfresh.
  { intros (r & -> & Hr)%list_elem_of_fmap. specialize (Hex r Hr).
    by rewrite bool_decide_refl, orb_true_r in Hex. }
  rewrite put_row_last in Hi.
  2:{ intros x Hx. pose proof (keyed_below nr_reservation _ _ (audit_nonces_inv _ _ _ _ _ Hnc) x Hx) as Hb.
      unfold row. cbn [nr_reservation]. lia. }
  injection Hi as <-. apply set_meta_Ok in E as (seal' & Hseal' & ->).
  assert (∀ x o, nonce_operation x (db_nonces d) = Some o → nonce_operation x (db_nonces d ++ [row]) = Some o)
    as Hold by (intros x o; apply nonce_operation_app).
  split; [|split; [|split_and!; [|done|done]]].
  - split.
    + split; [exact K1|exact K2| |exact K4]. cbn. rewrite fmap_app. by apply NoDup_snoc.
    + exists nc', chain, ids. split; try done; cbn [db_meta db_events db_nonces db_consumers set_meta_row].
      * exists seal'. rewrite len_app. by split.
      * by eapply audit_events_nonces.
      * eapply audit_nonces_app; [exact Hnc|unfold row; cbn; lia|done|done| |done].
        unfold row. cbn [nr_nonce nr_operation]. by rewrite Z.add_comm.
      * rewrite len_app. change (len [row]) with 1. lia.
  - split; [done|by exists [row]|]. intros r Hr. exists r. split; [done|]. split; [done|lia].
  - apply (nonce_operation_new (db_nonces d) row Hfresh).
Qed.

Lemma used_bytes_app l r : used_bytes (l ++ [r]) = used_bytes l + len (er_record r).
Proof. unfold used_bytes. induction l as [|x l IH]; cbn in *; lia. Qed.

Lemma id_at_app ids k p i : id_at ids p = Some i → id_at (ids ++ k) p = Some i.
Proof. unfold id_at. repeat case_match; try done. intros Hl. by apply lookup_app_l_Some. Qed.

Lemma audit_consumer_app cfg ids k r :
  audit_consumer cfg ids ∅ r = Ok tt → audit_consumer cfg (ids ++ k) ∅ r = Ok tt.
Proof.
  unfold audit_consumer. rewrite lookup_empty.
  apply bind_mono. intros _. apply bind_mono. intros seal.
  intros ([] & Hc%require_Ok & _)%bind_Ok. apply andb_true_iff in Hc as [[Hc Hr]%andb_true_iff Hs].
  apply bool_decide_eq_true, (id_at_app _ k) in Hc. unfold cneed. by rewrite Hc, bool_decide_refl, Hr, Hs.
Qed.

Lemma commit_body_Ok cfg w tail op input id record d d' parents payload :
  sound cfg d → commit_body cfg w tail op input id record d = Ok d' →
  (∀ chain, decode_event cfg (db_nonces d) (EventRow (tail + 1) op input id record chain)
    = Ok (Event (tail + 1) id op parents payload)) →
  (∀ p, p ∈ parents → p ∈ er_id <$> db_events d) →
  tail < c_max_events cfg → used_bytes (db_events d) + len record <= c_max_bytes cfg →
  sound cfg d' ∧ grows d d' ∧ tail = len (db_events d) ∧
  ∃ chain, db_events d' = db_events d ++ [EventRow (tail + 1) op input id record chain] ∧
    db_nonces d' = db_nonces d ∧ db_consumers d' = db_consumers d.
Proof.
  intros [[K1 K2 K3 K4] (nc & chain & ids & Ha)] E Hdec Hpar Hmax Hbytes.
  pose proof (audited_ids _ _ _ _ _ Ha) as Hids.
  assert (∀ i r, db_events d !! i = Some r → er_sequence r = 1 + Z.of_nat i) as Hseq.
  { intros i r Hi. destruct (audited_event _ _ _ _ _ _ _ Ha Hi). lia. }
  destruct Ha as [Hs (seal & Hm & Hseal) Hev Hnc ???? Hrows].
  unfold commit_body in E. unfold get_meta in E. rewrite Hm in E. cbn [of_option mbind result_bind] in E.
  cbn [mt_issued mt_nonce_chain mt_tail mt_chain] in E.
  apply bind_Ok in E as ([] & Ht%require_Ok%Z.eqb_eq & E). subst tail.
  apply bind_Ok in E as (chain' & Hl & E). apply bind_Ok in E as (d1 & Hi & E).
  apply bind_Ok in E as ([] & _ & E). apply bind_Ok in E as (d2 & Hmeta & E).
  apply bind_Ok in E as ([] & _ & E). injection E as ->.
  unfold insert_event in Hi. cbn [er_sequence er_operation er_id] in Hi.
  destruct (existsb _ _) eqn:Hex; [done|]. rewrite existsb_no in Hex.
  set (row := EventRow (len (db_events d) + 1) op input id record chain') in *.
  assert (op ∉ er_operation <$> db_events d ∧ id ∉ er_id <$> db_events d) as [Ho Hi'].
  { split; intros (r & -> & Hr)%list_elem_of_fmap; specialize (Hex r Hr);
      by rewrite bool_decide_refl, ?orb_true_r in Hex. }
  rewrite put_row_last in Hi.
  2:{ intros x Hx. pose proof (keyed_below er_sequence _ _ Hseq x Hx) as Hb. unfold row. cbn [er_sequence]. lia. }
  injection Hi as <-. apply set_meta_Ok in Hmeta as (seal' & Hseal' & ->).
  split; [|split; [|split; [done|by exists chain']]].
  - split.
    + split; [| |exact K3|exact K4]; cbn; rewrite fmap_app; by apply NoDup_snoc.
    + exists nc, chain', (ids ++ [id]). split; try done; cbn [db_meta db_events db_nonces db_consumers set_meta_row].
      * exists seal'. rewrite len_app. by split.
      * eapply (audit_events_app _ _ _ _ _ _ row _ _ (Event (len (db_events d) + 1) id op parents payload));
          [exact Hev|apply Hdec|cbn; lia|by rewrite Hids| |done].
        cbn [ev_operation ev_id]. unfold row. cbn [er_input]. by rewrite Z.add_comm.
      * rewrite len_app. change (len [row]) with 1. lia.
      * rewrite used_bytes_app. exact Hbytes.
      * intros r Hr. apply audit_consumer_app. by apply Hrows.
  - split; [by exists [row]|done|]. intros r Hr. exists r. split; [done|]. split; [done|lia].
Qed.

Lemma find_none {A} (P : A → bool) l x : List.find P l = None → x ∈ l → P x = false.
Proof. intros Hf Hx. eapply find_none; [exact Hf|by apply list_elem_of_In]. Qed.

Lemma audit_consumer_intro cfg ids consumer p i v seal :
  len consumer = 16 → consumer_seal cfg consumer p i v = Ok seal → id_at ids p = Some i → 0 <= v →
  audit_consumer cfg ids ∅ (ConsumerRow consumer p i v seal) = Ok tt.
Proof.
  intros Hc Hs Hi Hv. unfold audit_consumer. cbn [cr_consumer cr_position cr_event cr_revision cr_seal].
  unfold efixed, eneed, cneed. rewrite (proj2 (Z.eqb_eq _ _) Hc). cbn [require mbind result_bind]. rewrite Hs.
  cbn [mbind result_bind]. by rewrite Hi, !bool_decide_refl, (proj2 (Z.leb_le _ _) Hv), lookup_empty.
Qed.

Lemma subscribe_body_Ok cfg consumer d d' :
  sound cfg d → subscribe_body cfg consumer d = Ok d' → len consumer = 16 →
  len (db_consumers d) < c_max_consumers cfg →
  sound cfg d' ∧ grows d d' ∧ db_events d' = db_events d ∧ db_nonces d' = db_nonces d ∧
  ∃ seal, db_consumers d' = db_consumers d ++ [ConsumerRow consumer 0 [] 0 seal].
Proof.
  intros [[K1 K2 K3 K4] (nc & chain & ids & [Hs Hm Hev Hnc ???? Hrows])] E Hc Hmax.
  unfold subscribe_body in E. apply bind_Ok in E as (seal & Hseal & E).
  unfold insert_consumer in E. cbn [cr_consumer] in E.
  destruct (existsb _ _) eqn:Hex; [done|]. rewrite existsb_no in Hex. injection E as <-.
  split; [split|split].
  - split; [exact K1|exact K2|exact K3|]. cbn. rewrite fmap_app. apply NoDup_snoc; [done|].
    cbn. intros (r & E & Hr)%list_elem_of_fmap. specialize (Hex r Hr). rewrite <-E in Hex.
    by rewrite bool_decide_refl in Hex.
  - exists nc, chain, ids. split; try done; cbn [db_consumers].
    + rewrite len_app. change (len [_]) with 1. lia.
    + intros r [Hr| ->%list_elem_of_singleton]%elem_of_app; [by apply Hrows|]. by apply audit_consumer_intro.
  - split; [done|done|]. intros r Hr. exists r. split; [apply elem_of_app; by left|]. split; [done|lia].
  - split; [done|]. split; [done|]. by exists seal.
Qed.

Lemma ack_body_Ok cfg w consumer p i v d d' r :
  sound cfg d → ack_body cfg w consumer p i v d = Ok d' →
  r ∈ db_consumers d → cr_consumer r = consumer → cr_position r <= p → cr_revision r <= v →
  id_at (er_id <$> db_events d) p = Some i →
  sound cfg d' ∧ grows d d' ∧ db_events d' = db_events d ∧ db_nonces d' = db_nonces d ∧
  ∃ seal, db_consumers d' =
    (λ x, if bool_decide (cr_consumer x = consumer) then ConsumerRow consumer p i v seal else x) <$> db_consumers d.
Proof.
  intros [[K1 K2 K3 K4] (nc & chain & ids & Ha)] E Hr Hc Hp Hv Hid.
  pose proof (audited_ids _ _ _ _ _ Ha) as Hids. destruct Ha as [Hs Hm Hev Hnc ???? Hrows].
  unfold ack_body in E. apply bind_Ok in E as (seal & Hseal & E). apply bind_Ok in E as ([] & _ & E).
  injection E as <-. cbn [update_consumer].
  set (new := ConsumerRow consumer p i v seal).
  set (f := λ x, if bool_decide (cr_consumer x = consumer) then new else x).
  assert (∀ x, cr_consumer (f x) = cr_consumer x) as Hf by (intros x; unfold f; by case_bool_decide).
  assert (cr_consumer <$> (f <$> db_consumers d) = cr_consumer <$> db_consumers d) as Hkeys.
  { rewrite <-list_fmap_compose. apply list_fmap_ext. intros _ x _. apply Hf. }
  pose proof (Hrows r Hr) as Hrow. unfold audit_consumer in Hrow.
  apply bind_Ok in Hrow as ([] & Hlen%require_Ok%Z.eqb_eq & Hrow). apply bind_Ok in Hrow as (sl & _ & Hrow).
  apply bind_Ok in Hrow as ([] & Hv0%require_Ok & _). zb. rewrite Hc in Hlen.
  split; [split|split].
  - split; [exact K1|exact K2|exact K3|]. cbn. change (NoDup (cr_consumer <$> (f <$> db_consumers d))).
    by rewrite Hkeys.
  - exists nc, chain, ids. split; try done; cbn [db_consumers update_consumer].
    + by rewrite len_map.
    + intros z (y & -> & Hy)%list_elem_of_fmap. change (audit_consumer cfg ids ∅ (f y) = Ok tt). unfold f.
      destruct (bool_decide_reflect (cr_consumer y = consumer)); [|by apply Hrows].
      apply audit_consumer_intro; [exact Hlen|exact Hseal|by rewrite Hids|lia].
  - split; [done|done|]. intros y Hx. exists (f y). split; [|split; [apply Hf|]].
    + exact (list_elem_of_fmap_2 f _ _ Hx).
    + unfold f. destruct (bool_decide_reflect (cr_consumer y = consumer)) as [Hxc|]; [|lia].
      assert (y = r) as -> by (apply (NoDup_key cr_consumer (db_consumers d)); [done|done|done|congruence]).
      cbn. lia.
  - split; [done|]. split; [done|]. by exists seal.
Qed.
End Bodies.
