(* ===== verification/EventsRun.v ===== *)
(** * The methods of the event journal

    [journal] is the invariant of an open journal: its tables pass the audit, what the
    object knows is still so, and every subscription's outstanding batch is what its token
    says.  Each method, in any [world], keeps it and only lets the journal grow; and each
    has its functional specification: [settled] for a publication, [poll_result] and
    [acked] for a subscription. *)

From S2P Require Import Prelude Bytes Value Codec Flat Json Hash Sodium Primitives Objects ObjectsSpec Membership Authority Activation Crash EventPayload Events EventsSpec.
Local Open Scope Z_scope.

#[local] Opaque encode encode_with decode decode_with crypt domain verify sign hashed hmac validate_payload decode_payload decode_event audit_db guard make_token.

Section Runs.
Context `{Hash} `{Sodium}.
Implicit Types (cfg : config) (d : edb) (m : memory) (s t : jstate) (w : world).

(** ** The invariant of an open journal *)

(** [es] are the events that follow position [p]. *)
Definition delivered cfg d (p : Z) (es : list event_t) : Prop :=
  0 <= p ∧ ∃ rows rest, drop (Z.to_nat p) (db_events d) = rows ++ rest ∧
    Forall2 (λ r e, decode_event cfg (db_nonces d) r = Ok e) rows es.

(** An outstanding batch, with the row its token names. *)
Definition outstanding cfg d (consumer session : bytes) (b : batch) (stamp : bytes) : Prop :=
  ∃ r e token, bt_token b = Some token ∧ last (bt_events b) = Some e ∧
    delivery_token cfg consumer session r e stamp = Ok token ∧ delivered cfg d (cr_position r) (bt_events b).

(** The last token acknowledged names an earlier revision, and is not outstanding. *)
Definition spent cfg d (consumer : bytes) (sub : subscription) (token : bytes) : Prop :=
  (∃ r0 e0 stamp0 r, delivery_token cfg consumer (sb_session sub) r0 e0 stamp0 = Ok token ∧
     r ∈ db_consumers d ∧ cr_consumer r = consumer ∧ cr_revision r0 < cr_revision r) ∧
  ∀ b stamp, sb_pending sub = Some (b, stamp) → bt_token b ≠ Some token.

Record sub_ok cfg d (consumer : bytes) (sub : subscription) : Prop := {
  so_row : ∃ r, r ∈ db_consumers d ∧ cr_consumer r = consumer;
  so_pending b stamp : sb_pending sub = Some (b, stamp) → outstanding cfg d consumer (sb_session sub) b stamp;
  so_last token result : sb_last sub = Some (token, result) → spent cfg d consumer sub token;
}.

Definition knows cfg d m : Prop :=
  ∃ nc chain ids, audited cfg d nc chain ids ∧ aware (m_known m) (m_known_tail m) (m_known_chain m) d chain.

Record journal cfg s : Prop := {
  jn_keys : db_keys (js_db s);
  jn_knows : knows cfg (js_db s) (js_mem s);
  jn_subs c sub : m_subs (js_mem s) !! c = Some sub → sub_ok cfg (js_db s) c sub;
}.

Lemma journal_sound cfg s : journal cfg s → sound cfg (js_db s).
Proof. intros [Hk (nc & chain & ids & Ha & _) _]. split; [done|]. by exists nc, chain, ids. Qed.

Lemma delivered_grows cfg d d' p es : grows d d' → delivered cfg d p es → delivered cfg d' p es.
Proof.
  intros [[k He] [kn Hn] _] (Hp & rows & rest & Hd & Hf). split; [done|].
  destruct (decide (Z.to_nat p <= length (db_events d))%nat) as [Hle|Hgt].
  - exists rows, (rest ++ k). rewrite He, drop_app_le, Hd, app_assoc by done. split; [done|].
    eapply Forall2_impl; [exact Hf|]. intros r e Hr. eapply decode_event_nonces; [|exact Hr].
    intros x op. rewrite Hn. apply nonce_operation_app.
  - rewrite drop_ge in Hd by lia. symmetry in Hd. apply app_nil in Hd as [-> ->]. inversion Hf; subst.
    exists [], (drop (Z.to_nat p) (db_events d')). split; [reflexivity|constructor].
Qed.

Lemma sub_ok_grows cfg d d' c sub : grows d d' → sub_ok cfg d c sub → sub_ok cfg d' c sub.
Proof.
  intros Hg [(r & Hr & <-) Hp Hl]. split.
  - destruct (gr_consumers _ _ Hg r Hr) as (r' & ? & ? & _). by exists r'.
  - intros b stamp Hb. destruct (Hp b stamp Hb) as (x & e & tk & ? & ? & ? & ?).
    exists x, e, tk. split_and!; [assumption..|]. by eapply delivered_grows.
  - intros token result Ht. destruct (Hl token result Ht) as [(r0 & e0 & st0 & r1 & Hd & Hr1 & Hc & Hlt) Hne].
    split; [|exact Hne]. destruct (gr_consumers _ _ Hg r1 Hr1) as (r2 & Hr2 & E2 & _ & Hv).
    exists r0, e0, st0, r2. split; [exact Hd|]. split; [done|]. split; [congruence|lia].
Qed.

(** What an audit learns. *)
Lemma known_rows_lookup l c p v :
  NoDup (cr_consumer <$> l) →
  (known_rows l !! c = Some (p, v) ↔ ∃ r, r ∈ l ∧ cr_consumer r = c ∧ cr_position r = p ∧ cr_revision r = v).
Proof.
  intros Hn. unfold known_rows. rewrite <-elem_of_list_to_map.
  - rewrite list_elem_of_fmap. split; [intros (r & [= -> -> ->] & Hr)|intros (r & Hr & <- & <- & <-)]; by exists r.
  - rewrite <-list_fmap_compose. exact Hn.
Qed.

Lemma audit_learns cfg d nc chain ids closed unc subs :
  db_keys d → audited cfg d nc chain ids →
  knows cfg d (Memory closed unc (known_rows (db_consumers d)) (len (db_events d)) chain subs).
Proof.
  intros Hk Ha. exists nc, chain, ids. split; [done|]. cbn. split; [lia|done| |].
  - intros r p v Hr (r' & Hr' & Hc & <- & <-)%known_rows_lookup; [|apply Hk].
    assert (r' = r) as -> by (eapply NoDup_key; [apply Hk|done..]). lia.
  - intros c [[p v] Hc]%elem_of_dom. apply known_rows_lookup in Hc as (r & Hr & <- & _); [|apply Hk].
    apply elem_of_list_to_set, list_elem_of_fmap. by exists r.
Qed.

(** The memory the object has after an audit of [d]. *)
Definition audited_memory m m' : Prop :=
  m_closed m' = m_closed m ∧ m_uncertain m' = m_uncertain m ∧ m_subs m' = m_subs m.

(** The audit of a database the object knows succeeds, and it learns what is there. *)
Lemma audit_mem_knows cfg d m :
  db_keys d → knows cfg d m → ∃ m', audit_mem cfg m d = Ok m' ∧ audited_memory m m' ∧ knows cfg d m'.
Proof.
  intros Hk (nc & chain & ids & Ha & Haw).
  assert (audit_db cfg (m_known m) (m_known_tail m) (m_known_chain m) d
    = Ok (known_rows (db_consumers d), len (db_events d), chain)) as E.
  { apply audit_db_Ok. by exists nc, chain, ids. }
  unfold audit_mem. rewrite E. cbn [catch_any mbind result_bind]. eexists. split; [done|]. split; [done|].
  by eapply audit_learns.
Qed.

Lemma knows_grows cfg d d' m : knows cfg d m → sound cfg d' → grows d d' → knows cfg d' m.
Proof.
  intros (nc & chain & ids & Ha & Haw) [Hk (nc' & chain' & ids' & Ha')] Hg.
  exists nc', chain', ids'. split; [done|]. by eapply aware_grows.
Qed.

(** A new database, the same object. *)
Lemma journal_grows cfg s d' m' :
  journal cfg s → sound cfg d' → grows (js_db s) d' → m_subs m' = m_subs (js_mem s) →
  knows cfg d' m' → journal cfg (Jstate d' m').
Proof.
  intros Hj Hs Hg Hm Hkn. split; cbn; [apply Hs|done|]. rewrite Hm. intros c sub Hc.
  eapply sub_ok_grows; [done|]. by apply Hj.
Qed.

(** ** Steps of a method *)

(** What no step of a method changes but a transaction. *)
Definition calm s t : Prop := js_db t = js_db s ∧ audited_memory (js_mem s) (js_mem t).

#[export] Instance calm_preorder : PreOrder calm.
Proof.
  split; [done|]. intros s1 s2 s3 (E1 & ? & ? & ?) (E2 & ? & ? & ?). split; [congruence|].
  split_and!; congruence.
Qed.

Lemma wp_operation cfg w wr I s :
  journal cfg s → I s →
  wp (operation cfg w wr) I (λ r t, calm s t ∧ journal cfg t ∧
    (is_ok r = true → m_closed (js_mem s) = false ∧ m_uncertain (js_mem s) = false) ∧
    r = (_ ← eneed (negb (m_closed (js_mem s))) "CLOSED"; _ ← eneed (negb (m_uncertain (js_mem s))) "JOURNAL_UNCERTAIN";
         _ ← w_path w; guard cfg (w_owner w "start") wr)) s.
Proof.
  intros Hj HI. destruct s as [d m]. unfold operation, enter, run_audit.
  destruct (audit_mem_knows cfg d m (jn_keys _ _ Hj) (jn_knows _ _ Hj)) as (m' & Haud & Hm' & Hk').
  cbn [js_mem js_db].
  unfold wp, mbind, crash_bind, read_mem, read_db, reads, lift, set_mem, mret, crash_ret; cbn.
  destruct (eneed (negb (m_closed m)) "CLOSED") as [[]|] eqn:E1; cbn; [|split; [constructor|by split_and!]].
  destruct (eneed (negb (m_uncertain m)) "JOURNAL_UNCERTAIN") as [[]|] eqn:E2; cbn; [|split; [constructor|by split_and!]].
  apply require_Ok, negb_true_iff in E1, E2.
  destruct (w_path w) as [[]|]; cbn; [|split; [constructor|by split_and!]].
  destruct (guard cfg (w_owner w "start") wr) as [stamp|]; cbn; [|split; [constructor|by split_and!]].
  rewrite Haud. cbn. split; [constructor|]. split_and!; try done.
  apply (journal_grows cfg (Jstate d m)); [done|by apply journal_sound in Hj|done|by destruct Hm' as (_ & _ & ?)|done].
Qed.

Lemma inside_Ok cfg w stage stamp wr body d d' :
  inside cfg w stage stamp wr body d = Ok d' → body d = Ok d'.
Proof.
  unfold inside. intros ([] & _ & E)%bind_Ok. apply bind_Ok in E as (x & -> & E).
  apply bind_Ok in E as ([] & _ & E). apply bind_Ok in E as ([] & _ & E). by injection E as ->.
Qed.

(** A transaction leaves the database as it was or as its body made it; when it succeeds
    the latter, and when it cannot tell the object is uncertain from then on. *)
Definition transacted (body : edb → result edb) s (r : result unit) t : Prop :=
  m_closed (js_mem t) = m_closed (js_mem s) ∧ m_subs (js_mem t) = m_subs (js_mem s) ∧
  match r with
  | Ok _ => body (js_db s) = Ok (js_db t) ∧ m_uncertain (js_mem t) = m_uncertain (js_mem s)
  | Err e => js_db t = js_db s ∨
      (body (js_db s) = Ok (js_db t) ∧ e = outcome_unknown ∧ m_uncertain (js_mem t) = true)
  end.

Lemma wp_transaction cfg w stage stamp wr body I s :
  journal cfg s → I s → (∀ d', body (js_db s) = Ok d' → sound cfg d' ∧ grows (js_db s) d') →
  wp (transaction cfg w stage stamp wr body) I
    (λ r t, transacted body s r t ∧ journal cfg t ∧ grows (js_db s) (js_db t)) s.
Proof.
  intros Hj HI Hb. destruct s as [d m]. cbn [js_db js_mem] in *.
  assert (∀ d' m', sound cfg d' → grows d d' → m_subs m' = m_subs m → knows cfg d' m' →
    journal cfg (Jstate d' m') ∧ grows d d') as Hnew.
  { intros. split; [|done]. by eapply (journal_grows cfg (Jstate d m)). }
  assert (∀ d', sound cfg d' → grows d d' → knows cfg d' m) as Hkn.
  { intros d' ??. eapply knows_grows; [apply (jn_knows _ _ Hj)|done|done]. }
  pose proof (journal_sound _ _ Hj) as Hs0. cbn [js_db] in Hs0.
  assert (∀ d', sound cfg d' → grows d d' → knows cfg d' (set_uncertain m)) as Hkn' by exact Hkn.
  assert (grows d d) as Hrefl by done.
  unfold transaction, unknown, commit_db, transacted.
  unfold wp, mbind, crash_bind, read_db, read_mem, reads, lift, write, set_mem, mret, crash_ret, raise; cbn [js_db].
  destruct (sql w _) as [?|e]; cbn; [|split; [apply Forall_nil_2|split_and!; cbn; auto]].
  destruct (inside _ _ _ _ _ _ _) as [d'|e] eqn:Ei; cbn.
  - apply inside_Ok in Ei. destruct (Hb d' Ei) as [Hs Hg].
    destruct (sql w (stage ++ ".commit")) as [?|e]; cbn.
    + destruct (audit_mem_knows cfg d' m (proj1 Hs) (Hkn d' Hs Hg)) as (m' & Haud & (Hc & Hu & Hsub) & Hk').
      destruct (notify w _) as [[]|]; cbn; rewrite ?Haud; cbn; (split; [by constructor|]).
      * split; [by split_and!|]. by apply Hnew.
      * split; [split_and!; cbn; try done; by right|]. apply Hnew; try done. by apply Hkn'.
    + destruct (w_applied w stage); cbn.
      * split; [by constructor|]. split; [split_and!; cbn; try done; by right|]. apply Hnew; try done. by apply Hkn'.
      * split; [by constructor|]. split; [split_and!; cbn; try done; by left|]. apply Hnew; try done. by apply Hkn'.
  - destruct (sql w (stage ++ ".rollback")) as [?|e']; cbn; (split; [constructor|]).
    + split; [split_and!; cbn; try done; by left|]. by split.
    + split; [split_and!; cbn; try done; by left|]. apply Hnew; try done. by apply Hkn'.
Qed.
End Runs.

#[local] Opaque transaction operation.

Section Publish.
Context `{Hash} `{SodiumLaws}.
Implicit Types (cfg : config) (d : edb) (m : memory) (s t : jstate) (w : world).

(** A row of the event table that an operation with this input leaves. *)
Definition row_of cfg (nonces : list nonce_row) (seq : Z) (op : bytes) (parents : list bytes) (raw id : bytes)
    (r : event_row) : Prop :=
  er_sequence r = seq ∧ er_operation r = op ∧ er_id r = id ∧ input_digest cfg op parents raw = Ok (er_input r) ∧
  decode_event cfg nonces r = Ok (Event seq id op parents raw).

(** One event was appended, and it is this operation's. *)
Definition committed cfg op parents raw id s t : Prop :=
  ∃ r, db_events (js_db t) = db_events (js_db s) ++ [r] ∧
    row_of cfg (db_nonces (js_db t)) (len (db_events (js_db s)) + 1) op parents raw id r.

(** What a caller can conclude from the result of a new operation. *)
Definition settled cfg op parents raw s (r : result receipt) t : Prop :=
  match r with
  | Ok rc => (rc = cancelled_receipt op ∧ db_events (js_db t) = db_events (js_db s)) ∨
      ∃ id b, rc = Receipt "LOCAL_EVENT_COMMITTED" op (Some id) (Some (len (db_events (js_db s)) + 1)) b ∧
        committed cfg op parents raw id s t
  | Err e => db_events (js_db t) = db_events (js_db s) ∨
      (e = outcome_unknown ∧ m_uncertain (js_mem t) = true ∧ ∃ id, committed cfg op parents raw id s t)
  end.

Definition growing cfg s t : Prop := journal cfg t ∧ grows (js_db s) (js_db t).

Lemma publish_checks_Ok cfg parents raw d tail :
  publish_checks cfg parents raw d = Ok tail → sound cfg d →
  tail = len (db_events d) ∧ (∀ p, p ∈ parents → p ∈ er_id <$> db_events d) ∧ tail < c_max_events cfg ∧
  len (db_nonces d) < MAX_NONCES ∧ room cfg (used_bytes (db_events d)) raw parents = true.
Proof.
  unfold publish_checks. intros E [_ (nc & chain & ids & Ha)].
  destruct (au_meta _ _ _ _ _ Ha) as (seal & Hm & _).
  apply bind_Ok in E as ([] & Hp & E). unfold get_meta in E. rewrite Hm in E.
  cbn [of_option mbind result_bind mt_tail] in E.
  apply bind_Ok in E as ([] & H1'%require_Ok%Z.ltb_lt & E). apply bind_Ok in E as ([] & H2'%require_Ok%Z.ltb_lt & E).
  apply bind_Ok in E as ([] & H3'%require_Ok & E). injection E as <-.
  split; [done|]. split; [|done]. intros p Hin. rewrite iter_check in Hp. specialize (Hp p Hin).
  apply require_Ok, existsb_exists in Hp as (r & Hr & E%bool_decide_eq_true). rewrite <-E.
  apply list_elem_of_fmap_2, list_elem_of_In. exact Hr.
Qed.

Lemma wp_publish_new cfg w stamp op parents raw dg v s :
  config_ok cfg → journal cfg s → len op = 16 → parents_ok parents → len raw <= MAX_PAYLOAD →
  decode_payload raw = Ok v → validate_payload (c_schema cfg) v = Ok raw →
  input_digest cfg op parents raw = Ok dg →
  wp (publish_new cfg w stamp op parents raw dg) (λ t, growing cfg s t ∧ db_events (js_db t) = db_events (js_db s))
    (λ r t, growing cfg s t ∧ settled cfg op parents raw s r t) s.
Proof.
  intros Hcfg Hj Hop Hpar Hraw Hdec Hval Hdg.
  set (I := λ t, growing cfg s t ∧ db_events (js_db t) = db_events (js_db s)).
  assert (I s) as HI by (split; [by split|done]).
  assert (∀ e, growing cfg s s ∧ settled cfg op parents raw s (Err e) s) as Hstay.
  { intros e. split; [by split|by left]. }
  pose proof (journal_sound _ _ Hj) as Hs.
  unfold publish_new. refine (wp_bind_reads _ _ _ _ _ _ eq_refl _).
  wp_step. wp_step. destruct (publish_checks _ _ _ _) as [tail|e] eqn:Hc; cbn [next]; [|apply Hstay].
  apply publish_checks_Ok in Hc as (-> & Hdep & Hmax & Hnon & Hroom); [|done].
  wp_step. wp_step. destruct (cancel w 1) as [[]|e]; cbn [next]; [|..|apply Hstay].
  { apply wp_ret. split; [by split|by left]. }
  wp_step. wp_step. destruct (random_bytes _ _) as [nonce|e] eqn:Hn; cbn [next]; [|apply Hstay].
  apply random_bytes_len in Hn.
  wp_step. eapply wp_mono; [apply wp_transaction; [exact Hj|exact HI|]|done|].
  { intros d' E. by destruct (reserve_body_Ok _ _ _ _ _ Hs E Hn Hop Hnon) as (? & ? & _). }
  intros [[]|e] s1 ((Hcl & Hsub & Htr) & Hj1 & Hg1); cbn [next].
  2:{ split; [by split|]. left. destruct Htr as [->|(E & _)]; [done|].
      by destruct (reserve_body_Ok _ _ _ _ _ Hs E Hn Hop Hnon) as (_ & _ & _ & ? & _). }
  destruct Htr as [E Hunc]. destruct (reserve_body_Ok _ _ _ _ _ Hs E Hn Hop Hnon) as (Hs1 & _ & Hres & Hev1 & _).
  assert (∀ e, growing cfg s s1 ∧ settled cfg op parents raw s (Err e) s1) as Hstay1.
  { intros e. split; [by split|by left]. }
  assert (I s1) as HI1 by (split; [by split|done]).
  wp_step. wp_step. destruct (seal_record _ _ _ _ _ _ _) as [[record id]|e] eqn:Hrec; cbn [next]; [|apply Hstay1].
  wp_step. wp_step. destruct (notify_encrypted w) as [[]|e]; cbn [next]; [|apply Hstay1].
  wp_step. wp_step. destruct (cancel w 2) as [[]|e]; cbn [next]; [|..|apply Hstay1].
  { apply wp_ret. split; [by split|by left]. }
  assert (len dg = 32) as Hdgl.
  { unfold input_digest, mac in Hdg. apply bind_Ok in Hdg as (x & _ & [= <-]). apply hmac_len. }
  pose proof (record_fits _ _ _ _ _ _ _ _ _ Hrec Hpar Hop Hn Hdgl Hraw) as Hfit.
  assert (∀ chain, decode_event cfg (db_nonces (js_db s1))
    (EventRow (len (db_events (js_db s)) + 1) op dg id record chain)
    = Ok (Event (len (db_events (js_db s)) + 1) id op parents raw)) as Hrow.
  { intros chain. by eapply sealed_decodes. }
  assert (∀ d', commit_body cfg w (len (db_events (js_db s))) op dg id record (js_db s1) = Ok d' →
    sound cfg d' ∧ grows (js_db s1) d' ∧ len (db_events (js_db s)) = len (db_events (js_db s1)) ∧
    ∃ chain, db_events d' = db_events (js_db s1) ++
      [EventRow (len (db_events (js_db s)) + 1) op dg id record chain] ∧
      db_nonces d' = db_nonces (js_db s1) ∧ db_consumers d' = db_consumers (js_db s1)) as Hcb.
  { intros d' Eb. eapply commit_body_Ok; [exact Hs1|exact Eb|exact Hrow|by rewrite Hev1|done|].
    unfold room in Hroom. apply Z.leb_le in Hroom. rewrite Hev1. lia. }
  assert (∀ t, commit_body cfg w (len (db_events (js_db s))) op dg id record (js_db s1) = Ok (js_db t) →
    committed cfg op parents raw id s t) as Hcom.
  { intros t Eb. destruct (Hcb _ Eb) as (_ & _ & _ & chain & He & Hno & _).
    eexists. rewrite <-Hev1. split; [exact He|]. rewrite Hno, Hev1. split_and!; [done..|exact Hdg|apply Hrow]. }
  wp_step. eapply wp_mono; [apply (wp_transaction _ _ _ _ _ _ I); [exact Hj1|exact HI1|]|done|].
  { intros d' Eb. by destruct (Hcb d' Eb) as (? & ? & _). }
  intros [[]|e] s2 ((Hcl2 & Hsub2 & Htr2) & Hj2 & Hg2); cbn [next].
  2:{ split; [split; [done|by etrans]|]. destruct Htr2 as [Ed|(Eb & -> & Hu)]; [left; by rewrite Ed|].
      right. split; [done|]. split; [done|]. exists id. by apply Hcom. }
  destruct Htr2 as [Eb _]. pose proof (Hcom s2 Eb) as Hc2.
  assert (growing cfg s s2) as Hg by (split; [done|by etrans]).
  wp_step. unfold cancellation_requested. destruct (cancel w 3) as [b|e].
  - apply wp_ret. cbn [next]. apply wp_ret. split; [exact Hg|]. right. by exists id, b.
  - unfold unknown. wp_step. unfold wp, set_mem. cbn. split; [constructor|].
    split; [constructor|]. split; [split; [|apply Hg]|].
    + destruct s2 as [d2 m2]. apply (journal_grows cfg (Jstate d2 m2)); [done|by apply journal_sound in Hj2|done|done|].
      exact (jn_knows _ _ Hj2).
    + right. split; [done|]. split; [done|]. by exists id.
Qed.
End Publish.

Section Quiet.
Context `{Hash} `{Sodium}.
Implicit Types (cfg : config) (d : edb) (m : memory) (s t : jstate) (w : world).

(** ** Methods that only read *)

Definition quiet cfg {A} (k : crash jstate A) : Prop :=
  ∀ s (I : jstate → Prop), journal cfg s → I s → (∀ t, calm s t → journal cfg t → I t) →
    wp k I (λ _ t, calm s t ∧ journal cfg t) s.

Lemma quiet_ret cfg {A} (a : A) : quiet cfg (mret a).
Proof. intros s I Hj HI _. by apply wp_ret. Qed.
Lemma quiet_raise cfg {A} e : quiet cfg (A := A) (raise e).
Proof. intros s I Hj HI _. by apply wp_raise. Qed.
Lemma quiet_reads cfg {A} (f : jstate → result A) : quiet cfg (reads f).
Proof. intros s I Hj HI _. by apply wp_reads. Qed.
Lemma quiet_lift cfg {A} (r : result A) : quiet cfg (lift r).
Proof. intros s I Hj HI _. by apply wp_lift. Qed.
Lemma quiet_operation cfg w wr : quiet cfg (operation cfg w wr).
Proof. intros s I Hj HI _. eapply wp_mono; [by apply wp_operation|done|]. by intros r t (? & ? & _). Qed.
Lemma quiet_bind cfg {A B} (k : crash jstate A) (f : A → crash jstate B) :
  quiet cfg k → (∀ a, quiet cfg (f a)) → quiet cfg (k ≫= f).
Proof.
  intros Hk Hf s I Hj HI Hc. apply wp_bind. eapply wp_mono; [by apply Hk|done|].
  intros [a|e] t [Hct Hjt]; cbn; [|done].
  eapply wp_mono; [apply (Hf a t I); [done|by apply Hc|]|done|].
  - intros u Hu Hju. apply Hc; [by etrans|done].
  - intros r u [Hu Hju]. split; [by etrans|done].
Qed.
End Quiet.

(** A read of the database or of the object. *)
Ltac read_step := refine (wp_bind_reads _ _ _ _ _ _ eq_refl _); cbv beta.

Create HintDb journal_db discriminated.
#[export] Hint Resolve quiet_ret quiet_raise quiet_reads quiet_lift quiet_operation : journal_db.
Ltac quiet :=
  repeat first
    [ solve [eauto with journal_db]
    | lazymatch goal with
      | |- quiet _ (mbind _ _) => apply quiet_bind; [|intros]
      | |- quiet _ (match ?x with _ => _ end) => destruct x
      end ].

Section Methods.
Context `{Hash} `{Sodium}.
Implicit Types (cfg : config) (d : edb) (m : memory) (s t : jstate) (w : world).

Lemma quiet_enter cfg w : quiet cfg (enter w).
Proof. unfold enter, read_mem. quiet. Qed.
Lemma quiet_live cfg w c : quiet cfg (live_sub w c).
Proof. unfold live_sub, enter, read_mem. quiet. Qed.
#[local] Hint Resolve quiet_live : journal_db.
Lemma quiet_inspect cfg w : quiet cfg (inspect_journal cfg w).
Proof. unfold inspect_journal, read_db. quiet. Qed.
Lemma quiet_inspect_operation cfg w op : quiet cfg (inspect_operation cfg w op).
Proof. unfold inspect_operation, read_db. quiet. Qed.
Lemma quiet_position cfg w c : quiet cfg (position cfg w c).
Proof. unfold position, read_db. quiet. Qed.
Lemma quiet_cursor cfg w c : quiet cfg (cursor cfg w c).
Proof. unfold cursor, read_db. quiet. Qed.

Lemma calm_growing cfg s t : calm s t → journal cfg t → growing cfg s t.
Proof. intros [Hd _] Hj. split; [done|]. by rewrite Hd. Qed.

Lemma growing_trans cfg s t u : growing cfg s t → growing cfg t u → growing cfg s u.
Proof. intros [_ ?] [? ?]. split; [done|by etrans]. Qed.

Lemma quiet_grows cfg {A} (k : crash jstate A) s :
  quiet cfg k → journal cfg s → wp k (growing cfg s) (λ _ t, growing cfg s t) s.
Proof.
  intros Hq Hj. eapply wp_mono; [apply (Hq s (growing cfg s) Hj)| |]; [by split| |done|].
  - intros t. apply calm_growing.
  - intros r t [? ?]. by apply calm_growing.
Qed.

(** A change of the subscriptions only. *)
Lemma journal_set_sub cfg s c o :
  journal cfg s → (∀ sub, o = Some sub → sub_ok cfg (js_db s) c sub) →
  journal cfg (Jstate (js_db s) (set_sub c o (js_mem s))).
Proof.
  intros [Hk Hkn Hsub] Ho. split; [done|exact Hkn|]. cbn. intros c' sub'.
  destruct (decide (c' = c)) as [->|Hne].
  - rewrite lookup_partial_alter_eq. apply Ho.
  - rewrite lookup_partial_alter_ne by done. apply Hsub.
Qed.

Lemma wp_set_sub cfg c o I Q s :
  journal cfg s → (∀ sub, o = Some sub → sub_ok cfg (js_db s) c sub) →
  (∀ t, t = Jstate (js_db s) (set_sub c o (js_mem s)) → journal cfg t → Q (Ok tt) t) →
  wp (set_mem (set_sub c o)) I Q s.
Proof.
  intros Hj Ho HQ. unfold wp, set_mem. split; [constructor|]. apply HQ; [done|by apply journal_set_sub].
Qed.

Lemma wp_cancel cfg c s : journal cfg s → wp (cancel_sub c) (growing cfg s) (λ _ t, growing cfg s t) s.
Proof. intros Hj. apply (wp_set_sub cfg); [done|done|]. intros t -> Ht. by split. Qed.

Lemma wp_close cfg s : journal cfg s → wp close (growing cfg s) (λ _ t, growing cfg s t) s.
Proof.
  intros [Hk Hkn Hsub]. unfold wp, close, set_mem. split; [constructor|]. split; [|done].
  split; [done|exact Hkn|]. cbn. destruct (m_closed (js_mem s)); [exact Hsub|].
  intros c sub. by rewrite lookup_empty.
Qed.

Lemma find_consumer_Some c d r : find_consumer c d = Some r → r ∈ db_consumers d ∧ cr_consumer r = c.
Proof.
  unfold find_consumer. intros [Hin Hc%bool_decide_eq_true]%find_some. split; [by apply list_elem_of_In|done].
Qed.

Lemma find_consumer_None c d r : find_consumer c d = None → r ∈ db_consumers d → cr_consumer r ≠ c.
Proof. intros Hf Hr Hc. pose proof (find_none _ _ _ Hf Hr) as Hb. cbv beta in Hb. by rewrite Hc, bool_decide_refl in Hb. Qed.

(** ** [subscribe] *)

Lemma wp_subscribe cfg w c expected s :
  journal cfg s → wp (subscribe cfg w c expected) (growing cfg s) (λ _ t, growing cfg s t) s.
Proof.
  intros Hj. unfold subscribe. assert (growing cfg s s) as Hss by by split.
  wp_step. wp_step. destruct (efixed c 16) as [[]|] eqn:Hc; cbn [next]; [|done].
  apply require_Ok, Z.eqb_eq in Hc.
  wp_step. eapply wp_mono; [by apply wp_operation|done|]. intros [stamp|e] s1 (Hcalm & Hj1 & _); cbn [next].
  2: by apply calm_growing.
  pose proof (calm_growing _ _ _ Hcalm Hj1) as Hg1.
  read_step. wp_step. wp_step. destruct (eneed _ _) as [[]|e]; cbn [next]; [|done].
  read_step. cbn zeta.
  assert (∀ u, growing cfg s u → (∃ r, r ∈ db_consumers (js_db u) ∧ cr_consumer r = c) →
    wp (_ ← lift (recheck cfg w "recheck" stamp false); session ← lift (random_bytes (w_random w) 16);
        set_mem (set_sub c (Some (Subscription session None None)))) (growing cfg s) (λ _ t, growing cfg s t) u) as Hend.
  { intros u Hu Hrow. wp_step. wp_step. destruct (recheck _ _ _ _ _) as [[]|e]; cbn [next]; [|done].
    wp_step. wp_step. destruct (random_bytes _ _) as [session|e]; cbn [next]; [|done].
    apply (wp_set_sub cfg); [apply Hu| |].
    - intros sub [= <-]. by split.
    - intros t -> Ht. split; [done|]. cbn. apply Hu. }
  wp_step.
  assert (wp (match expected with Some token => lift (check_cursor cfg c token (find_consumer c (js_db s1)) (js_db s1))
                                | None => mret tt end) (growing cfg s) (λ _ t, t = s1) s1) as Hexp.
  { destruct expected; [by apply wp_lift|by apply wp_ret]. }
  eapply wp_mono; [exact Hexp|done|]. intros [[]|e] ? ->; cbn [next]; [|done].
  wp_step. destruct (find_consumer c (js_db s1)) as [r|] eqn:Hf.
  { apply find_consumer_Some in Hf. apply wp_ret. cbn [next]. apply Hend; [done|]. by exists r. }
  wp_step. wp_step. destruct (eneed _ _) as [[]|e] eqn:Hmax; cbn [next]; [|done].
  apply require_Ok, Z.ltb_lt in Hmax.
  assert (∀ d', subscribe_body cfg c (js_db s1) = Ok d' → sound cfg d' ∧ grows (js_db s1) d' ∧
    ∃ r, r ∈ db_consumers d' ∧ cr_consumer r = c) as Hb.
  { intros d' E. destruct (subscribe_body_Ok _ _ _ _ (journal_sound _ _ Hj1) E Hc Hmax)
      as (? & ? & _ & _ & seal & Hcons). split; [done|]. split; [done|]. rewrite Hcons.
    eexists. split; [apply elem_of_app; right; by left|done]. }
  eapply wp_mono; [apply wp_transaction; [exact Hj1|exact Hg1|]|done|].
  { intros d' E. by destruct (Hb d' E) as (? & ? & _). }
  intros [[]|e] s2 ((_ & _ & Htr) & Hj2 & Hg2); cbn [next].
  - destruct Htr as [E _]. apply Hend; [split; [done|by etrans; [apply Hg1|]]|]. by destruct (Hb _ E) as (_ & _ & ?).
  - split; [done|by etrans; [apply Hg1|]].
Qed.
End Methods.

Section Delivery.
Context `{Hash} `{Sodium}.
Implicit Types (cfg : config) (d : edb) (m : memory) (s t : jstate) (w : world).

(** ** What a consumer is given *)

Definition payload_bytes (es : list event_t) : Z := fold_right Z.add 0 ((λ e, len (ev_payload e)) <$> es).

(** The row of a consumer, and where it stands. *)
Lemma sound_row cfg d r :
  sound cfg d → r ∈ db_consumers d → id_at (er_id <$> db_events d) (cr_position r) = Some (cr_event r) ∧
  0 <= cr_position r <= len (db_events d) ∧ 0 <= cr_revision r.
Proof.
  intros [_ (nc & chain & ids & Ha)] Hr. pose proof (audited_ids _ _ _ _ _ Ha) as ->.
  pose proof (au_consumers _ _ _ _ _ Ha r Hr) as Hc. unfold audit_consumer in Hc.
  apply bind_Ok in Hc as ([] & _ & Hc). apply bind_Ok in Hc as (seal & _ & Hc).
  apply bind_Ok in Hc as ([] & Hc%require_Ok & _). apply andb_true_iff in Hc as [[Hid Hrev]%andb_true_iff _].
  apply bool_decide_eq_true in Hid. split; [done|]. split; [|lia].
  unfold id_at in Hid. destruct (Z.eqb_spec (cr_position r) 0); [len_lia|].
  destruct (Z.leb_spec 1 (cr_position r)); [|done]. apply lookup_lt_Some in Hid. rewrite length_fmap in Hid.
  unfold len. lia.
Qed.

Lemma sound_sequence cfg d i r : sound cfg d → db_events d !! i = Some r → er_sequence r = 1 + Z.of_nat i.
Proof. intros [_ (nc & chain & ids & Ha)] Hi. destruct (audited_event _ _ _ _ _ _ _ Ha Hi). lia. Qed.

Lemma filter_none {A} (P : A → bool) l : (∀ x, x ∈ l → P x = false) → List.filter P l = [].
Proof.
  induction l as [|x l IH]; intros Hl; cbn; [done|]. rewrite Hl by by left. apply IH. intros y Hy. apply Hl. by right.
Qed.
Lemma filter_all {A} (P : A → bool) l : (∀ x, x ∈ l → P x = true) → List.filter P l = l.
Proof.
  induction l as [|x l IH]; intros Hl; cbn; [done|]. rewrite Hl by by left. f_equal. apply IH. intros y Hy. apply Hl. by right.
Qed.

(** The query for the events after a position. *)
Lemma filter_after cfg d p :
  sound cfg d → 0 <= p → List.filter (λ e, p <? er_sequence e) (db_events d) = drop (Z.to_nat p) (db_events d).
Proof.
  intros Hs Hp. rewrite <-(take_drop (Z.to_nat p) (db_events d)) at 1. rewrite List.filter_app.
  rewrite filter_none, filter_all; [done|..].
  - intros r [i Hi]%list_elem_of_lookup. rewrite lookup_drop in Hi. apply Z.ltb_lt.
    rewrite (sound_sequence _ _ _ _ Hs Hi). lia.
  - intros r [i Hi]%list_elem_of_lookup. pose proof (lookup_lt_Some _ _ _ Hi) as Hlt.
    rewrite length_take in Hlt. rewrite lookup_take_lt in Hi by lia. apply Z.ltb_ge.
    rewrite (sound_sequence _ _ _ _ Hs Hi). lia.
Qed.

Lemma take_window_Ok cfg nonces limit size first rows es :
  take_window cfg nonces limit size first rows = Ok es → size <= limit →
  (∃ rows1 rest, rows = rows1 ++ rest ∧ Forall2 (λ r e, decode_event cfg nonces r = Ok e) rows1 es) ∧
  size + payload_bytes es <= limit ∧ (first = true → rows ≠ [] → es ≠ []).
Proof.
  revert size first es. induction rows as [|r rows IH]; intros size first es; cbn [take_window].
  { intros [= <-] Hl. split; [by exists [], []|]. split; [unfold payload_bytes; cbn; lia|done]. }
  intros E Hl. apply bind_Ok in E as (e & He & E). destruct (Z.ltb_spec limit (size + len (ev_payload e))).
  - apply bind_Ok in E as ([] & Hf%require_Ok & [= <-]). split; [by exists [], (r :: rows)|].
    split; [unfold payload_bytes; cbn; lia|]. by destruct first.
  - apply bind_Ok in E as (es' & E & [= <-]). apply IH in E as ((rows1 & rest & -> & Hf) & Hb & _); [|done].
    split; [exists (r :: rows1), rest; split; [done|by constructor]|].
    split; [unfold payload_bytes in *; cbn; lia|done].
Qed.

(** The last event of a delivery is where the consumer stands after it. *)
Lemma delivered_last cfg d p es e :
  sound cfg d → delivered cfg d p es → last es = Some e →
  ev_sequence e = p + len es ∧ id_at (er_id <$> db_events d) (ev_sequence e) = Some (ev_id e).
Proof.
  intros Hs (Hp & rows & rest & Hd & Hf) Hl.
  rewrite last_lookup in Hl. destruct (Forall2_lookup_r _ _ _ _ _ Hf Hl) as (r & Hr & He).
  pose proof (Forall2_length _ _ _ Hf) as Hlen. destruct es as [|e0 es]; [done|]. cbn [length] in *.
  assert (db_events d !! (Z.to_nat p + length es)%nat = Some r) as Hin.
  { rewrite <-lookup_drop, Hd. by apply lookup_app_l_Some. }
  pose proof (sound_sequence _ _ _ _ Hs Hin) as Hseq.
  destruct (decode_event_row _ _ _ _ He) as (E1 & E2 & _).
  assert (ev_sequence e = p + len (e0 :: es)) as Hpos by (rewrite len_cons; unfold len; lia).
  split; [exact Hpos|]. unfold id_at. rewrite (proj2 (Z.eqb_neq _ _)), (proj2 (Z.leb_le _ _)) by (rewrite E1; lia).
  replace (Z.to_nat (ev_sequence e - 1)) with (Z.to_nat p + length es)%nat by lia.
  rewrite list_lookup_fmap, Hin. cbn. by rewrite E2.
Qed.

(** ** Tokens *)

#[local] Transparent make_token.
Lemma open_made_token cfg label data token v :
  make_token cfg label data = Ok token → Forall leaf data → open_token cfg label token = Ok v → v = VList data.
Proof.

  unfold make_token. intros E Hl Ho.
  apply bind_Ok in E as (b & Hb & E). apply bind_Ok in E as (mc & Hm & E).
  destruct (leaves_list data Hl) as [Hw Hn].
  assert (Forall leaf [VBytes b; VBytes mc]) as [Hw' Hn']%leaves_list by by repeat constructor.
  unfold open_token in Ho. apply catch_any_Ok in Ho.
  apply bind_Ok in Ho as ([] & Hlt%require_Ok%Z.leb_le & Ho). apply bind_Ok in Ho as (pair & Hp & Ho).
  rewrite (decode_limit _ _ _ Hw' E Hlt) in Hp by done. rewrite Hn' in Hp. injection Hp as <-.
  apply bind_Ok in Ho as (mc' & _ & Ho). apply bind_Ok in Ho as ([] & _ & Ho).
  pose proof (decode_with_Ok _ _ _ _ Ho) as (_ & _ & Hlb & _).
  rewrite (decode_limit _ _ _ Hw Hb Hlb) in Ho by done. rewrite Hn in Ho. by injection Ho as <-.
Qed.
Lemma make_token_inj cfg label data data' token :
  make_token cfg label data = Ok token → make_token cfg label data' = Ok token →
  Forall leaf data → Forall leaf data' → data = data'.
Proof.
  unfold make_token. intros E E' [Hw Hn]%leaves_list [Hw' Hn']%leaves_list.
  apply bind_Ok in E as (b & Hb & E). apply bind_Ok in E as (mc & _ & E).
  apply bind_Ok in E' as (b' & Hb' & E'). apply bind_Ok in E' as (mc' & _ & E').
  assert (∀ x y, wf_value (VList [VBytes x; VBytes y]) ∧ norm (VList [VBytes x; VBytes y]) = VList [VBytes x; VBytes y])
    as Hpair by (intros x y; apply leaves_list; by repeat constructor).
  pose proof (encode_inj _ _ _ (proj1 (Hpair b mc)) (proj1 (Hpair b' mc')) (proj2 (Hpair b mc)) (proj2 (Hpair b' mc')) E E')
    as [= <- _].
  pose proof (encode_inj _ _ _ Hw Hw' Hn Hn' Hb Hb') as Hd. by injection Hd.
Qed.
#[local] Opaque make_token.

Lemma delivery_token_revision cfg c session r r' e e' stamp stamp' token :
  delivery_token cfg c session r e stamp = Ok token → delivery_token cfg c session r' e' stamp' = Ok token →
  cr_revision r = cr_revision r'.
Proof.
  unfold delivery_token. intros E E'.
  pose proof (make_token_inj _ _ _ _ _ E E' ltac:(by repeat constructor) ltac:(by repeat constructor)) as Hd.
  by injection Hd.
Qed.

(** ** [poll] *)

(** A batch: what follows the consumer's position, within the limits. *)
Definition polled cfg (c : bytes) (limit byte_limit : Z) s (b : batch) : Prop :=
  ∃ r, find_consumer c (js_db s) = Some r ∧ delivered cfg (js_db s) (cr_position r) (bt_events b) ∧
    len (bt_events b) <= limit ∧ payload_bytes (bt_events b) <= byte_limit ∧
    (bt_events b = [] → cr_position r = len (db_events (js_db s)) ∧ bt_more b = false ∧ bt_token b = None) ∧
    (bt_events b ≠ [] → bt_more b = (cr_position r + len (bt_events b) <? len (db_events (js_db s)))).

(** What [poll] leaves in the object. *)
Definition poll_result cfg (c : bytes) (limit byte_limit : Z) s (r : result batch) t : Prop :=
  js_db t = js_db s ∧ journal cfg t ∧
  match r with
  | Ok b => ∃ sub, m_subs (js_mem s) !! c = Some sub ∧
      ((∃ stamp, sb_pending sub = Some (b, stamp)) ∧ m_subs (js_mem t) = m_subs (js_mem s) ∨
       sb_pending sub = None ∧ polled cfg c limit byte_limit s b ∧
       (bt_events b ≠ [] → ∃ stamp, m_subs (js_mem t) !! c =
          Some (Subscription (sb_session sub) (Some (b, stamp)) (sb_last sub))))
  | Err _ => m_subs (js_mem t) = m_subs (js_mem s)
  end.

Lemma wp_live cfg w c I s :
  wp (live_sub w c) I (λ r t, t = s ∧ ∀ sub, r = Ok sub → m_subs (js_mem s) !! c = Some sub) s.
Proof.
  unfold live_sub, enter, read_mem, wp, mbind, crash_bind, reads, lift; cbn.
  destruct (eneed _ _) as [[]|]; cbn; [|split; [constructor|by split]].
  destruct (eneed _ _) as [[]|]; cbn; [|split; [constructor|by split]].
  destruct (w_path w) as [[]|]; cbn; [|split; [constructor|by split]].
  split; [constructor|]. split; [done|]. intros sub. by destruct (_ !! c); cbn; intros [= <-].
Qed.

Lemma take_more {A} n (l rows rest : list A) :
  (length rows <= n)%nat → l = rows ++ rest →
  (length rows <? length (take (S n) l))%nat = negb (bool_decide (rest = [])).
Proof.
  intros Hn ->. rewrite length_take, length_app. destruct rest as [|x rest]; cbn [length].
  - rewrite bool_decide_eq_true_2 by done. apply Nat.ltb_ge. lia.
  - rewrite bool_decide_eq_false_2 by done. apply Nat.ltb_lt. lia.
Qed.

Lemma window_polled cfg c limit byte_limit d r es :
  sound cfg d → find_consumer c d = Some r → 1 <= limit → 1 <= byte_limit →
  let rows := take (Z.to_nat (limit + 1)) (List.filter (λ e, cr_position r <? er_sequence e) (db_events d)) in
  take_window cfg (db_nonces d) byte_limit 0 true (take (Z.to_nat limit) rows) = Ok es →
  delivered cfg d (cr_position r) es ∧ len es <= limit ∧ payload_bytes es <= byte_limit ∧
  (es = [] → cr_position r = len (db_events d)) ∧
  (len es <? len rows) = (cr_position r + len es <? len (db_events d)).
Proof.
  intros Hs [Hin Hc]%find_consumer_Some Hl Hb rows Hw.
  destruct (sound_row _ _ _ Hs Hin) as (_ & Hp & _).
  unfold rows in *. clear rows. rewrite (filter_after cfg) in * by (done || lia).
  set (l := drop (Z.to_nat (cr_position r)) (db_events d)) in *.
  assert (len l = len (db_events d) - cr_position r) as Hll by (unfold l, len in *; rewrite length_drop; lia).
  rewrite take_take in Hw. replace (Z.to_nat limit `min` Z.to_nat (limit + 1))%nat with (Z.to_nat limit) in Hw by lia.
  apply take_window_Ok in Hw as ((rows1 & rest & Hrows & Hf) & Hbytes & Hne); [|lia].
  pose proof (Forall2_length _ _ _ Hf) as Hlen.
  assert (length es <= Z.to_nat limit)%nat as Hlim.
  { rewrite <-Hlen. transitivity (length (take (Z.to_nat limit) l)); [rewrite Hrows, length_app; lia|rewrite length_take; lia]. }
  split; [split; [lia|]|].
  { exists rows1, (rest ++ drop (Z.to_nat limit) l). fold l. split; [|exact Hf].
    by rewrite app_assoc, <-Hrows, take_drop. }
  split; [unfold len; lia|]. split; [lia|]. split.
  - intros ->. destruct l as [|x l'] eqn:El; [rewrite len_nil in Hll; lia|]. exfalso. apply Hne; [done| |done].
    by destruct (Z.to_nat limit) eqn:En; [lia|].
  - unfold len in *. rewrite length_take.
    destruct (Z.ltb_spec (cr_position r + Z.of_nat (length es)) (Z.of_nat (length (db_events d)))).
    + apply Z.ltb_lt. lia.
    + apply Z.ltb_ge. lia.
Qed.

Lemma wp_poll cfg w c limit byte_limit s :
  journal cfg s → wp (poll cfg w c limit byte_limit) (growing cfg s) (poll_result cfg c limit byte_limit s) s.
Proof.
  intros Hj. assert (growing cfg s s) as HI by by split.
  assert (∀ t, calm s t → journal cfg t → ∀ e, poll_result cfg c limit byte_limit s (Err e) t) as Hstay.
  { intros t (Hd & _ & _ & Hm) Ht e. by split. }
  unfold poll. wp_step. eapply wp_mono; [apply (wp_live cfg)|done|]. intros [sub|e] t [-> Hsub]; cbn [next]; [|by apply Hstay].
  specialize (Hsub sub eq_refl).
  wp_step. wp_step. destruct (eneed _ _) as [[]|e] eqn:Hlim; cbn [next]; [|by apply Hstay].
  apply require_Ok in Hlim. zb.
  wp_step. eapply wp_mono; [by apply wp_operation|done|]. intros [stamp|e] s1 (Hcalm & Hj1 & _); cbn [next]; [|by apply Hstay].
  assert (∀ e, poll_result cfg c limit byte_limit s (Err e) s1) as Hstay1 by (intros e; by apply Hstay).
  destruct Hcalm as (Hd & _ & _ & Hm). destruct (sb_pending sub) as [[b stamp0]|] eqn:Hpend.
  - wp_step. wp_step. destruct (recheck _ _ _ _ _) as [[]|e]; cbn [next]; [|apply Hstay1].
    apply wp_ret. split; [done|]. split; [done|]. exists sub. split; [done|]. left. split; [by exists stamp0|done].
  - read_step. wp_step. wp_step. destruct (consumer_row_of c (js_db s1)) as [r|e] eqn:Hr; cbn [next]; [|apply Hstay1].
    unfold consumer_row_of in Hr. apply of_option_Ok in Hr. cbn zeta.
    wp_step. wp_step. destruct (take_window _ _ _ _ _ _) as [es|e] eqn:Hw; cbn [next]; [|apply Hstay1].
    destruct (window_polled cfg c limit byte_limit _ _ _ (journal_sound _ _ Hj1) Hr ltac:(assumption) ltac:(assumption) Hw)
      as (Hdel & Hle & Hby & Hnil & Hmore).
    wp_step. wp_step. destruct (recheck _ _ _ _ _) as [[]|e]; cbn [next]; [|apply Hstay1].
    destruct (last es) as [e|] eqn:Hlast.
    + wp_step. wp_step. destruct (delivery_token _ _ _ _ _ _) as [token|e'] eqn:Htok; cbn [next]; [|apply Hstay1].
      rewrite Hmore. set (b := Batch es (Some token) _).
      assert (es ≠ []) as Hne by (by intros ->).
      wp_step. apply (wp_set_sub cfg); [done| |].
      * intros ? [= <-]. pose proof Hr as [Hin Hc]%find_consumer_Some.
        rewrite <-Hm in Hsub. destruct (jn_subs _ _ Hj1 c sub Hsub) as [_ _ Hspent].
        split; cbn [sb_session sb_pending sb_last]; [by exists r| |].
        -- intros ? ? [= <- <-]. exists r, e, token. split_and!; [done|exact Hlast|exact Htok|exact Hdel].
        -- intros tk res Htk. destruct (Hspent tk res Htk) as [(r0 & e0 & st0 & r1 & Hd0 & Hr1 & Hc1 & Hlt) _].
           split; [by exists r0, e0, st0, r1|]. cbn [sb_pending]. intros ? ? [= <- <-] [= ->].
           assert (r1 = r) as -> by (apply (NoDup_key cr_consumer (db_consumers (js_db s1))); [apply (jn_keys _ _ Hj1)|done|done|congruence]).
           pose proof (delivery_token_revision _ _ _ _ _ _ _ _ _ _ Hd0 Htok). lia.
      * intros t -> Ht. cbn [next]. apply wp_ret. split; [done|]. split; [done|]. exists sub. split; [done|].
        right. split; [done|]. split.
        { exists r. rewrite <-Hd. cbn [bt_events bt_more b]. by split_and!. }
        intros _. exists stamp. cbn. by rewrite lookup_partial_alter_eq.
    + apply last_None in Hlast as ->. apply wp_ret. split; [done|]. split; [done|]. exists sub. split; [done|]. right.
      split; [done|]. split; [|done]. exists r. rewrite <-Hd. cbn [bt_events bt_more bt_token]. split_and!; try done.
      intros _. split; [by apply Hnil|done].
Qed.

(** ** [ack] *)

(** What an acknowledgement did: it repeated the answer to the last one, or it moved the
    consumer past the outstanding batch. *)
Definition acked cfg (c token result : bytes) s t : Prop :=
  ∃ sub, m_subs (js_mem s) !! c = Some sub ∧
    ((sb_last sub = Some (token, result) ∧ js_db t = js_db s ∧ m_subs (js_mem t) = m_subs (js_mem s)) ∨
     ∃ b stamp r, sb_pending sub = Some (b, stamp) ∧ bt_token b = Some token ∧ bt_events b ≠ [] ∧
       find_consumer c (js_db s) = Some r ∧ delivered cfg (js_db s) (cr_position r) (bt_events b) ∧
       (∃ r', find_consumer c (js_db t) = Some r' ∧ cr_position r' = cr_position r + len (bt_events b) ∧
          cr_revision r' = cr_revision r + 1) ∧
       db_events (js_db t) = db_events (js_db s) ∧ db_nonces (js_db t) = db_nonces (js_db s) ∧
       (∀ x, cr_consumer x ≠ c → x ∈ db_consumers (js_db t) ↔ x ∈ db_consumers (js_db s)) ∧
       m_subs (js_mem t) !! c = Some (Subscription (sb_session sub) None (Some (token, result)))).

Definition ack_result cfg (c token : bytes) s (r : result bytes) t : Prop :=
  growing cfg s t ∧ match r with Ok x => acked cfg c token x s t | Err _ => True end.

Lemma find_consumer_intro c d r :
  NoDup (cr_consumer <$> db_consumers d) → r ∈ db_consumers d → cr_consumer r = c → find_consumer c d = Some r.
Proof.
  intros Hn Hr Hc. destruct (find_consumer c d) as [r'|] eqn:Hf.
  - apply find_consumer_Some in Hf as [Hr' Hc']. f_equal. apply (NoDup_key cr_consumer (db_consumers d)); congruence.
  - by destruct (find_consumer_None _ _ _ Hf Hr).
Qed.

(** The row an acknowledgement changes, and the others. *)
Lemma acked_rows c new (l : list consumer_row) :
  cr_consumer new = c →
  let l' := (λ x, if bool_decide (cr_consumer x = c) then new else x) <$> l in
  (∀ r, r ∈ l → cr_consumer r = c → new ∈ l') ∧ ∀ x, cr_consumer x ≠ c → x ∈ l' ↔ x ∈ l.
Proof.
  intros Hc l'. unfold l'. split.
  - intros r Hr Hrc. apply list_elem_of_fmap. exists r. by rewrite bool_decide_eq_true_2.
  - intros x Hx. rewrite list_elem_of_fmap. split.
    + intros (y & -> & Hy). case_bool_decide; [done|exact Hy].
    + intros Hy. exists x. by rewrite bool_decide_eq_false_2.
Qed.

Lemma wp_ack_pending cfg w c token sub stamp p0 v0 pos id stamp0 s :
  journal cfg s → m_subs (js_mem s) !! c = Some sub →
  (∀ b st r e, sb_pending sub = Some (b, st) → bt_token b = Some token →
     delivery_token cfg c (sb_session sub) r e st = Ok token →
     p0 = VInt (cr_position r) ∧ v0 = VInt (cr_revision r) ∧ pos = ev_sequence e ∧ id = ev_id e) →
  wp (ack_pending cfg w c token sub stamp p0 v0 pos id stamp0) (growing cfg s) (ack_result cfg c token s) s.
Proof.
  intros Hj Hsub Htok. assert (growing cfg s s) as HI by by split.
  assert (∀ e, ack_result cfg c token s (Err e) s) as Hstay by by split.
  unfold ack_pending. wp_step. wp_step. destruct (require _ _) as [[]|e] eqn:Hp; cbn [next]; [|apply Hstay].
  apply require_Ok in Hp. destruct (sb_pending sub) as [[b st]|] eqn:Hpend; [|done]. apply bool_decide_eq_true in Hp.
  destruct (so_pending _ _ _ _ (jn_subs _ _ Hj c sub Hsub) _ _ Hpend) as (r0 & e0 & tk & Htk & Hlast & Hdt & Hdel). rewrite Hp in Htk. injection Htk as <-.
  destruct (Htok b st r0 e0 eq_refl Hp Hdt) as (-> & -> & -> & ->). clear Htok.
  wp_step. wp_step. destruct (recheck _ _ _ _ _) as [[]|e]; cbn [next]; [|apply Hstay].
  read_step. wp_step. wp_step. destruct (consumer_row_of c (js_db s)) as [r|e] eqn:Hr; cbn [next]; [|apply Hstay].
  unfold consumer_row_of in Hr. apply of_option_Ok in Hr.
  wp_step. wp_step. destruct (eneed _ _) as [[]|e] eqn:Hst; cbn [next]; [|apply Hstay].
  apply require_Ok, andb_true_iff in Hst as [Hpos Hrev]. cbn in Hpos, Hrev. apply Z.eqb_eq in Hpos, Hrev.
  rewrite <-Hpos in Hdel. pose proof (journal_sound _ _ Hj) as Hs.
  destruct (delivered_last _ _ _ _ _ Hs Hdel Hlast) as [Hseq Hid].
  destruct (find_consumer_Some _ _ _ Hr) as [Hin Hc].
  assert (∀ d', ack_body cfg w c (ev_sequence e0) (ev_id e0) (cr_revision r + 1) (js_db s) = Ok d' →
    sound cfg d' ∧ grows (js_db s) d' ∧ db_events d' = db_events (js_db s) ∧ db_nonces d' = db_nonces (js_db s) ∧
    ∃ seal, db_consumers d' = (λ x, if bool_decide (cr_consumer x = c)
      then ConsumerRow c (ev_sequence e0) (ev_id e0) (cr_revision r + 1) seal else x) <$> db_consumers (js_db s)) as Hb.
  { intros d' E. eapply ack_body_Ok; [exact Hs|exact E|exact Hin|exact Hc|rewrite Hseq; len_lia|lia|exact Hid]. }
  wp_step. eapply wp_mono; [apply wp_transaction; [exact Hj|exact HI|]|done|].
  { intros d' E. by destruct (Hb d' E) as (? & ? & _). }
  intros [[]|e] s1 ((_ & Hm & Htr) & Hj1 & Hg1); cbn [next]; [|by split].
  destruct Htr as [E _]. destruct (Hb _ E) as (Hs1 & _ & Hev & Hno & seal & Hcons).
  wp_step. wp_step. destruct (cursor_token _ _ _ _ _) as [result|e]; cbn [next]; [|by split].
  wp_step. apply (wp_set_sub cfg); [done| |].
  { intros ? [= <-]. set (new := ConsumerRow c (ev_sequence e0) (ev_id e0) (cr_revision r + 1) seal) in *.
    destruct (acked_rows c new (db_consumers (js_db s)) eq_refl) as [Hnew _]. cbn zeta in Hnew. rewrite <-Hcons in Hnew.
    specialize (Hnew r Hin Hc). split; [by exists new|done|]. intros tk res [= <- <-]. split; [|done].
    exists r0, e0, st, new. cbn [sb_session]. split; [exact Hdt|]. split; [done|]. split; [done|]. cbn. lia. }
  intros t -> Ht. cbn [next]. apply wp_ret. split; [split; [done|exact Hg1]|].
  exists sub. split; [done|]. right. exists b, st, r.
  set (new := ConsumerRow c (ev_sequence e0) (ev_id e0) (cr_revision r + 1) seal) in *.
  destruct (acked_rows c new (db_consumers (js_db s)) eq_refl) as [Hnew Hother]. cbn zeta in Hnew, Hother.
  rewrite <-Hcons in Hnew, Hother.
  split_and!; try done.
  - intros Hnil. by rewrite Hnil in Hlast.
  - exists new. split; [|done]. apply find_consumer_intro; [apply (jn_keys _ _ Ht)|by apply (Hnew r)|done].
  - cbn. by rewrite lookup_partial_alter_eq.
Qed.

Lemma wp_ack cfg w c token s :
  journal cfg s → wp (ack cfg w c token) (growing cfg s) (ack_result cfg c token s) s.
Proof.
  intros Hj. assert (growing cfg s s) as HI by by split.
  unfold ack. wp_step. eapply wp_mono; [apply (wp_live cfg)|done|].
  intros [sub|e] t [-> Hsub]; cbn [next]; [|by split]. specialize (Hsub sub eq_refl).
  wp_step. eapply wp_mono; [by apply wp_operation|done|]. intros [stamp|e] s1 (Hcalm & Hj1 & _); cbn [next].
  2: split; [by apply calm_growing|done].
  pose proof (calm_growing _ _ _ Hcalm Hj1) as Hg1. destruct Hcalm as (Hd & _ & _ & Hm).
  assert (∀ e, ack_result cfg c token s (Err e) s1) as Hstay by by split.
  wp_step. wp_step. destruct (open_token _ _ _) as [data|e] eqn:Hopen; cbn [next]; [|apply Hstay].
  assert (∀ (r : result bytes) t, ack_result cfg c token s1 r t → ack_result cfg c token s r t) as Hback.
  { intros r t [Hg Ha]. split; [by eapply growing_trans|]. destruct r as [x|]; [|done].
    destruct Ha as (sub' & Hl & Ha). exists sub'. rewrite <-Hm, <-Hd. split; [done|exact Ha]. }
  assert (∀ u, growing cfg s1 u → growing cfg s u) as HI1 by (intros u; by apply growing_trans).
  destruct data as [| | | | |l| |]; try (apply wp_raise; apply Hstay).
  destruct l as [|g [|cx [|k [|sx [|p0 [|v0 [|pos [|i [|st0 [|? ?]]]]]]]]]];
    try (apply wp_raise; apply Hstay); destruct pos; try (apply wp_raise; apply Hstay);
    destruct i; try (apply wp_raise; apply Hstay); destruct st0; try (apply wp_raise; apply Hstay).
  wp_step. wp_step. destruct (require _ _) as [[]|e]; cbn [next]; [|apply Hstay].
  assert (wp (ack_pending cfg w c token sub stamp p0 v0 z b b0) (growing cfg s) (ack_result cfg c token s) s1) as Hpending.
  { eapply wp_mono; [apply wp_ack_pending; [done|by rewrite Hm|]|exact HI1|apply Hback].
    intros b1 st r e _ _ Hdt. unfold delivery_token in Hdt.
    apply (open_made_token _ _ _ _ _ Hdt) in Hopen; [|by repeat constructor]. by injection Hopen. }
  destruct (sb_last sub) as [[tk res]|] eqn:Hlast; [|exact Hpending].
  case_bool_decide as Htk; [|exact Hpending]. subst tk.
  wp_step. wp_step. destruct (recheck _ _ _ _ _) as [[]|e]; cbn [next]; [|apply Hstay].
  apply wp_ret. split; [done|]. exists sub. split; [done|]. left. split_and!; done.
Qed.
End Delivery.
