(* ===== verification/EventsLife.v ===== *)
(** * The life of an event journal

    Opening and creating one, the calls and crashes that follow, and the theorems: nothing
    the journal holds is lost, an operation is published once and can be retried, and a
    consumer is given the events in order. *)

From S2P Require Import Prelude Bytes Value Codec Flat Json Hash Sodium Primitives Objects ObjectsSpec Membership Authority Activation Crash EventPayload Events EventsSpec EventsRun.
Local Open Scope Z_scope.

#[local] Opaque encode encode_with decode decode_with crypt domain verify sign hashed hmac validate_payload decode_payload decode_event audit_db guard make_token transaction operation schema_bytes schema_fields derive.

Section Calls.
Context `{Hash} `{SodiumLaws}.
Implicit Types (cfg : config) (d : edb) (m : memory) (s t : jstate) (w : world) (g : arguments).

(** ** [publish] *)

Definition publish_result cfg op payload parents s (r : result receipt) t : Prop :=
  growing cfg s t ∧
  match publish_input cfg op payload parents with
  | Err e => t = s ∧ r = Err e
  | Ok (ps, raw) =>
      match find_operation op (js_db s) with
      | Some old => js_db t = js_db s ∧
          ∀ rc, r = Ok rc → rc = receipt_of old ∧ input_digest cfg op ps raw = Ok (er_input old)
      | None => settled cfg op ps raw s r t
      end
  end.

Lemma publish_input_Ok cfg op payload parents ps raw :
  config_ok cfg → py_dict payload → publish_input cfg op payload parents = Ok (ps, raw) →
  len op = 16 ∧ ps = sorted_bytes parents ∧ parents_ok ps ∧ len raw <= MAX_PAYLOAD ∧
  ∃ v, decode_payload raw = Ok v ∧ validate_payload (c_schema cfg) v = Ok raw.
Proof.
  intros [_ Hs] Hd. unfold publish_input. intros E.
  apply bind_Ok in E as ([] & Ho%require_Ok%Z.eqb_eq & E). apply bind_Ok in E as ([] & Hl%require_Ok%Z.leb_le & E).
  apply bind_Ok in E as ([] & Hp & E). apply bind_Ok in E as ([] & Hn%require_Ok%bool_decide_eq_true & E).
  apply bind_Ok in E as (b & Hb & E). injection E as <- <-.
  destruct (validate_Ok _ _ _ Hs Hd Hb). rewrite iter_check in Hp.
  assert (sorted_bytes parents ≡ₚ parents) as Hperm by apply merge_sort_Permutation.
  split_and!; try done. unfold parents_ok. split; [unfold len in *; by rewrite Hperm|]. split; [by rewrite Hperm|].
  rewrite Hperm. apply Forall_forall. intros p Hin. by apply Z.eqb_eq, (require_Ok _ (event "INVALID_INPUT")), Hp.
Qed.

Lemma wp_publish_event cfg w op payload parents s :
  config_ok cfg → journal cfg s → py_dict payload →
  wp (publish cfg w op payload parents) (λ t, growing cfg s t ∧ db_events (js_db t) = db_events (js_db s))
    (publish_result cfg op payload parents s) s.
Proof.
  intros Hcfg Hj Hd. assert (growing cfg s s) as HI by by split.
  unfold publish, publish_result.
  set (I := λ t, growing cfg s t ∧ db_events (js_db t) = db_events (js_db s)).
  assert (I s) as HIs by by split. wp_step. wp_step.
  destruct (publish_input cfg op payload parents) as [[ps raw]|e] eqn:Hin; cbn [next]; [|by split].
  destruct (publish_input_Ok _ _ _ _ _ _ Hcfg Hd Hin) as (Hop & _ & Hps & Hraw & v & Hdec & Hval).
  wp_step. eapply wp_mono; [apply (wp_operation _ _ _ I); [done|exact HIs]|done|]. intros r s1 (Hcalm & Hj1 & _).
  pose proof (calm_growing _ _ _ Hcalm Hj1) as Hg1. destruct Hcalm as (Ed & _).
  assert (∀ e, growing cfg s s1 ∧ match find_operation op (js_db s) with
    | Some old => js_db s1 = js_db s ∧ ∀ rc, Err e = Ok rc → rc = receipt_of old ∧ input_digest cfg op ps raw = Ok (er_input old)
    | None => settled cfg op ps raw s (Err e) s1 end) as Hstay.
  { intros e. split; [done|]. case_match; [by split|]. left. by rewrite Ed. }
  destruct r as [stamp|e]; cbn [next]; [|apply Hstay].
  wp_step. wp_step. destruct (input_digest cfg op ps raw) as [dg|e] eqn:Hdg; cbn [next]; [|apply Hstay].
  read_step. rewrite <-Ed in Hstay |- *. destruct (find_operation op (js_db s1)) as [old|].
  - wp_step. wp_step. destruct (eneed _ _) as [[]|e] eqn:Hsame; cbn [next]; [|apply Hstay].
    apply require_Ok, bool_decide_eq_true in Hsame.
    wp_step. wp_step. destruct (recheck _ _ _ _ _) as [[]|e]; cbn [next]; [|apply Hstay].
    apply wp_ret. split; [done|]. split; [done|]. intros rc [= <-]. by rewrite Hsame.
  - eapply wp_mono; [apply (wp_publish_new cfg w stamp op ps raw dg v s1); done|..].
    + intros t [Ht He]. split; [eapply growing_trans; [exact Hg1|exact Ht]|]. by rewrite He, Ed.
    + intros r t [Ht He]. split; [eapply growing_trans; [exact Hg1|exact Ht]|]. unfold settled, committed in *. rewrite Ed in He. exact He.
Qed.

(** ** Every method *)

(** A call of a method; [CAck] stands for any use of a token. *)
Inductive request :=
| CPublish (op : bytes) (payload : value) (parents : list bytes)
| CInspect
| CInspectOperation (op : bytes)
| CSubscribe (consumer : bytes) (expected : option bytes)
| CPoll (consumer : bytes) (limit byte_limit : Z)
| CAck (consumer token : bytes)
| CPosition (consumer : bytes)
| CCursor (consumer : bytes)
| CCancel (consumer : bytes)
| CClose.

Definition perform cfg w (c : request) : crash jstate unit :=
  match c with
  | CPublish op payload parents => _ ← publish cfg w op payload parents; mret tt
  | CInspect => _ ← inspect_journal cfg w; mret tt
  | CInspectOperation op => _ ← inspect_operation cfg w op; mret tt
  | CSubscribe consumer expected => subscribe cfg w consumer expected
  | CPoll consumer limit byte_limit => _ ← poll cfg w consumer limit byte_limit; mret tt
  | CAck consumer token => _ ← ack cfg w consumer token; mret tt
  | CPosition consumer => _ ← position cfg w consumer; mret tt
  | CCursor consumer => _ ← cursor cfg w consumer; mret tt
  | CCancel consumer => cancel_sub consumer
  | CClose => close
  end.

Definition legal (c : request) : Prop := match c with CPublish _ payload _ => py_dict payload | _ => True end.

Lemma wp_void {A} (k : crash jstate A) (I Q : jstate → Prop) s :
  wp k I (λ _, Q) s → wp (_ ← k; mret tt) I (λ _, Q) s.
Proof. intros Hk. wp_step. eapply wp_mono; [exact Hk|done|]. intros [a|e] t Ht; cbn; [by apply wp_ret|done]. Qed.

Lemma wp_perform cfg w c s :
  config_ok cfg → journal cfg s → legal c → wp (perform cfg w c) (growing cfg s) (λ _ t, growing cfg s t) s.
Proof.
  intros Hcfg Hj Hl. destruct c; cbn [perform]; try apply wp_void.
  - eapply wp_mono; [by apply wp_publish_event|by intros t []|by intros r t []].
  - apply quiet_grows; [|done]; apply quiet_inspect.
  - apply quiet_grows; [|done]; apply quiet_inspect_operation.
  - by apply wp_subscribe.
  - eapply wp_mono; [by apply wp_poll|done|]. intros r t (Hd & Ht & _). split; [done|by rewrite Hd].
  - eapply wp_mono; [by apply wp_ack|done|by intros r t []].
  - apply quiet_grows; [|done]; apply quiet_position.
  - apply quiet_grows; [|done]; apply quiet_cursor.
  - by apply wp_cancel.
  - by apply wp_close.
Qed.
End Calls.

Section Lifecycle.
Context `{Hash} `{SodiumLaws}.
Implicit Types (cfg : config) (d : edb) (m : memory) (s t : jstate) (w : world) (g : arguments).

(** ** Opening *)

(** What [prepare] and the generation make is a sound configuration. *)
Lemma prepare_config g make generation cfg :
  py_dict (ag_schema g) → prepare g = Ok make → make generation = Ok cfg →
  config_ok cfg ∧ c_generation cfg = generation ∧ 1 <= c_max_events cfg ∧ 1 <= c_max_bytes cfg ∧ 1 <= c_max_consumers cfg.
Proof.
  intros Hd E Em. unfold prepare in E.
  apply bind_Ok in E as ([] & Hargs & E). apply bind_Ok in E as (sb & Hsb & E).
  apply bind_Ok in E as (fs & Hfs & E). apply bind_Ok in E as ([] & _ & E).
  apply bind_Ok in E as (pk & Hpk & E). apply bind_Ok in E as ([] & _ & E).
  apply bind_Ok in E as ([row st] & _ & E). apply bind_Ok in E as (view & _ & E).
  apply bind_Ok in E as (cert & _ & E). apply bind_Ok in E as (p3 & _ & E).
  apply bind_Ok in E as ([] & _ & E). apply bind_Ok in E as (ctx & _ & E). injection E as <-.
  apply bind_Ok in Em as ([key mk] & _ & Em). injection Em as <-.
  split; [split; [exact Hpk|by eapply schema_fields_Ok]|]. split; [done|].
  unfold check_arguments in Hargs. do 7 (apply bind_Ok in Hargs as ([] & _ & Hargs)).
  apply require_Ok in Hargs. unfold within in Hargs. cbn [c_max_events c_max_bytes c_max_consumers]. zb. lia.
Qed.

(** The arguments still open this journal: the certificate is that of a current member
    that may read, and the context is the same. *)
Definition opens g cfg : Prop :=
  ∃ make stamp, prepare g = Ok make ∧ make (c_generation cfg) = Ok cfg ∧ guard cfg (ag_owner g) false = Ok stamp.

Lemma fresh_knows cfg d nc chain ids : audited cfg d nc chain ids → knows cfg d fresh_memory.
Proof.
  intros Ha. exists nc, chain, ids. split; [done|]. split; cbn [fresh_memory m_known m_known_tail m_known_chain].
  - len_lia.
  - intros Hl%len_zero. pose proof (au_events _ _ _ _ _ Ha) as E. rewrite Hl in E. by injection E as <- _.
  - intros r p v _. by rewrite lookup_empty.
  - by rewrite dom_empty.
Qed.

Lemma finish_open_sound g cfg d stamp :
  sound cfg d → guard cfg (ag_owner g) false = Ok stamp →
  ∃ m, finish_open g cfg d = Ok m ∧ journal cfg (Jstate d m) ∧ m_closed m = false ∧ m_uncertain m = false ∧ m_subs m = ∅.
Proof.
  intros [Hk (nc & chain & ids & Ha)] Hg. pose proof (fresh_knows _ _ _ _ _ Ha) as Hkn.
  destruct (audit_mem_knows cfg d fresh_memory Hk Hkn) as (m & Haud & (Hc & Hu & Hsub) & Hkn').
  exists m. unfold finish_open, cneed. rewrite (au_schema _ _ _ _ _ Ha). cbn [require mbind result_bind].
  rewrite Haud. cbn [mbind result_bind]. rewrite Hg. split; [done|]. split; [|done].
  assert (m_subs m = ∅) as Hnone by exact Hsub.
  split; [done|exact Hkn'|]. cbn. rewrite Hnone. intros c sub Hl. by rewrite lookup_empty in Hl.
Qed.

(** A sound journal of 32-byte generation opens under its arguments. *)
Lemma open_sound g cfg d :
  sound cfg d → opens g cfg → len (c_generation cfg) = 32 →
  ∃ m, open_journal g d = Ok (cfg, m) ∧ journal cfg (Jstate d m) ∧
    m_closed m = false ∧ m_uncertain m = false ∧ m_subs m = ∅.
Proof.
  intros Hs (make & stamp & Hp & Hm & Hg) Hl.
  destruct (finish_open_sound g cfg d stamp Hs Hg) as (m & Hf & Hj & Hm').
  exists m. split; [|by split].
  destruct Hs as [_ (nc & chain & ids & Ha)]. destruct (au_meta _ _ _ _ _ Ha) as (seal & Hmeta & Hseal).
  unfold open_journal. run Hp. rewrite Hmeta. cbn [of_option mbind result_bind].
  cbn [mt_generation mt_context mt_tail mt_chain mt_issued mt_nonce_chain mt_seal].
  unfold efixed, eneed. rewrite Hl, Z.eqb_refl. cbn [require mbind result_bind]. rewrite Hm. cbn [mbind result_bind].
  rewrite Hseal. cbn [mbind result_bind]. rewrite !bool_decide_refl. cbn [andb require mbind result_bind].
  by rewrite Hf.
Qed.

(** What [create] leaves. *)
Lemma create_sound g random cfg s :
  py_dict (ag_schema g) → create_journal g random = Ok (cfg, s) →
  config_ok cfg ∧ len (c_generation cfg) = 32 ∧ journal cfg s ∧ db_events (js_db s) = [] ∧ opens g cfg.
Proof.
  intros Hd E. unfold create_journal in E. apply bind_Ok in E as (make & Hp & E).
  apply bind_Ok in E as (gen & Hgen & E). apply random_bytes_len in Hgen.
  apply bind_Ok in E as (c & Hc & E). apply bind_Ok in E as (d & Hset & E).
  apply bind_Ok in E as (m & Hf & E). injection E as <- <-.
  destruct (prepare_config _ _ _ _ Hd Hp Hc) as (Hcfg & <- & Hmax).
  apply set_meta_Ok in Hset as (seal & Hseal & ->).
  assert (sound c (set_meta_row (MetaRow (c_generation c) (c_context c) 0 [] 0 [] seal) empty_edb)) as Hs.
  { split; [by split; constructor|]. exists [], [], []. split; cbn; try done; try (len_nil; lia).
    - by exists seal.
    - by intros r ?%not_elem_of_nil. }
  pose proof Hf as Hf'. unfold finish_open in Hf'. apply bind_Ok in Hf' as ([] & _ & Hf').
  apply bind_Ok in Hf' as (m' & _ & Hf'). apply bind_Ok in Hf' as (stamp & Hg & _).
  destruct (finish_open_sound g _ _ _ Hs Hg) as (m2 & Hf2 & Hj & _). rewrite Hf in Hf2. injection Hf2 as <-.
  split; [done|]. split; [done|]. split; [done|]. split; [done|]. by exists make, stamp.
Qed.

(** ** The life of a journal *)

(** A call that ends, or a process that dies during one and a new one that opens the file. *)
Inductive lives_with cfg (P : request → Prop) : jstate → jstate → Prop :=
| lives_call w c s : P c → lives_with cfg P s (final (perform cfg w c) s)
| lives_crash w c s u g m : P c → u ∈ visited (perform cfg w c) s →
    open_journal g (js_db u) = Ok (cfg, m) → lives_with cfg P s (Jstate (js_db u) m).
Definition lives cfg : jstate → jstate → Prop := lives_with cfg legal.

Lemma visited_growing cfg w c s u :
  config_ok cfg → journal cfg s → legal c → u ∈ visited (perform cfg w c) s → growing cfg s u.
Proof. intros Hcfg Hj Hl. eapply wp_visited; [by apply wp_perform|done]. Qed.

(** An opened journal passed the audit. *)
Lemma opened_journal cfg d g m :
  db_keys d → open_journal g d = Ok (cfg, m) → journal cfg (Jstate d m).
Proof.
  intros Hk E. unfold open_journal in E. apply bind_Ok in E as (make & _ & E). apply bind_Ok in E as (row & _ & E).
  apply bind_Ok in E as ([] & _ & E). apply bind_Ok in E as (c & _ & E). apply bind_Ok in E as (seal & _ & E).
  apply bind_Ok in E as ([] & _ & E). apply bind_Ok in E as (m' & Hf & E). injection E as -> ->.
  unfold finish_open in Hf. apply bind_Ok in Hf as ([] & _ & Hf). apply bind_Ok in Hf as (m' & Ha & Hf).
  apply bind_Ok in Hf as (st & _ & Hf). injection Hf as ->.
  unfold audit_mem in Ha. apply bind_Ok in Ha as ([[known tail] ch] & Ha & Em). apply catch_any_Ok in Ha.
  apply audit_db_Ok in Ha as (nc & chain & ids & Ha & _ & [= -> -> ->]). injection Em as <-.
  split; cbn; [done|by eapply audit_learns|]. intros c0 sub. by rewrite lookup_empty.
Qed.

Lemma lives_growing cfg s t : config_ok cfg → lives cfg s t → journal cfg s → growing cfg s t.
Proof.
  intros Hcfg [w c u Hl|w c u x g m Hl Hv Ho] Hj.
  - apply (visited_growing _ w c); [done..|]. apply final_visited.
  - destruct (visited_growing _ _ _ _ _ Hcfg Hj Hl Hv) as [Hjx Hg]. split; [|done].
    eapply opened_journal; [apply (jn_keys _ _ Hjx)|exact Ho].
Qed.

Lemma lives_rtc cfg s t : config_ok cfg → rtc (lives cfg) s t → journal cfg s → growing cfg s t.
Proof.
  intros Hcfg. induction 1 as [s|s u t Hs _ IH]; intros Hj; [by split|].
  pose proof (lives_growing _ _ _ Hcfg Hs Hj) as Hg. eapply growing_trans; [exact Hg|]. apply IH, Hg.
Qed.

(** A state some sequence of calls and crashes leaves a created journal in. *)
Definition alive cfg s : Prop :=
  ∃ g random s0, py_dict (ag_schema g) ∧ create_journal g random = Ok (cfg, s0) ∧ rtc (lives cfg) s0 s.

Lemma alive_journal cfg s : alive cfg s → config_ok cfg ∧ len (c_generation cfg) = 32 ∧ journal cfg s.
Proof.
  intros (g & random & s0 & Hd & Hc & Hrun). destruct (create_sound _ _ _ _ Hd Hc) as (Hcfg & Hgen & Hj & _ & _).
  split; [done|]. split; [done|]. by destruct (lives_rtc _ _ _ Hcfg Hrun Hj).
Qed.
End Lifecycle.

(** ** Publishing *)

Section Retry.
Context `{Hash} `{SodiumLaws}.
Implicit Types (cfg : config) (s t : jstate) (w : world).

(** The owner authorizes the call throughout, and the object may be used. *)
Definition steady cfg w (wr : bool) m : Prop :=
  m_closed m = false ∧ m_uncertain m = false ∧ w_path w = Ok tt ∧
  ∃ stamp, guard cfg (w_owner w "start") wr = Ok stamp ∧ guard cfg (w_owner w "recheck") wr = Ok stamp.

(** A publication whose event is there answers with it, and changes nothing. *)
Lemma publish_again cfg w op payload parents ps raw s r :
  journal cfg s → steady cfg w true (js_mem s) → publish_input cfg op payload parents = Ok (ps, raw) →
  r ∈ db_events (js_db s) → er_operation r = op → input_digest cfg op ps raw = Ok (er_input r) →
  outcome (publish cfg w op payload parents) s = Ok (receipt_of r) ∧
  js_db (final (publish cfg w op payload parents) s) = js_db s.
Proof.
  intros Hj (Hcl & Hun & Hpath & stamp & Hg1 & Hg2) Hin Hr Hop Hdg.
  assert (find_operation op (js_db s) = Some r) as Hf.
  { unfold find_operation. destruct (List.find _ _) as [r'|] eqn:Hf.
    - apply find_some in Hf as [Hin'%list_elem_of_In Ho'%bool_decide_eq_true]. f_equal.
      apply (NoDup_key er_operation (db_events (js_db s))); [apply (jn_keys _ _ Hj)|done|done|congruence].
    - pose proof (find_none _ _ _ Hf Hr) as Hb. cbv beta in Hb. by rewrite Hop, bool_decide_refl in Hb. }
  enough (wp (publish cfg w op payload parents) (λ _, True)
    (λ x t, x = Ok (receipt_of r) ∧ js_db t = js_db s) s) as Hw by exact (wp_outcome _ _ _ _ Hw).
  unfold publish. eapply wp_bind_lift; [exact Hin|]. cbv beta iota.
  wp_step. eapply wp_mono; [apply (wp_operation _ _ _ (λ _, True)); [done|done]|done|].
  intros x t ([Hd _] & _ & _ & ->). rewrite Hcl, Hun, Hpath, Hg1. cbn [negb eneed require mbind result_bind next].
  eapply wp_bind_lift; [exact Hdg|]. read_step. rewrite Hd, Hf.
  assert (lift (S := jstate) (eneed (bool_decide (er_input r = er_input r)) "OPERATION_CONFLICT") = lift (Ok tt)) as ->
    by by rewrite bool_decide_refl.
  eapply wp_bind_lift; [done|].
  assert (recheck cfg w "recheck" stamp true = Ok tt) as Hrc.
  { unfold recheck. rewrite Hg2. cbn [catch_any mbind result_bind]. unfold eneed. by rewrite bool_decide_refl. }
  eapply wp_bind_lift; [exact Hrc|]. by apply wp_ret.
Qed.
End Retry.
