(* ===== verification/EventsDelivery.v ===== *)
(** * Delivery to a consumer

    What leaves a consumer's row alone, rounds of poll and acknowledgement, and the order
    in which events reach a consumer. *)

From S2P Require Import Prelude Bytes Value Codec Flat Json Hash Sodium Primitives Objects ObjectsSpec Membership Authority Activation Crash EventPayload Events EventsSpec EventsRun EventsLife.
Local Open Scope Z_scope.

#[local] Opaque encode encode_with decode decode_with crypt domain verify sign hashed hmac validate_payload decode_payload decode_event audit_db guard make_token.

(** ** What leaves a consumer's row alone *)

Section Keeps.
Context `{Hash} `{Sodium}.
Context (c : bytes).
Implicit Types (cfg : config) (d : edb) (s t : jstate) (w : world).

Definition stays d d' : Prop := ∀ r, find_consumer c d = Some r → find_consumer c d' = Some r.

#[export] Instance stays_preorder : PreOrder stays.
Proof. split; [by intros d r|]. intros d1 d2 d3 H1 H2 r Hr. by apply H2, H1. Qed.

Definition keeps {A} (k : crash jstate A) : Prop :=
  ∀ s, wp k (λ t, stays (js_db s) (js_db t)) (λ _ t, stays (js_db s) (js_db t)) s.

Lemma keeps_ret {A} (a : A) : keeps (mret a).
Proof. intros s. by apply wp_ret. Qed.
Lemma keeps_raise {A} e : keeps (A := A) (raise e).
Proof. intros s. by apply wp_raise. Qed.
Lemma keeps_reads {A} (f : jstate → result A) : keeps (reads f).
Proof. intros s. by apply wp_reads. Qed.
Lemma keeps_lift {A} (r : result A) : keeps (lift r).
Proof. intros s. by apply wp_lift. Qed.
Lemma keeps_set_mem f : keeps (set_mem f).
Proof. intros s. unfold wp, set_mem. by split. Qed.
Lemma keeps_bind {A B} (k : crash jstate A) (f : A → crash jstate B) :
  keeps k → (∀ a, keeps (f a)) → keeps (k ≫= f).
Proof.
  intros Hk Hf s. apply wp_bind. eapply wp_mono; [apply Hk|done|].
  intros [a|e] t Ht; cbn; [|done]. eapply wp_mono; [apply Hf|..]; cbn.
  - intros u Hu. by etrans.
  - intros r u Hu. by etrans.
Qed.

Lemma keeps_transaction cfg w stage stamp wr body :
  (∀ d d', body d = Ok d' → stays d d') → keeps (transaction cfg w stage stamp wr body).
Proof.
  intros Hb [d m]. unfold transaction, unknown, commit_db.
  unfold wp, mbind, crash_bind, read_db, read_mem, reads, lift, write, set_mem, mret, crash_ret, raise; cbn [js_db].
  destruct (sql w _) as [?|e]; cbn; [|by split].
  destruct (inside _ _ _ _ _ _ _) as [d'|e] eqn:Ei; cbn.
  - apply inside_Ok, Hb in Ei. destruct (sql w _) as [?|e]; cbn.
    + destruct (notify w _) as [[]|]; cbn; [destruct (audit_mem _ _ _)|]; cbn; (split; [by repeat constructor|done]).
    + destruct (w_applied w stage); cbn; (split; [by repeat constructor|done]).
  - destruct (sql w _) as [?|e']; cbn; by split.
Qed.

(** Bodies that leave the consumer table alone. *)
Lemma stays_same d d' : db_consumers d' = db_consumers d → stays d d'.
Proof. intros E r. unfold find_consumer. by rewrite E. Qed.

Lemma reserve_stays cfg op nonce d d' : reserve_body cfg op nonce d = Ok d' → stays d d'.
Proof.
  unfold reserve_body. intros E. apply bind_Ok in E as (m & _ & E). apply bind_Ok in E as (nc & _ & E).
  apply bind_Ok in E as (d1 & Hi & E). apply set_meta_Ok in E as (seal & _ & ->).
  unfold insert_nonce in Hi. case_match; [done|]. injection Hi as <-. by apply stays_same.
Qed.

Lemma commit_stays cfg w tail op input id record d d' :
  commit_body cfg w tail op input id record d = Ok d' → stays d d'.
Proof.
  unfold commit_body. intros E. apply bind_Ok in E as (m & _ & E). apply bind_Ok in E as ([] & _ & E).
  apply bind_Ok in E as (ch & _ & E). apply bind_Ok in E as (d1 & Hi & E). apply bind_Ok in E as ([] & _ & E).
  apply bind_Ok in E as (d2 & Hm & E). apply bind_Ok in E as ([] & _ & E). injection E as <-.
  apply set_meta_Ok in Hm as (seal & _ & ->). unfold insert_event in Hi. case_match; [done|].
  injection Hi as <-. by apply stays_same.
Qed.

Lemma find_app_Some {A} (P : A → bool) l k x : List.find P l = Some x → List.find P (l ++ k) = Some x.
Proof. induction l as [|y l IH]; cbn; [done|]. by destruct (P y). Qed.

Lemma subscribe_stays cfg consumer d d' : subscribe_body cfg consumer d = Ok d' → stays d d'.
Proof.
  unfold subscribe_body. intros E. apply bind_Ok in E as (seal & _ & E). unfold insert_consumer in E.
  case_match; [done|]. injection E as <-. intros r. apply find_app_Some.
Qed.

Lemma ack_stays cfg w c' p i v d d' : c' ≠ c → ack_body cfg w c' p i v d = Ok d' → stays d d'.
Proof.
  intros Hc E. unfold ack_body in E. apply bind_Ok in E as (seal & _ & E). apply bind_Ok in E as ([] & _ & E).
  injection E as <-. intros r. unfold find_consumer. cbn [update_consumer db_consumers cr_consumer].
  induction (db_consumers d) as [|x l IH]; [done|]. cbn.
  destruct (bool_decide_reflect (cr_consumer x = c)) as [Hx|Hx].
  - rewrite (bool_decide_eq_false_2 (cr_consumer x = c')) by congruence. by rewrite bool_decide_eq_true_2.
  - destruct (bool_decide_reflect (cr_consumer x = c')) as [Hx'|Hx'].
    + cbn. rewrite bool_decide_eq_false_2 by done. exact IH.
    + rewrite bool_decide_eq_false_2 by done. exact IH.
Qed.
End Keeps.

Create HintDb keeps_db discriminated.
#[export] Hint Resolve keeps_ret keeps_raise keeps_reads keeps_lift keeps_set_mem reserve_stays commit_stays
  subscribe_stays ack_stays : keeps_db.
Ltac keeps :=
  repeat first
    [ solve [eauto with keeps_db]
    | lazymatch goal with
      | |- keeps _ (mbind _ _) => apply keeps_bind; [|intros]
      | |- keeps _ (transaction _ _ _ _ _ _) => apply keeps_transaction; intros
      | |- keeps _ (match ?x with _ => _ end) => destruct x
      end ].

Section Others.
Context `{Hash} `{Sodium}.
Implicit Types (cfg : config) (w : world).

Lemma keeps_operation c cfg w wr : keeps c (operation cfg w wr).
Proof. unfold operation, enter, run_audit, read_mem, read_db. keeps. Qed.
#[local] Hint Resolve keeps_operation : keeps_db.
Lemma keeps_live c cfg w x : keeps c (live_sub w x).
Proof. unfold live_sub, enter, read_mem. keeps. Qed.
#[local] Hint Resolve keeps_live : keeps_db.

(** A call that is not the consumer's acknowledgement. *)
Definition other (c : bytes) (x : request) : Prop := legal x ∧ ∀ token, x ≠ CAck c token.

Lemma keeps_perform c cfg w x : other c x → keeps c (perform cfg w x).
Proof.
  intros [_ Hx]. destruct x; cbn [perform].
  - unfold publish, publish_new, cancellation_requested, unknown, read_db. keeps.
  - unfold inspect_journal, read_db. keeps.
  - unfold inspect_operation, read_db. keeps.
  - unfold subscribe, read_mem, read_db. cbv zeta. keeps.
  - unfold poll, read_db. cbv zeta. keeps.
  - assert (consumer ≠ c) as Hne by (intros ->; by apply (Hx token)).
    unfold ack, ack_pending, read_db. keeps.
  - unfold position, read_db. keeps.
  - unfold cursor, read_db. keeps.
  - unfold cancel_sub. keeps.
  - unfold close. keeps.
Qed.
End Others.

(** ** Rounds of poll and acknowledgement *)

Section Rounds.
Context `{Hash} `{SodiumLaws}.
Implicit Types (cfg : config) (s t : jstate) (w : world).

(** A consumer polls and acknowledges; between its rounds anything else happens, crashes
    included.  [es] is what it was given, in order. *)
Inductive drained cfg (c : bytes) : jstate → list event_t → jstate → Prop :=
| drained_nil s : drained cfg c s [] s
| drained_round w w' limit byte_limit b token result s es t :
    outcome (poll cfg w c limit byte_limit) s = Ok b → bt_token b = Some token →
    let s1 := final (poll cfg w c limit byte_limit) s in
    outcome (ack cfg w' c token) s1 = Ok result →
    drained cfg c (final (ack cfg w' c token) s1) es t →
    drained cfg c s (bt_events b ++ es) t
| drained_other s s' es t :
    lives_with cfg (other c) s s' → drained cfg c s' es t → drained cfg c s es t.

Lemma delivered_app cfg d p es es' :
  delivered cfg d p es → delivered cfg d (p + len es) es' → delivered cfg d p (es ++ es').
Proof.
  intros (Hp & rows & rest & Hd & Hf) (_ & rows' & rest' & Hd' & Hf'). split; [done|].
  pose proof (Forall2_length _ _ _ Hf) as Hl.
  exists (rows ++ rows'), rest'. split; [|by apply Forall2_app].
  rewrite Hd, <-app_assoc. f_equal. rewrite <-Hd'.
  replace (Z.to_nat (p + len es)) with (Z.to_nat p + length rows)%nat by (unfold len; lia).
  rewrite <-drop_drop, Hd. by rewrite drop_app_length.
Qed.

(** One round moves the consumer past exactly the batch it was given. *)
Lemma round_moves cfg w w' c limit byte_limit b token result s r :
  journal cfg s → find_consumer c (js_db s) = Some r →
  outcome (poll cfg w c limit byte_limit) s = Ok b → bt_token b = Some token →
  let s1 := final (poll cfg w c limit byte_limit) s in
  outcome (ack cfg w' c token) s1 = Ok result →
  let t := final (ack cfg w' c token) s1 in
  growing cfg s t ∧ delivered cfg (js_db t) (cr_position r) (bt_events b) ∧
  ∃ r', find_consumer c (js_db t) = Some r' ∧ cr_position r' = cr_position r + len (bt_events b).
Proof.
  intros Hj Hr Hpoll Htok s1 Hack t.
  pose proof (wp_outcome _ _ _ _ (wp_poll cfg w c limit byte_limit s Hj)) as (Hd1 & Hj1 & Hres).
  rewrite Hpoll in Hres. fold s1 in Hd1, Hj1, Hres.
  assert (∃ sub stamp, m_subs (js_mem s1) !! c = Some sub ∧ sb_pending sub = Some (b, stamp)) as (sub & stamp & Hsub & Hpend).
  { destruct Hres as (sub & Hsub & [[[stamp Hp] Hm]|(_ & (x & _ & _ & _ & _ & Hnil & _) & Hnew)]).
    - exists sub, stamp. by rewrite Hm.
    - destruct (decide (bt_events b = [])) as [E|Hne].
      + destruct (Hnil E) as (_ & _ & Hno). congruence.
      + destruct (Hnew Hne) as [stamp ->]. by eexists _, stamp. }
  pose proof (wp_outcome _ _ _ _ (wp_ack cfg w' c token s1 Hj1)) as [Hg Hres'].
  rewrite Hack in Hres'. fold t in Hg, Hres'. destruct Hres' as (sub' & Hsub' & Hres').
  rewrite Hsub in Hsub'. injection Hsub' as <-.
  assert (growing cfg s t) as Hgt by (split; [apply Hg|rewrite <-Hd1; apply Hg]).
  split; [exact Hgt|]. destruct Hres' as [[Hlast _]|(b' & st' & x & Hp' & _ & _ & Hx & Hdel & (r' & Hr' & Hpos & _) & _)].
  - destruct (so_last _ _ _ _ (jn_subs _ _ Hj1 c sub Hsub) _ _ Hlast) as [_ Hne]. by destruct (Hne b stamp Hpend).
  - rewrite Hpend in Hp'. injection Hp' as <- _. rewrite Hd1, Hr in Hx. injection Hx as <-.
    split; [|by exists r']. eapply delivered_grows; [apply Hg|exact Hdel].
Qed.

Lemma lives_with_growing cfg (P : request → Prop) s t :
  (∀ x, P x → legal x) → config_ok cfg → lives_with cfg P s t → journal cfg s → growing cfg s t.
Proof.
  intros HP Hcfg Hl Hj. apply lives_growing; [done| |done]. destruct Hl; [apply lives_call|eapply lives_crash]; eauto.
Qed.

Lemma other_stays cfg c s t : lives_with cfg (other c) s t → stays c (js_db s) (js_db t).
Proof.
  intros [w x u Hx|w x u v g m Hx Hv _].
  - apply (wp_outcome _ _ _ _ (keeps_perform c cfg w x Hx u)).
  - exact (wp_visited _ _ _ _ (keeps_perform c cfg w x Hx u) (λ r t Ht, Ht) v Hv).
Qed.

Lemma drained_growing cfg c s es t :
  config_ok cfg → drained cfg c s es t → journal cfg s → ∀ r, find_consumer c (js_db s) = Some r →
  growing cfg s t ∧ delivered cfg (js_db t) (cr_position r) es ∧
  ∃ r', find_consumer c (js_db t) = Some r' ∧ cr_position r' = cr_position r + len es.
Proof.
  intros Hcfg. induction 1 as [s|w w' limit byte_limit b token result s es t Hpoll Htok s1 Hack _ IH|s s' es t Hl _ IH];
    intros Hj r Hr.
  - split; [by split|]. split; [|exists r; split; [done|len_lia]].
    destruct (find_consumer_Some _ _ _ Hr) as [Hin _]. destruct (sound_row _ _ _ (journal_sound _ _ Hj) Hin) as (_ & Hp & _).
    split; [lia|]. exists [], (drop (Z.to_nat (cr_position r)) (db_events (js_db s))). split; [done|constructor].
  - destruct (round_moves _ _ _ _ _ _ _ _ _ _ _ Hj Hr Hpoll Htok Hack) as (Hg & Hdel & r1 & Hr1 & Hp1).
    destruct (IH (proj1 Hg) r1 Hr1) as (Hg' & Hdel' & r' & Hr' & Hp'). split; [by eapply growing_trans|].
    split; [|exists r'; split; [done|len_lia]]. apply delivered_app; [|by rewrite <-Hp1].
    eapply delivered_grows; [apply Hg'|exact Hdel].
  - pose proof (lives_with_growing _ _ _ _ (λ x, @proj1 _ _) Hcfg Hl Hj) as Hg.
    destruct (IH (proj1 Hg) r (other_stays _ _ _ _ Hl r Hr)) as (Hg' & Hrest). split; [by eapply growing_trans|exact Hrest].
Qed.
End Rounds.
