(* ===== verification/EventsCorrect.v ===== *)
(** * The event journal is correct

    The theorems of the event journal, and a concrete journal over the toy provider that
    their witnesses run. *)

From S2P Require Import Prelude Bytes Value Codec Flat Json Hash Sodium Toy Primitives Objects ObjectsSpec Membership Authority Activation Sample Crash EventPayload Events EventsSpec EventsRun EventsLife EventsDelivery.
Local Open Scope Z_scope.

(** ** A concrete journal *)

Definition sample_owner : eowner :=
  Eowner (λ _, Ok tt) ∅ (Ok (key_of 50, sample_active)) VNone.
Definition sample_arguments : arguments :=
  Arguments sample_owner false false sample_certificate device_seed (key_of 51) sample_app sample_space
    (key_of 52) 1 demo_schema 4 8192 2.
Definition journal_random (n : Z) : option bytes := Some (raw (repeat n (Z.to_nat n))).
Definition quiet_world : world :=
  World (Ok tt) (λ _, sample_owner) (λ _, None) (λ _, None) (λ _, false) (λ _, Some false) journal_random.
Definition sample_event : value := VDict [(KStr (str "n"), VInt (-3)); (KStr (str "body"), VStr (str "x"))].
Definition operation_id : bytes := raw (repeat 60 16).
Definition consumer_id : bytes := raw (repeat 61 16).

Definition no_config : config := Config [] [] [] [] 0 [] [] [] [] [] [] 0 0 0.
Definition no_state : jstate := Jstate empty_edb fresh_memory.
Definition sample_created : config * jstate :=
  ok_or (no_config, no_state) (create_journal sample_arguments journal_random).
Definition sample_config : config := Eval vm_compute in sample_created.1.
Definition sample_start : jstate := Eval vm_compute in sample_created.2.

Definition sample_publish (w : world) : crash jstate receipt :=
  publish sample_config w operation_id sample_event [].
Definition sample_call : request := CPublish operation_id sample_event [].

(** The COMMIT of the event reports an error although it took effect. *)
Definition torn_world : world :=
  World (Ok tt) (λ _, sample_owner) (λ _, None)
    (λ l, if String.eqb l "event.commit" then Some (sqlite_error "IOERR") else None) (λ _, true) (λ _, Some false)
    journal_random.
Definition sample_torn : jstate := Eval vm_compute in final (sample_publish torn_world) sample_start.

(** A published event and a consumer. *)
Definition sample_published : jstate := Eval vm_compute in final (perform sample_config quiet_world sample_call) sample_start.
Definition sample_subscribed : jstate :=
  Eval vm_compute in final (perform sample_config quiet_world (CSubscribe consumer_id None)) sample_published.
Definition sample_poll : crash jstate batch := poll sample_config quiet_world consumer_id 8 4096.
Definition sample_batch : batch := Eval vm_compute in ok_or (Batch [] None false) (outcome sample_poll sample_subscribed).
Definition sample_token : bytes := Eval vm_compute in default [] (bt_token sample_batch).
Definition sample_ack : crash jstate bytes := ack sample_config quiet_world consumer_id sample_token.

(** ** Theorems *)

(** C4. A journal never loses what it held.  From its creation on, through any sequence
    of calls (every method, any arguments, any behaviour of the owner, the observer, the
    cancellation probe, the random source and the SQL statements) and any number of
    crashes at any point of one followed by opening the file again, the tables pass the
    audit; every event and nonce that was there is still there, unchanged and in its place;
    and no consumer's position or revision goes back.  A crash at any point of any further
    call leaves a file that opens again under the same arguments. *)
Theorem journal_durable `{Hash} `{SodiumLaws} cfg s t :
  alive cfg s → rtc (lives cfg) s t →
  grows (js_db s) (js_db t) ∧ (∃ nc chain ids, audited cfg (js_db t) nc chain ids) ∧
  ∀ w c u g, legal c → u ∈ visited (perform cfg w c) t → opens g cfg →
    ∃ m, open_journal g (js_db u) = Ok (cfg, m) ∧ lives cfg t (Jstate (js_db u) m) ∧ grows (js_db t) (js_db u).
Proof.
  intros (Hcfg & Hgen & Hjs)%alive_journal Hrun. destruct (lives_rtc _ _ _ Hcfg Hrun Hjs) as [Hjt Hg].
  split; [done|]. split; [by apply journal_sound|]. intros w c u g Hl Hu Ho.
  destruct (visited_growing _ _ _ _ _ Hcfg Hjt Hl Hu) as [Hju Hgu].
  destruct (open_sound g cfg (js_db u) (journal_sound _ _ Hju) Ho Hgen) as (m & Hopen & _).
  exists m. split; [done|]. split; [by eapply lives_crash|done].
Qed.

(** C5. Publishing is exactly once.  For valid input a new operation either leaves the
    events as they were, or appends one whose record decrypts, verifies and decodes to the
    given operation, parents (sorted) and payload at the next sequence number; the result
    tells which, or that it is unknown, and then the object refuses further use.  An
    operation that is in the journal changes nothing, and gets the receipt of its event if
    its input is the same. *)
Theorem publish_exactly_once `{Hash} `{SodiumLaws} cfg w op payload parents ps raw s :
  alive cfg s → py_dict payload → publish_input cfg op payload parents = Ok (ps, raw) →
  let r := outcome (publish cfg w op payload parents) s in
  let t := final (publish cfg w op payload parents) s in
  db_keys (js_db t) ∧
  match find_operation op (js_db s) with
  | Some old => js_db t = js_db s ∧
      ∀ rc, r = Ok rc → rc = receipt_of old ∧ input_digest cfg op ps raw = Ok (er_input old)
  | None => settled cfg op ps raw s r t
  end.
Proof.
  intros (Hcfg & _ & Hj)%alive_journal Hd Hin r t.
  pose proof (wp_outcome _ _ _ _ (wp_publish_event cfg w op payload parents s Hcfg Hj Hd)) as [[Hjt _] Hres].
  rewrite Hin in Hres. split; [apply (jn_keys _ _ Hjt)|exact Hres].
Qed.

(** C6. A publication can be retried after a crash.  If the process dies at any point of a
    new publication and the file is opened again, then either the event is not there, or
    it is there once and for all: whatever happens in between, repeating the call with
    the same arguments, authorized, answers with the receipt of that event and adds
    nothing. *)
Theorem publish_retry `{Hash} `{SodiumLaws} cfg w op payload parents ps raw s u g m :
  alive cfg s → py_dict payload → publish_input cfg op payload parents = Ok (ps, raw) →
  find_operation op (js_db s) = None → u ∈ visited (publish cfg w op payload parents) s →
  open_journal g (js_db u) = Ok (cfg, m) →
  db_events (js_db u) = db_events (js_db s) ∨
  ∃ id, committed cfg op ps raw id s u ∧
    ∀ t w', rtc (lives cfg) (Jstate (js_db u) m) t → steady cfg w' true (js_mem t) →
      outcome (publish cfg w' op payload parents) t =
        Ok (Receipt "LOCAL_EVENT_COMMITTED" op (Some id) (Some (len (db_events (js_db s)) + 1)) false) ∧
      js_db (final (publish cfg w' op payload parents) t) = js_db t.
Proof.
  intros (Hcfg & _ & Hj)%alive_journal Hd Hin Hnone Hu Hopen.
  assert (growing cfg s u ∧ (db_events (js_db u) = db_events (js_db s) ∨ ∃ id, committed cfg op ps raw id s u)) as [Hg Hcase].
  { eapply (wp_visited _ (λ u, growing cfg s u ∧ (db_events (js_db u) = db_events (js_db s) ∨ ∃ id, committed cfg op ps raw id s u))); [|by intros r t Ht; exact Ht|exact Hu].
    eapply wp_mono; [by apply wp_publish_event|by intros x [? ?]; split; [|left]|]. intros r t [Hg Hr]. split; [done|].
    rewrite Hin, Hnone in Hr. destruct r as [rc|e]; destruct Hr as [Hr|Hr].
    - left. apply Hr.
    - right. destruct Hr as (id & b & _ & Hc). by exists id.
    - by left.
    - right. apply Hr. }
  destruct Hcase as [Hsame|[id Hc]]; [by left|]. right. exists id. split; [done|]. intros t w' Hrun Hst.
  destruct Hc as (r & He & Hseq & Hop & Hid & Hdg & _).
  pose proof (opened_journal _ _ _ _ (jn_keys _ _ (proj1 Hg)) Hopen) as Hju.
  destruct (lives_rtc _ _ _ Hcfg Hrun Hju) as [Hjt Hgt].
  assert (r ∈ db_events (js_db t)) as Hrt.
  { destruct (gr_events _ _ Hgt) as [k ->]. cbn [js_db]. rewrite He. apply elem_of_app. left. apply elem_of_app. right. by left. }
  destruct (publish_again cfg w' op payload parents ps raw t r Hjt Hst Hin Hrt Hop Hdg) as [-> Hsame].
  split; [|exact Hsame]. unfold receipt_of. by rewrite Hop, Hid, Hseq.
Qed.

(** C7. Delivery is in order, without gaps or repetitions.  A subscribed consumer that
    acknowledges each batch it polls is given the events after its position one after the
    other, each once, as they decode from the journal, and stands after the last of them;
    whatever other calls (publications, other consumers, reopening after crashes during
    them) happen between its rounds. *)
Theorem deliveries_in_order `{Hash} `{SodiumLaws} cfg c s es t r :
  alive cfg s → drained cfg c s es t → find_consumer c (js_db s) = Some r →
  delivered cfg (js_db t) (cr_position r) es ∧
  (∃ r', find_consumer c (js_db t) = Some r' ∧ cr_position r' = cr_position r + len es) ∧
  ∀ i e, es !! i = Some e → ev_sequence e = cr_position r + Z.of_nat i + 1.
Proof.
  intros (Hcfg & _ & Hj)%alive_journal Hdr Hr.
  destruct (drained_growing _ _ _ _ _ Hcfg Hdr Hj r Hr) as (Hg & Hdel & Hpos).
  split; [exact Hdel|]. split; [exact Hpos|]. intros i e Hi. destruct Hdel as (Hp & rows & rest & Hd & Hf).
  destruct (Forall2_lookup_r _ _ _ _ _ Hf Hi) as (x & Hx & He).
  assert (db_events (js_db t) !! (Z.to_nat (cr_position r) + i)%nat = Some x) as Hin.
  { rewrite <-lookup_drop, Hd. by apply lookup_app_l_Some. }
  destruct (decode_event_row _ _ _ _ He) as (-> & _). rewrite (sound_sequence _ _ _ _ (journal_sound _ _ (proj1 Hg)) Hin). lia.
Qed.

(** Polling never changes the journal.  It repeats the outstanding batch, or gives the
    events that follow the consumer's position: at most [limit] of them and at most
    [byte_limit] bytes of payload, none only when the consumer has seen everything, with
    [has_more] exactly when events remain. *)
Theorem poll_window `{Hash} `{SodiumLaws} cfg w c limit byte_limit s b :
  alive cfg s → outcome (poll cfg w c limit byte_limit) s = Ok b →
  js_db (final (poll cfg w c limit byte_limit) s) = js_db s ∧
  ∃ sub, m_subs (js_mem s) !! c = Some sub ∧
    match sb_pending sub with
    | Some (b', _) => b = b'
    | None => polled cfg c limit byte_limit s b
    end.
Proof.
  intros (Hcfg & _ & Hj)%alive_journal Hpoll.
  pose proof (wp_outcome _ _ _ _ (wp_poll cfg w c limit byte_limit s Hj)) as (Hd & _ & Hres).
  rewrite Hpoll in Hres. split; [exact Hd|]. destruct Hres as (sub & Hsub & Hres). exists sub. split; [done|].
  destruct Hres as [[[stamp ->] _]|(-> & Hp & _)]; [done|exact Hp].
Qed.

(** ** Witnesses *)

Lemma sample_creates : create_journal sample_arguments journal_random = Ok (sample_config, sample_start).
Proof. vm_compute. reflexivity. Qed.

Lemma sample_states :
  final (perform sample_config quiet_world sample_call) sample_start = sample_published ∧
  final (perform sample_config quiet_world (CSubscribe consumer_id None)) sample_published = sample_subscribed.
Proof. split; vm_compute; reflexivity. Qed.

Lemma sample_schema : py_dict (ag_schema sample_arguments).
Proof. apply (bool_decide_eq_true_1 _). vm_compute. reflexivity. Qed.
Lemma sample_event_dict : py_dict sample_event.
Proof. apply (bool_decide_eq_true_1 _). vm_compute. reflexivity. Qed.

Lemma sample_opens : opens sample_arguments sample_config.
Proof. apply (create_sound _ _ _ _ sample_schema sample_creates). Qed.
Lemma sample_journal : config_ok sample_config ∧ len (c_generation sample_config) = 32 ∧ journal sample_config sample_start.
Proof. destruct (create_sound _ _ _ _ sample_schema sample_creates) as (? & ? & ? & _). by split_and!. Qed.

#[local] Opaque publish poll ack subscribe create_journal open_journal guard.
Lemma sample_alive s : rtc (lives sample_config) sample_start s → alive sample_config s.
Proof. exists sample_arguments, journal_random, sample_start. split; [exact sample_schema|by split; [exact sample_creates|]]. Qed.

Lemma sample_input : ∃ raw, publish_input sample_config operation_id sample_event [] = Ok ([], raw).
Proof.
  destruct (publish_input sample_config operation_id sample_event []) as [[ps raw]|] eqn:E; [|vm_compute in E; discriminate].
  exists raw. do 2 f_equal. apply (f_equal (λ r, match r with Ok (ps, _) => ps | Err _ => [] end)) in E.
  vm_compute in E. symmetry. exact E.
Qed.

Lemma sample_unpublished : find_operation operation_id (js_db sample_start) = None.
Proof. vm_compute. reflexivity. Qed.

Lemma sample_torn_rows : len (db_events (js_db sample_torn)) = 1 ∧ len (db_events (js_db sample_start)) = 0 ∧
  final (sample_publish torn_world) sample_start = sample_torn.
Proof. split_and!; vm_compute; reflexivity. Qed.

Lemma sample_torn_visited : sample_torn ∈ visited (sample_publish torn_world) sample_start.
Proof. rewrite <-(proj2 (proj2 sample_torn_rows)). apply final_visited. Qed.

(** A torn COMMIT, and the file opens again with its event. *)
Lemma journal_durable_witness :
  let u := final (perform sample_config torn_world sample_call) sample_start in
  ∃ m, open_journal sample_arguments (js_db u) = Ok (sample_config, m) ∧ lives sample_config sample_start (Jstate (js_db u) m) ∧
    grows (js_db sample_start) (js_db u).
Proof.
  intros u.
  destruct (journal_durable sample_config sample_start sample_start (sample_alive _ (rtc_refl _ _)) (rtc_refl _ _))
    as (_ & _ & Hopen).
  exact (Hopen torn_world sample_call u sample_arguments sample_event_dict (final_visited _ _) sample_opens).
Defined.

Lemma publish_exactly_once_witness :
  ∃ raw id b, outcome (sample_publish quiet_world) sample_start =
      Ok (Receipt "LOCAL_EVENT_COMMITTED" operation_id (Some id) (Some 1) b) ∧
    committed sample_config operation_id [] raw id sample_start (final (sample_publish quiet_world) sample_start).
Proof.
  destruct sample_input as [raw Hraw].
  destruct (publish_exactly_once sample_config quiet_world operation_id sample_event [] [] raw sample_start
    (sample_alive _ (rtc_refl _ _)) sample_event_dict Hraw) as [_ Hres].
  rewrite sample_unpublished in Hres. exists raw.
  assert (rc_state <$> outcome (sample_publish quiet_world) sample_start = Ok "LOCAL_EVENT_COMMITTED"%string) as Hst
    by (vm_compute; reflexivity).
  unfold sample_publish in *. destruct (outcome _ _) as [rc|e]; [|discriminate Hst].
  destruct Hres as [[-> _]|(id & b & -> & Hc)]; [discriminate Hst|].
  exists id, b. split; [|exact Hc]. rewrite (proj1 (proj2 sample_torn_rows)). reflexivity.
Defined.

Lemma publish_retry_witness :
  ∃ m id, open_journal sample_arguments (js_db sample_torn) = Ok (sample_config, m) ∧
    outcome (sample_publish quiet_world) (Jstate (js_db sample_torn) m) =
      Ok (Receipt "LOCAL_EVENT_COMMITTED" operation_id (Some id) (Some 1) false).
Proof.
  destruct sample_input as [raw Hraw]. destruct sample_journal as (Hcfg & Hgen & Hj).
  assert (growing sample_config sample_start sample_torn) as [Hjt _].
  { rewrite <-(proj2 (proj2 sample_torn_rows)). unfold sample_publish.
    pose proof (wp_outcome _ _ _ _ (wp_publish_event sample_config torn_world operation_id sample_event [] sample_start
      Hcfg Hj sample_event_dict)) as [Hg _]. exact Hg. }
  destruct (open_sound _ _ _ (journal_sound _ _ Hjt) sample_opens Hgen) as (m & Hopen & _ & Hcl & Hun & _).
  exists m.
  destruct (publish_retry sample_config torn_world operation_id sample_event [] [] raw sample_start sample_torn
    sample_arguments m (sample_alive _ (rtc_refl _ _)) sample_event_dict Hraw sample_unpublished sample_torn_visited Hopen)
    as [Hsame|(id & _ & Hagain)].
  - exfalso. destruct sample_torn_rows as (E1 & E2 & _). rewrite Hsame, E2 in E1. discriminate E1.
  - exists id. split; [exact Hopen|]. rewrite (proj1 (proj2 sample_torn_rows)) in Hagain.
    assert (is_ok (guard sample_config sample_owner true) = true) as Hg by (vm_compute; reflexivity).
    destruct (guard sample_config sample_owner true) as [stamp|] eqn:E; [|discriminate Hg].
    apply (Hagain (Jstate (js_db sample_torn) m) quiet_world (rtc_refl _ _)).
    split; [exact Hcl|]. split; [exact Hun|]. split; [reflexivity|]. exists stamp. split; exact E.
Defined.

Lemma sample_run : rtc (lives sample_config) sample_start sample_subscribed.
Proof.
  destruct sample_states as [<- <-].
  eapply rtc_l; [apply (lives_call _ _ quiet_world sample_call); exact sample_event_dict|].
  apply rtc_once, lives_call. exact I.
Qed.

Lemma sample_polls : outcome sample_poll sample_subscribed = Ok sample_batch ∧ bt_token sample_batch = Some sample_token ∧
  len (bt_events sample_batch) = 1 ∧ is_ok (outcome sample_ack (final sample_poll sample_subscribed)) = true ∧
  cr_position <$> find_consumer consumer_id (js_db sample_subscribed) = Some 0 ∧
  sb_pending <$> (m_subs (js_mem sample_subscribed) !! consumer_id) = Some None.
Proof. split_and!; vm_compute; reflexivity. Qed.

Lemma deliveries_in_order_witness :
  ∃ t e, drained sample_config consumer_id sample_subscribed [e] t ∧ ev_sequence e = 1 ∧
    cr_position <$> find_consumer consumer_id (js_db t) = Some 1.
Proof.
  destruct sample_polls as (Hp & Ht & Hl & Ha & Hr & _).
  destruct (find_consumer consumer_id (js_db sample_subscribed)) as [r|] eqn:Hf; [|discriminate Hr].
  injection Hr as Hr. destruct (bt_events sample_batch) as [|e [|e' l]] eqn:Hes;
    [rewrite len_nil in Hl; discriminate Hl| |rewrite !len_cons in Hl; pose proof (len_nonneg l); lia].
  set (t := final sample_ack (final sample_poll sample_subscribed)).
  assert (drained sample_config consumer_id sample_subscribed [e] t) as Hdr.
  { destruct (outcome sample_ack (final sample_poll sample_subscribed)) as [res|] eqn:Hack; [|discriminate Ha].
    change [e] with ([e] ++ []). rewrite <-Hes.
    exact (drained_round _ _ _ _ _ _ _ _ _ _ _ _ Hp Ht Hack (drained_nil _ _ _)). }
  destruct (deliveries_in_order sample_config consumer_id sample_subscribed [e] t r (sample_alive _ sample_run) Hdr Hf)
    as (_ & (r' & Hf' & Hp') & Hseq).
  exists t, e. split; [exact Hdr|]. split; [rewrite (Hseq 0%nat e eq_refl), Hr; reflexivity|].
  rewrite Hf'. cbn. rewrite Hp', Hr. reflexivity.
Defined.

Lemma poll_window_witness :
  polled sample_config consumer_id 8 4096 sample_subscribed sample_batch ∧ len (bt_events sample_batch) = 1.
Proof.
  destruct sample_polls as (Hp & _ & Hl & _ & _ & Hs).
  destruct (poll_window sample_config quiet_world consumer_id 8 4096 sample_subscribed sample_batch (sample_alive _ sample_run) Hp)
    as (_ & sub & Hsub & Hres).
  rewrite Hsub in Hs. injection Hs as Hs. rewrite Hs in Hres. split; [exact Hres|exact Hl].
Defined.
