(* ===== verification/Subscriptions.v ===== *)
(** * Errors and checks of the subscription objects (product/wp10/subscriptions.py)

    Arguments have the types the code tests for; an argument of another Python type is
    refused first, like one that is out of range.  The owner test of every call is not
    represented. *)

From S2P Require Import Prelude Bytes.
Local Open Scope Z_scope.

(** [SubscriptionError(code)] *)
Definition subscription_error (code : string) : exn := Raised "SubscriptionError" code.

Definition need (ok : bool) (code : string) : result unit := require ok (subscription_error code).
Definition fixed (v : bytes) (n : Z) : result unit := need (len v =? n) "INVALID_INPUT".
Definition uint (v : Z) : result unit := need ((0 <=? v) && (v <? 2 ^ 64)) "INVALID_INPUT".
