(* ===== verification/Snapshots.v ===== *)
(** * Coalescing snapshots ([LatestSnapshot] of product/wp10/subscriptions.py)

    The object hands its callback the newest of the values published since the last
    dispatch.  The callback may call the object again: a dispatch is split where the callback
    starts and where it ends, and what happens between is a sequence of events like any
    other. *)

From S2P Require Import Prelude Bytes Subscriptions.
Local Open Scope Z_scope.

Record snapshot := Snapshot { revision : Z; contents : bytes }.
#[export] Instance snapshot_eq_dec : EqDecision snapshot.
Proof. solve_decision. Defined.

Record t := Latest {
  closed : bool;
  dispatching : bool;
  last : option snapshot;
  pending : option snapshot;
}.

Definition fresh : t := Latest false false None None.

Definition pending_count (s : t) : Z := if pending s then 1 else 0.

Definition publish (r : Z) (v : bytes) (s : t) : result t :=
  _ ← need (negb (closed s)) "CLOSED";
  _ ← uint r;
  _ ← need (len v <=? 65536) "RESOURCE_LIMIT";
  let item := Snapshot r v in
  let accept := Ok (Latest (closed s) (dispatching s) (Some item) (Some item)) in
  match last s with
  | None => accept
  | Some l =>
      _ ← need (revision l <=? r) "STALE_SNAPSHOT";
      if r =? revision l then _ ← need (bool_decide (v = contents l)) "SNAPSHOT_CONFLICT"; Ok s
      else accept
  end.

(** [__init__] publishes the first value. *)
Definition create (r : Z) (v : bytes) : result t := publish r v fresh.

(** [dispatch] up to the call of the callback: either it returns at once, or the callback
    is running on an item. *)
Inductive entered :=
| Returned (answer : string)
| Calling (item : snapshot).

Definition dispatch (s : t) : result (t * entered) :=
  _ ← need (negb (dispatching s)) "REENTRANT_DISPATCH";
  if closed s then Ok (s, Returned "CLOSED")
  else match pending s with
       | None => Ok (s, Returned "IDLE")
       | Some item => Ok (Latest (closed s) true (last s) None, Calling item)
       end.

(** The rest of [dispatch], when the callback returns or raises. *)
Definition callback_ends (raised : bool) (s : t) : t * string :=
  (Latest (closed s) false (last s) (pending s), if raised then "CALLBACK_FAILED" else "DELIVERED").

Definition close (s : t) : t := Latest true (dispatching s) None None.

(** What happens to the object, in any order: calls of the owner, also from inside the
    callback, and the end of the callback. *)
Inductive event :=
| Publish (r : Z) (v : bytes)
| Dispatch
| CallbackEnds (raised : bool)
| Close.

(** One event: the object afterwards and the item the callback is called with, if any.  A
    refused call leaves the object as it was. *)
Definition happens (e : event) (s : t) : t * option snapshot :=
  match e with
  | Publish r v => match publish r v s with Ok s' => (s', None) | Err _ => (s, None) end
  | Dispatch =>
      match dispatch s with
      | Ok (s', Calling item) => (s', Some item)
      | _ => (s, None)
      end
  | CallbackEnds raised => if dispatching s then ((callback_ends raised s).1, None) else (s, None)
  | Close => (close s, None)
  end.

Fixpoint happen (es : list event) (s : t) : t * list snapshot :=
  match es with
  | [] => (s, [])
  | e :: es' =>
      let '(s1, d) := happens e s in
      let '(s2, ds) := happen es' s1 in
      (s2, option_list d ++ ds)
  end.

(** The snapshots the object accepted as new, in the order of their publication. *)
Definition accepted (e : event) (s : t) : list snapshot :=
  match e with
  | Publish r v =>
      match publish r v s with
      | Ok _ => if bool_decide (last s = Some (Snapshot r v)) then [] else [Snapshot r v]
      | Err _ => []
      end
  | _ => []
  end.

Fixpoint accepts (es : list event) (s : t) : list snapshot :=
  match es with [] => [] | e :: es' => accepted e s ++ accepts es' (happens e s).1 end.

(** ** Invariant *)

(** The pending value is the last one accepted, and a closed object has neither. *)
Definition coherent (s : t) : Prop :=
  (pending s = None ∨ pending s = last s) ∧ (closed s = true → last s = None ∧ pending s = None).

Definition older (x y : snapshot) : Prop := revision x < revision y.

Lemma publish_cases r v s s' :
  publish r v s = Ok s' →
  closed s = false ∧
  ((last s = Some (Snapshot r v) ∧ s' = s) ∨
   (last s ≠ Some (Snapshot r v) ∧ (∀ y, last s = Some y → revision y < r) ∧
    s' = Latest (closed s) (dispatching s) (Some (Snapshot r v)) (Some (Snapshot r v)))).
Proof.
  unfold publish. intros ([] & E%require_Ok & E')%bind_Ok.
  apply negb_true_iff in E. split; [done|].
  apply bind_Ok in E' as ([] & _ & E'). apply bind_Ok in E' as ([] & _ & E').
  destruct (last s) as [[rl vl]|]; [|right; by simplify_eq].
  apply bind_Ok in E' as ([] & Hr%require_Ok & E'). cbn in Hr, E'.
  destruct (Z.eqb_spec r rl) as [->|Hne].
  - apply bind_Ok in E' as ([] & Hv%require_Ok & E'). apply bool_decide_eq_true in Hv.
    left. by simplify_eq/=.
  - right. split; [naive_solver|]. split; [intros y [= <-]; cbn; lia|by simplify_eq].
Qed.

(** What an event does, from a coherent object. *)
Lemma happens_cases e s :
  coherent s →
  let '(s', d) := happens e s in
  coherent s' ∧
  ((accepted e s = [] ∧ d = None ∧ last s' = last s ∧ pending s' = pending s ∧ closed s' = closed s) ∨
   (∃ x, accepted e s = [x] ∧ d = None ∧ last s' = Some x ∧ pending s' = Some x ∧
         (∀ y, last s = Some y → older y x) ∧ closed s' = closed s) ∨
   (∃ x, accepted e s = [] ∧ d = Some x ∧ pending s = Some x ∧ last s' = last s ∧
         pending s' = None ∧ closed s' = closed s) ∨
   (accepted e s = [] ∧ d = None ∧ closed s' = true)).
Proof.
  intros Hs. destruct e as [r v| |raised|]; cbn.
  - destruct (publish r v s) as [s'|] eqn:E; [|split; [done|by left]].
    apply publish_cases in E as (Ho & [[E ->]|(Hn & Hr & ->)]).
    + rewrite bool_decide_true by done. split; [done|by left].
    + rewrite bool_decide_false by done.
      split; [split; cbn; [by right|congruence]|]. right. left. by exists (Snapshot r v).
  - unfold dispatch. destruct (dispatching s); cbn; [split; [done|by left]|].
    destruct (closed s) eqn:Ec; cbn; [split; [done|by left]|].
    destruct (pending s) as [x|] eqn:Ep; cbn; [|split; [done|by left]].
    split; [split; cbn; [by left|congruence]|]. right. right. left. by exists x.
  - destruct (dispatching s); cbn; (split; [done|by left]).
  - split; [split; cbn; auto|]. do 3 right. done.
Qed.

Lemma accepts_closed es s : coherent s → closed s = true → accepts es s = [].
Proof.
  revert s. induction es as [|e es IH]; intros s Hs Hc; [done|]. cbn.
  pose proof (happens_cases e s Hs) as Hcase.
  assert (accepted e s = []) as ->.
  { destruct e as [r v| | |]; cbn; try done. unfold publish. by rewrite Hc. }
  destruct (happens e s) as [s1 d]. destruct Hcase as [Hs1 Hcase]. apply IH; [done|].
  destruct Hs as [_ [_ Hp]%(λ H, H Hc)]. naive_solver congruence.
Qed.

(** The run from a coherent object: what is delivered, and what the object ends with. *)
Lemma happen_inv es s s' ds :
  coherent s → happen es s = (s', ds) →
  sublist ds (option_list (pending s) ++ accepts es s) ∧
  (closed s' = false → closed s = false ∧
     list.last (option_list (last s) ++ accepts es s) = last s' ∧
     (pending s' = None → pending s ≠ None ∨ accepts es s ≠ [] → list.last ds = last s')) ∧
  StronglySorted older (option_list (last s) ++ accepts es s).
Proof.
  revert s ds. induction es as [|e es IH]; intros s ds Hs E; cbn in E.
  - injection E as <- <-. cbn. rewrite !app_nil_r.
    split_and!; [apply sublist_nil_l| |destruct (last s); cbn; repeat constructor].
    intros Hc. split; [done|]. split; [by destruct (last s)|naive_solver].
  - pose proof (happens_cases e s Hs) as Hcase. cbn [accepts].
    destruct (happens e s) as [s1 d]. destruct (happen es s1) as [s2 ds'] eqn:E1.
    injection E as <- <-. destruct Hcase as [Hs1 Hcase]. cbn [fst].
    destruct (IH s1 ds' Hs1 E1) as (Hsub & Hlast & Hsort).
    destruct Hcase as [(-> & -> & El & Ep & Ec)|[(x & -> & -> & El & Ep & Hx & Ec)|
      [(x & -> & -> & Ex & El & Ep & Ec)|(-> & -> & Ec)]]]; cbn [option_list app].
    + by rewrite <-Ep, <-El, <-Ec.
    + rewrite El, Ep in *. cbn in Hsub, Hlast, Hsort. split_and!.
      * by apply sublist_inserts_l.
      * intros H. destruct (Hlast H) as (Hc & Hl & Hd). rewrite last_app_cons, <-Ec.
        split_and!; [done..|]. intros H' _. apply Hd; [done|by left].
      * destruct (last s) as [y|]; [|done]. cbn. constructor; [done|].
        inversion_clear Hsort as [|? ? ? Hall]. constructor; [by apply Hx|].
        eapply Forall_impl; [exact Hall|]. unfold older. specialize (Hx y eq_refl).
        unfold older in Hx. intros z. lia.
    + rewrite Ex. rewrite Ep in Hsub, Hlast. rewrite El in *. cbn in *. split_and!; [by constructor| |done].
      intros H. destruct (Hlast H) as (Hc & Hl & Hd). rewrite <-Ec. split_and!; [done..|].
      intros H' _. destruct Hs as [[|Hs] _]; [congruence|]. rewrite Ex in Hs.
      destruct (accepts es s1) as [|a acc] eqn:Ea.
      * apply sublist_nil_r in Hsub as ->. rewrite <-Hs in Hl. done.
      * specialize (Hd H' ltac:(by right)). destruct ds' as [|d ds']; [|exact Hd].
        rewrite <-Hs in Hl. rewrite <-Hl in Hd. apply eq_sym, last_None in Hd. done.
    + destruct (proj2 Hs1 Ec) as [El Ep]. rewrite El, Ep in *.
      rewrite (accepts_closed es s1) in * by done. cbn in *.
      apply sublist_nil_r in Hsub as ->. split_and!; [apply sublist_nil_l| |].
      * intros H. by destruct (Hlast H) as [Hc _]; congruence.
      * destruct (last s); cbn; repeat constructor.
Qed.

Lemma create_cases r v s : create r v = Ok s → s = Latest false false (Some (Snapshot r v)) (Some (Snapshot r v)).
Proof. by intros (_ & [[]|(_ & _ & ->)])%publish_cases. Qed.

(** C36. Snapshots are coalesced, never reordered or invented: in every run the callback gets a
    part of the accepted values in the order of their revisions, each at most once; and
    whenever an open object has nothing pending, the last value it delivered is the last one
    accepted. *)
Theorem snapshots_coalesce r v es s0 s ds :
  create r v = Ok s0 → happen es s0 = (s, ds) →
  sublist ds (Snapshot r v :: accepts es s0) ∧
  StronglySorted older (Snapshot r v :: accepts es s0) ∧
  (closed s = false → pending s = None → list.last ds = list.last (Snapshot r v :: accepts es s0)).
Proof.
  intros Hc%create_cases E.
  destruct (happen_inv es s0 s ds) as (Hsub & Hlast & Hsort); [subst s0; by split; [right|]|done|].
  rewrite Hc in Hsub, Hsort. split_and!; [by rewrite Hc|by rewrite Hc|].
  intros H Hp. destruct (Hlast H) as (_ & Hl & Hd). rewrite Hd; [|done|by left; rewrite Hc].
  by rewrite <-Hl, Hc.
Qed.

(** A callback that publishes, and a value that is never delivered. *)
Lemma snapshots_coalesce_witness :
  let es := [Publish 2 [x61]; Publish 5 [x62]; Dispatch; Publish 4 [x63]; Publish 7 [x64];
             Dispatch; CallbackEnds true; Dispatch] in
  ∃ s0 s ds, create 1 [] = Ok s0 ∧ happen es s0 = (s, ds) ∧
  ds = [Snapshot 5 [x62]; Snapshot 7 [x64]] ∧
  sublist ds (Snapshot 1 [] :: accepts es s0) ∧
  StronglySorted older (Snapshot 1 [] :: accepts es s0) ∧
  (closed s = false → pending s = None → list.last ds = list.last (Snapshot 1 [] :: accepts es s0)).
Proof.
  intros es. do 3 eexists. split; [reflexivity|]. split; [reflexivity|]. split; [reflexivity|].
  by apply (snapshots_coalesce 1 [] es).
Defined.
