(* ===== verification/Presence.v ===== *)
(** * Volatile presence ([PresenceHints] of product/wp10/subscriptions.py)

    The last hint of each peer's authenticated session, until it expires on the receiver's
    clock. *)

From S2P Require Import Prelude Bytes Subscriptions.
Local Open Scope Z_scope.

(** The row [(session, sequence, value, expires, ttl)] of a peer. *)
Record row := Row {
  r_session : bytes;
  r_sequence : option Z;
  r_value : option bytes;
  r_expires : Z;
  r_ttl : Z;
}.

Record view := View { v_state : string; v_value : option bytes; v_sequence : option Z }.
#[export] Instance view_eq_dec : EqDecision view.
Proof. solve_decision. Defined.

Record t := Presence {
  limit : Z;
  peers : gmap bytes row;
  now : option Z;
  uncertain : bool;
}.

(** What the injected clock does: [None] when it raises or returns no [int]. *)
Notation reading := (option Z) (only parsing).

Definition create (max_peers : Z) : result t :=
  _ ← need ((1 <=? max_peers) && (max_peers <=? 1024)) "INVALID_INPUT";
  Ok (Presence max_peers ∅ None false).

(** [_time] *)
Definition read_time (clock : reading) (p : t) : t * result Z :=
  let fails := Err (subscription_error "CLOCK_UNCERTAIN") in
  if uncertain p then (p, fails)
  else match clock with
       | Some n =>
           if 0 <=? n then
             if match now p with Some m => n <? m | None => false end
             then (Presence (limit p) ∅ (now p) true, fails)
             else (Presence (limit p) (peers p) (Some n) false, Ok n)
           else (Presence (limit p) (peers p) (now p) true, fails)
       | None => (Presence (limit p) (peers p) (now p) true, fails)
       end.

(** Methods: the checks before the clock is read, then what follows. *)
Definition method {A} (checks : result unit) (clock : reading) (p : t)
    (body : Z → t → result (t * A)) : t * result A :=
  match checks with
  | Err e => (p, Err e)
  | Ok _ =>
      match read_time clock p with
      | (p, Err e) => (p, Err e)
      | (p, Ok n) => match body n p with Ok (p', a) => (p', Ok a) | Err e => (p, Err e) end
      end
  end.

Definition set_peer (k : bytes) (r : row) (p : t) : t :=
  Presence (limit p) (<[k := r]> (peers p)) (now p) (uncertain p).

Definition activate (peer session : bytes) (clock : reading) (p : t) : t * result unit :=
  method (_ ← fixed peer 32; fixed session 16) clock p (λ _ p,
    _ ← need (bool_decide (is_Some (peers p !! peer)) || (Z.of_nat (size (peers p)) <? limit p)) "RESOURCE_LIMIT";
    match peers p !! peer with
    | Some old => if bool_decide (r_session old = session) then Ok (p, tt)
                  else Ok (set_peer peer (Row session None None 0 0) p, tt)
    | None => Ok (set_peer peer (Row session None None 0 0) p, tt)
    end).

Definition update (peer session : bytes) (sequence : Z) (value : bytes) (ttl : Z)
    (clock : reading) (p : t) : t * result unit :=
  method (_ ← fixed peer 32; _ ← fixed session 16; _ ← uint sequence;
          _ ← need (len value <=? 4096) "RESOURCE_LIMIT";
          need ((1 <=? ttl) && (ttl <=? 60000000000)) "INVALID_INPUT") clock p (λ n p,
    old ← of_option (subscription_error "SESSION_MISMATCH") (peers p !! peer);
    _ ← need (bool_decide (r_session old = session)) "SESSION_MISMATCH";
    let accept := Ok (set_peer peer (Row session (Some sequence) (Some value) (n + ttl) ttl) p, tt) in
    match r_sequence old with
    | None => accept
    | Some q =>
        _ ← need (q <=? sequence) "STALE_HINT";
        if sequence =? q
        then _ ← need (bool_decide (r_value old = Some value) && (ttl =? r_ttl old)) "HINT_CONFLICT"; Ok (p, tt)
        else accept
    end).

Definition get (peer : bytes) (clock : reading) (p : t) : t * result view :=
  method (fixed peer 32) clock p (λ n p,
    match peers p !! peer with
    | Some r =>
        if bool_decide (r_sequence r = None) || (r_expires r <=? n)
        then Ok (p, View "RECENT_STATE_UNKNOWN" None None)
        else Ok (p, View "RECENT_HINT" (r_value r) (r_sequence r))
    | None => Ok (p, View "RECENT_STATE_UNKNOWN" None None)
    end).

(** [forget] does not read the clock. *)
Definition forget (peer : bytes) (p : t) : t * result unit :=
  match fixed peer 32 with
  | Err e => (p, Err e)
  | Ok _ => (Presence (limit p) (delete peer (peers p)) (now p) (uncertain p), Ok tt)
  end.

(** ** Runs *)

Inductive call :=
| Activate (peer session : bytes)
| Update (peer session : bytes) (sequence : Z) (value : bytes) (ttl : Z)
| Get (peer : bytes)
| Forget (peer : bytes).

(** One call and whether it succeeded. *)
Definition perform (c : call) (clock : reading) (p : t) : t * bool :=
  match c with
  | Activate k s => let '(p', r) := activate k s clock p in (p', is_ok r)
  | Update k s q v l => let '(p', r) := update k s q v l clock p in (p', is_ok r)
  | Get k => let '(p', r) := get k clock p in (p', is_ok r)
  | Forget k => let '(p', r) := forget k p in (p', is_ok r)
  end.

(** The object after the calls, and the log of those that succeeded with the time read. *)
Fixpoint performs (l : list (call * reading)) (p : t) (log : list (Z * call)) : t * list (Z * call) :=
  match l with
  | [] => (p, log)
  | (c, clock) :: l' =>
      let '(p', ok) := perform c clock p in
      performs l' p' (if ok then log ++ [(default 0 clock, c)] else log)
  end.

(** [c] ends the session [s] of the peer [k]. *)
Definition ends (k s : bytes) (c : call) : Prop :=
  match c with
  | Forget k' => k' = k
  | Activate k' s' => k' = k ∧ s' ≠ s
  | _ => False
  end.
#[export] Instance ends_dec k s c : Decision (ends k s c).
Proof. destruct c; cbn; apply _. Defined.

(** [c] leaves the hint [q] of that session as it is. *)
Definition keeps (k s : bytes) (q : Z) (c : call) : Prop :=
  ¬ ends k s c ∧ ∀ s' q' v l, c = Update k s' q' v l → q' = q.

(** [q], with the value [v], is the hint of [k] in session [s] since time [a], for [l]
    nanoseconds: it was accepted then, as the first of its number in the session, and nothing
    ended or replaced it since. *)
Definition holds (log : list (Z * call)) (k s : bytes) (q : Z) (v : bytes) (a l : Z) : Prop :=
  ∃ pre post, log = pre ++ (a, Update k s q v l) :: post ∧
    (∀ pre1 a' v' l' pre2, pre = pre1 ++ (a', Update k s q v' l') :: pre2 →
       Exists (ends k s) pre2.*2) ∧
    Forall (keeps k s q) post.*2.

(** ** Invariant *)

(** Each row is the hint the log holds, and a session's row is never behind the log. *)
Definition recorded (log : list (Z * call)) (p : t) : Prop :=
  uncertain p = false →
  (∀ k r q, peers p !! k = Some r → r_sequence r = Some q →
     ∃ v a m, r_value r = Some v ∧ r_expires r = a + r_ttl r ∧ now p = Some m ∧ a <= m ∧
       holds log k (r_session r) q v a (r_ttl r)) ∧
  (∀ pre a k s q v l post, log = pre ++ (a, Update k s q v l) :: post →
     Forall (λ c, ¬ ends k s c) post.*2 →
     ∃ r q', peers p !! k = Some r ∧ r_session r = s ∧ r_sequence r = Some q' ∧ q <= q').

Lemma snoc_inv {A} (l pre post : list A) x y :
  l ++ [x] = pre ++ y :: post →
  (pre = l ∧ y = x ∧ post = []) ∨ (∃ post', post = post' ++ [x] ∧ l = pre ++ y :: post').
Proof.
  destruct post as [|z post' _] using rev_ind.
  - intros [-> [= ->]]%app_inj_tail. by left.
  - rewrite app_comm_cons, app_assoc. intros [-> [= ->]]%app_inj_tail. right. by eexists.
Qed.

(** The object when the clock has been read as [n]. *)
Definition at_time (n : Z) (p : t) : t := Presence (limit p) (peers p) (Some n) false.

Lemma read_time_cases clock p p' r :
  read_time clock p = (p', r) →
  (∃ e, r = Err e ∧ uncertain p' = true) ∨
  (∃ n, r = Ok n ∧ clock = Some n ∧ p' = at_time n p ∧ uncertain p = false ∧
        ∀ m, now p = Some m → m <= n).
Proof.
  unfold read_time, at_time. intros E. destruct (uncertain p) eqn:Hu; [simplify_eq; naive_solver|].
  destruct clock as [n|]; [|simplify_eq; naive_solver].
  destruct (0 <=? n); [|simplify_eq; naive_solver].
  destruct (now p) as [m|] eqn:Hn.
  - destruct (Z.ltb_spec n m); simplify_eq; [naive_solver|].
    right. exists n. split_and!; [done..|]. by intros ? [= <-].
  - simplify_eq. right. by exists n.
Qed.

Lemma method_cases {A} checks clock p (body : Z → t → result (t * A)) p' r :
  method checks clock p body = (p', r) →
  ((∃ e, r = Err e) ∧ (p' = p ∨ uncertain p' = true)) ∨
  (∃ n, clock = Some n ∧ uncertain p = false ∧ (∀ m, now p = Some m → m <= n) ∧
     ((∃ e, r = Err e ∧ p' = at_time n p) ∨
      (∃ a, r = Ok a ∧ checks = Ok tt ∧ body n (at_time n p) = Ok (p', a)))).
Proof.
  unfold method. destruct checks as [[]|e]; [|intros [= <- <-]; left; eauto].
  destruct (read_time clock p) as [p1 r1] eqn:E1.
  apply read_time_cases in E1 as [(e & -> & Hu)|(n & -> & -> & -> & Hu & Hn)].
  - intros [= <- <-]. left. eauto.
  - destruct (body n (at_time n p)) as [[p2 a]|e] eqn:Eb; intros [= <- <-]; right; exists n; naive_solver.
Qed.

Lemma recorded_at_time log n p :
  recorded log p → (∀ m, now p = Some m → m <= n) → uncertain p = false → recorded log (at_time n p).
Proof.
  intros Hp Hn Hu _. destruct (Hp Hu) as [H1 H2]. split; [|exact H2].
  intros k r q Hk Hq. destruct (H1 k r q Hk Hq) as (v & a & m & Hv & He & Hm & Ha & Hh).
  exists v, a, n. split_and!; [done..|specialize (Hn m Hm); lia|done].
Qed.

(** A call that keeps a hint is logged after it. *)
Lemma holds_snoc log k s q v a l x : holds log k s q v a l → keeps k s q x.2 → holds (log ++ [x]) k s q v a l.
Proof.
  intros (pre & post & -> & Hf & Hk) Hx. exists pre, (post ++ [x]).
  split; [by rewrite <-app_assoc|]. split; [done|].
  rewrite fmap_app, Forall_app. split; [done|]. by apply Forall_singleton.
Qed.

(** A call that leaves the rows of its log alone. *)
Lemma recorded_keep log p x :
  recorded log p →
  (∀ k r q, peers p !! k = Some r → r_sequence r = Some q → keeps k (r_session r) q x.2) →
  (∀ k s q v l, x.2 = Update k s q v l →
     ∃ r q', peers p !! k = Some r ∧ r_session r = s ∧ r_sequence r = Some q' ∧ q <= q') →
  recorded (log ++ [x]) p.
Proof.
  intros Hp Hk Hx Hu. destruct (Hp Hu) as [H1 H2]. split.
  - intros k r q Hr Hq. destruct (H1 k r q Hr Hq) as (v & a & m & Hv & He & Hm & Ha & Hh).
    exists v, a, m. split_and!; [done..|]. apply holds_snoc; eauto.
  - intros pre a k s q v l post [(-> & <- & ->)|(post' & -> & ->)]%snoc_inv Hpost.
    + by apply (Hx k s q v l).
    + rewrite fmap_app, Forall_app in Hpost. by apply (H2 pre a k s q v l post'), Hpost.
Qed.
(** A row whose peer starts a session anew, or is forgotten. *)
Lemma recorded_reset log p p' n c k (o : option row) :
  recorded log p → uncertain p = false → now p' = now p →
  peers p' = partial_alter (λ _, o) k (peers p) →
  (∀ r, o = Some r → r_sequence r = None) →
  (c = Forget k ∨ ∃ s, c = Activate k s ∧ ∀ r, peers p !! k = Some r → r_session r ≠ s) →
  recorded (log ++ [(n, c)]) p'.
Proof.
  intros Hp Hu Hn Hpe Ho Hc _. destruct (Hp Hu) as [H1 H2].
  assert (∀ k', k' ≠ k → peers p' !! k' = peers p !! k') as Hother
    by (intros; rewrite Hpe; by apply lookup_partial_alter_ne).
  split.
  - intros k' r q Hr Hq. destruct (decide (k' = k)) as [->|Hne].
    + rewrite Hpe, lookup_partial_alter_eq in Hr. apply Ho in Hr. congruence.
    + rewrite Hother in Hr by done. destruct (H1 k' r q Hr Hq) as (v & a & m & Hv & He & Hm & Ha & Hh).
      exists v, a, m. rewrite Hn. split_and!; [done..|]. apply holds_snoc; [done|].
      by destruct Hc as [->|(s & -> & _)]; (split; [cbn; naive_solver|]).
  - intros pre a k' s q v l post [(-> & [= _ <-] & ->)|(post' & -> & ->)]%snoc_inv Hpost;
      [by destruct Hc as [|(? & ? & _)]|].
    rewrite fmap_app, Forall_app in Hpost. destruct Hpost as [Hpost Hx]. cbn in Hx. apply Forall_inv in Hx.
    destruct (H2 _ _ _ _ _ _ _ _ eq_refl Hpost) as (r & q' & Hr & Hs & Hq & Hle).
    destruct (decide (k' = k)) as [->|Hne]; [|exists r, q'; by rewrite Hother].
    destruct Hc as [->|(s' & -> & Hs')]; cbn in Hx; [by destruct Hx|].
    destruct (decide (s' = s)) as [->|]; [by destruct (Hs' r Hr)|]. by destruct Hx.
Qed.

(** A hint accepted at [n] replaces an older one of its session, or is the first. *)
Lemma recorded_accept log p n k q v l old :
  recorded log p → uncertain p = false → now p = Some n →
  peers p !! k = Some old → (∀ q', r_sequence old = Some q' → q' < q) →
  recorded (log ++ [(n, Update k (r_session old) q v l)])
           (set_peer k (Row (r_session old) (Some q) (Some v) (n + l) l) p).
Proof.
  intros Hp Hu Hn Hold Hnew _. destruct (Hp Hu) as [H1 H2]. split.
  - intros k' r q' Hr Hq. cbn in Hr. destruct (decide (k' = k)) as [->|Hne].
    + rewrite lookup_insert_eq in Hr. injection Hr as <-. cbn in *. injection Hq as <-.
      exists v, n, n. split_and!; [done..|lia|]. exists log, []. split_and!; [done| |constructor].
      intros pre1 a' v' l' pre2 E. destruct (decide (Exists (ends k (r_session old)) pre2.*2)) as [|Hno]; [done|].
      apply not_Exists_Forall in Hno; [|apply _].
      destruct (H2 _ _ _ _ _ _ _ _ E Hno) as (r & q' & Hr & _ & Hq & Hle).
      simplify_eq. specialize (Hnew _ Hq). lia.
    + rewrite lookup_insert_ne in Hr by done.
      destruct (H1 k' r q' Hr Hq) as (v' & a & m & Hv & He & Hm & Ha & Hh).
      exists v', a, m. split_and!; [done..|]. apply holds_snoc; [done|]. split; cbn; [naive_solver|].
      intros ? ? ? ? [=]; congruence.
  - intros pre a k' s q' v' l' post [(-> & [= -> -> -> -> -> ->] & ->)|(post' & -> & ->)]%snoc_inv Hpost.
    + exists (Row (r_session old) (Some q) (Some v) (n + l) l), q. cbn. rewrite lookup_insert_eq.
      by split_and!.
    + rewrite fmap_app, Forall_app in Hpost. destruct Hpost as [Hpost _].
      destruct (H2 _ _ _ _ _ _ _ _ eq_refl Hpost) as (r & q1 & Hr & Hs & Hq & Hle). cbn.
      destruct (decide (k' = k)) as [->|Hne]; [|exists r, q1; by rewrite lookup_insert_ne].
      simplify_eq. eexists _, q. rewrite lookup_insert_eq. split_and!; [done..|].
      specialize (Hnew _ Hq). lia.
Qed.
(** Every call keeps the log true to the object. *)
Lemma perform_recorded c clock p p' ok log :
  recorded log p → perform c clock p = (p', ok) →
  recorded (if ok then log ++ [(default 0 clock, c)] else log) p'.
Proof.
  intros Hp E. destruct c as [k s|k s q v l|k|k]; cbn in E.
  - destruct (activate k s clock p) as [p1 r] eqn:E1. injection E as <- <-.
    apply method_cases in E1 as [((e & ->) & [->|Hu])|(n & -> & Hu & Hn & [(e & -> & ->)|([] & -> & _ & Eb)])];
      cbn [is_ok default]; [done|by intros ?; congruence|by apply recorded_at_time|].
    apply bind_Ok in Eb as ([] & _ & Eb). cbn in Eb. pose proof (recorded_at_time _ _ _ Hp Hn Hu) as Hp1.
    destruct (peers p !! k) as [old|] eqn:Eo; [case_bool_decide as Hs|]; simplify_eq.
    + apply recorded_keep; [done| |done]. intros k' r q Hr _. cbn in *.
      split; [|done]. intros [-> ?]. simplify_eq.
    + apply (recorded_reset _ (at_time n p) _ _ _ k (Some (Row s None None 0 0))); try done.
      * by intros ? [= <-].
      * right. exists s. split; [done|]. cbn. intros r Hr. by simplify_eq.
    + apply (recorded_reset _ (at_time n p) _ _ _ k (Some (Row s None None 0 0))); try done.
      * by intros ? [= <-].
      * right. exists s. split; [done|]. cbn. intros r Hr. by simplify_eq.
  - destruct (update k s q v l clock p) as [p1 r] eqn:E1. injection E as <- <-.
    apply method_cases in E1 as [((e & ->) & [->|Hu])|(n & -> & Hu & Hn & [(e & -> & ->)|([] & -> & _ & Eb)])];
      cbn [is_ok default]; [done|by intros ?; congruence|by apply recorded_at_time|].
    pose proof (recorded_at_time _ _ _ Hp Hn Hu) as Hp1. cbn in Eb.
    destruct (peers p !! k) as [old|] eqn:Eo; [|done]. cbn in Eb.
    apply bind_Ok in Eb as ([] & Hs%require_Ok & Eb). apply bool_decide_eq_true in Hs as <-.
    destruct (r_sequence old) as [q0|] eqn:Eq0.
    + apply bind_Ok in Eb as ([] & Hq%require_Ok & Eb). destruct (Z.eqb_spec q q0) as [->|Hne].
      * apply bind_Ok in Eb as ([] & _ & Eb). simplify_eq. apply recorded_keep; [done| |].
        -- intros k' r q Hr Hq'. cbn in *. split; [by intros []|]. intros ? ? ? ? [=]. congruence.
        -- intros k' s' q' v' l' [=]; subst. exists old, q'. by split_and!.
      * simplify_eq. apply (recorded_accept _ (at_time n p)); try done. intros q' Hq'. simplify_eq. lia.
    + simplify_eq. apply (recorded_accept _ (at_time n p)); try done. intros q' Hq'. simplify_eq.
  - destruct (get k clock p) as [p1 r] eqn:E1. injection E as <- <-.
    apply method_cases in E1 as [((e & ->) & [->|Hu])|(n & -> & Hu & Hn & [(e & -> & ->)|(a & -> & _ & Eb)])];
      cbn [is_ok default]; [done|by intros ?; congruence|by apply recorded_at_time|].
    pose proof (recorded_at_time _ _ _ Hp Hn Hu) as Hp1.
    assert (p1 = at_time n p) as ->.
    { repeat case_match; by simplify_eq. }
    apply recorded_keep; [done| |done]. intros. split; [by intros []|done].
  - unfold forget in E. destruct (fixed k 32); [|by simplify_eq]. simplify_eq. cbn.
    destruct (uncertain p) eqn:Hu; [by intros ?; cbn in *; congruence|].
    apply (recorded_reset _ p _ _ _ k None); try done. by left.
Qed.

Lemma performs_recorded l p log : recorded log p → let '(p', log') := performs l p log in recorded log' p'.
Proof.
  revert p log. induction l as [|[c clock] l IH]; intros p log Hp; cbn; [done|].
  destruct (perform c clock p) as [p' ok] eqn:E. by apply IH, (perform_recorded c clock p).
Qed.

Lemma recorded_fresh n : recorded [] (Presence n ∅ None false).
Proof.
  intros _. split; cbn; [intros k r q Hr; by rewrite lookup_empty in Hr|].
  intros pre a k s q v l post E. by destruct pre.
Qed.
(** A later hint of the same number and session would not be the first. *)
Lemma not_first_twice k s q v a l q' v' a' l' (pre mid post : list (Z * call)) :
  Forall (keeps k s q) (mid ++ (a', Update k s q' v' l') :: post).*2 →
  (∀ pre1 a1 v1 l1 pre2, pre ++ (a, Update k s q v l) :: mid = pre1 ++ (a1, Update k s q' v1 l1) :: pre2 →
     Exists (ends k s) pre2.*2) → False.
Proof.
  rewrite fmap_app, Forall_app. intros [Hmid Hx] Hf.
  cbn in Hx. apply Forall_inv in Hx as [_ Hx]. specialize (Hx s q' v' l' eq_refl) as ->.
  specialize (Hf _ _ _ _ _ eq_refl). apply Exists_exists in Hf as (c & Hc & He).
  rewrite Forall_forall in Hmid. by apply (Hmid c Hc).
Qed.

Lemma holds_unique log k s q v a l q' v' a' l' :
  holds log k s q v a l → holds log k s q' v' a' l' → q = q' ∧ v = v' ∧ a = a' ∧ l = l'.
Proof.
  intros (pre & post & -> & Hf & Hk) (pre' & post' & E & Hf' & Hk').
  destruct (app_eq_inv _ _ _ _ E) as [(mid & -> & E')|(mid & -> & E')]; destruct mid as [|x mid]; cbn in E'.
  - by simplify_eq.
  - exfalso. injection E' as <- ->. exact (not_first_twice _ _ _ _ _ _ _ _ _ _ _ _ _ Hk' Hf).
  - by simplify_eq.
  - exfalso. injection E' as <- ->. exact (not_first_twice _ _ _ _ _ _ _ _ _ _ _ _ _ Hk Hf').
Qed.

(** C37. Presence is exactly the recent history: after any calls, at any clock readings, [get]
    answers with the hint the peer's session holds, if one holds and has not expired; and says
    that the recent state is unknown only when every hint that holds has expired.  Repeating a
    hint never prolongs it, and a hint never survives its session. *)
Theorem presence_exact n p0 l p log k clock p' w :
  create n = Ok p0 → performs l p0 [] = (p, log) → get k clock p = (p', Ok w) →
  ∃ at', clock = Some at' ∧
    ((∃ s q v a d, holds log k s q v a d ∧ a <= at' < a + d ∧ w = View "RECENT_HINT" (Some v) (Some q)) ∨
     (w = View "RECENT_STATE_UNKNOWN" None None ∧ ∀ s q v a d, holds log k s q v a d → a + d <= at')).
Proof.
  intros Hc Hl Hg. apply bind_Ok in Hc as ([] & _ & [= <-]).
  pose proof (performs_recorded l _ [] (recorded_fresh n)) as Hp. rewrite Hl in Hp.
  apply method_cases in Hg as [((e & [=]) & _)|(t & -> & Hu & Ht & [(e & [=] & _)|(a & [= <-] & _ & Eb)])].
  destruct (Hp Hu) as [H1 H2]. cbn in Eb. exists t. split; [done|].
  assert (∀ s q v a d, holds log k s q v a d →
    ∃ r, peers p !! k = Some r ∧ is_Some (r_sequence r) ∧ r_expires r = a + d) as Hrow.
  { intros s q v a d Hh. pose proof Hh as (pre & post & -> & _ & Hk).
    destruct (H2 _ _ _ _ _ _ _ _ eq_refl) as (r & q' & Hr & <- & Hq & _).
    { eapply Forall_impl; [exact Hk|]. by intros c []. }
    exists r. split_and!; [done|by eexists|].
    destruct (H1 k r q' Hr Hq) as (v' & a' & m & _ & -> & _ & _ & Hh').
    by destruct (holds_unique _ _ _ _ _ _ _ _ _ _ _ Hh Hh') as (_ & _ & -> & ->). }
  destruct (peers p !! k) as [r|] eqn:Er.
  - destruct (bool_decide (r_sequence r = None) || (r_expires r <=? t)) eqn:Eo; injection Eb as <- <-.
    + right. split; [done|]. intros s q v a d (r' & [= <-] & [q' Hq] & <-)%Hrow.
      rewrite Hq in Eo. cbn in Eo. by apply Z.leb_le in Eo.
    + left. apply orb_false_iff in Eo as [Hs%bool_decide_eq_false He%Z.leb_gt].
      destruct (r_sequence r) as [q|] eqn:Eq; [|done].
      destruct (H1 k r q Er Eq) as (v & a & m & Hv & Hx & Hm & Ha & Hh).
      exists (r_session r), q, v, a, (r_ttl r). rewrite Hv, <-Hx.
      split_and!; [done|specialize (Ht m Hm); lia|lia|done].
  - injection Eb as <- <-. right. split; [done|]. intros s q v a d (r & ? & _)%Hrow. done.
Qed.

(** A repeated hint, a new session, and a hint that expires. *)
Lemma presence_exact_witness :
  let k := repeat x61 32 in
  let s := repeat x73 16 in
  let l := [(Activate k s, Some 100); (Update k s 1 [x65] 20, Some 100);
            (Update k s 1 [x65] 20, Some 110); (Update k s 3 [x66] 20, Some 115)] in
  ∃ p0 p log p' w, create 2 = Ok p0 ∧ performs l p0 [] = (p, log) ∧ get k (Some 119) p = (p', Ok w) ∧
  w = View "RECENT_HINT" (Some [x66]) (Some 3) ∧
  ∃ at', Some 119 = Some at' ∧
    ((∃ s q v a d, holds log k s q v a d ∧ a <= at' < a + d ∧ w = View "RECENT_HINT" (Some v) (Some q)) ∨
     (w = View "RECENT_STATE_UNKNOWN" None None ∧ ∀ s q v a d, holds log k s q v a d → a + d <= at')).
Proof.
  intros k s l. do 5 eexists. split; [reflexivity|]. split; [vm_compute; reflexivity|].
  split; [vm_compute; reflexivity|]. split; [reflexivity|].
  by eapply (presence_exact 2 _ l _ _ k (Some 119)); [reflexivity|vm_compute; reflexivity|vm_compute; reflexivity].
Defined.
