(* ===== verification/Store.v ===== *)
(** * The transactional store: data and tables
    (experiments/g0-store: par_store/model.py, schema-overlay.sql, and the tables of
    baseline/spec-00.02.00/protocol/storage-v1.sql that the store uses)

    A table is a map from its primary key to the rest of the row; [u64(n)] is kept as [n].
    An INSERT checks the primary key, the UNIQUE columns and the foreign keys of its table;
    the CHECK constraints hold of every value the code has tested before, and are written
    out for the random identifiers it does not test. *)

From S2P Require Import Prelude Bytes Value Codec Hash Objects Json Crash.
Local Open Scope Z_scope.

Definition store_error (code : string) : exn := Raised "StoreError" code.
Definition sneed (ok : bool) (code : string) : result unit := require ok (store_error code).
(** An SQLite error, by the name of its primary result code. *)
Definition sqlite_exn (code : string) : exn := Raised "sqlite3.Error" code.
Definition constraint (ok : bool) : result unit := require ok (sqlite_exn "SQLITE_CONSTRAINT").

(** ** Prepared commits (model.py) *)

Definition ENVELOPE_MAX : Z := 786432.
Definition CACHE_MAX : Z := 4194304.
Definition BLOCK_MAX : Z := 262144 + 4096.
Definition BLOCKS_MAX : Z := 128.

Definition sfixed (v : bytes) (n : Z) : result unit := sneed (len v =? n) "INVALID_INPUT".
(** The check of [u64]; the eight bytes stand for the number. *)
Definition u64 (v : Z) : result Z := _ ← sneed ((0 <=? v) && (v <? 2 ^ 64)) "INVALID_INPUT"; Ok v.
Definition bounded (v : bytes) (size : Z) : result unit :=
  sneed ((1 <=? len v) && (len v <=? size)) "INVALID_INPUT".

Record prepared := Prepared {
  p_operation : bytes;
  p_input : bytes;
  p_space : bytes;
  p_object : bytes;
  p_actor : bytes;
  p_generation : bytes;
  p_epoch : Z;
  p_sequence : Z;
  p_previous : option bytes;
  p_change : bytes;
  p_reservation : bytes;
  p_envelope : bytes;
  p_cache : bytes;
  p_receipt : bytes;
  p_deps : list bytes;
  p_blocks : list bytes;
}.
#[export] Instance prepared_eq_dec : EqDecision prepared.
Proof. solve_decision. Defined.

(** [CommitReceipt] *)
Record commit_receipt := CommitReceipt {
  cr_operation : bytes;
  cr_input : bytes;
  cr_envelope : bytes;
  cr_receipt : bytes;
  cr_store : bytes;
  cr_class : string;
}.

Section Model.
Context `{Hash}.

Definition SCHEMA_DIGEST : bytes := sha256 (raw (str "PAR-local-store-candidate-00.05.00")).

(** [PreparedCommit.validate] *)
Definition validate (p : prepared) : result unit :=
  _ ← iter (λ v _, sfixed v 32) [p_input p; p_space p; p_object p; p_actor p; p_change p] tt;
  _ ← iter (λ v _, sfixed v 16) [p_operation p; p_generation p; p_reservation p] tt;
  _ ← u64 (p_epoch p); _ ← u64 (p_sequence p);
  _ ← sneed (negb (p_sequence p =? 0)) "INVALID_INPUT";
  _ ← match p_previous p with Some v => sfixed v 32 | None => Ok tt end;
  _ ← bounded (p_envelope p) ENVELOPE_MAX; _ ← bounded (p_cache p) CACHE_MAX; _ ← bounded (p_receipt p) 65536;
  _ ← sneed (len (p_deps p) <=? 128) "INVALID_INPUT";
  _ ← iter (λ v _, sfixed v 32) (p_deps p) tt;
  _ ← sneed (bool_decide (NoDup (p_deps p))) "INVALID_INPUT";
  _ ← sneed (len (p_blocks p) <=? BLOCKS_MAX) "INVALID_INPUT";
  _ ← iter (λ v _, bounded v BLOCK_MAX) (p_blocks p) tt;
  sneed (bool_decide (NoDup (sha256 <$> p_blocks p))) "INVALID_INPUT".

Definition envelope_id (p : prepared) : result bytes :=
  b ← encode_with 1048576 MAX_NODES
        (VList [VStr (str "PAR"); VInt 1; VStr (str "envelope-id"); VList [VBytes (p_envelope p)]]);
  Ok (sha256 b).

Definition fingerprint (p : prepared) : result bytes :=
  b ← encode (VList [VStr (str "PAR-STORE-EXPERIMENT"); VInt 1; VList
        [VBytes (p_operation p); VBytes (p_input p); VBytes (p_space p); VBytes (p_object p); VBytes (p_actor p);
         VBytes (p_generation p); VInt (p_epoch p); VInt (p_sequence p);
         match p_previous p with Some v => VBytes v | None => VNone end;
         VBytes (p_change p); VBytes (p_reservation p); VBytes (sha256 (p_envelope p));
         VBytes (sha256 (p_cache p)); VBytes (sha256 (p_receipt p));
         VList (VBytes <$> sorted_bytes (p_deps p)); VList ((λ b, VBytes (sha256 b)) <$> p_blocks p)]]);
  Ok (sha256 b).
End Model.

(** ** Rows *)

Record space_row := SpaceRow {
  sp_app : pystr;
  sp_head : bytes;
  sp_sequence : Z;
  sp_epoch : Z;
  sp_state : string;
  sp_metadata : bytes;
}.
Record actor_row := ActorRow {
  ac_generation : bytes;
  ac_sequence : Z;
  ac_previous : option bytes;
}.
#[export] Instance actor_row_eq_dec : EqDecision actor_row.
Proof. solve_decision. Defined.
Record envelope_row := EnvelopeRow {
  en_space : bytes;
  en_object : bytes;
  en_epoch : Z;
  en_actor : bytes;
  en_sequence : Z;
  en_change : bytes;
  en_bytes : bytes;
  en_state : string;
}.
Record ledger_row := LedgerRow {
  le_input : bytes;
  le_space : bytes;
  le_commit : bytes;
  le_receipt : bytes;
}.
Record outbox_row := OutboxRow {
  ob_operation : bytes;
  ob_attempts : Z;
  ob_next : option Z;
  ob_state : string;
}.
Record catalog_row := CatalogRow {
  ct_kind : Z;
  ct_schema : bytes;
  ct_ref : bytes;
  ct_tombstone : Z;
  ct_frontier : bytes;
}.
Record block_row := BlockRow {
  bk_size : Z;
  bk_path : pystr;
  bk_published : Z;
  bk_class : string;
}.
Record reservation_row := ReservationRow {
  rv_operation : bytes;
  rv_context : bytes;
  rv_nonce : bytes;
  rv_consumed : option bytes;
}.
Record commit_row := CommitRow {
  cm_prepared : bytes;
  cm_reservation : bytes;
  cm_generation : bytes;
  cm_previous : option bytes;
  cm_cache : bytes;
  cm_store : bytes;
  cm_class : string;
  cm_order : Z;
}.

(** The tables.  [writer_fences] is keyed by the store's generation. *)
Record tables := Tables {
  t_fences : gmap bytes (bytes * bytes);
  t_spaces : gmap bytes space_row;
  t_intents : gmap bytes bytes;
  t_nonces : gmap (bytes * bytes) bytes;
  t_reservations : gmap bytes reservation_row;
  t_envelopes : gmap bytes envelope_row;
  t_ledger : gmap bytes ledger_row;
  t_actors : gmap (bytes * bytes * bytes) actor_row;
  t_catalog : gmap (bytes * bytes) catalog_row;
  t_deps : gset (bytes * bytes);
  t_blocks : gmap bytes block_row;
  t_eblocks : gmap (bytes * bytes) Z;
  t_outbox : gmap bytes outbox_row;
  t_meta : gmap bytes commit_row;
}.

Definition empty_tables : tables := Tables ∅ ∅ ∅ ∅ ∅ ∅ ∅ ∅ ∅ ∅ ∅ ∅ ∅ ∅.

(** ** Statements *)

Definition set_fences f (d : tables) : tables :=
  Tables f (t_spaces d) (t_intents d) (t_nonces d) (t_reservations d) (t_envelopes d) (t_ledger d) (t_actors d)
    (t_catalog d) (t_deps d) (t_blocks d) (t_eblocks d) (t_outbox d) (t_meta d).
Definition set_spaces f (d : tables) : tables :=
  Tables (t_fences d) f (t_intents d) (t_nonces d) (t_reservations d) (t_envelopes d) (t_ledger d) (t_actors d)
    (t_catalog d) (t_deps d) (t_blocks d) (t_eblocks d) (t_outbox d) (t_meta d).
(** The tables of nonce issue. *)
Definition set_issue i n r (d : tables) : tables :=
  Tables (t_fences d) (t_spaces d) i n r (t_envelopes d) (t_ledger d) (t_actors d)
    (t_catalog d) (t_deps d) (t_blocks d) (t_eblocks d) (t_outbox d) (t_meta d).
Definition set_envelopes f (d : tables) : tables :=
  Tables (t_fences d) (t_spaces d) (t_intents d) (t_nonces d) (t_reservations d) f (t_ledger d) (t_actors d)
    (t_catalog d) (t_deps d) (t_blocks d) (t_eblocks d) (t_outbox d) (t_meta d).
Definition set_ledger f (d : tables) : tables :=
  Tables (t_fences d) (t_spaces d) (t_intents d) (t_nonces d) (t_reservations d) (t_envelopes d) f (t_actors d)
    (t_catalog d) (t_deps d) (t_blocks d) (t_eblocks d) (t_outbox d) (t_meta d).
Definition set_actors f (d : tables) : tables :=
  Tables (t_fences d) (t_spaces d) (t_intents d) (t_nonces d) (t_reservations d) (t_envelopes d) (t_ledger d) f
    (t_catalog d) (t_deps d) (t_blocks d) (t_eblocks d) (t_outbox d) (t_meta d).
Definition set_catalog f (d : tables) : tables :=
  Tables (t_fences d) (t_spaces d) (t_intents d) (t_nonces d) (t_reservations d) (t_envelopes d) (t_ledger d)
    (t_actors d) f (t_deps d) (t_blocks d) (t_eblocks d) (t_outbox d) (t_meta d).
Definition set_deps f (d : tables) : tables :=
  Tables (t_fences d) (t_spaces d) (t_intents d) (t_nonces d) (t_reservations d) (t_envelopes d) (t_ledger d)
    (t_actors d) (t_catalog d) f (t_blocks d) (t_eblocks d) (t_outbox d) (t_meta d).
Definition set_blocks b e (d : tables) : tables :=
  Tables (t_fences d) (t_spaces d) (t_intents d) (t_nonces d) (t_reservations d) (t_envelopes d) (t_ledger d)
    (t_actors d) (t_catalog d) (t_deps d) b e (t_outbox d) (t_meta d).
Definition set_outbox f (d : tables) : tables :=
  Tables (t_fences d) (t_spaces d) (t_intents d) (t_nonces d) (t_reservations d) (t_envelopes d) (t_ledger d)
    (t_actors d) (t_catalog d) (t_deps d) (t_blocks d) (t_eblocks d) f (t_meta d).
Definition set_meta f (d : tables) : tables :=
  Tables (t_fences d) (t_spaces d) (t_intents d) (t_nonces d) (t_reservations d) (t_envelopes d) (t_ledger d)
    (t_actors d) (t_catalog d) (t_deps d) (t_blocks d) (t_eblocks d) (t_outbox d) f.

Definition present {K A} `{Countable K} (k : K) (m : gmap K A) : bool := bool_decide (is_Some (m !! k)).
(** A row with the given property; the order of the rows does not matter. *)
Definition some_row {K A} `{Countable K} (P : A → bool) (m : gmap K A) : bool :=
  existsb (λ kv, P kv.2) (map_to_list m).

Definition insert_space (k : bytes) (r : space_row) (d : tables) : result tables :=
  _ ← constraint (negb (present k (t_spaces d)));
  Ok (set_spaces (<[k := r]> (t_spaces d)) d).

(** [INSERT OR IGNORE INTO local_operation_intents] *)
Definition ignore_intent (op input : bytes) (d : tables) : tables :=
  set_issue (if present op (t_intents d) then t_intents d else <[op := input]> (t_intents d))
    (t_nonces d) (t_reservations d) d.
Definition insert_nonce (k : bytes * bytes) (input : bytes) (d : tables) : result tables :=
  _ ← constraint (negb (present k (t_nonces d)));
  Ok (set_issue (t_intents d) (<[k := input]> (t_nonces d)) (t_reservations d) d).
Definition insert_reservation (rid op context nonce : bytes) (d : tables) : result tables :=
  _ ← constraint ((len rid =? 16) && negb (present rid (t_reservations d)) && present op (t_intents d)
        && present (context, nonce) (t_nonces d)
        && negb (some_row (λ r, bool_decide (rv_context r = context ∧ rv_nonce r = nonce)) (t_reservations d)));
  Ok (set_issue (t_intents d) (t_nonces d)
        (<[rid := ReservationRow op context nonce None]> (t_reservations d)) d).
Definition consume_reservation (rid eid : bytes) (d : tables) : result tables :=
  match t_reservations d !! rid with
  | Some r =>
      _ ← constraint (present eid (t_envelopes d));
      Ok (set_issue (t_intents d) (t_nonces d)
            (<[rid := ReservationRow (rv_operation r) (rv_context r) (rv_nonce r) (Some eid)]> (t_reservations d)) d)
  | None => Ok d
  end.

Definition insert_envelope (eid : bytes) (r : envelope_row) (d : tables) : result tables :=
  _ ← constraint (negb (present eid (t_envelopes d)) && present (en_space r) (t_spaces d)
        && negb (some_row (λ x, bool_decide (en_space x = en_space r ∧ en_object x = en_object r ∧
                    en_epoch x = en_epoch r ∧ en_actor x = en_actor r ∧ en_sequence x = en_sequence r))
                  (t_envelopes d)));
  Ok (set_envelopes (<[eid := r]> (t_envelopes d)) d).

Definition insert_ledger (op : bytes) (r : ledger_row) (d : tables) : result tables :=
  _ ← constraint (negb (present op (t_ledger d)) && present (le_space r) (t_spaces d)
        && present (le_commit r) (t_envelopes d)
        && negb (some_row (λ x, bool_decide (le_commit x = le_commit r)) (t_ledger d)));
  Ok (set_ledger (<[op := r]> (t_ledger d)) d).

(** [INSERT OR REPLACE INTO actor_states] *)
Definition replace_actor (k : bytes * bytes * bytes) (r : actor_row) (d : tables) : result tables :=
  _ ← constraint (present k.1.1 (t_spaces d));
  Ok (set_actors (<[k := r]> (t_actors d)) d).

(** [INSERT INTO catalog ... ON CONFLICT DO UPDATE SET encrypted_snapshot_ref] *)
Definition upsert_catalog (k : bytes * bytes) (r : catalog_row) (d : tables) : result tables :=
  _ ← constraint (present k.1 (t_spaces d));
  let row := match t_catalog d !! k with
             | Some x => CatalogRow (ct_kind x) (ct_schema x) (ct_ref r) (ct_tombstone x) (ct_frontier x)
             | None => r
             end in
  Ok (set_catalog (<[k := row]> (t_catalog d)) d).

Definition insert_dep (eid dep : bytes) (d : tables) : result tables :=
  _ ← constraint (negb (bool_decide ((eid, dep) ∈ t_deps d)) && present eid (t_envelopes d));
  Ok (set_deps ({[(eid, dep)]} ∪ t_deps d) d).

(** [INSERT OR IGNORE INTO blocks], which also ignores a repeated path. *)
Definition ignore_block (bid : bytes) (r : block_row) (d : tables) : tables :=
  if present bid (t_blocks d) || some_row (λ x, bool_decide (bk_path x = bk_path r)) (t_blocks d) then d
  else set_blocks (<[bid := r]> (t_blocks d)) (t_eblocks d) d.
Definition insert_eblock (eid bid : bytes) (position : Z) (d : tables) : result tables :=
  _ ← constraint (present eid (t_envelopes d) && present bid (t_blocks d) && negb (present (eid, bid) (t_eblocks d))
        && negb (existsb (λ kv, bool_decide (kv.1.1 = eid) && (kv.2 =? position)) (map_to_list (t_eblocks d))));
  Ok (set_blocks (t_blocks d) (<[(eid, bid) := position]> (t_eblocks d)) d).

Definition insert_outbox (eid : bytes) (r : outbox_row) (d : tables) : result tables :=
  _ ← constraint (negb (present eid (t_outbox d)) && present eid (t_envelopes d)
        && present (ob_operation r) (t_ledger d));
  Ok (set_outbox (<[eid := r]> (t_outbox d)) d).

Definition insert_meta (op : bytes) (r : commit_row) (d : tables) : result tables :=
  _ ← constraint (negb (present op (t_meta d)) && present op (t_ledger d) && present (cm_reservation r) (t_reservations d)
        && negb (some_row (λ x, bool_decide (cm_reservation x = cm_reservation r) || (cm_order x =? cm_order r)) (t_meta d)));
  Ok (set_meta (<[op := r]> (t_meta d)) d).

(** [SELECT coalesce(max(commit_order),0)+1 FROM local_commit_meta] *)
Definition next_order (d : tables) : Z :=
  fold_right Z.max 0 ((λ kv, cm_order kv.2) <$> map_to_list (t_meta d)) + 1.
