(* ===== verification/StoreOps.v ===== *)
(** * The transactional store: operations
    (experiments/g0-store/par_store/store.py, fs.py, and audit of recovery.py)

    [disk X] is what a process that dies leaves: the committed tables, the tables [X] that a
    subclass adds to the database, the files under [blocks/] by the digest their names spell,
    and the names under [staging/]; [ds_in_tx] is the connection's and is lost with the
    process.  An operation is a computation over it;
    [world] decides which statements and system calls fail, whether a failed COMMIT took
    effect, what the observer raises and the random identifiers.  The writer lock, the
    [_busy] flag, the checks of paths and of the database file at opening, and the ordering
    of [fsync] against a power loss are outside. *)

From S2P Require Import Prelude Bytes Value Codec Hash Objects Json Crash Store.
Local Open Scope Z_scope.

Record disk (X : Type) := Disk {
  ds_tables : tables;
  ds_extra : X;
  ds_files : gmap bytes bytes;
  ds_staging : gset string;
  ds_in_tx : bool;
}.
#[global] Arguments Disk {X}.
#[global] Arguments ds_tables {X}.
#[global] Arguments ds_extra {X}.
#[global] Arguments ds_files {X}.
#[global] Arguments ds_staging {X}.
#[global] Arguments ds_in_tx {X}.

Definition set_database {X : Type} (d : tables) (x : X) (s : disk X) : disk X :=
  Disk d x (ds_files s) (ds_staging s) (ds_in_tx s).
Definition set_files {X : Type} (f : gmap bytes bytes) (g : gset string) (s : disk X) : disk X :=
  Disk (ds_tables s) (ds_extra s) f g (ds_in_tx s).

(** What a subclass of [Store] overrides: [_authorize_commit], [_commit_authority_meta] and
    [_envelope_state]. *)
Record hooks (X : Type) := Hooks {
  hk_authorize : tables → X → prepared → bytes → result unit;
  hk_record : tables → X → prepared → result X;
  hk_state : string;
}.
#[global] Arguments Hooks {X}.
#[global] Arguments hk_authorize {X}.
#[global] Arguments hk_record {X}.
#[global] Arguments hk_state {X}.
(** [Store] itself. *)
Definition no_hooks : hooks unit := Hooks (λ _ _ _ _, Ok tt) (λ _ x _, Ok x) "applied".

(** An open [Store]: what it read of [store_metadata] and [local_settings], which no operation
    changes. *)
Record handle := Handle { h_generation : bytes; h_read_only : bool; h_closed : bool }.

Record world := World {
  w_settings : result bool;                (* the PRAGMAs that [_settings] reads are as set *)
  w_schema : bool;                         (* [schema_matches] *)
  w_quick_check : bool;
  w_sql : string → option exn;
  w_applied : bool;                        (* a COMMIT that failed took effect *)
  w_observer : string → option exn;
  w_block_observer : nat → string → option exn;
  w_os : nat → string → option exn;
  w_temp : nat → string;                   (* the name [mkstemp] finds *)
  w_token : bytes;                         (* [secrets.token_bytes(16)] *)
  w_owner : bytes;
}.

Definition raised (o : option exn) : result unit := match o with Some e => Err e | None => Ok tt end.
Definition sql (w : world) (label : string) : result unit := raised (w_sql w label).
Definition observe (w : world) (label : string) : result unit := raised (w_observer w label).
Definition block_observe (w : world) (i : nat) (label : string) : result unit := raised (w_block_observer w i label).
Definition os (w : world) (i : nat) (label : string) : result unit := raised (w_os w i label).

(** [sqlite_error]: the store's code for an SQLite error. *)
Definition sqlite_error (code : string) : exn :=
  store_error
    (if existsb (String.eqb code) ["SQLITE_FULL"; "SQLITE_BUSY"; "SQLITE_INTERRUPT"; "SQLITE_CONSTRAINT"] then code
     else if String.eqb code "SQLITE_LOCKED" then "SQLITE_BUSY"
     else if existsb (String.eqb code) ["SQLITE_CORRUPT"; "SQLITE_NOTADB"] then "CORRUPT_STORE"
     else if String.eqb code "SQLITE_READONLY" then "READ_ONLY" else "STORAGE_ERROR").

(** [except sqlite3.Error as exc: raise sqlite_error(exc)] *)
Definition translate_sqlite (e : exn) : exn :=
  match e with
  | Raised cls code => if String.eqb cls "sqlite3.Error" then sqlite_error code else e
  | _ => e
  end.
Definition catch_sqlite {A} (m : result A) : result A :=
  match m with Ok a => Ok a | Err e => Err (translate_sqlite e) end.

Section Store.
Context `{Hash} {X : Type}.
Implicit Types (s : disk X).

(** ** Guards *)

Definition alive (h : handle) : result unit := sneed (negb (h_closed h)) "STORE_CLOSED".

Definition settings (h : handle) (w : world) : result unit :=
  _ ← alive h;
  found ← catch_sqlite (w_settings w);
  sneed found "SETTINGS_MISMATCH".

Definition writable (h : handle) (w : world) : result unit :=
  _ ← alive h;
  _ ← sneed (negb (h_read_only h)) "RESTORE_READ_ONLY";
  settings h w.

Definition read_disk : crash (disk X) (disk X) := reads Ok.
Definition set_in_tx (b : bool) : crash (disk X) unit :=
  λ s, ([], Disk (ds_tables s) (ds_extra s) (ds_files s) (ds_staging s) b, Ok tt).
Definition commit_tables (d : tables) (x : X) : crash (disk X) unit := write (set_database d x).

(** [self._busy or self.connection.in_transaction] *)
Definition idle : crash (disk X) unit :=
  s ← read_disk; lift (sneed (negb (ds_in_tx s)) "REENTRANT_OPERATION").

(** ** Transactions *)

(** [BEGIN IMMEDIATE] fails inside a transaction. *)
Definition begin (w : world) (s : disk X) : result unit :=
  if ds_in_tx s then Err (sqlite_exn "SQLITE_ERROR") else sql w "begin".

(** [if c.in_transaction: c.execute('ROLLBACK')], inside one. *)
Definition rollback (w : world) : crash (disk X) unit :=
  match sql w "rollback" with
  | Ok _ => set_in_tx false
  | Err e => _ ← set_in_tx true; raise e
  end.

(** A COMMIT that fails has taken effect, or is rolled back. *)
Definition failed_commit (w : world) (d : tables) (x : X) : crash (disk X) unit :=
  if w_applied w then commit_tables d x else rollback w.

(** [_transaction] *)
Definition transaction {A} (h : handle) (w : world) (body : tables → result (tables * A)) : crash (disk X) A :=
  _ ← lift (writable h w);
  s ← read_disk;
  match begin w s with
  | Err e => _ ← (if ds_in_tx s then rollback w else mret tt); raise e
  | Ok _ =>
      match body (ds_tables s) with
      | Err e => _ ← rollback w; raise e
      | Ok (d, a) =>
          match sql w "commit" with
          | Err e => _ ← failed_commit w d (ds_extra s); raise e
          | Ok _ => _ ← commit_tables d (ds_extra s); mret a
          end
      end
  end.

(** ** Fences, Spaces and nonces *)

Definition rotate_fence (h : handle) (w : world) : crash (disk X) bytes :=
  _ ← lift (writable h w);
  _ ← transaction h w (λ d,
        _ ← sql w "fence";
        _ ← constraint ((len (w_token w) =? 16) && (len (w_owner w) =? 16));
        Ok (set_fences (<[h_generation h := (w_token w, w_owner w)]> (t_fences d)) d, tt));
  mret (w_token w).

(** ** Opening *)

(** What [create] leaves, up to the fence. *)
Definition created (x : X) : disk X := Disk empty_tables x ∅ ∅ false.
(** The process dies: its connection is gone, and with it an open transaction. *)
Definition reopened (s : disk X) : disk X := Disk (ds_tables s) (ds_extra s) (ds_files s) (ds_staging s) false.

(** The end of [_connect]: a store that is not a read-only restore takes a new fence. *)
Definition connect (h : handle) (w : world) : crash (disk X) (option bytes) :=
  _ ← lift (settings h w);
  if h_read_only h then mret None else token ← rotate_fence h w; mret (Some token).

(** [[a-z0-9][a-z0-9.-]{0,127}] *)
Definition app_id_ok (s : pystr) : bool :=
  match s with
  | [] => false
  | c :: r =>
      let alnum c := ((97 <=? c) && (c <=? 122)) || ((48 <=? c) && (c <=? 57)) in
      alnum c && (len r <=? 127) && forallb (λ c, alnum c || (c =? 46) || (c =? 45)) r
  end.

Definition configure_space (h : handle) (w : world) (space : bytes) (app : pystr) (epoch : Z) (head : bytes)
    : crash (disk X) unit :=
  _ ← lift (writable h w);
  _ ← lift (sfixed space 32); _ ← lift (sfixed head 32); _ ← lift (u64 epoch);
  _ ← lift (sneed (app_id_ok app) "INVALID_INPUT");
  recover translate_sqlite (transaction h w (λ d,
    _ ← sql w "space";
    d ← insert_space space (SpaceRow app head 1 epoch "ready" []) d;
    Ok (d, tt))).

Definition reserve_body (w : world) (op input context nonce : bytes) (d : tables) : result tables :=
  _ ← sql w "select";
  _ ← sneed (match t_intents d !! op with Some old => bool_decide (old = input) | None => true end)
        "OPERATION_CONFLICT";
  _ ← sneed (negb (present (context, nonce) (t_nonces d))) "NONCE_REUSED";
  _ ← sneed (negb (present op (t_ledger d))) "OPERATION_ALREADY_COMMITTED";
  _ ← sql w "intent";
  let d := ignore_intent op input d in
  _ ← sql w "nonce";
  d ← insert_nonce (context, nonce) input d;
  _ ← sql w "reservation";
  insert_reservation (w_token w) op context nonce d.

Definition reserve_nonce (h : handle) (w : world) (op input context nonce : bytes) : crash (disk X) bytes :=
  _ ← lift (writable h w);
  _ ← lift (sfixed op 16); _ ← lift (sfixed input 32); _ ← lift (sfixed context 32); _ ← lift (sfixed nonce 24);
  recover translate_sqlite (
    _ ← transaction h w (λ d, d ← reserve_body w op input context nonce d; Ok (d, tt));
    mret (w_token w)).

(** ** Looking up an operation *)

Definition receipt_of (op input : bytes) (l : ledger_row) (m : commit_row) : commit_receipt :=
  CommitReceipt op input (le_commit l) (le_receipt l) (cm_store m) (cm_class m).

Definition find_operation (h : handle) (w : world) (op input : bytes) (d : tables) : result (option commit_receipt) :=
  _ ← alive h; _ ← sfixed op 16; _ ← sfixed input 32;
  _ ← catch_sqlite (sql w "lookup");
  match t_ledger d !! op with
  | None => Ok None
  | Some l =>
      _ ← sneed (bool_decide (le_input l = input)) "OPERATION_CONFLICT";
      m ← of_option (store_error "CORRUPT_STORE") (t_meta d !! op);
      Ok (Some (receipt_of op input l m))
  end.

Definition lookup_operation (h : handle) (w : world) (op input : bytes) : crash (disk X) (option commit_receipt) :=
  _ ← lift (alive h);
  _ ← idle;
  s ← read_disk;
  lift (find_operation h w op input (ds_tables s)).

(** ** Block files (fs.py) *)

(** [BlockPort.read] *)
Definition read_file (files : gmap bytes bytes) (bid : bytes) : result bytes :=
  _ ← sfixed bid 32;
  data ← of_option (store_error "BLOCK_MISSING") (files !! bid);
  _ ← sneed ((1 <=? len data) && (len data <=? BLOCK_MAX)) "BLOCK_CORRUPT";
  _ ← sneed (bool_decide (sha256 data = bid)) "BLOCK_CORRUPT";
  Ok data.

Definition read_block (h : handle) (bid : bytes) : crash (disk X) bytes :=
  _ ← lift (alive h); s ← read_disk; lift (read_file (ds_files s) bid).

(** A file that exists: its content is compared and synced again. *)
Definition republish (w : world) (i : nat) (bid data : bytes) : crash (disk X) bytes :=
  s ← read_disk;
  found ← lift (read_file (ds_files s) bid);
  _ ← lift (sneed (bool_decide (found = data)) "BLOCK_CORRUPT");
  _ ← lift (os w i "open"); _ ← lift (os w i "sync");
  _ ← lift (block_observe w i "block.after_fsync");
  _ ← lift (os w i "sync_dir");
  _ ← lift (block_observe w i "block.after_dirsync");
  mret bid.

(** A new one goes through a staging file, which is removed unless it was renamed. *)
Definition remove_staging (w : world) (i : nat) (name : string) : crash (disk X) unit :=
  s ← read_disk;
  if bool_decide (name ∈ ds_staging s) then
    _ ← lift (os w i "unlink");
    write (λ s, set_files (ds_files s) (ds_staging s ∖ {[name]}) s)
  else mret tt.

Definition publish_new (w : world) (i : nat) (bid data : bytes) : crash (disk X) bytes :=
  _ ← lift (os w i "mkstemp");
  let name := w_temp w i in
  _ ← write (λ s, set_files (ds_files s) ({[name]} ∪ ds_staging s) s);
  finally (remove_staging w i name)
    (_ ← lift (os w i "write");
     _ ← lift (block_observe w i "block.after_write");
     _ ← lift (os w i "sync");
     _ ← lift (block_observe w i "block.after_fsync");
     s ← read_disk;
     _ ← lift (sneed (negb (present bid (ds_files s))) "BLOCK_CORRUPT");
     _ ← lift (os w i "rename");
     _ ← write (λ s, set_files (<[bid := data]> (ds_files s)) (ds_staging s ∖ {[name]}) s);
     _ ← lift (block_observe w i "block.after_rename");
     _ ← lift (os w i "sync_dir");
     _ ← lift (block_observe w i "block.after_dirsync");
     mret bid).

(** [BlockPort.publish] *)
Definition publish_block (w : world) (i : nat) (data : bytes) : crash (disk X) bytes :=
  _ ← lift (bounded data BLOCK_MAX);
  let bid := sha256 data in
  s ← read_disk;
  if present bid (ds_files s) then republish w i bid data else publish_new w i bid data.

Fixpoint publish_blocks (w : world) (i : nat) (l : list bytes) : crash (disk X) (list bytes) :=
  match l with
  | [] => mret []
  | b :: l' => bid ← publish_block w i b; bids ← publish_blocks w (S i) l'; mret (bid :: bids)
  end.

(** ** Commit *)

Definition check_state (h : handle) (w : world) (p : prepared) (token : bytes) (d : tables) : result unit :=
  _ ← sql w "check";
  _ ← sneed (match t_fences d !! h_generation h with Some (t, _) => bool_decide (t = token) | None => false end)
        "FENCE_STALE";
  sp ← of_option (store_error "SPACE_NOT_READY") (t_spaces d !! p_space p);
  _ ← sneed (String.eqb (sp_state sp) "ready") "SPACE_NOT_READY";
  epoch ← u64 (p_epoch p);
  _ ← sneed (sp_epoch sp =? epoch) "EPOCH_MISMATCH";
  _ ← sneed (match t_reservations d !! p_reservation p with
             | Some r => bool_decide (rv_operation r = p_operation p) && bool_decide (rv_consumed r = None)
             | None => false
             end) "RESERVATION_MISMATCH";
  _ ← sneed (match t_intents d !! p_operation p with Some i => bool_decide (i = p_input p) | None => false end)
        "OPERATION_CONFLICT";
  match t_actors d !! (p_space p, p_object p, p_actor p) with
  | None => sneed ((p_sequence p =? 1) && bool_decide (p_previous p = None)) "ACTOR_CONFLICT"
  | Some a => sneed (bool_decide (ac_generation a = p_generation p) && (ac_sequence a + 1 =? p_sequence p)
                     && bool_decide (ac_previous a = p_previous p)) "ACTOR_CONFLICT"
  end.

Definition BLOCK_CLASS : string := "POSIX_FSYNC_CANDIDATE".
Definition STORE_CLASS : string := "POSIX_LOCAL_PROCESS_CRASH_CANDIDATE".
Definition block_path (bid : bytes) : pystr := str "blocks/" ++ hex bid.

Definition envelope_of (state : string) (p : prepared) : envelope_row :=
  EnvelopeRow (p_space p) (p_object p) (p_epoch p) (p_actor p) (p_sequence p) (p_change p) (p_envelope p) state.

Fixpoint insert_deps (eid : bytes) (l : list bytes) (d : tables) : result tables :=
  match l with [] => Ok d | x :: l' => d ← insert_dep eid x d; insert_deps eid l' d end.

Fixpoint insert_blocks (eid : bytes) (i : Z) (l : list (bytes * bytes)) (d : tables) : result tables :=
  match l with
  | [] => Ok d
  | (bid, b) :: l' =>
      d ← insert_eblock eid bid i (ignore_block bid (BlockRow (len b) (block_path bid) 1 BLOCK_CLASS) d);
      insert_blocks eid (i + 1) l' d
  end.

(** The statements of a commit. *)
Definition commit_rows (h : handle) (w : world) (state : string) (p : prepared) (eid : bytes) (bids : list bytes)
    (d : tables) : result tables :=
  _ ← sql w "commit.envelope";
  d ← insert_envelope eid (envelope_of state p) d;
  _ ← observe w "commit.after_envelope";
  _ ← sql w "commit.ledger";
  d ← insert_ledger (p_operation p) (LedgerRow (p_input p) (p_space p) eid (p_receipt p)) d;
  _ ← observe w "commit.after_ledger";
  _ ← sql w "commit.actor";
  d ← replace_actor (p_space p, p_object p, p_actor p) (ActorRow (p_generation p) (p_sequence p) (Some eid)) d;
  _ ← observe w "commit.after_actor";
  _ ← sql w "commit.catalog";
  d ← upsert_catalog (p_space p, p_object p) (CatalogRow 1 SCHEMA_DIGEST (p_cache p) 0 []) d;
  _ ← observe w "commit.after_catalog";
  _ ← sql w "commit.dependencies";
  d ← insert_deps eid (p_deps p) d;
  _ ← observe w "commit.after_dependencies";
  _ ← sql w "commit.blocks";
  d ← insert_blocks eid 0 (zip bids (p_blocks p)) d;
  _ ← observe w "commit.after_blocks";
  _ ← sql w "commit.outbox";
  d ← insert_outbox eid (OutboxRow (p_operation p) 0 None "pending") d;
  _ ← observe w "commit.after_outbox";
  _ ← sql w "commit.meta";
  fp ← fingerprint p;
  d ← insert_meta (p_operation p)
        (CommitRow fp (p_reservation p) (p_generation p) (p_previous p) (p_cache p) (h_generation h) STORE_CLASS
           (next_order d)) d;
  _ ← observe w "commit.after_meta";
  _ ← sql w "commit.nonce";
  d ← consume_reservation (p_reservation p) eid d;
  _ ← observe w "commit.after_nonce";
  Ok d.

(** Everything between BEGIN and COMMIT. *)
Definition commit_body (h : handle) (w : world) (hk : hooks X) (p : prepared) (token : bytes) (bids : list bytes)
    (d : tables) (x : X) : result (tables * X) :=
  _ ← observe w "commit.after_begin";
  _ ← hk_authorize hk d x p token;
  _ ← check_state h w p token d;
  eid ← envelope_id p;
  d ← commit_rows h w (hk_state hk) p eid bids d;
  x ← hk_record hk d x p;
  _ ← observe w "commit.before_commit";
  _ ← hk_authorize hk d x p token;
  Ok (d, x).

(** What an exception before the COMMIT becomes. *)
Definition commit_error (e : exn) : exn :=
  match e with
  | Raised cls code =>
      if String.eqb cls "StoreError" || String.eqb cls "AuthorityStoreError" || String.eqb cls "KeyboardInterrupt" || String.eqb cls "SystemExit" then e
      else if String.eqb cls "sqlite3.Error" then sqlite_error code
      else if String.eqb cls "OSError"
           then store_error (if String.eqb code "ENOSPC" then "STORAGE_FULL" else "STORAGE_IO")
      else store_error "LOCAL_ABORTED"
  | _ => store_error "LOCAL_ABORTED"
  end.

Definition outcome_unknown : exn := store_error "LOCAL_OUTCOME_UNKNOWN".

(** Up to BEGIN: the ids of the published blocks. *)
Definition commit_prepare (h : handle) (w : world) (p : prepared) (token : bytes) : crash (disk X) (list bytes) :=
  s ← read_disk;
  _ ← lift (check_state h w p token (ds_tables s));
  bids ← publish_blocks w 0 (p_blocks p);
  _ ← lift (observe w "commit.before_begin");
  s ← read_disk;
  _ ← lift (begin w s);
  mret bids.

Definition commit_new (h : handle) (w : world) (hk : hooks X) (p : prepared) (token : bytes) : crash (disk X) (option commit_receipt) :=
  bids ← recover commit_error (commit_prepare h w p token);
  s ← read_disk;
  match commit_body h w hk p token bids (ds_tables s) (ds_extra s) with
  | Err e => _ ← recover (λ _, outcome_unknown) (rollback w); raise (commit_error e)
  | Ok (d, x) =>
      recover (λ _, outcome_unknown)
        (match sql w "commit" with
         | Err e => _ ← failed_commit w d x; raise e
         | Ok _ =>
             _ ← commit_tables d x;
             _ ← lift (observe w "commit.after_commit");
             lift (find_operation h w (p_operation p) (p_input p) d)
         end)
  end.

Definition commit (h : handle) (w : world) (hk : hooks X) (p : prepared) (token : bytes) : crash (disk X) (option commit_receipt) :=
  _ ← lift (writable h w);
  _ ← lift (validate p); _ ← lift (sfixed token 16);
  old ← lookup_operation h w (p_operation p) (p_input p);
  match old with
  | Some r =>
      s ← read_disk;
      _ ← lift (sql w "commit.prepared");
      m ← lift (of_option TypeError (t_meta (ds_tables s) !! p_operation p));
      fp ← lift (fingerprint p);
      _ ← lift (sneed (bool_decide (cm_prepared m = fp)) "OPERATION_CONFLICT");
      mret (Some r)
  | None => commit_new h w hk p token
  end.

(** ** The outbox *)

Record pending_row := PendingRow {
  pd_envelope : bytes;
  pd_operation : bytes;
  pd_state : string;
  pd_attempts : Z;
  pd_bytes : bytes;
}.

Definition outbox_le (a b : bytes * outbox_row) : Prop := bytes_le a.1 b.1.
#[export] Instance outbox_le_dec a b : Decision (outbox_le a b) := decide (bytes_le a.1 b.1).

(** The pending rows joined with their envelopes, in the order of their ids. *)
Definition pending_rows (d : tables) : list pending_row :=
  omap (λ '(eid, o),
    if String.eqb (ob_state o) "pending" then
      e ← t_envelopes d !! eid;
      Some (PendingRow eid (ob_operation o) (ob_state o) (ob_attempts o) (en_bytes e))
    else None)
  (merge_sort outbox_le (map_to_list (t_outbox d))).

Definition pending (h : handle) (w : world) (limit : Z) (after : option bytes) : crash (disk X) (list pending_row) :=
  _ ← lift (alive h);
  _ ← idle;
  _ ← lift (sneed ((1 <=? limit) && (limit <=? 1024)) "INVALID_INPUT");
  _ ← lift (match after with Some a => sfixed a 32 | None => Ok tt end);
  _ ← lift (sql w "pending");
  s ← read_disk;
  mret (take (Z.to_nat limit)
    (List.filter (λ r, match after with Some a => bytes_ltb a (pd_envelope r) | None => true end)
       (pending_rows (ds_tables s)))).

Definition mark_inflight (h : handle) (w : world) (eid : bytes) : crash (disk X) unit :=
  _ ← lift (sfixed eid 32);
  transaction h w (λ d,
    _ ← sql w "outbox";
    match t_outbox d !! eid with
    | Some o =>
        _ ← sneed (String.eqb (ob_state o) "pending") "OUTBOX_STATE";
        Ok (set_outbox (<[eid := OutboxRow (ob_operation o) (ob_attempts o + 1) (ob_next o) "in-flight"]> (t_outbox d)) d, tt)
    | None => Err (store_error "OUTBOX_STATE")
    end).

(** The number of rows it changes is returned. *)
Definition recover_outbox (h : handle) (w : world) : crash (disk X) Z :=
  transaction h w (λ d,
    _ ← sql w "outbox";
    Ok (set_outbox ((λ o, if String.eqb (ob_state o) "in-flight"
                          then OutboxRow (ob_operation o) (ob_attempts o) None "pending" else o) <$> t_outbox d) d,
        len (List.filter (λ kv, String.eqb (ob_state kv.2) "in-flight") (map_to_list (t_outbox d))))).

(** ** Epochs *)

Definition rebase (d : tables) (space eid : bytes) (o : outbox_row) : outbox_row :=
  if (String.eqb (ob_state o) "pending" || String.eqb (ob_state o) "in-flight")
     && match t_envelopes d !! eid with Some e => bool_decide (en_space e = space) | None => false end
  then OutboxRow (ob_operation o) (ob_attempts o) (ob_next o) "rebase-required" else o.

Definition advance_body (w : world) (space : bytes) (expected new_epoch : Z) (head : bytes) (d : tables)
    : result tables :=
  _ ← sql w "select";
  sp ← of_option (store_error "EPOCH_MISMATCH") (t_spaces d !! space);
  _ ← sneed (sp_epoch sp =? expected) "EPOCH_MISMATCH";
  next ← u64 (sp_sequence sp + 1);
  _ ← sql w "space";
  let d := set_spaces (<[space := SpaceRow (sp_app sp) head next new_epoch (sp_state sp) (sp_metadata sp)]> (t_spaces d)) d in
  _ ← sql w "outbox";
  let d := set_outbox (map_imap (λ eid o, Some (rebase d space eid o)) (t_outbox d)) d in
  _ ← sql w "actors";
  Ok (set_actors (filter (λ kv, kv.1.1.1 ≠ space) (t_actors d)) d).

Definition advance_epoch (h : handle) (w : world) (space : bytes) (expected new_epoch : Z) (head : bytes)
    : crash (disk X) unit :=
  _ ← lift (sfixed space 32); _ ← lift (sfixed head 32);
  _ ← lift (u64 expected); _ ← lift (u64 new_epoch);
  _ ← lift (sneed (new_epoch =? expected + 1) "INVALID_INPUT");
  transaction h w (λ d, d ← advance_body w space expected new_epoch head d; Ok (d, tt)).

(** ** The audit (recovery.py) *)

(** Each table's foreign keys lead to a row. *)
Definition every_row {K A} `{Countable K} (P : K → A → bool) (m : gmap K A) : bool :=
  forallb (λ kv, P kv.1 kv.2) (map_to_list m).

Definition foreign_keys (d : tables) : bool :=
  every_row (λ k _, present k.1.1 (t_spaces d)) (t_actors d)
  && every_row (λ _ e, present (en_space e) (t_spaces d)) (t_envelopes d)
  && every_row (λ _ l, present (le_space l) (t_spaces d) && present (le_commit l) (t_envelopes d)) (t_ledger d)
  && every_row (λ k o, present k (t_envelopes d) && present (ob_operation o) (t_ledger d)) (t_outbox d)
  && forallb (λ k, present k.1 (t_envelopes d)) (elements (t_deps d))
  && every_row (λ k _, present k.1 (t_spaces d)) (t_catalog d)
  && every_row (λ _ r, present (rv_operation r) (t_intents d) && present (rv_context r, rv_nonce r) (t_nonces d)
                       && match rv_consumed r with Some e => present e (t_envelopes d) | None => true end)
       (t_reservations d)
  && every_row (λ k m, present k (t_ledger d) && present (cm_reservation m) (t_reservations d)) (t_meta d)
  && every_row (λ k _, present k.1 (t_envelopes d) && present k.2 (t_blocks d)) (t_eblocks d).

(** [errors.append(code)] unless the condition holds. *)
Definition expect (ok : bool) (code : string) : list string := if ok then [] else [code].
(** The code of a [StoreError] that is caught; any other exception ends the audit. *)
Definition caught (r : result (list string)) : result (list string) :=
  match r with
  | Err (Raised cls code) => if String.eqb cls "StoreError" then Ok [code] else Err (Raised cls code)
  | r => r
  end.

(** [SELECT ... WHERE commit_id=?] *)
Definition ledger_of (eid : bytes) (d : tables) : option (bytes * ledger_row) :=
  List.find (λ kv, bool_decide (le_commit kv.2 = eid)) (map_to_list (t_ledger d)).

Definition deps_of (eid : bytes) (d : tables) : list bytes :=
  sorted_bytes ((List.filter (λ k, bool_decide (k.1 = eid)) (elements (t_deps d))).*2).

Definition position_le (a b : bytes * bytes * Z) : Prop := a.2 <= b.2.
#[export] Instance position_le_dec a b : Decision (position_le a b) := decide (a.2 <= b.2).

(** The block ids of an envelope, by position. *)
Definition block_ids_of (eid : bytes) (d : tables) : list bytes :=
  (λ kv : bytes * bytes * Z, kv.1.2) <$>
    merge_sort position_le
      (List.filter (λ kv, bool_decide (kv.1.1 = eid)) (map_to_list (t_eblocks d))).

(** The commit that the rows describe. *)
Definition recorded_commit (d : tables) (op : bytes) (l : ledger_row) (e : envelope_row) (m : commit_row)
    (eid : bytes) (blocks : list bytes) : prepared :=
  Prepared op (le_input l) (en_space e) (en_object e) (en_actor e) (cm_generation m) (en_epoch e) (en_sequence e)
    (cm_previous m) (en_change e) (cm_reservation m) (en_bytes e) (cm_cache m) (le_receipt l) (deps_of eid d) blocks.

Definition read_error (r : result bytes) : list string :=
  match r with Err (Raised _ code) => [code] | Err _ => ["CORRUPT_STORE"] | Ok _ => [] end.

(** The errors of one envelope, in the order they are found; an [Err] is an exception that is
    not caught here. *)
Definition audit_envelope (d : tables) (files : gmap bytes bytes) (eid : bytes) (e : envelope_row)
    : list (result (list string)) :=
  match ledger_of eid d with
  | None => [Ok ["LEDGER_MISSING"]]
  | Some (op, l) =>
      match t_meta d !! op, t_outbox d !! eid with
      | Some m, Some o =>
          if bool_decide (ob_operation o = op) then
            let nr := t_reservations d !! cm_reservation m in
            let reads := read_file files <$> block_ids_of eid d in
            let blocks := omap (λ r, match r with Ok b => Some b | Err _ => None end) reads in
            let p := recorded_commit d op l e m eid blocks in
            [Ok (expect (match nr with
                         | Some r => bool_decide (rv_consumed r = Some eid) && bool_decide (rv_operation r = op)
                         | None => false end) "NONCE_BINDING");
             Ok (expect (bool_decide (t_intents d !! op = Some (le_input l))) "INTENT_BINDING");
             Ok (match nr with
                 | Some r => expect (bool_decide (t_nonces d !! (rv_context r, rv_nonce r) = Some (le_input l)))
                               "NONCE_INPUT_BINDING"
                 | None => [] end);
             Ok (expect (bool_decide (le_space l = en_space e)) "SPACE_BINDING");
             Ok (reads ≫= read_error);
             caught (_ ← validate p;
                     id ← envelope_id p;
                     fp ← fingerprint p;
                     Ok (expect (bool_decide (id = eid)) "ENVELOPE_HASH"
                         ++ expect (bool_decide (fp = cm_prepared m)) "PREPARED_HASH"))]
          else [Ok ["ATOMIC_SET_MISSING"]]
      | _, _ => [Ok ["ATOMIC_SET_MISSING"]]
      end
  end.

Definition audit_block (files : gmap bytes bytes) (bid : bytes) (b : block_row) : list string :=
  if bool_decide (bk_path b = block_path bid) && (bk_published b =? 1) then
    match read_file files bid with
    | Ok data => expect (len data =? bk_size b) "BLOCK_SIZE"
    | r => read_error r
    end
  else ["BLOCK_PATH"].

(** The join of the commits with their Spaces, in commit order. *)
Record commit_view := CommitView { cv_id : bytes; cv_envelope : envelope_row; cv_meta : commit_row; cv_space : space_row }.

Definition order_le (a b : commit_view) : Prop := cm_order (cv_meta a) <= cm_order (cv_meta b).
#[export] Instance order_le_dec a b : Decision (order_le a b) :=
  decide (cm_order (cv_meta a) <= cm_order (cv_meta b)).

Definition commit_views (d : tables) : list commit_view :=
  merge_sort order_le
    (omap (λ '(op, l),
       e ← t_envelopes d !! le_commit l;
       m ← t_meta d !! op;
       s ← t_spaces d !! en_space e;
       Some (CommitView (le_commit l) e m s)) (map_to_list (t_ledger d))).

Definition expected_catalog (l : list commit_view) : gmap (bytes * bytes) bytes :=
  fold_left (λ m v, <[(en_space (cv_envelope v), en_object (cv_envelope v)) := cm_cache (cv_meta v)]> m) l ∅.

Definition expected_actors (l : list commit_view) : gmap (bytes * bytes * bytes) actor_row :=
  fold_left (λ m v,
    let e := cv_envelope v in
    if en_epoch e =? sp_epoch (cv_space v)
    then <[(en_space e, en_object e, en_actor e) :=
             ActorRow (cm_generation (cv_meta v)) (en_sequence e) (Some (cv_id v))]> m
    else m) l ∅.

Definition audit_steps (w : world) (d : tables) (files : gmap bytes bytes) : list (result (list string)) :=
  let n := size (t_envelopes d) in
  [Ok (expect (w_schema w) "SCHEMA_MISMATCH");
   Ok (expect (w_quick_check w) "SQLITE_INTEGRITY");
   Ok (expect (foreign_keys d) "FOREIGN_KEYS");
   Ok (expect (Nat.eqb (size (t_ledger d)) n) "COUNT_commit_ledger");
   Ok (expect (Nat.eqb (size (t_meta d)) n) "COUNT_local_commit_meta");
   Ok (expect (Nat.eqb (size (t_outbox d)) n) "COUNT_outbox")]
  ++ (map_to_list (t_envelopes d) ≫= λ kv, audit_envelope d files kv.1 kv.2)
  ++ ((λ kv, Ok (audit_block files kv.1 kv.2)) <$> map_to_list (t_blocks d))
  ++ [Ok (expect (bool_decide (t_actors d = expected_actors (commit_views d))) "ACTOR_STATE");
      Ok (expect (bool_decide (ct_ref <$> t_catalog d = expected_catalog (commit_views d))) "CACHE_REFERENCE")].

(** The errors up to the first exception, which adds its own. *)
Fixpoint collect (l : list (result (list string))) : list string :=
  match l with
  | [] => []
  | Ok errors :: l' => errors ++ collect l'
  | Err _ :: _ => ["CORRUPT_STORE"]
  end.

(** [audit]: the codes of the errors ([valid] is that there are none); the code sorts them
    and drops repetitions. *)
Definition audit (h : handle) (w : world) : crash (disk X) (list string) :=
  _ ← lift (alive h);
  s ← read_disk;
  if ds_in_tx s then mret ["AUDIT_DURING_TRANSACTION"]
  else mret (match sql w "begin" with
             | Err _ => ["CORRUPT_STORE"]
             | Ok _ => collect (audit_steps w (ds_tables s) (ds_files s))
             end).

(** ** Collecting orphans *)

Fixpoint remove_files (w : world) (i : nat) (l : list bytes) : crash (disk X) unit :=
  match l with
  | [] => mret tt
  | bid :: l' =>
      _ ← lift (os w i "unlink");
      _ ← write (λ s, set_files (delete bid (ds_files s)) (ds_staging s) s);
      remove_files w (S i) l'
  end.

Fixpoint remove_names (w : world) (i : nat) (l : list string) : crash (disk X) unit :=
  match l with
  | [] => mret tt
  | name :: l' =>
      _ ← lift (os w i "unlink");
      _ ← write (λ s, set_files (ds_files s) (ds_staging s ∖ {[name]}) s);
      remove_names w (S i) l'
  end.

(** The removed blocks and staging names; the directories hold only what the store put there. *)
Definition collect_orphans (h : handle) (w : world) : crash (disk X) (list bytes * list string) :=
  _ ← lift (writable h w);
  errors ← audit h w;
  _ ← lift (sneed (bool_decide (errors = [])) "CORRUPT_STORE");
  s ← read_disk;
  let orphans := List.filter (λ bid, negb (present bid (t_blocks (ds_tables s)))) (map_to_list (ds_files s)).*1 in
  let names := elements (ds_staging s) in
  _ ← remove_files w 0 orphans;
  _ ← remove_names w (length orphans) names;
  _ ← lift (os w 0 "sync_dir");
  mret (orphans, names).
End Store.
