(* ===== verification/StoreSpec.v ===== *)
(** * The transactional store is a log of commits

    [represents] relates the tables and block files to the list of the commits made, newest
    first: every table is a function of that list, but for the fences, the Spaces, the issued
    nonces and the delivery states of the outbox.  The body of a commit adds one entry; the
    other transactions keep the list. *)

From S2P Require Import Prelude Bytes Value Codec Hash Objects Json Crash Store StoreOps.
Local Open Scope Z_scope.

Record entry := Entry { l_p : prepared; l_id : bytes; l_fp : bytes; l_state : string }.
Definition l_op (e : entry) : bytes := p_operation (l_p e).

Section Spec.
Context `{Hash}.

Definition made (e : entry) : Prop :=
  validate (l_p e) = Ok tt ∧ envelope_id (l_p e) = Ok (l_id e) ∧ fingerprint (l_p e) = Ok (l_fp e).

(** ** The tables as functions of the log *)

Definition actor_key (e : entry) : bytes * bytes * bytes := (p_space (l_p e), p_object (l_p e), p_actor (l_p e)).
Definition object_key (e : entry) : bytes * bytes := (p_space (l_p e), p_object (l_p e)).

Definition ledger_row_of (e : entry) : ledger_row :=
  LedgerRow (p_input (l_p e)) (p_space (l_p e)) (l_id e) (p_receipt (l_p e)).
Definition actor_of (e : entry) : actor_row :=
  ActorRow (p_generation (l_p e)) (p_sequence (l_p e)) (Some (l_id e)).
Definition catalog_of (e : entry) : catalog_row := CatalogRow 1 SCHEMA_DIGEST (p_cache (l_p e)) 0 [].
Definition commit_row_of (gen : bytes) (order : Z) (e : entry) : commit_row :=
  CommitRow (l_fp e) (p_reservation (l_p e)) (p_generation (l_p e)) (p_previous (l_p e)) (p_cache (l_p e)) gen
    STORE_CLASS order.
Definition block_row_of (b : bytes) : block_row := BlockRow (len b) (block_path (sha256 b)) 1 BLOCK_CLASS.

Fixpoint metas (gen : bytes) (l : list entry) : gmap bytes commit_row :=
  match l with
  | [] => ∅
  | e :: l' => <[l_op e := commit_row_of gen (len l' + 1) e]> (metas gen l')
  end.

(** The commits of the Space's present epoch. *)
Definition current (spaces : gmap bytes space_row) (e : entry) : bool :=
  match spaces !! p_space (l_p e) with Some s => p_epoch (l_p e) =? sp_epoch s | None => false end.

(** Commits of one author to one object in one epoch follow each other. *)
Definition same_chain (e e' : entry) : bool :=
  bool_decide (actor_key e = actor_key e') && (p_epoch (l_p e) =? p_epoch (l_p e')).

Fixpoint chained (l : list entry) : Prop :=
  match l with
  | [] => True
  | e :: l' =>
      match List.find (same_chain e) l' with
      | None => p_sequence (l_p e) = 1 ∧ p_previous (l_p e) = None
      | Some e' => p_generation (l_p e) = p_generation (l_p e') ∧ p_sequence (l_p e) = p_sequence (l_p e') + 1 ∧
                   p_previous (l_p e) = Some (l_id e')
      end ∧ chained l'
  end.

Record represents (gen : bytes) (l : list entry) (d : tables) (files : gmap bytes bytes) : Prop := {
  rp_made : Forall made l;
  rp_ids : NoDup (l_id <$> l);
  rp_ops : NoDup (l_op <$> l);
  rp_chain : chained l;
  rp_envelopes : t_envelopes d = list_to_map ((λ e, (l_id e, envelope_of (l_state e) (l_p e))) <$> l);
  rp_ledger : t_ledger d = list_to_map ((λ e, (l_op e, ledger_row_of e)) <$> l);
  rp_meta : t_meta d = metas gen l;
  rp_actors : t_actors d = list_to_map ((λ e, (actor_key e, actor_of e)) <$> List.filter (current (t_spaces d)) l);
  rp_catalog : t_catalog d = list_to_map ((λ e, (object_key e, catalog_of e)) <$> l);
  rp_deps : ∀ eid x, (eid, x) ∈ t_deps d ↔ ∃ e, e ∈ l ∧ l_id e = eid ∧ x ∈ p_deps (l_p e);
  rp_eblocks : ∀ eid bid i, t_eblocks d !! (eid, bid) = Some i ↔
    ∃ e, e ∈ l ∧ l_id e = eid ∧ 0 <= i ∧ (sha256 <$> p_blocks (l_p e)) !! Z.to_nat i = Some bid;
  rp_outbox : ob_operation <$> t_outbox d = list_to_map ((λ e, (l_id e, l_op e)) <$> l);
  rp_spaces : ∀ e, e ∈ l → ∃ s, t_spaces d !! p_space (l_p e) = Some s ∧ p_epoch (l_p e) <= sp_epoch s;
  rp_intents : ∀ e, e ∈ l → t_intents d !! l_op e = Some (p_input (l_p e));
  rp_consumed : ∀ e, e ∈ l → ∃ r, t_reservations d !! p_reservation (l_p e) = Some r ∧
    rv_operation r = l_op e ∧ rv_consumed r = Some (l_id e);
  rp_reservations : ∀ rid r, t_reservations d !! rid = Some r → ∃ input,
    t_intents d !! rv_operation r = Some input ∧ t_nonces d !! (rv_context r, rv_nonce r) = Some input ∧
    (∀ eid, rv_consumed r = Some eid → ∃ e, e ∈ l ∧ l_id e = eid ∧ p_reservation (l_p e) = rid);
  rp_nonces : ∀ rid rid' r r', t_reservations d !! rid = Some r → t_reservations d !! rid' = Some r' →
    (rv_context r, rv_nonce r) = (rv_context r', rv_nonce r') → rid = rid';
  rp_blocks : ∀ bid r, t_blocks d !! bid = Some r →
    ∃ b, files !! bid = Some b ∧ bid = sha256 b ∧ 1 <= len b <= BLOCK_MAX ∧ r = block_row_of b;
  rp_published : ∀ e b, e ∈ l → b ∈ p_blocks (l_p e) → is_Some (t_blocks d !! sha256 b) ∧ files !! sha256 b = Some b;
}.

(** ** Lookups *)

Lemma log_lookup {B} (k : entry → bytes) (f : entry → B) l e :
  NoDup (k <$> l) → e ∈ l → (list_to_map ((λ e, (k e, f e)) <$> l) : gmap bytes B) !! k e = Some (f e).
Proof.
  intros Hn He. apply elem_of_list_to_map_1.
  - by rewrite <-list_fmap_compose.
  - apply list_elem_of_fmap. by exists e.
Qed.

Lemma log_lookup_inv {B} (k : entry → bytes) (f : entry → B) l x y :
  (list_to_map ((λ e, (k e, f e)) <$> l) : gmap bytes B) !! x = Some y → ∃ e, e ∈ l ∧ k e = x ∧ f e = y.
Proof. intros (e & [= -> ->] & He)%elem_of_list_to_map_2%list_elem_of_fmap. by exists e. Qed.

Lemma log_lookup_none {B} (k : entry → bytes) (f : entry → B) l x :
  (list_to_map ((λ e, (k e, f e)) <$> l) : gmap bytes B) !! x = None ↔ x ∉ k <$> l.
Proof. by rewrite <-not_elem_of_list_to_map, <-list_fmap_compose. Qed.

Lemma metas_lookup gen l e :
  NoDup (l_op <$> l) → e ∈ l → ∃ pre post, l = pre ++ e :: post ∧
    metas gen l !! l_op e = Some (commit_row_of gen (len post + 1) e).
Proof.
  induction l as [|x l IH]; [by intros _ ?%not_elem_of_nil|]. cbn.
  intros [Hx Hn]%NoDup_cons [->|He]%elem_of_cons.
  - exists [], l. split; [done|]. by rewrite lookup_insert_eq.
  - destruct (IH Hn He) as (pre & post & -> & Hl). exists (x :: pre), post. split; [done|].
    rewrite lookup_insert_ne; [done|]. intros E. apply Hx. rewrite E. apply list_elem_of_fmap. by exists e.
Qed.

Lemma metas_lookup_inv gen l op m :
  metas gen l !! op = Some m → ∃ pre e post, l = pre ++ e :: post ∧ l_op e = op ∧ m = commit_row_of gen (len post + 1) e.
Proof.
  induction l as [|x l IH]; cbn; [by rewrite lookup_empty|].
  destruct (decide (l_op x = op)) as [<-|Hne].
  - rewrite lookup_insert_eq. intros [= <-]. by exists [], x, l.
  - rewrite lookup_insert_ne by done. intros (pre & e & post & -> & Ho & ->)%IH. by exists (x :: pre), e, post.
Qed.

Lemma metas_dom gen l : dom (metas gen l) = list_to_set (l_op <$> l).
Proof. induction l as [|e l IH]; cbn; [by rewrite dom_empty_L|]. by rewrite dom_insert_L, IH. Qed.

Lemma chained_app pre l : chained (pre ++ l) → chained l.
Proof. induction pre as [|e pre IH]; [done|]. cbn. by intros [_ ?%IH]. Qed.
(** ** Statements *)

Lemma present_true {K A} `{Countable K} (k : K) (m : gmap K A) : present k m = true ↔ is_Some (m !! k).
Proof. apply bool_decide_eq_true. Qed.
Lemma present_false {K A} `{Countable K} (k : K) (m : gmap K A) : negb (present k m) = true ↔ m !! k = None.
Proof. unfold present. rewrite negb_true_iff, bool_decide_eq_false. symmetry. apply eq_None_not_Some. Qed.

Lemma some_row_false {K A} `{Countable K} (P : A → bool) (m : gmap K A) :
  negb (some_row P m) = true → ∀ k x, m !! k = Some x → P x = false.
Proof.
  unfold some_row. rewrite negb_true_iff. intros Hf k x Hx.
  destruct (P x) eqn:E; [|done]. assert (existsb (λ kv : K * A, P kv.2) (map_to_list m) = true); [|congruence].
  apply existsb_exists. exists (k, x). split; [|done]. by apply list_elem_of_In, elem_of_map_to_list.
Qed.

(** A successful statement: its constraints hold, and the tables change as written. *)
Ltac statement E :=
  unfold constraint in E;
  repeat match type of E with
    | (_ ≫= _) = Ok _ => let C := fresh "C" in apply bind_Ok in E as ([] & C%require_Ok & E)
    end;
  repeat match goal with
    | C : _ && _ = true |- _ => apply andb_true_iff in C as [? ?]
    | C : negb (present _ _) = true |- _ => apply present_false in C
    | C : present _ _ = true |- _ => apply present_true in C
    end;
  injection E as <-.

Lemma insert_deps_Ok eid l d d' :
  insert_deps eid l d = Ok d' →
  d' = set_deps (list_to_set ((λ x, (eid, x)) <$> l) ∪ t_deps d) d.
Proof.
  revert d. induction l as [|x l IH]; intros d E; cbn in E.
  - injection E as <-. cbn. rewrite (left_id_L ∅ (∪)). by destruct d.
  - apply bind_Ok in E as (d1 & E1 & E). unfold insert_dep in E1. statement E1.
    apply IH in E. rewrite E. unfold set_deps; cbn. f_equal. set_solver.
Qed.

Lemma ignore_block_cases bid r d :
  ignore_block bid r d = set_blocks (t_blocks (ignore_block bid r d)) (t_eblocks d) d ∧
  (∀ k b, t_blocks d !! k = Some b → t_blocks (ignore_block bid r d) !! k = Some b) ∧
  (∀ k b, t_blocks (ignore_block bid r d) !! k = Some b → t_blocks d !! k = Some b ∨ (k = bid ∧ b = r)).
Proof.
  unfold ignore_block. destruct (present bid (t_blocks d) || _) eqn:E; [by destruct d; auto|].
  apply orb_false_iff in E as [E _]. assert (t_blocks d !! bid = None) as Hn.
  { apply present_false. by rewrite E. }
  split; [done|]. cbn. split.
  - intros k b Hk. rewrite lookup_insert_ne; [done|]. congruence.
  - intros k b [[<- <-]|[_ ?]]%lookup_insert_Some; auto.
Qed.

Lemma lookup_cons_Z {A} (x y : A) l i j :
  i <= j → (x :: l) !! Z.to_nat (j - i) = Some y ↔ (i = j ∧ x = y) ∨ (i + 1 <= j ∧ l !! Z.to_nat (j - (i + 1)) = Some y).
Proof.
  intros Hj. destruct (decide (i = j)) as [->|Hne].
  - rewrite Z.sub_diag. cbn. split; [naive_solver|]. intros [[_ ->]|[? _]]; [done|lia].
  - replace (Z.to_nat (j - i)) with (S (Z.to_nat (j - (i + 1)))) by lia. cbn.
    split; [right; split; [lia|done]|]. intros [[? _]|[_ ?]]; [done|done].
Qed.

Lemma insert_blocks_Ok eid i l d d' :
  insert_blocks eid i l d = Ok d' → 0 <= i →
  d' = set_blocks (t_blocks d') (t_eblocks d') d ∧
  (∀ k b, t_blocks d !! k = Some b → t_blocks d' !! k = Some b) ∧
  (∀ k r, t_blocks d' !! k = Some r → t_blocks d !! k = Some r ∨
     ∃ b, (k, b) ∈ l ∧ r = BlockRow (len b) (block_path k) 1 BLOCK_CLASS) ∧
  (∀ k b, (k, b) ∈ l → is_Some (t_blocks d' !! k)) ∧
  (∀ x k j, t_eblocks d' !! (x, k) = Some j ↔
     t_eblocks d !! (x, k) = Some j ∨ (x = eid ∧ i <= j ∧ l.*1 !! Z.to_nat (j - i) = Some k)).
Proof.
  revert i d. induction l as [|[bid b] l IH]; intros i d E Hi; cbn [insert_blocks] in E.
  - injection E as <-. split_and!; [by destruct d|auto|auto|by intros ? ? ?%not_elem_of_nil|].
    intros x k j. split; [auto|]. intros [?|(_ & _ & Hl)]; [done|]. cbn in Hl. by rewrite lookup_nil in Hl.
  - apply bind_Ok in E as (d1 & E1 & E). unfold insert_eblock in E1. statement E1.
    set (row := BlockRow (len b) (block_path bid) 1 BLOCK_CLASS) in *.
    destruct (ignore_block_cases bid row d) as (Hd & Hkeep & Hnew). set (dm := ignore_block bid row d) in *.
    apply IH in E as (E & Hk & Hr & Hp & He); [|lia]. cbn in Hk, Hr, He.
    clearbody dm. assert (t_eblocks dm = t_eblocks d) as Heb by (rewrite Hd; done).
    split_and!.
    + rewrite E at 1. rewrite Hd. done.
    + intros k r Hkr. by apply Hk, Hkeep.
    + intros k r [Hkr|(c & Hc & ->)]%Hr; [|right; exists c; split; [by right|done]].
      destruct (Hnew k r Hkr) as [|[-> ->]]; [by left|]. right. exists b. split; [by left|done].
    + intros k c [[= -> ->]|Hc]%elem_of_cons; [|by eapply Hp].
      destruct (t_blocks dm !! bid) as [r|] eqn:Er; [|by destruct H1].
      eexists. by eapply Hk.
    + intros x k j. rewrite He, lookup_insert_Some, Heb. cbn.
      split.
      * intros [[[[= <- <-] <-]|[_ ?]]|(-> & Hj & Hl)]; [right|by left|right].
        -- split; [done|]. split; [lia|]. apply (lookup_cons_Z bid bid l.*1); [lia|by left].
        -- split; [done|]. split; [lia|]. apply (lookup_cons_Z bid k l.*1); [lia|by right].
      * intros [Hold|(-> & Hj & [[<- <-]|[Hj' Hl]]%lookup_cons_Z)]; [|by left; left|by right|done].
        left. right. split; [|done]. intros [= <- <-]. rewrite Heb in *. congruence.
Qed.
(** ** A commit *)

(** The tables after the commit of [p], in a database whose blocks become [blocks] and
    [eblocks]. *)
Definition committed (gen : bytes) (e : entry) (r : reservation_row) blocks eblocks (d : tables) : tables :=
  let p := l_p e in
  Tables (t_fences d) (t_spaces d) (t_intents d) (t_nonces d)
    (<[p_reservation p := ReservationRow (rv_operation r) (rv_context r) (rv_nonce r) (Some (l_id e))]> (t_reservations d))
    (<[l_id e := envelope_of (l_state e) p]> (t_envelopes d)) (<[l_op e := ledger_row_of e]> (t_ledger d))
    (<[actor_key e := actor_of e]> (t_actors d))
    (<[object_key e := match t_catalog d !! object_key e with
                       | Some x => CatalogRow (ct_kind x) (ct_schema x) (p_cache p) (ct_tombstone x) (ct_frontier x)
                       | None => catalog_of e
                       end]> (t_catalog d))
    (list_to_set ((λ x, (l_id e, x)) <$> p_deps p) ∪ t_deps d) blocks eblocks
    (<[l_id e := OutboxRow (l_op e) 0 None "pending"]> (t_outbox d))
    (<[l_op e := commit_row_of gen (next_order d) e]> (t_meta d)).

Lemma consume_reservation_Ok rid eid d d' r :
  t_reservations d !! rid = Some r → consume_reservation rid eid d = Ok d' →
  d' = set_issue (t_intents d) (t_nonces d)
         (<[rid := ReservationRow (rv_operation r) (rv_context r) (rv_nonce r) (Some eid)]> (t_reservations d)) d.
Proof. unfold consume_reservation. intros -> E. by statement E. Qed.

(** The guards of a commit, around its statements. *)
Lemma commit_body_guards {X} h w (hk : hooks X) p token bids d x d' x' :
  commit_body h w hk p token bids d x = Ok (d', x') →
  ∃ eid, hk_authorize hk d x p token = Ok tt ∧ check_state h w p token d = Ok tt ∧ envelope_id p = Ok eid ∧
    commit_rows h w (hk_state hk) p eid bids d = Ok d' ∧ hk_record hk d' x p = Ok x' ∧
    hk_authorize hk d' x' p token = Ok tt.
Proof.
  unfold commit_body. intros ([] & _ & E)%bind_Ok.
  apply bind_Ok in E as ([] & H1 & E). apply bind_Ok in E as ([] & H2 & E). apply bind_Ok in E as (eid & H3 & E).
  apply bind_Ok in E as (d1 & H4 & E). apply bind_Ok in E as (x1 & H5 & E). apply bind_Ok in E as ([] & _ & E).
  apply bind_Ok in E as ([] & H6 & E). injection E as -> ->. by exists eid.
Qed.

Lemma commit_rows_Ok h w state p eid bids d d' :
  commit_rows h w state p eid bids d = Ok d' → is_Some (t_reservations d !! p_reservation p) →
  ∃ fp r blocks eblocks, let e := Entry p eid fp state in
    fingerprint p = Ok fp ∧
    t_reservations d !! p_reservation p = Some r ∧
    t_envelopes d !! eid = None ∧ t_ledger d !! p_operation p = None ∧
    (∀ op m, t_meta d !! op = Some m → cm_reservation m ≠ p_reservation p) ∧
    d' = committed (h_generation h) e r blocks eblocks d ∧
    (∀ k b, t_blocks d !! k = Some b → blocks !! k = Some b) ∧
    (∀ k r, blocks !! k = Some r → t_blocks d !! k = Some r ∨
       ∃ b, (k, b) ∈ zip bids (p_blocks p) ∧ r = BlockRow (len b) (block_path k) 1 BLOCK_CLASS) ∧
    (∀ k b, (k, b) ∈ zip bids (p_blocks p) → is_Some (blocks !! k)) ∧
    (∀ x k j, eblocks !! (x, k) = Some j ↔
       t_eblocks d !! (x, k) = Some j ∨ (x = eid ∧ 0 <= j ∧ (zip bids (p_blocks p)).*1 !! Z.to_nat j = Some k)).
Proof.
  unfold commit_rows. intros E Hres.
  apply bind_Ok in E as ([] & _ & E). apply bind_Ok in E as (d1 & E1 & E). apply bind_Ok in E as ([] & _ & E).
  apply bind_Ok in E as ([] & _ & E). apply bind_Ok in E as (d2 & E2 & E). apply bind_Ok in E as ([] & _ & E).
  apply bind_Ok in E as ([] & _ & E). apply bind_Ok in E as (d3 & E3 & E). apply bind_Ok in E as ([] & _ & E).
  apply bind_Ok in E as ([] & _ & E). apply bind_Ok in E as (d4 & E4 & E). apply bind_Ok in E as ([] & _ & E).
  apply bind_Ok in E as ([] & _ & E). apply bind_Ok in E as (d5 & E5 & E). apply bind_Ok in E as ([] & _ & E).
  apply bind_Ok in E as ([] & _ & E). apply bind_Ok in E as (d6 & E6 & E). apply bind_Ok in E as ([] & _ & E).
  apply bind_Ok in E as ([] & _ & E). apply bind_Ok in E as (d7 & E7 & E). apply bind_Ok in E as ([] & _ & E).
  apply bind_Ok in E as ([] & _ & E). apply bind_Ok in E as (fp & Hfp & E).
  apply bind_Ok in E as (d8 & E8 & E). apply bind_Ok in E as ([] & _ & E).
  apply bind_Ok in E as ([] & _ & E). apply bind_Ok in E as (d9 & E9 & E).
  apply bind_Ok in E as ([] & _ & E). injection E as <-.
  unfold insert_envelope in E1. statement E1. unfold insert_ledger in E2. statement E2.
  unfold replace_actor in E3. statement E3. unfold upsert_catalog in E4. statement E4.
  apply insert_deps_Ok in E5 as ->.
  apply insert_blocks_Ok in E6 as (E6 & Hb1 & Hb2 & Hb3 & Hb4); [|lia].
  unfold insert_outbox in E7. statement E7. unfold insert_meta in E8. statement E8.
  revert E6 Hb1 Hb2 Hb3 Hb4. generalize (t_blocks d6) (t_eblocks d6). intros blocks eblocks -> Hb1 Hb2 Hb3 Hb4.
  destruct Hres as [r Hr]. apply (consume_reservation_Ok _ _ _ _ r) in E9; [|exact Hr]. subst d9.
  exists fp, r, blocks, eblocks. cbv zeta. split; [exact Hfp|]. split; [exact Hr|].
  split; [match goal with Hs : t_envelopes d !! _ = None |- _ => exact Hs end|].
  split; [match goal with Hs : t_ledger _ !! _ = None |- _ => exact Hs end|].
  split.
  { intros op m Hm. match goal with Hs : negb (some_row _ (t_meta _)) = true |- _ =>
      pose proof (some_row_false _ _ Hs op m Hm) as Hd end.
    apply orb_false_iff in Hd as [Hd _]. by apply bool_decide_eq_false in Hd. }
  split; [reflexivity|]. split; [exact Hb1|]. split; [exact Hb2|]. split; [exact Hb3|].
  intros x k j. rewrite Hb4, Z.sub_0_r. done.
Qed.
Lemma check_state_Ok h w p token d :
  check_state h w p token d = Ok tt →
  (∃ owner, t_fences d !! h_generation h = Some (token, owner)) ∧
  (∃ s, t_spaces d !! p_space p = Some s ∧ sp_epoch s = p_epoch p) ∧
  (∃ r, t_reservations d !! p_reservation p = Some r ∧ rv_operation r = p_operation p ∧ rv_consumed r = None) ∧
  t_intents d !! p_operation p = Some (p_input p) ∧
  match t_actors d !! (p_space p, p_object p, p_actor p) with
  | None => p_sequence p = 1 ∧ p_previous p = None
  | Some a => ac_generation a = p_generation p ∧ ac_sequence a + 1 = p_sequence p ∧ ac_previous a = p_previous p
  end.
Proof.
  unfold check_state, u64. intros ([] & _ & E)%bind_Ok.
  apply bind_Ok in E as ([] & Ef%require_Ok & E). apply bind_Ok in E as (s & Es & E).
  apply bind_Ok in E as ([] & _ & E). apply bind_Ok in E as (ep & ([] & _ & [= <-])%bind_Ok & E).
  apply bind_Ok in E as ([] & Ee%require_Ok & E). apply bind_Ok in E as ([] & Er%require_Ok & E).
  apply bind_Ok in E as ([] & Ei%require_Ok & E).
  split; [|split; [|split; [|split]]].
  - destruct (t_fences d !! _) as [[t o]|]; [|done]. apply bool_decide_eq_true in Ef as ->. by exists o.
  - destruct (t_spaces d !! _) as [s'|]; [|done]. injection Es as ->. exists s. split; [done|lia].
  - destruct (t_reservations d !! _) as [r|]; [|done]. apply andb_true_iff in Er as [E1 E2].
    apply bool_decide_eq_true in E1, E2. by exists r.
  - destruct (t_intents d !! _) as [i|]; [|done]. by apply bool_decide_eq_true in Ei as ->.
  - destruct (t_actors d !! _) as [a|]; apply require_Ok in E.
    + apply andb_true_iff in E as [E E3]. apply andb_true_iff in E as [E1 E2].
      apply bool_decide_eq_true in E1, E3. split_and!; [done|lia|done].
    + apply andb_true_iff in E as [E1 E2]. apply bool_decide_eq_true in E2. split; [lia|done].
Qed.

Lemma validate_blocks p : validate p = Ok tt → ∀ b, b ∈ p_blocks p → 1 <= len b <= BLOCK_MAX.
Proof.
  unfold validate. intros E b Hb.
  repeat apply bind_Ok in E as (? & ? & E). repeat match goal with u : unit |- _ => destruct u end.
  match goal with Hi : iter (λ v _, bounded v BLOCK_MAX) _ _ = Ok _ |- _ => rewrite iter_check in Hi;
    specialize (Hi b Hb); apply require_Ok in Hi end. lia.
Qed.

(** The first entry with a key. *)
Lemma log_find {K B} `{Countable K} (k : entry → K) (f : entry → B) (P : entry → bool) l x :
  (list_to_map ((λ e, (k e, f e)) <$> List.filter P l) : gmap K B) !! x =
  f <$> List.find (λ e, P e && bool_decide (k e = x)) l.
Proof.
  induction l as [|e l IH]; [done|]. cbn. destruct (P e); cbn; [|exact IH].
  destruct (decide (k e = x)) as [<-|Hne].
  - by rewrite lookup_insert_eq, bool_decide_true.
  - by rewrite lookup_insert_ne, bool_decide_false.
Qed.

Lemma find_ext_in {A} (P Q : A → bool) l : (∀ x, x ∈ l → P x = Q x) → List.find P l = List.find Q l.
Proof.
  induction l as [|x l IH]; intros Heq; [done|]. cbn. rewrite (Heq x) by by left.
  rewrite IH; [done|]. intros y Hy. apply Heq. by right.
Qed.

Lemma find_false {A} (l : list A) : List.find (λ _, false) l = None.
Proof. by induction l. Qed.

(** The actor's row is the last commit of its chain. *)
Lemma actors_find gen l d files e s :
  represents gen l d files → t_spaces d !! p_space (l_p e) = Some s → sp_epoch s = p_epoch (l_p e) →
  t_actors d !! actor_key e = actor_of <$> List.find (same_chain e) l.
Proof.
  intros R Hs He. rewrite (rp_actors _ _ _ _ R), log_find. f_equal. apply find_ext_in.
  intros x _. unfold same_chain, current. rewrite andb_comm.
  rewrite (bool_decide_ext (actor_key x = actor_key e) (actor_key e = actor_key x)) by done.
  case_bool_decide as Hk; [|done]. cbn. injection Hk as Hk _ _. rewrite <-Hk, Hs, <-He. apply Z.eqb_sym.
Qed.

Lemma max_order gen l : fold_right Z.max 0 ((λ kv : bytes * commit_row, cm_order kv.2) <$> map_to_list (metas gen l)) = len l.
Proof.
  assert (∀ k : list (bytes * commit_row), (∀ kv, kv ∈ k → cm_order kv.2 <= len l) →
    (l ≠ [] → ∃ kv, kv ∈ k ∧ cm_order kv.2 = len l) →
    fold_right Z.max 0 ((λ kv : bytes * commit_row, cm_order kv.2) <$> k) = len l) as Hmax.
  { intros k Hle Hex. apply Z.le_antisymm.
    - clear Hex. induction k as [|x k IH]; cbn; [len_lia|].
      apply Z.max_lub; [apply Hle; by left|apply IH; intros; apply Hle; by right].
    - destruct l as [|e l']; [|].
      + clear. induction k; cbn; [done|lia].
      + destruct Hex as (x & Hx & <-); [done|]. clear Hle. induction k as [|y k IH]; [by apply not_elem_of_nil in Hx|].
        cbn. apply elem_of_cons in Hx as [->|Hx]; [lia|]. specialize (IH Hx). lia. }
  apply Hmax.
  - intros [op m] Hm%elem_of_map_to_list. apply metas_lookup_inv in Hm as (pre & e & post & -> & _ & ->).
    cbn. len_lia.
  - destruct l as [|e l']; [done|]. intros _. exists (l_op e, commit_row_of gen (len l' + 1) e). split; [|cbn; len_lia].
    apply elem_of_map_to_list. cbn. by rewrite lookup_insert_eq.
Qed.
Lemma represents_files gen l d files files' :
  represents gen l d files → files ⊆ files' → represents gen l d files'.
Proof.
  intros [] Hf. split; try done.
  - intros bid r Hr. destruct (rp_blocks0 bid r Hr) as (b & Hb & ?). exists b. split; [|done].
    by eapply lookup_weaken.
  - intros e b He Hb. destruct (rp_published0 e b He Hb) as [? Hb']. split; [done|].
    by eapply lookup_weaken.
Qed.

Section Commit.
Context (h : handle) (w : world) (p : prepared) (token : bytes) (l : list entry) (d d' : tables)
  (files : gmap bytes bytes) (R : represents (h_generation h) l d files).

(** What a successful body says of the new entry. *)
Lemma fresh_entry e :
  t_envelopes d !! l_id e = None → t_ledger d !! l_op e = None →
  (∀ op m, t_meta d !! op = Some m → cm_reservation m ≠ p_reservation (l_p e)) →
  l_id e ∉ l_id <$> l ∧ l_op e ∉ l_op <$> l ∧ ∀ x, x ∈ l → p_reservation (l_p x) ≠ p_reservation (l_p e).
Proof.
  rewrite (rp_envelopes _ _ _ _ R), (rp_ledger _ _ _ _ R), (rp_meta _ _ _ _ R).
  rewrite !log_lookup_none. intros Hi Ho Hr. split_and!; [done..|]. intros x Hx.
  destruct (metas_lookup (h_generation h) l x (rp_ops _ _ _ _ R) Hx) as (pre & post & _ & Hm).
  exact (Hr _ _ Hm).
Qed.

Lemma chain_extends e :
  check_state h w (l_p e) token d = Ok tt → chained (e :: l).
Proof.
  intros (_ & (s & Hs & He) & _ & _ & Ha)%check_state_Ok. cbn. split; [|exact (rp_chain _ _ _ _ R)].
  change (p_space (l_p e), p_object (l_p e), p_actor (l_p e)) with (actor_key e) in Ha.
  rewrite (actors_find _ _ _ _ _ s R Hs He) in Ha.
  destruct (List.find (same_chain e) l) as [e'|]; cbn in Ha; [|done].
  destruct Ha as (-> & <- & <-). done.
Qed.

Lemma represents_commit state eid :
  validate p = Ok tt → (∀ b, b ∈ p_blocks p → files !! sha256 b = Some b) →
  check_state h w p token d = Ok tt → envelope_id p = Ok eid →
  commit_rows h w state p eid (sha256 <$> p_blocks p) d = Ok d' →
  ∃ e, l_p e = p ∧ l_state e = state ∧ t_spaces d' = t_spaces d ∧ represents (h_generation h) (e :: l) d' files.
Proof.
  intros Hval Hfiles Hcheck Hid E.
  assert (is_Some (t_reservations d !! p_reservation p)) as Hres.
  { pose proof Hcheck as (_ & _ & (r & Hr & _) & _)%check_state_Ok. by exists r. }
  apply commit_rows_Ok in E as (fp & r & blocks & eblocks & E); [|exact Hres]. clear Hres.
  set (e := Entry p eid fp state) in E. cbv zeta in E.
  destruct E as (Hfp & Hr & Hfid & Hfop & Hfres & -> & Hb1 & Hb2 & Hb3 & Hb4).
  pose proof (chain_extends e Hcheck) as Hchain.
  destruct (fresh_entry e Hfid Hfop Hfres) as (Hnid & Hnop & Hnres).
  apply check_state_Ok in Hcheck as (_ & (s & Hs & Hep) & (r' & Hr' & Hrop & Hrc) & Hint & _).
  rewrite Hr in Hr'. injection Hr' as <-.
  assert ((zip (sha256 <$> p_blocks p) (p_blocks p)).*1 = sha256 <$> p_blocks p) as Hzip.
  { apply fst_zip. by rewrite length_fmap. }
  assert (∀ k b, (k, b) ∈ zip (sha256 <$> p_blocks p) (p_blocks p) ↔ k = sha256 b ∧ b ∈ p_blocks p) as Hin.
  { intros k b. rewrite zip_with_fmap_l, zip_with_diag, list_elem_of_fmap.
    split; [by intros (? & [= -> ->] & ?)|]. intros [-> ?]. by exists b. }
  rewrite Hzip in Hb4. exists e. do 3 (split; [done|]). destruct R. split; cbn.
  - by constructor.
  - by constructor.
  - by constructor.
  - exact Hchain.
  - by rewrite rp_envelopes0.
  - by rewrite rp_ledger0.
  - rewrite rp_meta0. unfold next_order. by rewrite rp_meta0, max_order.
  - unfold current at 1. cbn. rewrite Hs, Hep, Z.eqb_refl. cbn. by rewrite rp_actors0.
  - rewrite rp_catalog0. f_equal.
    destruct (list_to_map _ !! object_key e) as [x|] eqn:Ex; [|done].
    apply elem_of_list_to_map_2, list_elem_of_fmap in Ex as (y & [= _ _ ->] & _). done.
  - intros x y. rewrite elem_of_union, elem_of_list_to_set, list_elem_of_fmap, rp_deps0.
    setoid_rewrite elem_of_cons. split.
    + intros [(? & [= -> ->] & ?)|(e' & ? & ?)]; [exists e; auto|eauto].
    + intros (e' & [->|He'] & <- & Hy); [left; eauto|right; eauto].
  - intros x k i. rewrite Hb4, rp_eblocks0. setoid_rewrite elem_of_cons. split.
    + intros [(e' & ? & ?)|(-> & ? & ?)]; [eauto|exists e; auto].
    + intros (e' & [->|He'] & <- & Hi & Hl); [right; auto|left; eauto].
  - rewrite fmap_insert. cbn. by rewrite rp_outbox0.
  - intros e' [->|He']%elem_of_cons; [exists s; split; [done|cbn; lia]|by apply rp_spaces0].
  - intros e' [->|He']%elem_of_cons; [done|by apply rp_intents0].
  - intros e' [->|He']%elem_of_cons.
    + eexists. rewrite lookup_insert_eq. split; [done|]. cbn. split; [exact Hrop|done].
    + destruct (rp_consumed0 e' He') as (r' & Hr' & ?). exists r'.
      rewrite lookup_insert_ne; [done|]. intros E. by apply (Hnres e' He').
  - intros rid r' [[<- <-]|[Hne Hr']]%lookup_insert_Some.
    + destruct (rp_reservations0 _ _ Hr) as (input & ? & ? & _). exists input. cbn. split_and!; [done..|].
      intros x [= <-]. exists e. split; [by left|done].
    + destruct (rp_reservations0 _ _ Hr') as (input & ? & ? & Hc). exists input. split_and!; [done..|].
      intros x (e' & ? & ?)%Hc. exists e'. split; [by right|done].
  - intros rid rid' r1 r2 [[<- <-]|[Hne H1]]%lookup_insert_Some [[<- <-]|[Hne' H2]]%lookup_insert_Some; cbn;
      [done|by apply (rp_nonces0 _ _ r r2)|by apply (rp_nonces0 _ _ r1 r)|by apply (rp_nonces0 _ _ r1 r2)].
  - intros bid row [Hold|(b & [-> Hb]%Hin & ->)]%Hb2; [by apply rp_blocks0|].
    exists b. split_and!; [by apply Hfiles|done|by apply (validate_blocks p)..|done].
  - intros e' b [->|He']%elem_of_cons Hb.
    + split; [apply (Hb3 _ b), Hin; done|by apply Hfiles].
    + destruct (rp_published0 e' b He' Hb) as [[row Hrow] ?]. split; [|done]. exists row. by apply Hb1.
Qed.
End Commit.
(** ** The other transactions *)

Lemma represents_fences gen l d files f : represents gen l d files → represents gen l (set_fences f d) files.
Proof. intros []. by split. Qed.

Lemma represents_outbox gen l d files f :
  represents gen l d files → ob_operation <$> f = ob_operation <$> t_outbox d → represents gen l (set_outbox f d) files.
Proof. intros [] Hf. split; try done. cbn. by rewrite Hf. Qed.

Lemma represents_space gen l d files space r d' :
  represents gen l d files → insert_space space r d = Ok d' → represents gen l d' files.
Proof.
  intros [] E. unfold insert_space in E. statement E.
  assert (∀ e, e ∈ l → p_space (l_p e) ≠ space) as Hne.
  { intros e He Heq. destruct (rp_spaces0 e He) as (s & Hs & _). congruence. }
  split; try done; cbn.
  - rewrite rp_actors0. f_equal. f_equal. apply filter_ext_in. intros e He%list_elem_of_In.
    unfold current. by rewrite lookup_insert_ne by (by apply not_eq_sym, Hne).
  - intros e He. destruct (rp_spaces0 e He) as (s & Hs & ?). exists s.
    rewrite lookup_insert_ne; [done|]. by apply not_eq_sym, Hne.
Qed.

Lemma represents_reserve gen l d files w op input context nonce d' :
  represents gen l d files → reserve_body w op input context nonce d = Ok d' → represents gen l d' files.
Proof.
  intros [] E. unfold reserve_body in E.
  apply bind_Ok in E as ([] & _ & E). apply bind_Ok in E as ([] & Hold%require_Ok & E).
  apply bind_Ok in E as ([] & Hnew%require_Ok & E). apply bind_Ok in E as ([] & _ & E).
  apply bind_Ok in E as ([] & _ & E). apply bind_Ok in E as ([] & _ & E). apply bind_Ok in E as (d1 & E1 & E).
  apply bind_Ok in E as ([] & _ & E). apply present_false in Hnew.
  unfold insert_nonce in E1. statement E1. unfold insert_reservation in E. statement E. cbn in *.
  assert (∀ k x, t_intents d !! k = Some x →
    (if present op (t_intents d) then t_intents d else <[op:=input]> (t_intents d)) !! k = Some x) as Hkeep.
  { intros k x Hk. destruct (present op (t_intents d)) eqn:Hp; [done|]. rewrite lookup_insert_ne; [done|].
    intros ->. apply (f_equal negb), present_false in Hp. congruence. }
  assert ((if present op (t_intents d) then t_intents d else <[op:=input]> (t_intents d)) !! op = Some input) as Hop.
  { destruct (present op (t_intents d)) eqn:Hp; [|by rewrite lookup_insert_eq].
    apply present_true in Hp as [x Hx]. rewrite Hx in Hold. by apply bool_decide_eq_true in Hold as <-. }
  assert (∀ k x, t_nonces d !! k = Some x → <[(context, nonce):=input]> (t_nonces d) !! k = Some x) as Hnon.
  { intros k x Hk. rewrite lookup_insert_ne; [done|]. congruence. }
  split; try done; cbn.
  - intros e He. by apply Hkeep, rp_intents0.
  - intros e He. destruct (rp_consumed0 e He) as (r & Hr & ?). exists r.
    rewrite lookup_insert_ne; [done|]. congruence.
  - intros rid r [[<- <-]|[_ Hr]]%lookup_insert_Some.
    + exists input. cbn. rewrite lookup_insert_eq. by split_and!.
    + destruct (rp_reservations0 rid r Hr) as (i & ? & ? & ?). exists i. split_and!; auto.
  - assert (∀ rid r, t_reservations d !! rid = Some r → (rv_context r, rv_nonce r) ≠ (context, nonce)) as Hdiff.
    { intros rid r Hr. destruct (rp_reservations0 rid r Hr) as (i & _ & ? & _). congruence. }
    intros rid rid' r r' [[<- <-]|[_ Hr]]%lookup_insert_Some [[<- <-]|[_ Hr']]%lookup_insert_Some; cbn; [done|..].
    + intros Heq. by destruct (Hdiff _ _ Hr').
    + intros Heq. by destruct (Hdiff _ _ Hr).
    + by apply rp_nonces0.
Qed.

Lemma reserve_body_spaces w op input context nonce d d' :
  reserve_body w op input context nonce d = Ok d' → t_spaces d' = t_spaces d.
Proof.
  unfold reserve_body. intros E.
  apply bind_Ok in E as ([] & _ & E). apply bind_Ok in E as ([] & _ & E). apply bind_Ok in E as ([] & _ & E).
  apply bind_Ok in E as ([] & _ & E). apply bind_Ok in E as ([] & _ & E). apply bind_Ok in E as ([] & _ & E).
  apply bind_Ok in E as (d1 & E1 & E). apply bind_Ok in E as ([] & _ & E).
  unfold insert_nonce in E1. statement E1. unfold insert_reservation in E. by statement E.
Qed.

(** The row of a Space changes within its epoch. *)
Lemma represents_update gen l d files space sp sp' :
  represents gen l d files → t_spaces d !! space = Some sp → sp_epoch sp' = sp_epoch sp →
  represents gen l (set_spaces (<[space := sp']> (t_spaces d)) d) files.
Proof.
  intros [] Hsp He. split; try done; cbn.
  - rewrite rp_actors0. f_equal. f_equal. apply filter_ext_in. intros e _. unfold current.
    destruct (decide (p_space (l_p e) = space)) as [->|Hne].
    + by rewrite lookup_insert_eq, Hsp, He.
    + by rewrite lookup_insert_ne.
  - intros e Hin. destruct (rp_spaces0 e Hin) as (x & Hx & Hle).
    destruct (decide (p_space (l_p e) = space)) as [<-|Hne].
    + rewrite lookup_insert_eq. exists sp'. split; [done|]. simplify_eq. lia.
    + exists x. by rewrite lookup_insert_ne.
Qed.

(** A Space enters a later epoch: its queue is sent back, its actor states are dropped. *)
Lemma represents_epoch gen l d files space sp sp' :
  represents gen l d files → t_spaces d !! space = Some sp → sp_epoch sp < sp_epoch sp' →
  let d1 := set_spaces (<[space := sp']> (t_spaces d)) d in
  represents gen l
    (set_actors (filter (λ kv, kv.1.1.1 ≠ space) (t_actors d1))
       (set_outbox (map_imap (λ eid o, Some (rebase d1 space eid o)) (t_outbox d1)) d1)) files.
Proof.
  intros R Hsp Hlt d1. destruct R. split; try done; cbn.
  - apply map_eq. intros k. rewrite map_lookup_filter, rp_actors0, !log_find.
    destruct (decide (k.1.1 = space)) as [Hk|Hk].
    + transitivity (@None actor_row).
      { destruct (actor_of <$> List.find _ l); cbn; [|done]. by rewrite option_guard_False by auto. }
      rewrite (find_ext_in _ (λ _, false)); [by rewrite find_false|]. intros e Hin. apply andb_false_iff.
      case_bool_decide as Hkey; [left|by right]. unfold current. subst k. cbn in Hk. rewrite Hk, lookup_insert_eq.
      destruct (rp_spaces0 e Hin) as (x & Hx & Hle). apply Z.eqb_neq. simplify_eq. lia.
    + rewrite (find_ext_in (λ e, current (<[space:=_]> _) e && _) (λ e, current (t_spaces d) e && bool_decide (actor_key e = k))).
      * destruct (actor_of <$> List.find _ l); cbn; [|done]. by rewrite option_guard_True by auto.
      * intros e Hin. case_bool_decide as Hkey; [|by rewrite !andb_false_r]. f_equal. unfold current.
        rewrite lookup_insert_ne; [done|]. intros ->. by subst k.
  - rewrite <-rp_outbox0. apply map_eq. intros eid. rewrite !lookup_fmap, map_lookup_imap.
    destruct (t_outbox d !! eid) as [o|]; cbn; [|done]. unfold rebase. by case_match.
  - intros e Hin. destruct (rp_spaces0 e Hin) as (x & Hx & Hle).
    destruct (decide (p_space (l_p e) = space)) as [<-|Hne].
    + rewrite lookup_insert_eq. eexists. split; [done|]. simplify_eq. lia.
    + exists x. by rewrite lookup_insert_ne.
Qed.

Lemma represents_advance gen l d files w space expected new_epoch head d' :
  represents gen l d files → new_epoch = expected + 1 →
  advance_body w space expected new_epoch head d = Ok d' → represents gen l d' files.
Proof.
  intros R -> E. unfold advance_body in E.
  apply bind_Ok in E as ([] & _ & E). apply bind_Ok in E as (s & Hs & E).
  apply bind_Ok in E as ([] & He%require_Ok & E). apply bind_Ok in E as (n & _ & E).
  apply bind_Ok in E as ([] & _ & E). apply bind_Ok in E as ([] & _ & E). apply bind_Ok in E as ([] & _ & E).
  injection E as <-. destruct (t_spaces d !! space) as [s'|] eqn:Hsp; [|done]. injection Hs as ->.
  apply (represents_epoch gen l d files space s); [done|done|cbn; lia].
Qed.
End Spec.
