(* ===== verification/StoreAudit.v ===== *)
(** * The audit of a represented store finds nothing *)

From S2P Require Import Prelude Bytes Value Codec Hash Objects Json Crash Store StoreOps StoreSpec.
Local Open Scope Z_scope.

(** ** Sorting *)

Lemma bytes_le_total a b : bytes_le a b ∨ bytes_le b a.
Proof.
  unfold bytes_le. destruct (bytes_ltb b a) eqn:E1, (bytes_ltb a b) eqn:E2; auto.
  pose proof (bytes_ltb_trans _ _ _ E1 E2) as E. by rewrite bytes_ltb_irrefl in E.
Qed.
#[export] Instance bytes_le_Total : Total bytes_le := bytes_le_total.
#[export] Instance bytes_le_Transitive : Transitive bytes_le.
Proof.
  unfold bytes_le. intros a b c E1 E2. destruct (bytes_ltb c a) eqn:E; [|done].
  destruct (bytes_ltb b c) eqn:Ebc; [pose proof (bytes_ltb_trans _ _ _ Ebc E); congruence|].
  pose proof (bytes_ltb_trichotomy _ _ Ebc E2). congruence.
Qed.
#[export] Instance bytes_le_AntiSymm : AntiSymm (=) bytes_le.
Proof. intros a b E1 E2. by apply bytes_ltb_trichotomy. Qed.

Lemma sorted_bytes_perm l : sorted_bytes l ≡ₚ l.
Proof. apply merge_sort_Permutation. Qed.
Lemma sorted_bytes_ext l k : l ≡ₚ k → sorted_bytes l = sorted_bytes k.
Proof.
  intros Hp. apply (StronglySorted_unique bytes_le);
    [apply StronglySorted_merge_sort; apply _..|by rewrite !sorted_bytes_perm].
Qed.

(** A list sorted by distinct numbers is the only such list. *)
Lemma sorted_by_key {A} (key : A → Z) (R : A → A → Prop) `{∀ x y, Decision (R x y)} l k :
  (∀ x y, R x y ↔ key x <= key y) → StronglySorted (λ x y, key x < key y) k → l ≡ₚ k → merge_sort R l = k.
Proof.
  intros HR Hk Hp.
  assert (Transitive R) by (intros x y z; rewrite !HR; lia).
  assert (Total R) by (intros x y; rewrite !HR; lia).
  apply (StronglySorted_unique_strong R).
  - intros x y Hx Hy Hxy%HR Hyx%HR. assert (key x = key y) as E by lia.
    rewrite merge_sort_Permutation, Hp in Hx. clear -Hk Hx Hy E.
    induction Hk as [|z k Hk IH Hz]; [by apply not_elem_of_nil in Hx|]. rewrite Forall_forall in Hz.
    apply elem_of_cons in Hx as [->|Hx], Hy as [->|Hy]; [done| | |by apply IH].
    + specialize (Hz _ Hy). lia.
    + specialize (Hz _ Hx). lia.
  - apply StronglySorted_merge_sort; apply _.
  - clear -HR Hk. induction Hk as [|x k Hk IH Hx]; [constructor|]. constructor; [done|].
    eapply Forall_impl; [exact Hx|]. intros y Hxy. cbn in Hxy. apply HR. lia.
  - by rewrite merge_sort_Permutation.
Qed.

Lemma NoDup_sorted {A} (key : A → Z) l : StronglySorted (λ x y, key x < key y) l → NoDup l.
Proof.
  induction 1 as [|x l _ IH Hx]; constructor; [|done]. intros Hin. rewrite Forall_forall in Hx.
  specialize (Hx x Hin). cbn in Hx. lia.
Qed.

Lemma fold_left_reverse {A B} (f : A → B → A) l a : fold_left f (reverse l) a = foldr (λ y x, f x y) a l.
Proof. induction l as [|x l IH]; [done|]. rewrite reverse_cons, fold_left_app. cbn. by rewrite IH. Qed.

(** The rows of [envelope_blocks] for a list of block ids. *)
Fixpoint numbered (eid : bytes) (i : Z) (l : list bytes) : list (bytes * bytes * Z) :=
  match l with [] => [] | b :: l' => (eid, b, i) :: numbered eid (i + 1) l' end.

Lemma numbered_elem eid i l x : x ∈ numbered eid i l ↔ x.1.1 = eid ∧ i <= x.2 ∧ l !! Z.to_nat (x.2 - i) = Some x.1.2.
Proof.
  revert i. induction l as [|b l IH]; intros i; cbn.
  - split; [by intros ?%not_elem_of_nil|]. by intros (_ & _ & ?).
  - rewrite elem_of_cons, IH. destruct x as [[x y] j]. cbn. split.
    + intros [[= -> -> ->]|(-> & Hj & Hl)]; (split; [done|]; split; [lia|]);
        apply lookup_cons_Z; [lia|by left|lia|by right].
    + intros (-> & Hj & [[-> ->]|[? ?]]%lookup_cons_Z); [by left|by right|done].
Qed.

Lemma numbered_sorted eid i l : StronglySorted (λ x y, x.2 < y.2) (numbered eid i l).
Proof.
  revert i. induction l as [|b l IH]; intros i; cbn; constructor; [apply IH|].
  apply Forall_forall. intros x (_ & Hx & _)%numbered_elem. cbn. lia.
Qed.

Lemma numbered_ids eid i l : (λ kv : bytes * bytes * Z, kv.1.2) <$> numbered eid i l = l.
Proof. revert i. induction l as [|b l IH]; intros i; cbn; [done|]. by rewrite IH. Qed.

(** [for kv in rows: errors += f(kv)] finds nothing if no row does. *)
Lemma collect_nil l : Forall (λ r, r = Ok []) l → collect l = [].
Proof. induction 1 as [|r l -> _ IH]; [done|]. exact IH. Qed.

Lemma expect_true b code : b = true → expect b code = [].
Proof. by intros ->. Qed.

Lemma every_row_true {K A} `{Countable K} (P : K → A → bool) (m : gmap K A) :
  (∀ k x, m !! k = Some x → P k x = true) → every_row P m = true.
Proof.
  intros Hm. apply forallb_forall. intros [k x] Hin%list_elem_of_In%elem_of_map_to_list. by apply Hm.
Qed.

Section Audit.
Context `{Hash} (gen : bytes) (l : list entry) (d : tables) (files : gmap bytes bytes)
  (R : represents gen l d files).

Lemma envelope_entry eid x : t_envelopes d !! eid = Some x → ∃ e, e ∈ l ∧ l_id e = eid ∧ x = envelope_of (l_state e) (l_p e).
Proof. rewrite (rp_envelopes _ _ _ _ R). intros (e & ? & ? & ?)%log_lookup_inv. by exists e. Qed.
Lemma envelope_at e : e ∈ l → t_envelopes d !! l_id e = Some (envelope_of (l_state e) (l_p e)).
Proof.
  intros He. rewrite (rp_envelopes _ _ _ _ R).
  exact (log_lookup l_id (λ e, envelope_of (l_state e) (l_p e)) l e (rp_ids _ _ _ _ R) He).
Qed.
Lemma ledger_at e : e ∈ l → t_ledger d !! l_op e = Some (ledger_row_of e).
Proof. intros He. rewrite (rp_ledger _ _ _ _ R). exact (log_lookup l_op ledger_row_of l e (rp_ops _ _ _ _ R) He). Qed.
Lemma ledger_entry op x : t_ledger d !! op = Some x → ∃ e, e ∈ l ∧ l_op e = op ∧ x = ledger_row_of e.
Proof. rewrite (rp_ledger _ _ _ _ R). intros (e & ? & ? & ?)%log_lookup_inv. by exists e. Qed.
Lemma meta_at e : e ∈ l → ∃ n, t_meta d !! l_op e = Some (commit_row_of gen n e).
Proof.
  intros He. rewrite (rp_meta _ _ _ _ R).
  destruct (metas_lookup gen l e (rp_ops _ _ _ _ R) He) as (? & post & _ & ?). by eexists.
Qed.
Lemma meta_entry op m : t_meta d !! op = Some m → ∃ e n, e ∈ l ∧ l_op e = op ∧ m = commit_row_of gen n e.
Proof.
  rewrite (rp_meta _ _ _ _ R). intros (pre & e & post & -> & ? & ->)%metas_lookup_inv.
  eexists e, _. split; [|done]. apply elem_of_app. right. by left.
Qed.
Lemma outbox_at e : e ∈ l → ∃ o, t_outbox d !! l_id e = Some o ∧ ob_operation o = l_op e.
Proof.
  intros He. pose proof (log_lookup l_id l_op l e (rp_ids _ _ _ _ R) He) as Ho.
  rewrite <-(rp_outbox _ _ _ _ R), lookup_fmap in Ho.
  destruct (t_outbox d !! l_id e) as [o|]; [|done]. exists o. split; [done|]. by injection Ho.
Qed.
Lemma outbox_entry eid o : t_outbox d !! eid = Some o → ∃ e, e ∈ l ∧ l_id e = eid ∧ ob_operation o = l_op e.
Proof.
  intros Ho. assert ((ob_operation <$> t_outbox d) !! eid = Some (ob_operation o)) as E by (by rewrite lookup_fmap, Ho).
  rewrite (rp_outbox _ _ _ _ R) in E. apply log_lookup_inv in E as (e & ? & ? & ?). by exists e.
Qed.
Lemma entry_space e : e ∈ l → present (p_space (l_p e)) (t_spaces d) = true.
Proof. intros He. destruct (rp_spaces _ _ _ _ R e He) as (s & Hs & _). apply present_true. by exists s. Qed.
Lemma entry_envelope e : e ∈ l → present (l_id e) (t_envelopes d) = true.
Proof. intros He. apply present_true. eexists. by apply envelope_at. Qed.
Lemma entry_ledger e : e ∈ l → present (l_op e) (t_ledger d) = true.
Proof. intros He. apply present_true. eexists. by apply ledger_at. Qed.

Lemma foreign_keys_hold : foreign_keys d = true.
Proof.
  unfold foreign_keys. rewrite !andb_true_iff. split_and!; try apply every_row_true.
  - intros k a Ha. rewrite (rp_actors _ _ _ _ R), log_find in Ha.
    destruct (List.find _ l) as [e|] eqn:Ef; [|done]. apply List.find_some in Ef as [He%list_elem_of_In Hk].
    apply andb_true_iff in Hk as [_ Hk%bool_decide_eq_true]. subst k. by apply entry_space.
  - intros eid x (e & He & _ & ->)%envelope_entry. by apply entry_space.
  - intros op x (e & He & _ & ->)%ledger_entry. cbn. rewrite entry_space, entry_envelope by done. done.
  - intros eid o (e & He & <- & ->)%outbox_entry. rewrite entry_envelope, entry_ledger by done. done.
  - apply forallb_forall. intros [eid x] Hx%list_elem_of_In%elem_of_elements.
    apply (rp_deps _ _ _ _ R) in Hx as (e & He & <- & _). by apply entry_envelope.
  - intros k c Hc. rewrite (rp_catalog _ _ _ _ R) in Hc.
    apply elem_of_list_to_map_2, list_elem_of_fmap in Hc as (e & [= -> _] & He). by apply entry_space.
  - intros rid r Hr. destruct (rp_reservations _ _ _ _ R rid r Hr) as (i & Hi & Hn & Hc).
    rewrite !andb_true_iff, !present_true. split_and!; [by eexists..|].
    destruct (rv_consumed r) as [eid|]; [|done]. destruct (Hc eid eq_refl) as (e & He & <- & _). by apply entry_envelope.
  - intros op m (e & n & He & <- & ->)%meta_entry. cbn. rewrite entry_ledger by done.
    destruct (rp_consumed _ _ _ _ R e He) as (r & Hr & _). apply present_true. by exists r.
  - intros [eid bid] i (e & He & <- & _ & Hl)%(rp_eblocks _ _ _ _ R). cbn. rewrite entry_envelope by done.
    apply list_elem_of_lookup_2, list_elem_of_fmap in Hl as (b & -> & Hb).
    apply present_true. by destruct (rp_published _ _ _ _ R e b He Hb).
Qed.
(** *** Counts *)

Lemma sizes : size (t_envelopes d) = length l ∧ size (t_ledger d) = length l ∧ size (t_meta d) = length l ∧
  size (t_outbox d) = length l.
Proof.
  assert (∀ B (k : entry → bytes) (f : entry → B), NoDup (k <$> l) →
    size (list_to_map ((λ e, (k e, f e)) <$> l) : gmap bytes B) = length l) as Hsize.
  { intros B k f Hn. rewrite <-length_map_to_list, map_to_list_to_map; [by rewrite length_fmap|].
    by rewrite <-list_fmap_compose. }
  split_and!.
  - rewrite (rp_envelopes _ _ _ _ R). exact (Hsize _ l_id _ (rp_ids _ _ _ _ R)).
  - rewrite (rp_ledger _ _ _ _ R). exact (Hsize _ l_op _ (rp_ops _ _ _ _ R)).
  - rewrite (rp_meta _ _ _ _ R), <-size_dom, metas_dom, size_list_to_set; [by rewrite length_fmap|].
    exact (rp_ops _ _ _ _ R).
  - rewrite <-(map_size_fmap ob_operation), (rp_outbox _ _ _ _ R). exact (Hsize _ l_id _ (rp_ids _ _ _ _ R)).
Qed.

(** *** Envelopes *)

Lemma ledger_of_entry e : e ∈ l → ledger_of (l_id e) d = Some (l_op e, ledger_row_of e).
Proof.
  intros He. unfold ledger_of. destruct (List.find _ _) as [[op x]|] eqn:Ef.
  - apply List.find_some in Ef as [Hin%list_elem_of_In%elem_of_map_to_list Hc%bool_decide_eq_true].
    apply ledger_entry in Hin as (e' & He' & <- & ->). cbn in Hc.
    by rewrite (NoDup_key l_id l e' e (rp_ids _ _ _ _ R)).
  - eapply List.find_none in Ef; [|by apply list_elem_of_In, elem_of_map_to_list, ledger_at, He].
    cbn in Ef. by rewrite bool_decide_true in Ef.
Qed.

Lemma validate_deps p : validate p = Ok tt → NoDup (p_deps p).
Proof.
  unfold validate. intros E. repeat apply bind_Ok in E as (? & ? & E). repeat match goal with u : unit |- _ => destruct u end.
  match goal with Hn : sneed (bool_decide (NoDup (p_deps p))) _ = Ok _ |- _ =>
    by apply require_Ok, bool_decide_eq_true in Hn end.
Qed.

Lemma deps_of_entry e : e ∈ l → deps_of (l_id e) d = sorted_bytes (p_deps (l_p e)).
Proof.
  intros He. unfold deps_of. apply sorted_bytes_ext.
  pose proof (rp_made _ _ _ _ R) as Hm. rewrite Forall_forall in Hm. destruct (Hm e He) as (Hv & _).
  apply NoDup_Permutation; [|by apply validate_deps|].
  - apply NoDup_fmap_2_strong; [|apply NoDup_ListNoDup, List.NoDup_filter, NoDup_ListNoDup, NoDup_elements].
    intros [a b] [a' b'] Ha Hb. cbn. intros ->.
    apply list_elem_of_In, List.filter_In in Ha as [_ Ha%bool_decide_eq_true], Hb as [_ Hb%bool_decide_eq_true].
    cbn in *. congruence.
  - intros x. rewrite list_elem_of_fmap. split.
    + intros ([a b] & -> & Hab). apply list_elem_of_In, List.filter_In in Hab as [Hab Ha%bool_decide_eq_true].
      apply list_elem_of_In, elem_of_elements, (rp_deps _ _ _ _ R) in Hab as (e' & He' & Hid & Hx). cbn in *.
      by rewrite (NoDup_key l_id l e' e (rp_ids _ _ _ _ R)) in Hx by congruence.
    + intros Hx. exists (l_id e, x). split; [done|]. apply list_elem_of_In, List.filter_In.
      split; [|by apply bool_decide_eq_true]. apply list_elem_of_In, elem_of_elements, (rp_deps _ _ _ _ R). eauto.
Qed.
Lemma block_ids_of_entry e : e ∈ l → block_ids_of (l_id e) d = sha256 <$> p_blocks (l_p e).
Proof.
  intros He. unfold block_ids_of.
  rewrite (sorted_by_key (λ kv : bytes * bytes * Z, kv.2) position_le _
             (numbered (l_id e) 0 (sha256 <$> p_blocks (l_p e)))).
  - apply numbered_ids.
  - done.
  - apply numbered_sorted.
  - apply NoDup_Permutation.
    + apply NoDup_ListNoDup, List.NoDup_filter, NoDup_ListNoDup, NoDup_map_to_list.
    + apply (NoDup_sorted (λ kv : bytes * bytes * Z, kv.2)), numbered_sorted.
    + intros [[eid bid] i]. rewrite numbered_elem, Z.sub_0_r. cbn. split.
      * intros [Hin%list_elem_of_In%elem_of_map_to_list Hk%bool_decide_eq_true]%list_elem_of_In%List.filter_In.
        cbn in Hk. apply (rp_eblocks _ _ _ _ R) in Hin as (e' & He' & Hid & Hi & Hl).
        by rewrite (NoDup_key l_id l e' e (rp_ids _ _ _ _ R)) in Hl by congruence.
      * intros (-> & Hi & Hl). apply list_elem_of_In, List.filter_In. split; [|by apply bool_decide_eq_true].
        apply list_elem_of_In, elem_of_map_to_list, (rp_eblocks _ _ _ _ R). eauto.
Qed.

Lemma read_blocks e : e ∈ l → read_file files <$> (sha256 <$> p_blocks (l_p e)) = Ok <$> p_blocks (l_p e).
Proof.
  intros He. rewrite <-list_fmap_compose. apply list_fmap_ext. intros i b Hb%list_elem_of_lookup_2. cbn.
  pose proof (rp_made _ _ _ _ R) as Hm. rewrite Forall_forall in Hm. destruct (Hm e He) as (Hv & _).
  unfold read_file, sfixed. rewrite sha256_len. cbn.
  destruct (rp_published _ _ _ _ R e b He Hb) as [_ ->]. cbn.
  pose proof (validate_blocks _ Hv b Hb) as Hlen.
  replace ((1 <=? len b) && (len b <=? BLOCK_MAX)) with true by (symmetry; apply andb_true_iff; lia). cbn.
  by rewrite bool_decide_true.
Qed.

(** A commit whose dependencies are listed in their order. *)
Definition with_deps (deps : list bytes) (p : prepared) : prepared :=
  Prepared (p_operation p) (p_input p) (p_space p) (p_object p) (p_actor p) (p_generation p) (p_epoch p)
    (p_sequence p) (p_previous p) (p_change p) (p_reservation p) (p_envelope p) (p_cache p) (p_receipt p)
    deps (p_blocks p).

Lemma made_sorted e : made e → let p := with_deps (sorted_bytes (p_deps (l_p e))) (l_p e) in
  validate p = Ok tt ∧ envelope_id p = Ok (l_id e) ∧ fingerprint p = Ok (l_fp e).
Proof.
  intros (Hv & Hid & Hfp). set (p := l_p e) in *. cbv zeta. split; [|split; [exact Hid|]].
  - pose proof (validate_deps p Hv) as Hnd.
    assert (iter (λ v _, sfixed v 32) (p_deps p) tt = Ok tt) as Hi.
    { revert Hv. unfold validate. intros E. repeat apply bind_Ok in E as (? & ? & E).
      repeat match goal with u : unit |- _ => destruct u end. assumption. }
    assert (iter (λ v _, sfixed v 32) (sorted_bytes (p_deps p)) tt = Ok tt) as His.
    { rewrite iter_check in *. intros x Hx. apply Hi. by rewrite <-(sorted_bytes_perm (p_deps p)). }
    revert Hv. unfold validate, with_deps.
    cbn [p_operation p_input p_space p_object p_actor p_generation p_epoch p_sequence p_previous
      p_change p_reservation p_envelope p_cache p_receipt p_deps p_blocks].
    assert (len (sorted_bytes (p_deps p)) = len (p_deps p)) as -> by (unfold len; by rewrite sorted_bytes_perm).
    rewrite Hi, His, (bool_decide_true (NoDup (p_deps p))), (bool_decide_true (NoDup (sorted_bytes (p_deps p))));
      [done|by rewrite sorted_bytes_perm|done].
  - unfold fingerprint, with_deps in *.
    cbn [p_operation p_input p_space p_object p_actor p_generation p_epoch p_sequence p_previous
      p_change p_reservation p_envelope p_cache p_receipt p_deps p_blocks].
    rewrite (sorted_bytes_ext (sorted_bytes (p_deps p)) (p_deps p)) by apply sorted_bytes_perm. exact Hfp.
Qed.

Lemma audit_envelope_clean eid x : t_envelopes d !! eid = Some x →
  Forall (λ r, r = Ok []) (audit_envelope d files eid x).
Proof.
  intros (e & He & <- & ->)%envelope_entry. unfold audit_envelope. rewrite ledger_of_entry by done.
  destruct (meta_at e He) as (n & ->), (outbox_at e He) as (o & -> & Ho).
  rewrite bool_decide_true by done. cbn [cm_reservation commit_row_of].
  destruct (rp_consumed _ _ _ _ R e He) as (r & Hr & Hop & Hc). rewrite Hr.
  rewrite block_ids_of_entry, read_blocks by done.
  assert (∀ k : list bytes, omap (λ r, match r with Ok b => Some b | Err _ => None end) (Ok <$> k) = k) as Hblocks.
  { induction k as [|b k IH]; [done|]. cbn. by rewrite IH. }
  assert (∀ k : list bytes, (Ok <$> k) ≫= read_error = []) as Herr by (induction k; done).
  rewrite Hblocks, Herr. cbn [le_input le_space ledger_row_of en_space envelope_of].
  unfold recorded_commit. rewrite deps_of_entry by done.
  cbn [le_input le_receipt ledger_row_of cm_generation cm_previous cm_reservation cm_cache commit_row_of
    en_space en_object en_actor en_epoch en_sequence en_change en_bytes envelope_of cm_prepared].
  change (Prepared (l_op e) _ _ _ _ _ _ _ _ _ _ _ _ _ _ _) with (with_deps (sorted_bytes (p_deps (l_p e))) (l_p e)).
  pose proof (rp_made _ _ _ _ R) as Hm. rewrite Forall_forall in Hm.
  destruct (made_sorted e (Hm e He)) as (-> & -> & ->). cbn [caught mbind result_bind].
  rewrite (rp_intents _ _ _ _ R e He), Hop, Hc.
  destruct (rp_reservations _ _ _ _ R _ r Hr) as (i & Hi & Hn & _).
  rewrite Hop, (rp_intents _ _ _ _ R e He) in Hi. injection Hi as <-. rewrite Hn.
  rewrite !bool_decide_true by done. by repeat constructor.
Qed.

Lemma audit_block_clean bid b : t_blocks d !! bid = Some b → audit_block files bid b = [].
Proof.
  intros (x & Hf & -> & Hlen & ->)%(rp_blocks _ _ _ _ R). unfold audit_block, block_row_of. cbn [bk_path bk_published].
  rewrite bool_decide_true by done. cbn [andb Z.eqb]. unfold read_file, sfixed. rewrite sha256_len, Hf. cbn [Z.eqb].
  cbn -[BLOCK_MAX]. replace ((1 <=? len x) && (len x <=? BLOCK_MAX)) with true by (symmetry; apply andb_true_iff; lia).
  cbn. rewrite bool_decide_true by done. cbn. by rewrite Z.eqb_refl.
Qed.
(** *** The live state, derived from the commits *)

(** The join of the log with the Spaces, newest first. *)
Fixpoint views (k : list entry) : list commit_view :=
  match k with
  | [] => []
  | e :: k' =>
      match t_spaces d !! p_space (l_p e) with
      | Some s => [CommitView (l_id e) (envelope_of (l_state e) (l_p e)) (commit_row_of gen (len k' + 1) e) s]
      | None => []
      end ++ views k'
  end.

Lemma views_below k : Forall (λ v, cm_order (cv_meta v) < len k + 1) (views k).
Proof.
  induction k as [|e k IH]; cbn; [constructor|]. apply Forall_app. split.
  - destruct (t_spaces d !! _); [|constructor]. apply Forall_singleton. cbn. len_lia.
  - eapply Forall_impl; [exact IH|]. intros v. cbn. len_lia.
Qed.

Lemma views_sorted k : StronglySorted (λ x y, cm_order (cv_meta x) < cm_order (cv_meta y)) (reverse (views k)).
Proof.
  induction k as [|e k IH]; cbn [views]; [constructor|]. destruct (t_spaces d !! _) as [s|]; [|exact IH].
  rewrite reverse_app. apply StronglySorted_app_2; [|exact IH|by repeat constructor].
  intros x y Hx ->%list_elem_of_singleton. cbn. rewrite elem_of_reverse in Hx.
  pose proof (views_below k) as Hb. rewrite Forall_forall in Hb. exact (Hb x Hx).
Qed.

(** The join finds every commit with its order. *)
Lemma join_views pre k : l = pre ++ k →
  omap (λ '(op, x),
     e ← t_envelopes d !! le_commit x; m ← t_meta d !! op; s ← t_spaces d !! en_space e;
     Some (CommitView (le_commit x) e m s)) ((λ e, (l_op e, ledger_row_of e)) <$> k) = views k.
Proof.
  revert pre. induction k as [|e k IH]; intros pre Hl; [done|]. cbn [fmap list_fmap omap list_omap].
  assert (e ∈ l) as He by (rewrite Hl; apply elem_of_app; right; by left).
  rewrite (IH (pre ++ [e])) by (by rewrite <-app_assoc). cbn [le_commit ledger_row_of].
  rewrite (envelope_at e He). cbn [mbind option_bind].
  destruct (metas_lookup gen l e (rp_ops _ _ _ _ R) He) as (pre' & post & Hl' & Hm).
  rewrite (rp_meta _ _ _ _ R), Hm. cbn [mbind option_bind].
  assert (post = k) as ->.
  { assert (pre' = pre ∧ post = k) as [_ ?]; [|done].
    assert (l_op e ∉ l_op <$> pre ∧ l_op e ∉ l_op <$> pre') as [H1 H2].
    { pose proof (rp_ops _ _ _ _ R) as Hn1. pose proof (rp_ops _ _ _ _ R) as Hn2. rewrite Hl in Hn1. rewrite Hl' in Hn2.
      rewrite fmap_app, fmap_cons in Hn1, Hn2. apply NoDup_app in Hn1 as (_ & Hn1 & _), Hn2 as (_ & Hn2 & _).
      split; intros Hin; [apply (Hn1 _ Hin)|apply (Hn2 _ Hin)]; by left. }
    rewrite Hl in Hl'. clear -Hl' H1 H2. revert pre' H2 Hl'. induction pre as [|x pre IH]; intros [|y pre'] H2 Hl'; cbn in *.
    - by simplify_eq.
    - injection Hl' as <- _. set_solver.
    - injection Hl' as -> _. set_solver.
    - injection Hl' as <- Hl'. destruct (IH ltac:(set_solver) pre') as [-> ->]; [set_solver|done|done]. }
  cbn [en_space envelope_of views]. by destruct (t_spaces d !! p_space (l_p e)).
Qed.

Lemma commit_views_log : commit_views d = reverse (views l).
Proof.
  unfold commit_views. apply (sorted_by_key (λ v, cm_order (cv_meta v))); [done|apply views_sorted|].
  rewrite reverse_Permutation, <-(join_views [] l) by done. apply omap_Permutation.
  rewrite (rp_ledger _ _ _ _ R). apply map_to_list_to_map. rewrite <-list_fmap_compose. exact (rp_ops _ _ _ _ R).
Qed.

Lemma expected_actors_log : expected_actors (commit_views d) = t_actors d.
Proof.
  rewrite commit_views_log, (rp_actors _ _ _ _ R). unfold expected_actors.
  rewrite fold_left_reverse.
  pose proof (rp_spaces _ _ _ _ R) as Hsp. revert Hsp. generalize l as k.
  induction k as [|e k IH]; intros Hsp; [done|]. cbn [views]. rewrite foldr_app, IH by (intros; apply Hsp; by right).
  cbn [List.filter]. unfold current at 2. destruct (Hsp e ltac:(by left)) as (s & -> & _). cbn.
  by destruct (p_epoch (l_p e) =? sp_epoch s).
Qed.

Lemma expected_catalog_log : expected_catalog (commit_views d) = ct_ref <$> t_catalog d.
Proof.
  rewrite commit_views_log, (rp_catalog _ _ _ _ R). unfold expected_catalog.
  rewrite fold_left_reverse.
  pose proof (rp_spaces _ _ _ _ R) as Hsp. revert Hsp. generalize l as k.
  induction k as [|e k IH]; intros Hsp; [done|]. cbn [views]. rewrite foldr_app, IH by (intros; apply Hsp; by right).
  destruct (Hsp e ltac:(by left)) as (s & -> & _). cbn. by rewrite fmap_insert.
Qed.

Lemma audit_steps_clean w : w_schema w = true → w_quick_check w = true → collect (audit_steps w d files) = [].
Proof.
  intros Hsc Hq. apply collect_nil. unfold audit_steps. destruct sizes as (He & Hl & Hm & Ho).
  rewrite Hsc, Hq, He, Hl, Hm, Ho, Nat.eqb_refl, foreign_keys_hold. repeat rewrite Forall_app. split_and!.
  - by repeat constructor.
  - apply Forall_bind, Forall_forall. intros [eid x] Hx%elem_of_map_to_list. by apply audit_envelope_clean.
  - apply Forall_fmap, Forall_forall. intros [bid b] Hb%elem_of_map_to_list. cbn. by rewrite audit_block_clean.
  - rewrite expected_actors_log, expected_catalog_log, !bool_decide_true by done. by repeat constructor.
Qed.
End Audit.
