(* ===== verification/StoreRun.v ===== *)
(** * Every operation of the store keeps it a log of commits

    The specification of each operation in any [world]: the states it passes, its crash
    points, all represent the log it started from, or that log and the new commit. *)

From S2P Require Import Prelude Bytes Value Codec Hash Objects Json Crash Store StoreOps StoreSpec StoreAudit.
Local Open Scope Z_scope.

Section Run.
Context `{Hash} {X : Type}.
Implicit Types (s t : disk X).

(** ** Transactions *)

Definition same_files (s t : disk X) : Prop := ds_files t = ds_files s ∧ ds_staging t = ds_staging s ∧ ds_extra t = ds_extra s.

Lemma wp_set_in_tx b I (Q : result unit → disk X → Prop) s :
  Q (Ok tt) (Disk (ds_tables s) (ds_extra s) (ds_files s) (ds_staging s) b) → wp (set_in_tx b) I Q s.
Proof. intros HQ. split; [constructor|done]. Qed.

(** A rollback leaves everything but the flag, which is set only when it fails. *)
Lemma wp_rollback w I (Q : result unit → disk X → Prop) s :
  (∀ r b, (b = true → is_ok r = false) → Q r (Disk (ds_tables s) (ds_extra s) (ds_files s) (ds_staging s) b)) →
  wp (rollback w) I Q s.
Proof.
  intros HQ. unfold rollback. destruct (sql w "rollback") as [[]|e].
  - apply wp_set_in_tx. by apply HQ.
  - wp_step. apply wp_set_in_tx. cbn. apply wp_raise. by apply HQ.
Qed.

Lemma wp_commit_tables d x I (Q : result unit → disk X → Prop) s :
  I s → Q (Ok tt) (set_database d x s) → wp (commit_tables d x) I Q s.
Proof. apply wp_write. Qed.

Lemma wp_read_disk I (Q : result (disk X) → disk X → Prop) s : Q (Ok s) s → wp read_disk I Q s.
Proof. apply wp_reads. Qed.

(** The tables at any point are those found or those of the body. *)
Definition tables_in (s : disk X) (D : list tables) (t : disk X) : Prop := same_files s t ∧ ds_tables t ∈ D.

Lemma wp_store_transaction {A} h w (body : tables → result (tables * A)) s :
  let I := tables_in s (ds_tables s :: match body (ds_tables s) with Ok (d, _) => [d] | Err _ => [] end) in
  wp (transaction h w body) I
     (λ r t, I t ∧ ∀ a, r = Ok a → writable h w = Ok tt ∧ body (ds_tables s) = Ok (ds_tables t, a) ∧ ds_in_tx t = false) s.
Proof.
  intros I. assert (∀ b, I (Disk (ds_tables s) (ds_extra s) (ds_files s) (ds_staging s) b)) as HI by (intros b; by split; [|left]).
  assert (I s) as HIs by (by split; [|left]).
  unfold transaction. wp_step. apply wp_lift. destruct (writable h w) as [[]|e]; cbn [next]; [|by split].
  wp_step. apply wp_read_disk. cbn [next].
  destruct (begin w s) as [[]|e] eqn:Eb.
  - assert (ds_in_tx s = false) as Htx by (unfold begin in Eb; by destruct (ds_in_tx s)).
    destruct (body (ds_tables s)) as [[d a]|e] eqn:Ebody.
    + assert (∀ b, I (Disk d (ds_extra s) (ds_files s) (ds_staging s) b)) as HId by (intros b; split; [done|right; by left]).
      destruct (sql w "commit") as [[]|e].
      * wp_step. apply wp_commit_tables; [done|]. cbn [next]. wp_step. split; [apply HId|].
        intros ? [= <-]. done.
      * wp_step. unfold failed_commit. destruct (w_applied w).
        -- apply wp_commit_tables; [done|]. cbn [next]. apply wp_raise. split; [apply HId|done].
        -- apply wp_rollback. intros [[]|e'] b _; cbn [next]; [apply wp_raise|]; (split; [apply HI|done]).
    + wp_step. apply wp_rollback. intros [[]|e'] b _; cbn [next]; [apply wp_raise|]; (split; [apply HI|done]).
  - wp_step. destruct (ds_in_tx s).
    + apply wp_rollback. intros [[]|e'] b _; cbn [next]; [apply wp_raise|]; (split; [apply HI|done]).
    + wp_step. cbn [next]. apply wp_raise. by split.
Qed.
(** ** Publishing blocks *)

Definition grows (s t : disk X) : Prop :=
  ds_tables t = ds_tables s ∧ ds_extra t = ds_extra s ∧ ds_in_tx t = ds_in_tx s ∧ ds_files s ⊆ ds_files t.

Lemma grows_refl s : grows s s.
Proof. done. Qed.
Lemma grows_trans s t u : grows s t → grows t u → grows s u.
Proof. intros (? & ? & ? & ?) (? & ? & ? & ?). split_and!; [congruence..|by etransitivity]. Qed.

(** A check that changes nothing. *)
Lemma wp_check {A B} (r : result A) (f : A → crash (disk X) B) I (Q : result B → disk X → Prop) s :
  (∀ e, r = Err e → Q (Err e) s) → (∀ a, r = Ok a → wp (f a) I Q s) → wp (lift r ≫= f) I Q s.
Proof. intros HE HO. wp_step. apply wp_lift. destruct r; cbn [next]; auto. Qed.

Lemma wp_remove_staging w i name s0 s (Q : result unit → disk X → Prop) :
  grows s0 s → (∀ r t, grows s0 t → ds_files t = ds_files s → Q r t) → wp (remove_staging w i name) (grows s0) Q s.
Proof.
  intros Hg HQ. unfold remove_staging. wp_step. apply wp_read_disk. cbn [next].
  case_bool_decide; [|by apply wp_ret, HQ].
  apply wp_check; [intros; by apply HQ|]. intros [] _. apply wp_write; [done|]. by apply HQ.
Qed.

Lemma wp_publish_block w i b s :
  wp (publish_block w i b) (grows s)
     (λ r t, grows s t ∧ ∀ bid, r = Ok bid → bid = sha256 b ∧ ds_files t = <[sha256 b := b]> (ds_files s)) s.
Proof.
  unfold publish_block. apply wp_check; [done|]. intros [] _. cbv zeta.
  wp_step. apply wp_read_disk. cbn [next]. destruct (present (sha256 b) (ds_files s)) eqn:Hp.
  - unfold republish. wp_step. apply wp_read_disk. cbn [next]. apply wp_check; [done|]. intros found Hread.
    apply wp_check; [done|]. intros [] Heq%require_Ok. apply bool_decide_eq_true in Heq. subst found.
    do 5 (apply wp_check; [done|]; intros [] _). apply wp_ret. split; [done|]. intros ? [= <-]. split; [done|].
    symmetry. apply insert_id. unfold read_file in Hread. apply bind_Ok in Hread as ([] & _ & Hread).
    apply bind_Ok in Hread as (x & Hx & Hread). apply bind_Ok in Hread as ([] & _ & Hread).
    apply bind_Ok in Hread as ([] & _ & [= ->]). by destruct (ds_files s !! sha256 b); simplify_eq/=.
  - apply (f_equal negb), present_false in Hp. unfold publish_new. apply wp_check; [done|]. intros [] _. cbv zeta.
    wp_step. apply wp_write; [done|]. cbn [next].
    set (s1 := set_files _ _ s). assert (grows s s1) as H1 by done.
    apply wp_finally.
    assert (∀ r t, grows s t → (∀ bid, r = Ok bid → bid = sha256 b ∧ ds_files t = <[sha256 b := b]> (ds_files s)) →
      wp (remove_staging w i (w_temp w i)) (grows s)
        (λ r', match r' with
               | Ok _ => λ t, grows s t ∧ ∀ bid, r = Ok bid → bid = sha256 b ∧ ds_files t = <[sha256 b := b]> (ds_files s)
               | Err e => λ t, grows s t ∧ ∀ bid, Err e = Ok bid → bid = sha256 b ∧ ds_files t = <[sha256 b := b]> (ds_files s)
               end) t) as Hfin.
    { intros r t Ht Hr. apply wp_remove_staging; [done|]. intros [] u Hu Hf; (split; [done|]); [|done].
      intros bid Hb. rewrite Hf. by apply Hr. }
    do 4 (apply wp_check; [intros; by apply Hfin|]; intros [] _).
    wp_step. apply wp_read_disk. cbn [next]. apply wp_check; [intros; by apply Hfin|]. intros [] _.
    apply wp_check; [intros; by apply Hfin|]. intros [] _. wp_step. apply wp_write; [done|]. cbn [next].
    set (s2 := set_files _ _ s1).
    assert (grows s s2) as H2 by (split_and!; [done..|]; cbn; by apply insert_subseteq).
    do 3 (apply wp_check; [intros; by apply Hfin|]; intros [] _). apply wp_ret, Hfin; [done|].
    by intros ? [= <-].
Qed.

Lemma wp_publish_blocks w i l s :
  wp (publish_blocks w i l) (grows s)
     (λ r t, grows s t ∧ ∀ bids, r = Ok bids → bids = sha256 <$> l ∧ ∀ b, b ∈ l → ds_files t !! sha256 b = Some b) s.
Proof.
  revert i s. induction l as [|b l IH]; intros i s; cbn [publish_blocks].
  - apply wp_ret. split; [done|]. intros ? [= <-]. split; [done|]. by intros ? ?%not_elem_of_nil.
  - wp_step. eapply wp_mono; [apply wp_publish_block|done|]. intros [bid|e] t [Ht Hb]; cbn [next]; [|done].
    destruct (Hb bid eq_refl) as [-> Hf]. wp_step. eapply wp_mono; [apply (IH (S i) t)|intros; by eapply grows_trans|].
    intros [bids|e] u [Hu Hbs]; cbn [next]; [|by split; [eapply grows_trans|]].
    destruct (Hbs bids eq_refl) as [-> Hfs]. apply wp_ret. split; [by eapply grows_trans|].
    intros ? [= <-]. split; [done|]. intros c [->|Hc]%elem_of_cons; [|by apply Hfs].
    eapply (lookup_weaken (ds_files t)); [by rewrite Hf, lookup_insert_eq|]. by destruct Hu as (_ & _ & _ & ?).
Qed.
(** ** Commits *)

Section Commit.
Context (h : handle) (w : world) (hk : hooks X).

Definition logs (l : list entry) (s : disk X) : Prop := represents (h_generation h) l (ds_tables s) (ds_files s).

Definition kept (s t : disk X) : Prop := ds_tables t = ds_tables s ∧ ds_extra t = ds_extra s ∧ ds_files s ⊆ ds_files t.

(** The commit of [p], which the subclass and the state check admitted, is the newest entry,
    recorded by the subclass. *)
Definition admitted (p : prepared) (token : bytes) (s t : disk X) : Prop :=
  check_state h w p token (ds_tables s) = Ok tt ∧ hk_authorize hk (ds_tables s) (ds_extra s) p token = Ok tt ∧
  hk_record hk (ds_tables t) (ds_extra s) p = Ok (ds_extra t) ∧
  hk_authorize hk (ds_tables t) (ds_extra t) p token = Ok tt ∧
  t_spaces (ds_tables t) = t_spaces (ds_tables s).
Definition adds (p : prepared) (l : list entry) (e : entry) (t : disk X) : Prop :=
  l_p e = p ∧ l_state e = hk_state hk ∧ logs (e :: l) t.
Definition added (p : prepared) (token : bytes) (l : list entry) (s t : disk X) : Prop :=
  admitted p token s t ∧ ∃ e, adds p l e t.

Lemma kept_logs l s t : logs l s → kept s t → logs l t.
Proof. unfold logs. intros R (-> & _ & Hf). by eapply represents_files. Qed.

Lemma grows_kept s t : grows s t → kept s t.
Proof. by intros (? & ? & _ & ?). Qed.

Definition receipt_for (e : entry) : commit_receipt :=
  CommitReceipt (l_op e) (p_input (l_p e)) (l_id e) (p_receipt (l_p e)) (h_generation h) STORE_CLASS.

Lemma find_operation_log op input d l files r :
  represents (h_generation h) l d files → find_operation h w op input d = Ok r →
  match r with
  | None => t_ledger d !! op = None
  | Some c => ∃ e, e ∈ l ∧ l_op e = op ∧ p_input (l_p e) = input ∧ c = receipt_for e
  end.
Proof.
  intros R E. unfold find_operation in E. do 4 (apply bind_Ok in E as ([] & _ & E)).
  destruct (t_ledger d !! op) as [x|] eqn:Ex; [|by simplify_eq].
  destruct (ledger_entry _ _ _ _ R op x Ex) as (e & He & <- & ->). cbn [le_input ledger_row_of] in E.
  apply bind_Ok in E as ([] & Hi%require_Ok & E). apply bool_decide_eq_true in Hi.
  destruct (meta_at _ _ _ _ R e He) as (n & Hm). rewrite Hm in E. injection E as <-.
  exists e. split_and!; [done..|]. by rewrite <-Hi.
Qed.

Lemma wp_commit_prepare p token s :
  validate p = Ok tt →
  wp (commit_prepare h w p token) (grows s)
     (λ r t, grows s t ∧ ∀ bids, r = Ok bids →
        bids = sha256 <$> p_blocks p ∧ (∀ b, b ∈ p_blocks p → ds_files t !! sha256 b = Some b) ∧
        ds_in_tx s = false) s.
Proof.
  intros Hv. unfold commit_prepare. wp_step. apply wp_read_disk. cbn [next].
  apply wp_check; [done|]. intros [] _. wp_step. eapply wp_mono; [apply wp_publish_blocks|done|].
  intros [bids|e] t [Ht Hb]; cbn [next]; [|done]. destruct (Hb bids eq_refl) as [-> Hf].
  apply wp_check; [done|]. intros [] _. wp_step. apply wp_read_disk. cbn [next].
  apply wp_check; [done|]. intros [] Htx. apply wp_ret. split; [done|]. intros ? [= <-]. split_and!; [done..|].
  unfold begin in Htx. destruct Ht as (_ & _ & <- & _). by destruct (ds_in_tx t).
Qed.

Lemma wp_commit_new p token l s :
  logs l s → validate p = Ok tt → ds_in_tx s = false →
  wp (commit_new h w hk p token) (λ t, kept s t ∨ added p token l s t)
     (λ r t, match r with
        | Ok o => ∃ e, o = Some (receipt_for e) ∧ fingerprint p = Ok (l_fp e) ∧ admitted p token s t ∧ adds p l e t
        | Err x => kept s t ∨ (x = outcome_unknown ∧ added p token l s t)
        end) s.
Proof.
  intros Hl Hv Htx. unfold commit_new. wp_step. apply wp_recover.
  eapply wp_mono; [by apply wp_commit_prepare|intros t Ht; left; by apply grows_kept|].
  intros [bids|e] t [Ht Hb]; cbn [next]; [|left; by apply grows_kept].
  destruct (Hb bids eq_refl) as (-> & Hf & _). clear Hb. wp_step. apply wp_read_disk. cbn [next].
  pose proof (kept_logs l s t Hl (grows_kept s t Ht)) as Hlt. destruct Ht as (Htab & Hxt & Htt & Hfiles).
  assert (∀ b, kept s (Disk (ds_tables t) (ds_extra t) (ds_files t) (ds_staging t) b)) as Hkept by done.
  assert (kept s t) as Hkt by done.
  destruct (commit_body h w hk p token (sha256 <$> p_blocks p) (ds_tables t) (ds_extra t)) as [[d x']|e] eqn:Eb.
  - apply commit_body_guards in Eb as (eid & Ha1 & Hc & Hid & Erows & Hrec & Ha2).
    destruct (represents_commit h w p token l (ds_tables t) d (ds_files t) Hlt (hk_state hk) eid Hv Hf Hc Hid Erows)
      as (e & He & Hst & Hsp & Hle).
    rewrite Htab in Hc, Hsp. rewrite Htab, Hxt in Ha1. rewrite Hxt in Hrec.
    assert (∀ b, admitted p token s (Disk d x' (ds_files t) (ds_staging t) b)) as Hadm by (intros b; split_and!; assumption).
    assert (∀ b, adds p l e (Disk d x' (ds_files t) (ds_staging t) b)) as Hent by (intros b; split_and!; assumption).
    assert (∀ b, added p token l s (Disk d x' (ds_files t) (ds_staging t) b)) as Hadd by (intros b; split; eauto).
    apply wp_recover. destruct (sql w "commit") as [[]|x].
    + wp_step. apply wp_commit_tables; [by left|]. cbn [next].
      apply wp_check; [intros; right; split; [done|apply Hadd]|]. intros [] _.
      apply wp_lift. destruct (find_operation h w (p_operation p) (p_input p) d) as [o|x] eqn:Ef;
        [|right; split; [done|apply Hadd]].
      apply (find_operation_log _ _ _ _ _ _ Hle) in Ef. destruct o as [c|].
      * destruct Ef as (e' & He' & Hop & _ & ->). exists e'.
        assert (e' = e) as -> by (apply (NoDup_key l_op (e :: l)); [by apply Hle|done|by left|by rewrite Hop, <-He]).
        pose proof (rp_made _ _ _ _ Hle) as Hm. apply Forall_inv in Hm as (_ & _ & Hfp).
        rewrite He in Hfp. split_and!; [done|exact Hfp|apply Hadm|apply Hent].
      * exfalso. assert (is_Some (t_ledger d !! l_op e)) as [x Hx]; [|subst p; by unfold l_op in Hx; congruence].
        eexists. apply (ledger_at _ _ _ _ Hle). by left.
    + wp_step. unfold failed_commit. destruct (w_applied w).
      * apply wp_commit_tables; [by left|]. cbn [next]. apply wp_raise. right. split; [done|apply Hadd].
      * apply wp_rollback. intros [[]|y] b _; cbn [next]; [apply wp_raise|]; left; apply Hkept.
  - wp_step. apply wp_recover, wp_rollback. intros [[]|y] b _; cbn [next]; [apply wp_raise|]; left; apply Hkept.
Qed.

Lemma wp_commit p token l s :
  logs l s →
  wp (commit h w hk p token) (λ t, kept s t ∨ added p token l s t)
     (λ r t, match r with
        | Ok o => ∃ e, o = Some (receipt_for e) ∧ l_op e = p_operation p ∧ fingerprint p = Ok (l_fp e) ∧
                       ((e ∈ l ∧ t = s) ∨ (admitted p token s t ∧ adds p l e t))
        | Err x => kept s t ∨ (x = outcome_unknown ∧ added p token l s t)
        end) s.
Proof.
  intros Hl. unfold commit. assert (kept s s) as Hk by done.
  apply wp_check; [by left|]. intros [] _. apply wp_check; [by left|]. intros [] Hv.
  apply wp_check; [by left|]. intros [] _. unfold lookup_operation. wp_step.
  apply wp_check; [by left|]. intros [] _. wp_step. unfold idle. wp_step. apply wp_read_disk. cbn [next].
  apply wp_lift. destruct (sneed (negb (ds_in_tx s)) _) as [[]|x] eqn:Hi; cbn [next]; [|by left].
  apply require_Ok, negb_true_iff in Hi. wp_step. apply wp_read_disk. cbn [next]. apply wp_lift.
  destruct (find_operation h w (p_operation p) (p_input p) (ds_tables s)) as [[c|]|x] eqn:Ef; cbn [next]; [| |by left].
  - apply (find_operation_log _ _ _ _ _ _ Hl) in Ef as (e & He & Hop & _ & ->).
    wp_step. apply wp_read_disk. cbn [next]. apply wp_check; [by left|]. intros [] _.
    destruct (meta_at _ _ _ _ Hl e He) as (n & Hm). rewrite <-Hop, Hm. cbn [of_option].
    apply wp_check; [by left|]. intros m [= <-].
    apply wp_check; [by left|]. intros fp Hfp. apply wp_check; [by left|]. intros [] Heq%require_Ok.
    apply bool_decide_eq_true in Heq. cbn in Heq. subst fp. apply wp_ret. exists e. split_and!; [done..|]. by left.
  - eapply wp_mono; [by apply (wp_commit_new p token l s)|done|]. intros [o|x] t; [|done].
    intros (e & -> & Hfp & Hadm & Hent). exists e. split_and!; [done|by destruct Hent as [<- _]|done|]. by right.
Qed.

(** Every state that a commit passes. *)
Lemma commit_visited p token l s t :
  logs l s → t ∈ visited (commit h w hk p token) s → kept s t ∨ added p token l s t.
Proof.
  intros Hl. apply (wp_visited _ _ _ _ (wp_commit p token l s Hl)). intros [o|x] u Hu.
  - destruct Hu as (e & _ & _ & _ & [[_ ->]|[Hadm Hent]]); [by left|right; split; [done|by exists e]].
  - destruct Hu as [|[_ ?]]; [by left|by right].
Qed.
End Commit.
(** ** The other operations *)

Lemma represents_delete gen l d files bid :
  represents gen l d files → t_blocks d !! bid = None → represents gen l d (delete bid files).
Proof.
  intros R Hn. pose proof (rp_blocks _ _ _ _ R) as Hblocks. pose proof (rp_published _ _ _ _ R) as Hpub.
  destruct R. split; try done.
  - intros k r Hr. destruct (Hblocks k r Hr) as (b & Hb & ?). exists b. split; [|done].
    rewrite lookup_delete_ne; [done|congruence].
  - intros e b He Hb. destruct (Hpub e b He Hb) as [[r Hr] Hf]. split; [by exists r|].
    rewrite lookup_delete_ne; [done|congruence].
Qed.

(** A state with the same tables, that represents the log. *)
Definition settled h l (s t : disk X) : Prop := logs h l t ∧ ds_extra t = ds_extra s ∧ ds_tables t = ds_tables s.

Lemma wp_remove_files h w l s0 i k s (Q : result unit → disk X → Prop) :
  settled h l s0 s → (∀ bid, bid ∈ k → t_blocks (ds_tables s0) !! bid = None) →
  (∀ r t, settled h l s0 t → Q r t) → wp (remove_files w i k) (settled h l s0) Q s.
Proof.
  revert i s. induction k as [|bid k IH]; intros i s Hs Hk HQ; cbn [remove_files]; [by apply wp_ret, HQ|].
  apply wp_check; [intros; by apply HQ|]. intros [] _. wp_step. apply wp_write; [done|]. cbn [next].
  apply IH; [|intros; apply Hk; by right|done]. destruct Hs as (Hl & Hx & Ht). split; [|done].
  apply represents_delete; [done|]. cbn. rewrite Ht. apply Hk. by left.
Qed.

Lemma wp_remove_names h w l s0 i k s (Q : result unit → disk X → Prop) :
  settled h l s0 s → (∀ r t, settled h l s0 t → Q r t) → wp (remove_names w i k) (settled h l s0) Q s.
Proof.
  revert i s. induction k as [|n k IH]; intros i s Hs HQ; cbn [remove_names]; [by apply wp_ret, HQ|].
  apply wp_check; [intros; by apply HQ|]. intros [] _. wp_step. apply wp_write; [done|]. cbn [next].
  by apply IH.
Qed.

Lemma wp_collect h w l s : logs h l s → wp (collect_orphans h w) (settled h l s) (λ _ t, settled h l s t) s.
Proof.
  intros Hl. assert (settled h l s s) as Hs by done. unfold collect_orphans.
  apply wp_check; [done|]. intros [] _. wp_step. unfold audit. apply wp_check; [done|]. intros [] _.
  wp_step. apply wp_read_disk. cbn [next].
  assert (∀ errors : list string, wp (lift (sneed (bool_decide (errors = [])) "CORRUPT_STORE") ≫= λ _ : unit,
      read_disk ≫= λ s : disk X,
      let orphans := List.filter (λ bid, negb (present bid (t_blocks (ds_tables s)))) (map_to_list (ds_files s)).*1 in
      let names := elements (ds_staging s) in
      remove_files w 0 orphans ≫= λ _ : unit, remove_names w (length orphans) names ≫= λ _ : unit,
      lift (os w 0 "sync_dir") ≫= λ _ : unit, mret (orphans, names)) (settled h l s) (λ _ t, settled h l s t) s) as Hrest.
  { intros errors. apply wp_check; [done|]. intros [] _. wp_step. apply wp_read_disk. cbn [next]. cbv zeta.
    wp_step. apply wp_remove_files; [done| |].
    - intros bid [_ Hb%present_false]%list_elem_of_In%List.filter_In. exact Hb.
    - intros [[]|e] t Ht; cbn [next]; [|done]. wp_step. apply wp_remove_names; [done|].
      intros [[]|e] u Hu; cbn [next]; [|done]. apply wp_check; [done|]. intros [] _. by apply wp_ret. }
  destruct (ds_in_tx s); wp_step; cbn [next]; apply Hrest.
Qed.

(** A call that may change the store. *)
Inductive call :=
| Connect
| RotateFence
| ConfigureSpace (space : bytes) (app : pystr) (epoch : Z) (head : bytes)
| ReserveNonce (op input context nonce : bytes)
| Commit (p : prepared) (token : bytes)
| MarkInflight (eid : bytes)
| RecoverOutbox
| AdvanceEpoch (space : bytes) (expected new_epoch : Z) (head : bytes)
| CollectOrphans.

Definition perform (h : handle) (w : world) (hk : hooks X) (c : call) : crash (disk X) unit :=
  match c with
  | Connect => _ ← connect h w; mret tt
  | RotateFence => _ ← rotate_fence h w; mret tt
  | ConfigureSpace space app epoch head => configure_space h w space app epoch head
  | ReserveNonce op input context nonce => _ ← reserve_nonce h w op input context nonce; mret tt
  | Commit p token => _ ← commit h w hk p token; mret tt
  | MarkInflight eid => mark_inflight h w eid
  | RecoverOutbox => _ ← recover_outbox h w; mret tt
  | AdvanceEpoch space expected new_epoch head => advance_epoch h w space expected new_epoch head
  | CollectOrphans => _ ← collect_orphans h w; mret tt
  end.

(** The log after a call: the same, or with the commit it asked for. *)
Definition evolves (h : handle) (c : call) (l : list entry) (t : disk X) : Prop :=
  logs h l t ∨ ∃ e token, c = Commit (l_p e) token ∧ logs h (e :: l) t.

Lemma wp_transaction_logs {A} h w l (body : tables → result (tables * A)) s :
  logs h l s → (∀ d a, body (ds_tables s) = Ok (d, a) → represents (h_generation h) l d (ds_files s)) →
  wp (transaction h w body) (logs h l) (λ _ t, logs h l t) s.
Proof.
  intros Hl Hb. assert (∀ t, tables_in s (ds_tables s :: match body (ds_tables s) with Ok (d, _) => [d] | Err _ => [] end) t →
    logs h l t) as HI.
  { intros t [[Hf _] Ht]. unfold logs. rewrite Hf. apply elem_of_cons in Ht as [->|Ht]; [done|].
    destruct (body (ds_tables s)) as [[d a]|e]; [|by apply not_elem_of_nil in Ht].
    apply list_elem_of_singleton in Ht as ->. by eapply Hb. }
  eapply wp_mono; [apply wp_store_transaction|exact HI|]. intros r t [Ht _]. by apply HI.
Qed.

(** A computation whose result is dropped. *)
Lemma wp_drop {A} (m : crash (disk X) A) (I : disk X → Prop) s : wp m I (λ _ t, I t) s → wp (_ ← m; mret tt) I (λ _ t, I t) s.
Proof. intros Hm. wp_step. eapply wp_mono; [exact Hm|done|]. intros [a|e] t Ht; cbn [next]; [by apply wp_ret|done]. Qed.

(** The calls that change neither the Spaces nor what a subclass adds. *)
Definition is_quiet (c : call) : bool :=
  match c with ConfigureSpace _ _ _ _ | Commit _ _ | AdvanceEpoch _ _ _ _ => false | _ => true end.

Definition quiet (h : handle) (l : list entry) (s t : disk X) : Prop :=
  logs h l t ∧ ds_extra t = ds_extra s ∧ t_spaces (ds_tables t) = t_spaces (ds_tables s).

Lemma wp_transaction_quiet {A} h w l (body : tables → result (tables * A)) s :
  logs h l s →
  (∀ d a, body (ds_tables s) = Ok (d, a) →
     represents (h_generation h) l d (ds_files s) ∧ t_spaces d = t_spaces (ds_tables s)) →
  wp (transaction h w body) (quiet h l s) (λ _ t, quiet h l s t) s.
Proof.
  intros Hl Hb. assert (∀ t, tables_in s (ds_tables s :: match body (ds_tables s) with Ok (d, _) => [d] | Err _ => [] end) t →
    quiet h l s t) as HI.
  { intros t [(Hf & _ & Hx) Ht]. unfold quiet, logs. rewrite Hf. apply elem_of_cons in Ht as [->|Ht]; [done|].
    destruct (body (ds_tables s)) as [[d a]|e]; [|by apply not_elem_of_nil in Ht].
    apply list_elem_of_singleton in Ht as ->. by destruct (Hb d a eq_refl). }
  eapply wp_mono; [apply wp_store_transaction|exact HI|]. intros r t [Ht _]. by apply HI.
Qed.

Lemma wp_fence h w l s : logs h l s → wp (rotate_fence h w) (quiet h l s) (λ _ t, quiet h l s t) s.
Proof.
  intros Hl. unfold rotate_fence. apply wp_check; [done|]. intros [] _. wp_step.
  eapply wp_mono; [apply (wp_transaction_quiet h w l)|done|]; [done| |].
  - intros d' u E. apply bind_Ok in E as ([] & _ & E). apply bind_Ok in E as ([] & _ & E). injection E as <- _.
    split; [by apply represents_fences|done].
  - intros [a|e] t Ht; cbn [next]; [by apply wp_ret|done].
Qed.

Lemma wp_quiet_call h w hk c l s :
  logs h l s → is_quiet c = true → wp (perform h w hk c) (quiet h l s) (λ _ t, quiet h l s t) s.
Proof.
  intros Hl Hc. assert (quiet h l s s) as Hs by done.
  destruct c as [| |space app epoch head|op input context nonce|p token|eid| |space expected new_epoch head|];
    try done; cbn [perform].
  - apply wp_drop. unfold connect. apply wp_check; [done|]. intros [] _.
    destruct (h_read_only h); [by apply wp_ret|]. wp_step. eapply wp_mono; [by apply wp_fence|done|].
    intros [a|e] t Ht; cbn [next]; [by apply wp_ret|done].
  - by apply wp_drop, wp_fence.
  - apply wp_drop. unfold reserve_nonce. do 5 (apply wp_check; [done|]; intros [] _). apply wp_recover. wp_step.
    eapply wp_mono; [apply (wp_transaction_quiet h w l)|done|]; [done| |].
    + intros d' u E. apply bind_Ok in E as (d1 & E1 & E). injection E as <- _. split; [by eapply represents_reserve|].
      by apply reserve_body_spaces in E1.
    + intros [a|e] t Ht; cbn [next]; [by apply wp_ret|done].
  - unfold mark_inflight. apply wp_check; [done|]. intros [] _. apply wp_transaction_quiet; [done|].
    intros d' u E. apply bind_Ok in E as ([] & _ & E). destruct (t_outbox (ds_tables s) !! eid) as [o|] eqn:Eo; [|done].
    apply bind_Ok in E as ([] & _ & E). injection E as <- _. split; [|done]. apply represents_outbox; [done|].
    rewrite fmap_insert. cbn. apply insert_id. by rewrite lookup_fmap, Eo.
  - apply wp_drop. unfold recover_outbox. apply wp_transaction_quiet; [done|].
    intros d' u E. apply bind_Ok in E as ([] & _ & E). injection E as <- _. split; [|done]. apply represents_outbox; [done|].
    rewrite <-map_fmap_compose. apply map_fmap_ext. intros k o _. cbn. by case_match.
  - apply wp_drop. assert (∀ t, settled h l s t → quiet h l s t) as Hq.
    { intros t (? & ? & Ht). split_and!; [done..|by rewrite Ht]. }
    eapply wp_mono; [by apply wp_collect|exact Hq|by intros r t ?%Hq].
Qed.

Lemma wp_store_call h w hk c l s : logs h l s → wp (perform h w hk c) (evolves h c l) (λ _ t, evolves h c l t) s.
Proof.
  intros Hl. assert (∀ m : crash (disk X) unit, wp m (logs h l) (λ _ t, logs h l t) s →
    wp m (evolves h c l) (λ _ t, evolves h c l t) s) as Hstay.
  { intros m Hm. eapply wp_mono; [exact Hm|by left|by left]. }
  destruct (is_quiet c) eqn:Hc.
  { apply Hstay. eapply wp_mono; [by apply wp_quiet_call|by intros t (? & _)|by intros _ t (? & _)]. }
  destruct c as [| |space app epoch head|op input context nonce|p token|eid| |space expected new_epoch head|];
    try done; cbn [perform].
  - apply Hstay. unfold configure_space. do 5 (apply wp_check; [done|]; intros ? _). apply wp_recover.
    eapply wp_mono; [apply (wp_transaction_logs h w l); [done|]|done|by intros []].
    intros d' u E. apply bind_Ok in E as ([] & _ & E). apply bind_Ok in E as (d1 & E1 & E). injection E as <- _.
    by eapply represents_space.
  - apply wp_drop.
    assert (∀ t, kept s t ∨ added h w hk p token l s t → evolves h (Commit p token) l t) as HI.
    { intros t [Hk|(_ & e & <- & _ & Hle)]; [left; by eapply kept_logs|right; by exists e, token]. }
    eapply wp_mono; [by apply wp_commit|exact HI|]. intros [o|x] t Ht; apply HI.
    + destruct Ht as (e & _ & _ & _ & [[_ ->]|[Hadm Hent]]); [by left|right; split; [done|by exists e]].
    + destruct Ht as [|[_ ?]]; [by left|by right].
  - apply Hstay. unfold advance_epoch. do 4 (apply wp_check; [done|]; intros ? _).
    apply wp_check; [done|]. intros [] Hn%require_Ok. apply wp_transaction_logs; [done|].
    intros d' u E. apply bind_Ok in E as (d1 & E1 & E). injection E as <- _.
    eapply represents_advance; [done| |exact E1]. lia.
Qed.
End Run.
