(* ===== verification/StoreAccept.v ===== *)
(** * A commit that the state check admits is stored

    In a world where nothing fails, no UNIQUE or foreign-key constraint rejects a commit
    that passed [check_state], and publishing its blocks succeeds. *)

From S2P Require Import Prelude Bytes Value Codec Hash Objects Json Crash Store StoreOps StoreSpec StoreAudit StoreRun.
Local Open Scope Z_scope.

(** Nothing fails, and identifiers have their length. *)
Record healthy (w : world) : Prop := {
  hw_settings : w_settings w = Ok true;
  hw_sql : ∀ label, w_sql w label = None;
  hw_observer : ∀ label, w_observer w label = None;
  hw_block_observer : ∀ i label, w_block_observer w i label = None;
  hw_os : ∀ i label, w_os w i label = None;
  hw_token : len (w_token w) = 16;
  hw_owner : len (w_owner w) = 16;
}.

Lemma wp_and {S A} (m : crash S A) I1 I2 Q1 Q2 s :
  wp m I1 Q1 s → wp m I2 Q2 s → wp m (λ t, I1 t ∧ I2 t) (λ r t, Q1 r t ∧ Q2 r t) s.
Proof.
  unfold wp. destruct (m s) as [[tr t] r]. intros [H1 Q1'] [H2 Q2']. split; [|done].
  apply Forall_and. done.
Qed.

Section Accept.
Context `{Hash} {X : Type}.
Implicit Types (s : disk X).

Section Healthy.
Context (w : world) (Hw : healthy w).

Lemma healthy_sql label : sql w label = Ok tt.
Proof. unfold sql. by rewrite (hw_sql _ Hw). Qed.
Lemma healthy_observe label : observe w label = Ok tt.
Proof. unfold observe. by rewrite (hw_observer _ Hw). Qed.
Lemma healthy_block_observe i label : block_observe w i label = Ok tt.
Proof. unfold block_observe. by rewrite (hw_block_observer _ Hw). Qed.
Lemma healthy_os i label : os w i label = Ok tt.
Proof. unfold os. by rewrite (hw_os _ Hw). Qed.

Lemma healthy_writable h : h_closed h = false → h_read_only h = false → writable h w = Ok tt.
Proof.
  intros Hc Hr. unfold writable, alive, settings. rewrite Hc, Hr, (hw_settings _ Hw). unfold alive. by rewrite Hc.
Qed.

(** *** Blocks *)

Lemma remove_staging_ok i name s : wp (remove_staging w i name) (λ _, True) (λ r _, r = Ok tt) s.
Proof.
  unfold remove_staging. wp_step. apply wp_read_disk. cbn [next]. case_bool_decide; [|by apply wp_ret].
  rewrite healthy_os. apply wp_check; [done|]. intros. by apply wp_write.
Qed.

Lemma publish_block_ok i b s :
  1 <= len b <= BLOCK_MAX → (∀ x, ds_files s !! sha256 b = Some x → x = b) →
  wp (publish_block w i b) (λ _, True) (λ r _, is_ok r = true) s.
Proof.
  intros Hlen Hf. unfold publish_block, bounded, sneed.
  assert ((1 <=? len b) && (len b <=? BLOCK_MAX) = true) as Hb by (apply andb_true_iff; lia). rewrite Hb.
  apply wp_check; [done|]. intros [] _. cbv zeta. wp_step. apply wp_read_disk. cbn [next].
  destruct (present (sha256 b) (ds_files s)) eqn:Hp.
  - apply present_true in Hp as [x Hx]. pose proof (Hf x Hx) as ->. unfold republish.
    wp_step. apply wp_read_disk. cbn [next]. 
    assert (read_file (ds_files s) (sha256 b) = Ok b) as ->.
    { unfold read_file, sfixed, sneed. rewrite sha256_len, Hx. cbn [of_option mbind result_bind Z.eqb Pos.eqb require].
      by rewrite Hb, bool_decide_true. }
    apply wp_check; [done|]. intros found [= <-]. rewrite bool_decide_true, !healthy_os, !healthy_block_observe by done. unfold sneed, require.
    do 6 (apply wp_check; [done|]; intros [] _). by apply wp_ret.
  - unfold publish_new. rewrite !healthy_os, !healthy_block_observe. apply wp_check; [done|]. intros [] _. cbv zeta.
    wp_step. apply wp_write; [done|]. cbn [next]. apply wp_finally.
    do 4 (apply wp_check; [done|]; intros [] _).
    wp_step. apply wp_read_disk. cbn [next]. cbn [ds_files set_files]. rewrite Hp.
    do 2 (apply wp_check; [done|]; intros [] _). wp_step. apply wp_write; [done|]. cbn [next].
    do 3 (apply wp_check; [done|]; intros [] _). apply wp_ret.
    eapply wp_mono; [apply remove_staging_ok|done|]. by intros r t ->.
Qed.

Lemma publish_blocks_ok i l s :
  (∀ b, b ∈ l → 1 <= len b <= BLOCK_MAX) → NoDup (sha256 <$> l) →
  (∀ b x, b ∈ l → ds_files s !! sha256 b = Some x → x = b) →
  wp (publish_blocks w i l) (λ _, True) (λ r _, is_ok r = true) s.
Proof.
  revert i s. induction l as [|b l IH]; intros i s Hlen Hn Hf; cbn [publish_blocks]; [by apply wp_ret|].
  apply NoDup_cons in Hn as [Hb Hn]. wp_step.
  eapply wp_mono; [apply wp_and; [apply wp_publish_block|apply publish_block_ok]|done|].
  - apply Hlen. by left.
  - intros x. apply Hf. by left.
  - intros [bid|e] t [[_ Ht] Hok]; cbn [next]; [|done]. destruct (Ht bid eq_refl) as [-> Hfiles].
    wp_step. eapply wp_mono; [apply IH|done|].
    + intros c Hc. apply Hlen. by right.
    + done.
    + intros c x Hc. rewrite Hfiles, lookup_insert_ne; [apply Hf; by right|].
      intros E. apply Hb. rewrite E. apply list_elem_of_fmap. by exists c.
    + intros [bids|e] u Hu; cbn [next]; [by apply wp_ret|done].
Qed.
End Healthy.
(** ** Constraints that hold *)

Lemma some_row_none {K A} `{Countable K} (P : A → bool) (m : gmap K A) :
  (∀ k x, m !! k = Some x → P x = false) → negb (some_row P m) = true.
Proof.
  intros Hm. unfold some_row. apply negb_true_iff. destruct (existsb _ _) eqn:E; [|done].
  apply existsb_exists in E as ([k x] & Hin%list_elem_of_In%elem_of_map_to_list & Hx). cbn in Hx.
  by rewrite (Hm k x Hin) in Hx.
Qed.

Lemma insert_deps_ok eid l d :
  NoDup l → (∀ x, x ∈ l → (eid, x) ∉ t_deps d) → present eid (t_envelopes d) = true → ∃ d', insert_deps eid l d = Ok d'.
Proof.
  revert d. induction l as [|x l IH]; intros d Hn Hx Hp; [by eexists|]. cbn.
  apply NoDup_cons in Hn as [Hxl Hn]. unfold insert_dep, constraint.
  rewrite bool_decide_false, Hp by (apply Hx; by left). cbn. apply IH; [done| |done].
  intros y Hy. cbn. specialize (Hx y ltac:(by right)). assert (y ≠ x) by congruence. set_solver.
Qed.

(** The paths of the blocks are those of their ids. *)
Definition paths_ok (d : tables) : Prop := ∀ k r, t_blocks d !! k = Some r → bk_path r = block_path k.

Lemma block_path_inj a b : block_path a = block_path b → a = b.
Proof. unfold block_path. intros E%(app_inv_head (str "blocks/")). by apply hex_inj. Qed.

Lemma ignore_block_present bid r d :
  paths_ok d → bk_path r = block_path bid →
  present bid (t_blocks (ignore_block bid r d)) = true ∧ paths_ok (ignore_block bid r d).
Proof.
  intros Hd Hr. unfold ignore_block. destruct (present bid (t_blocks d)) eqn:Hp; [done|]. cbn [orb].
  destruct (some_row _ _) eqn:Hs.
  - exfalso. unfold some_row in Hs. apply existsb_exists in Hs as ([k x] & Hin%list_elem_of_In%elem_of_map_to_list & Hx).
    apply bool_decide_eq_true in Hx. cbn in Hx. rewrite Hr, (Hd k x Hin) in Hx. apply block_path_inj in Hx as ->.
    assert (present bid (t_blocks d) = true) by (apply present_true; by exists x). congruence.
  - cbn. split; [apply present_true; rewrite lookup_insert_eq; by eexists|].
    intros k x Hk. cbn in Hk. apply lookup_insert_Some in Hk as [[<- <-]|[_ Hk]]; [done|by apply Hd].
Qed.

Lemma insert_blocks_ok eid i l d :
  paths_ok d → NoDup l.*1 → present eid (t_envelopes d) = true →
  (∀ bid j, t_eblocks d !! (eid, bid) = Some j → bid ∉ l.*1 ∧ j < i) → ∃ d', insert_blocks eid i l d = Ok d'.
Proof.
  revert i d. induction l as [|[bid b] l IH]; intros i d Hd Hn Hp He; [by eexists|]. cbn [insert_blocks].
  apply NoDup_cons in Hn as [Hb Hn]. set (row := BlockRow (len b) (block_path bid) 1 BLOCK_CLASS).
  destruct (ignore_block_present bid row d Hd eq_refl) as [Hpb Hd']. destruct (ignore_block_cases bid row d) as (Hig & _).
  set (dm := ignore_block bid row d) in *. clearbody dm.
  assert (t_eblocks dm = t_eblocks d ∧ t_envelopes dm = t_envelopes d) as [Heb Hen] by (rewrite Hig; done).
  unfold insert_eblock, constraint. rewrite Hen, Hp, Hpb, Heb. cbn [andb].
  assert (negb (present (eid, bid) (t_eblocks d)) = true) as ->.
  { apply present_false. destruct (t_eblocks d !! (eid, bid)) as [j|] eqn:Ej; [|done].
    destruct (He _ _ Ej) as [Hnot _]. cbn in Hnot. set_solver. }
  cbn [andb]. destruct (existsb _ _) eqn:Ex.
  { exfalso. apply existsb_exists in Ex as ([[x k] j] & Hin%list_elem_of_In%elem_of_map_to_list & Hx). cbn in Hx.
    apply andb_true_iff in Hx as [->%bool_decide_eq_true Hj]. destruct (He _ _ Hin) as [_ Hlt]. lia. }
  cbn. apply IH; [done|done|by rewrite <-Hen in Hp|].
  intros k j Hk. cbn in Hk. apply lookup_insert_Some in Hk as [[[= <-] <-]|[Hne Hk]]; [split; [done|lia]|].
  destruct (He _ _ Hk) as [Hnot Hlt]. cbn in Hnot. split; [set_solver|lia].
Qed.

(** The last commit of a chain has its highest number. *)
Lemma chain_bound l e e' :
  chained l → e' ∈ l → same_chain e e' = true →
  ∃ last, List.find (same_chain e) l = Some last ∧ p_sequence (l_p e') <= p_sequence (l_p last).
Proof.
  induction l as [|x l IH]; cbn; [by intros _ ?%not_elem_of_nil|]. intros [Hx Hl] He' Hs.
  destruct (same_chain e x) eqn:Hsx.
  - exists x. split; [done|]. apply elem_of_cons in He' as [->|He']; [lia|].
    assert (∀ y, same_chain e y = same_chain x y) as Hsame.
    { unfold same_chain in *. apply andb_true_iff in Hsx as [Hk%bool_decide_eq_true He]. intros y. rewrite Hk.
      apply Z.eqb_eq in He. by rewrite He. }
    destruct (IH Hl He' Hs) as (z & Hz & Hle). rewrite (find_ext_in _ (same_chain x)) in Hz by done.
    rewrite Hz in Hx. lia.
  - apply elem_of_cons in He' as [->|He']; [congruence|]. by apply IH.
Qed.
(** ** The commit *)

(** Goes over the steps that succeed at once. *)
Ltac skips :=
  repeat lazymatch goal with
    | |- ∃ r, (Ok tt ≫= _) = Ok r => refine (bind_step_ex (Ok tt) _ tt eq_refl _); cbv beta
    end.

Section Commit.
Context (h : handle) (w : world) (Hw : healthy w) (p : prepared) (token : bytes) (l : list entry) (d : tables)
  (files : gmap bytes bytes) (R : represents (h_generation h) l d files).

Lemma validate_ids p' : validate p' = Ok tt → NoDup (sha256 <$> p_blocks p').
Proof.
  unfold validate. intros E. repeat apply bind_Ok in E as (? & ? & E).
  by apply require_Ok, bool_decide_eq_true in E.
Qed.

(** No commit of the log has the author, object, epoch and number of an admitted one. *)
Lemma envelope_unique k x :
  check_state h w p token d = Ok tt → t_envelopes d !! k = Some x →
  bool_decide (en_space x = p_space p ∧ en_object x = p_object p ∧ en_epoch x = p_epoch p ∧
               en_actor x = p_actor p ∧ en_sequence x = p_sequence p) = false.
Proof.
  intros Hc (e' & He' & _ & ->)%(envelope_entry _ _ _ _ R). cbn. apply bool_decide_eq_false.
  intros (E1 & E2 & E3 & E4 & E5). set (e := Entry p [] [] "").
  pose proof (chain_extends h w token l d files R e Hc) as [Hch Hl].
  destruct (chain_bound l e e' Hl He') as (z & Hz & Hle).
  - unfold same_chain, actor_key. cbn. by rewrite E1, E2, E4, E3, bool_decide_true, Z.eqb_refl.
  - rewrite Hz in Hch. cbn in Hch. lia.
Qed.

Lemma commit_rows_accepts state eid fp :
  validate p = Ok tt → check_state h w p token d = Ok tt → envelope_id p = Ok eid → fingerprint p = Ok fp →
  t_envelopes d !! eid = None → t_ledger d !! p_operation p = None →
  ∃ d', commit_rows h w state p eid (sha256 <$> p_blocks p) d = Ok d'.
Proof.
  intros Hv Hc Hid Hfp Hfid Hfop.
  pose proof Hc as (_ & (s & Hs & _) & (r & Hr & Hrop & Hrc) & _ & _)%check_state_Ok.
  assert (present (p_space p) (t_spaces d) = true) as Hsp by (apply present_true; by eexists).
  unfold commit_rows. rewrite !(healthy_observe w Hw), !(healthy_sql w Hw). skips.
  set (d1 := set_envelopes (<[eid := envelope_of state p]> (t_envelopes d)) d).
  assert (present eid (t_envelopes d1) = true) as Hp1.
  { apply present_true. cbn. rewrite lookup_insert_eq. by eexists. }
  assert (insert_envelope eid (envelope_of state p) d = Ok d1) as E1.
  { unfold insert_envelope, constraint. cbn [en_space en_object en_epoch en_actor en_sequence envelope_of].
    by rewrite (proj2 (present_false eid (t_envelopes d)) Hfid), Hsp, some_row_none by (intros k x; by apply envelope_unique). }
  run_ex E1. skips.
  set (row := LedgerRow (p_input p) (p_space p) eid (p_receipt p)).
  set (d2 := set_ledger (<[p_operation p := row]> (t_ledger d1)) d1).
  assert (insert_ledger (p_operation p) row d1 = Ok d2) as E2.
  { unfold insert_ledger, constraint. change (t_spaces d1) with (t_spaces d). cbn [le_space le_commit row].
    rewrite (proj2 (present_false _ (t_ledger d1)) Hfop), Hsp, Hp1, some_row_none; [done|].
    intros op x (e & He & _ & ->)%(ledger_entry _ _ _ _ R). cbn. apply bool_decide_eq_false. intros E.
    rewrite <-E, (envelope_at _ _ _ _ R e He) in Hfid. done. }
  run_ex E2. skips.
  set (arow := ActorRow (p_generation p) (p_sequence p) (Some eid)).
  set (d3 := set_actors (<[(p_space p, p_object p, p_actor p) := arow]> (t_actors d2)) d2).
  assert (replace_actor (p_space p, p_object p, p_actor p) arow d2 = Ok d3) as E3.
  { unfold replace_actor, constraint. cbn [fst]. change (t_spaces d2) with (t_spaces d). by rewrite Hsp. }
  run_ex E3. skips.
  assert (∃ c, upsert_catalog (p_space p, p_object p) (CatalogRow 1 SCHEMA_DIGEST (p_cache p) 0 []) d3 =
    Ok (set_catalog c d3)) as [c E4].
  { unfold upsert_catalog, constraint. cbn [fst]. change (t_spaces d3) with (t_spaces d). rewrite Hsp. by eexists. }
  run_ex E4. skips. set (d4 := set_catalog c d3).
  assert (∀ e, e ∈ l → l_id e ≠ eid) as Hne.
  { intros e He E. rewrite <-E, (envelope_at _ _ _ _ R e He) in Hfid. done. }
  destruct (insert_deps_ok eid (p_deps p) d4) as [d5 E5].
  { by apply validate_deps. }
  { intros x _ (e & He & Hi & _)%(rp_deps _ _ _ _ R). by apply (Hne e He). }
  { exact Hp1. }
  run_ex E5. apply insert_deps_Ok in E5. skips.
  assert (length (sha256 <$> p_blocks p) = length (p_blocks p)) as Hlen by apply length_fmap.
  destruct (insert_blocks_ok eid 0 (zip (sha256 <$> p_blocks p) (p_blocks p)) d5) as [d6 E6].
  { subst d5. intros k x Hx. cbn in Hx. apply (rp_blocks _ _ _ _ R) in Hx as (b & _ & -> & _ & ->). done. }
  { rewrite fst_zip by lia. by apply validate_ids. }
  { by subst d5. }
  { subst d5. intros bid j (e & He & Hi & _)%(rp_eblocks _ _ _ _ R). by destruct (Hne e He). }
  run_ex E6. apply insert_blocks_Ok in E6 as (E6 & _); [|lia]. skips.
  revert E6. generalize (t_blocks d6) (t_eblocks d6). intros bs ebs ->. subst d5.
  set (d6 := set_blocks bs ebs _).
  set (orow := OutboxRow (p_operation p) 0 None "pending").
  assert (insert_outbox eid orow d6 = Ok (set_outbox (<[eid := orow]> (t_outbox d6)) d6)) as E7.
  { unfold insert_outbox, constraint. change (t_envelopes d6) with (t_envelopes d1). rewrite Hp1.
    assert (negb (present eid (t_outbox d6)) = true) as ->.
    { apply present_false. destruct (t_outbox d6 !! eid) as [o|] eqn:Eo; [|done].
      apply (outbox_entry _ _ _ _ R) in Eo as (e & He & Hi & _). by destruct (Hne e He). }
    assert (present (ob_operation orow) (t_ledger d6) = true) as Hop; [|by rewrite Hop].
    apply present_true. cbn. rewrite lookup_insert_eq. by eexists. }
  run_ex E7. skips. set (d7 := set_outbox _ d6). run_ex Hfp.
  assert (∃ m, insert_meta (p_operation p) (CommitRow fp (p_reservation p) (p_generation p) (p_previous p) (p_cache p)
      (h_generation h) STORE_CLASS (next_order d7)) d7 = Ok (set_meta m d7)) as [m E8].
  { unfold insert_meta, constraint. cbn [cm_reservation cm_order].
    assert (negb (present (p_operation p) (t_meta d7)) = true) as ->.
    { apply present_false. destruct (t_meta d7 !! p_operation p) as [m|] eqn:Em; [|done].
      apply (meta_entry _ _ _ _ R) in Em as (e & n & He & Hop & _).
      rewrite <-Hop, (ledger_at _ _ _ _ R e He) in Hfop. done. }
    assert (present (p_operation p) (t_ledger d7) = true) as ->.
    { apply present_true. cbn. rewrite lookup_insert_eq. by eexists. }
    assert (present (p_reservation p) (t_reservations d7) = true) as -> by (apply present_true; by exists r).
    rewrite some_row_none; [cbn; by eexists|].
    intros op m Hm. change (t_meta d7) with (t_meta d) in Hm. pose proof Hm as Hm'.
    apply (meta_entry _ _ _ _ R) in Hm as (e & n & He & _ & ->). apply orb_false_iff. split.
    - apply bool_decide_eq_false. cbn. intros E. destruct (rp_consumed _ _ _ _ R e He) as (r' & Hr' & _ & Hcons).
      rewrite E, Hr in Hr'. congruence.
    - rewrite (rp_meta _ _ _ _ R) in Hm'. apply metas_lookup_inv in Hm' as (pre & e' & post & Hl & _ & En).
      apply (f_equal cm_order) in En. cbn in En.
      unfold next_order. change (t_meta d7) with (t_meta d). rewrite (rp_meta _ _ _ _ R), max_order. cbn.
      apply Z.eqb_neq. rewrite En, Hl. len_lia. }
  run_ex E8. skips.
  unfold consume_reservation, constraint. change (t_reservations (set_meta m d7)) with (t_reservations d). rewrite Hr.
  change (t_envelopes (set_meta m d7)) with (t_envelopes d1). rewrite Hp1. cbn. by eexists.
Qed.
End Commit.
Lemma validate_lengths p : validate p = Ok tt → len (p_operation p) = 16 ∧ len (p_input p) = 32.
Proof.
  unfold validate. intros ([] & H1 & E)%bind_Ok. apply bind_Ok in E as ([] & H2 & _).
  rewrite iter_check in H1, H2. split.
  - specialize (H2 (p_operation p) ltac:(by left)). apply require_Ok in H2. lia.
  - specialize (H1 (p_input p) ltac:(by left)). apply require_Ok in H1. lia.
Qed.

Section Commits.
Context (h : handle) (w : world) (hk : hooks X) (Hw : healthy w) (Hclosed : h_closed h = false)
  (Hwrite : h_read_only h = false).

Lemma healthy_alive : alive h = Ok tt.
Proof. unfold alive. by rewrite Hclosed. Qed.

Lemma wp_idle s I (Q : result unit → disk X → Prop) : ds_in_tx s = false → Q (Ok tt) s → wp idle I Q s.
Proof. intros Htx HQ. unfold idle. wp_step. apply wp_read_disk. cbn [next]. rewrite Htx. by apply wp_lift. Qed.

(** The state check does not depend on who holds the fence, as long as the caller does. *)
Lemma check_state_fence w0 p token token' owner d f :
  check_state h w0 p token d = Ok tt → f !! h_generation h = Some (token', owner) →
  check_state h w p token' (set_fences f d) = Ok tt.
Proof.
  unfold check_state. rewrite (healthy_sql w Hw). intros ([] & _ & E)%bind_Ok Hf.
  apply bind_Ok in E as ([] & _ & E). cbn [t_fences set_fences]. rewrite Hf. cbv beta iota. rewrite (bool_decide_true (token' = token')) by done. exact E.
Qed.

Lemma find_operation_absent op input d :
  len op = 16 → len input = 32 → t_ledger d !! op = None → find_operation h w op input d = Ok None.
Proof.
  intros Ho Hi Hn. unfold find_operation, sfixed. rewrite healthy_alive, (healthy_sql w Hw), Ho, Hi, Hn. done.
Qed.

Lemma find_operation_present l d files e :
  represents (h_generation h) l d files → e ∈ l →
  find_operation h w (l_op e) (p_input (l_p e)) d = Ok (Some (receipt_for h e)).
Proof.
  intros R He. pose proof (rp_made _ _ _ _ R) as Hm. rewrite Forall_forall in Hm. destruct (Hm e He) as (Hv & _).
  assert (len (l_op e) = 16 ∧ len (p_input (l_p e)) = 32) as [Ho Hi] by by apply validate_lengths.
  unfold find_operation, sfixed. rewrite healthy_alive, (healthy_sql w Hw), Ho, Hi, (ledger_at _ _ _ _ R e He).
  destruct (meta_at _ _ _ _ R e He) as (n & Hn). rewrite Hn. cbn. by rewrite bool_decide_true.
Qed.

(** A commit of an operation that the log has answers with its receipt. *)
Lemma commit_again l s e token :
  logs h l s → ds_in_tx s = false → e ∈ l → len token = 16 →
  commit h w hk (l_p e) token s = ([], s, Ok (Some (receipt_for h e))).
Proof.
  intros Hl Htx He Ht. pose proof (rp_made _ _ _ _ Hl) as Hm. rewrite Forall_forall in Hm.
  destruct (Hm e He) as (Hv & _ & Hfp). unfold commit.
  rewrite (healthy_writable w Hw h Hclosed Hwrite), Hv. unfold sfixed. rewrite Ht.
  unfold lookup_operation, idle, read_disk, reads, lift, mbind, crash_bind. rewrite healthy_alive, Htx.
  cbn [sneed negb require]. unfold sneed, require. cbn [negb Z.eqb Pos.eqb].
  pose proof (find_operation_present l _ _ e Hl He) as Hfind. unfold l_op in Hfind. rewrite Hfind, (healthy_sql w Hw).
  destruct (meta_at _ _ _ _ Hl e He) as (n & Hn). unfold l_op in Hn. rewrite Hn, Hfp. cbn [of_option cm_prepared commit_row_of].
  by rewrite bool_decide_true.
Qed.
Lemma connect_accepted s :
  ds_in_tx s = false →
  connect h w s = ([s], set_database (set_fences (<[h_generation h := (w_token w, w_owner w)]> (t_fences (ds_tables s)))
                                      (ds_tables s)) (ds_extra s) s, Ok (Some (w_token w))).
Proof.
  intros Htx. pose proof (healthy_writable w Hw h Hclosed Hwrite) as Hwr.
  assert (settings h w = Ok tt) as Hset.
  { unfold settings. by rewrite healthy_alive, (hw_settings _ Hw). }
  unfold connect. rewrite Hset, Hwrite. unfold rotate_fence, transaction. rewrite Hwr.
  unfold read_disk, reads, lift, mbind, crash_bind, begin. rewrite Htx.
  rewrite !(healthy_sql w Hw). unfold constraint. by rewrite (hw_token _ Hw), (hw_owner _ Hw).
Qed.

Lemma commit_body_accepts p token eid bids d x d' x' :
  hk_authorize hk d x p token = Ok tt → check_state h w p token d = Ok tt → envelope_id p = Ok eid →
  commit_rows h w (hk_state hk) p eid bids d = Ok d' → hk_record hk d' x p = Ok x' →
  hk_authorize hk d' x' p token = Ok tt → commit_body h w hk p token bids d x = Ok (d', x').
Proof.
  intros H1 H2 H3 H4 H5 H6. unfold commit_body. rewrite !(healthy_observe w Hw).
  rewrite H1. rewrite H2. rewrite H3. cbn [mbind result_bind]. rewrite H4. cbn [mbind result_bind]. rewrite H5.
  cbn [mbind result_bind]. by rewrite H6.
Qed.

(** A new commit that the state check and the subclass admit is accepted. *)
Lemma commit_accepted p token l s eid fp :
  logs h l s → ds_in_tx s = false → validate p = Ok tt → len token = 16 →
  check_state h w p token (ds_tables s) = Ok tt → envelope_id p = Ok eid → fingerprint p = Ok fp →
  t_envelopes (ds_tables s) !! eid = None → t_ledger (ds_tables s) !! p_operation p = None →
  (∀ b x, b ∈ p_blocks p → ds_files s !! sha256 b = Some x → x = b) →
  hk_authorize hk (ds_tables s) (ds_extra s) p token = Ok tt →
  (∀ d, t_spaces d = t_spaces (ds_tables s) → ∃ x,
     hk_record hk d (ds_extra s) p = Ok x ∧ hk_authorize hk d x p token = Ok tt) →
  wp (commit h w hk p token) (λ _, True) (λ r _, is_ok r = true) s.
Proof.
  intros Hl Htx Hv Ht Hc Hid Hfp Hfid Hfop Hf Hauth Hrec. destruct (validate_lengths p Hv) as [Hop Hin].
  unfold commit, sfixed. rewrite (healthy_writable w Hw h Hclosed Hwrite), Hv, Ht.
  do 3 (apply wp_check; [done|]; intros [] _). unfold lookup_operation. rewrite healthy_alive.
  wp_step. apply wp_check; [done|]. intros [] _. wp_step. apply wp_idle; [done|]. cbn [next].
  wp_step. apply wp_read_disk. cbn [next]. rewrite find_operation_absent by done. apply wp_lift. cbn [next].
  unfold commit_new. wp_step. apply wp_recover.
  eapply wp_mono with (Q := λ r t, is_ok r = true ∧ grows s t ∧ ∀ bids, r = Ok bids →
    bids = sha256 <$> p_blocks p ∧ (∀ b, b ∈ p_blocks p → ds_files t !! sha256 b = Some b) ∧ ds_in_tx s = false);
    [apply wp_and; [|by apply wp_commit_prepare]|done|].
  - unfold commit_prepare. wp_step. apply wp_read_disk. cbn [next]. rewrite Hc. apply wp_check; [done|]. intros [] _.
    wp_step. eapply wp_mono; [apply wp_and; [apply wp_publish_blocks|apply (publish_blocks_ok w Hw 0 (p_blocks p) s)]|done|].
    + by apply validate_blocks.
    + by apply validate_ids.
    + exact Hf.
    + intros [bids|e] t [[Hg _] Hok]; cbn [next]; [|done]. rewrite (healthy_observe w Hw).
      apply wp_check; [done|]. intros [] _. wp_step. apply wp_read_disk. cbn [next].
      destruct Hg as (_ & _ & Htt & _). unfold begin. rewrite Htt, Htx, (healthy_sql w Hw).
      apply wp_check; [done|]. intros [] _. by apply wp_ret.
  - intros [bids|e] t (Hok & Hg & Hb); cbn [next]; [|done]. destruct (Hb bids eq_refl) as (-> & Hfiles & _).
    pose proof (kept_logs h l s t Hl (grows_kept s t Hg)) as Hlt. destruct Hg as (Htab & Hxt & _).
    wp_step. apply wp_read_disk. cbn [next]. rewrite Htab, Hxt. unfold logs in Hlt. rewrite Htab in Hlt.
    destruct (commit_rows_accepts h w Hw p token l (ds_tables s) (ds_files t) Hlt (hk_state hk) eid fp) as [d Hd]; [done..|].
    destruct (represents_commit h w p token l (ds_tables s) d (ds_files t) Hlt (hk_state hk) eid Hv Hfiles Hc Hid Hd)
      as (e & <- & _ & Hsp & Hle).
    destruct (Hrec d Hsp) as (x & Hrec1 & Hauth2).
    rewrite (commit_body_accepts _ _ _ _ _ _ _ _ Hauth Hc Hid Hd Hrec1 Hauth2).
    apply wp_recover. rewrite (healthy_sql w Hw), (healthy_observe w Hw).
    wp_step. apply wp_commit_tables; [done|]. cbn [next]. apply wp_check; [done|]. intros [] _. apply wp_lift.
    change (p_operation (l_p e)) with (l_op e). by rewrite (find_operation_present (e :: l) d (ds_files t) e Hle ltac:(by left)).
Qed.
End Commits.
End Accept.
