(* ===== verification/StoreCorrect.v ===== *)
(** * The transactional store is correct

    Runs of the store: calls in any worlds, processes that die at any point and reopen it. *)

From S2P Require Import Prelude Bytes Value Codec Hash Toy Objects Json Crash Store StoreOps StoreSpec StoreAudit StoreRun StoreAccept.
Local Open Scope Z_scope.

Section Life.
Context `{Hash} (gen : bytes).

Inductive store_step : disk unit → disk unit → Prop :=
| step_call h w c s : h_generation h = gen → store_step s (final (perform h w no_hooks c) s)
| step_crash h w c s t : h_generation h = gen → t ∈ visited (perform h w no_hooks c) s → store_step s (reopened t).

Lemma represents_created : represents gen [] empty_tables ∅.
Proof.
  split; cbn; try done; try (intros ? ? ?%not_elem_of_nil; done); try (intros ? ?%not_elem_of_nil; done).
  - constructor.
  - constructor.
  - intros eid x. split; [by intros ?%elem_of_empty|by intros (? & ?%not_elem_of_nil & _)].
  - intros eid bid i. split; [by rewrite lookup_empty|by intros (? & ?%not_elem_of_nil & _)].
Qed.

Lemma step_log l s s' :
  represents gen l (ds_tables s) (ds_files s) → store_step s s' →
  ∃ l', represents gen (l' ++ l) (ds_tables s') (ds_files s').
Proof.
  intros R Hs. assert (∀ h c (t : disk unit), h_generation h = gen → evolves h c l t →
    ∃ l', represents gen (l' ++ l) (ds_tables t) (ds_files t)) as Hev.
  { intros h c t <- [Hl|(e & token & _ & Hl)]; [by exists []|by exists [e]]. }
  destruct Hs as [h w c s Hg|h w c s t Hg Ht].
  - apply (Hev h c); [done|]. subst gen. exact (wp_outcome _ _ _ _ (wp_store_call h w no_hooks c l s R)).
  - apply (Hev h c t Hg). subst gen. eapply (wp_visited _ _ _ _ (wp_store_call h w no_hooks c l s R)); [done|exact Ht].
Qed.

Lemma steps_log l s s' :
  represents gen l (ds_tables s) (ds_files s) → rtc store_step s s' →
  ∃ l', represents gen (l' ++ l) (ds_tables s') (ds_files s').
Proof.
  intros R Hs. revert l R. induction Hs as [s|s t u Hst _ IH]; intros l R; [by exists []|].
  destruct (step_log l s t R Hst) as (l1 & R1). destruct (IH _ R1) as (l2 & R2).
  exists (l2 ++ l1). by rewrite <-app_assoc.
Qed.
(** C8. The store refines an append-only log of commits.  After any calls and crashes from its
    creation, every table is the function of the log that [represents] says; whatever follows
    only adds commits to it; and the store's own audit finds nothing wrong. *)
Theorem store_refines_log s s' :
  rtc store_step (created tt) s → rtc store_step s s' →
  ∃ l l', represents gen l (ds_tables s) (ds_files s) ∧ represents gen (l' ++ l) (ds_tables s') (ds_files s') ∧
    ∀ h w, h_closed h = false → healthy w → w_schema w = true → w_quick_check w = true → ds_in_tx s' = false →
      outcome (audit h w) s' = Ok [].
Proof.
  intros Hs Hs'. destruct (steps_log [] (created tt) _ represents_created Hs) as (l & R). rewrite app_nil_r in R.
  destruct (steps_log l _ _ R Hs') as (l' & R'). exists l, l'. split_and!; [done..|].
  intros h w Hc Hw Hsc Hq Htx. unfold audit, outcome, read_disk, reads, lift, mbind, crash_bind.
  rewrite (healthy_alive h Hc), Htx, (healthy_sql w Hw). cbn [snd]. by rewrite (audit_steps_clean gen (l' ++ l)).
Qed.

(** C12. A nonce seals one commit: in every reachable store two commits whose reservations hold
    the same key context and nonce are the same commit; the reservation of a commit is
    consumed by it; and the commits of one author to one object in one epoch are numbered
    from 1 without a gap, each naming the envelope before it. *)
Theorem nonce_seals_once s :
  rtc store_step (created tt) s →
  ∃ l, represents gen l (ds_tables s) (ds_files s) ∧ chained l ∧
    (∀ e, e ∈ l → ∃ r, t_reservations (ds_tables s) !! p_reservation (l_p e) = Some r ∧
       rv_operation r = l_op e ∧ rv_consumed r = Some (l_id e)) ∧
    ∀ e e' r r', e ∈ l → e' ∈ l →
      t_reservations (ds_tables s) !! p_reservation (l_p e) = Some r →
      t_reservations (ds_tables s) !! p_reservation (l_p e') = Some r' →
      rv_context r = rv_context r' → rv_nonce r = rv_nonce r' → e = e'.
Proof.
  intros Hs. destruct (steps_log [] (created tt) _ represents_created Hs) as (l & R). rewrite app_nil_r in R.
  exists l. split_and!; [done|apply R|apply R|]. intros e e' r r' He He' Hr Hr' Hc Hn.
  assert (p_reservation (l_p e) = p_reservation (l_p e')) as E by (apply (rp_nonces _ _ _ _ R _ _ r r'); congruence).
  destruct (rp_consumed _ _ _ _ R e He) as (x & Hx & _ & Hi), (rp_consumed _ _ _ _ R e' He') as (x' & Hx' & _ & Hi').
  apply (NoDup_key l_id l); [apply R|done..|]. congruence.
Qed.

End Life.

Section Commit.
Context `{Hash} {X : Type} (h : handle) (hk : hooks X).
Implicit Types (s t : disk X).

(** C9. A commit happens once, and its answer says whether it did.  Every state it passes has
    the old log, or the log with exactly this commit added.  A receipt is that of a commit in
    the log with the same operation and fingerprint; LOCAL_OUTCOME_UNKNOWN leaves either; any
    other error leaves the tables as they were. *)
Theorem commit_once w p token l s :
  logs h l s →
  (∀ t, t ∈ visited (commit h w hk p token) s → logs h l t ∨ ∃ e, l_p e = p ∧ logs h (e :: l) t) ∧
  let t := final (commit h w hk p token) s in
  match outcome (commit h w hk p token) s with
  | Ok o => ∃ e, o = Some (receipt_for h e) ∧ l_op e = p_operation p ∧ fingerprint p = Ok (l_fp e) ∧
                 ((e ∈ l ∧ t = s) ∨ (l_p e = p ∧ logs h (e :: l) t))
  | Err x => logs h l t ∧ ds_tables t = ds_tables s ∨ x = outcome_unknown ∧ ∃ e, l_p e = p ∧ logs h (e :: l) t
  end.
Proof.
  intros Hl. pose proof (wp_commit h w hk p token l s Hl) as Hwp. split.
  - intros t [Hk|(_ & e & He & _ & Hle)]%(commit_visited h w hk p token l s); [|right; by exists e|done].
    left. by eapply kept_logs.
  - apply wp_outcome in Hwp. cbv zeta. destruct (outcome _ _) as [o|x].
    + destruct Hwp as (e & -> & ? & ? & [?|(_ & ? & _ & ?)]); exists e; (split_and!; [done..|]); [by left|by right].
    + destruct Hwp as [Hk|[-> (_ & e & ? & _ & ?)]]; [left|right; split; [done|by exists e]]. split; [by eapply kept_logs|by destruct Hk].
Qed.

(** C11. Only the holder of the fence commits: a process whose token another one has replaced
    cannot add a commit, whatever happens in its call. *)
Theorem stale_fence_refused w p token token' owner l s :
  logs h l s → t_ledger (ds_tables s) !! p_operation p = None →
  t_fences (ds_tables s) !! h_generation h = Some (token', owner) → token' ≠ token →
  (∀ t, t ∈ visited (commit h w hk p token) s → ds_tables t = ds_tables s) ∧
  is_ok (outcome (commit h w hk p token) s) = false.
Proof.
  intros Hl Hn Hf Hne. pose proof (wp_commit h w hk p token l s Hl) as Hwp.
  assert (check_state h w p token (ds_tables s) ≠ Ok tt) as Hc.
  { intros ((o & Ho) & _)%check_state_Ok. congruence. }
  split.
  - by intros t [[]|[[] _]]%(commit_visited h w hk p token l s).
  - apply wp_outcome in Hwp. destruct (outcome _ _) as [o|x]; [|done]. exfalso.
    destruct Hwp as (e & _ & Hop & _ & [[He _]|[[? _] _]]); [|done].
    rewrite <-Hop, (ledger_at _ _ _ _ Hl e He) in Hn. done.
Qed.

End Commit.

Section Retry.
Context `{Hash} (h : handle).

(** C10. A commit survives a crash: a process dies anywhere in the commit of [p], which the state
    check admitted; another opens the store, takes the fence and repeats the commit.  When
    nothing fails, it gets the receipt, and the log has the commit exactly once. *)
Theorem commit_retry w w1 w2 p token l s t eid fp :
  logs h l s → h_closed h = false → h_read_only h = false →
  validate p = Ok tt → check_state h w1 p token (ds_tables s) = Ok tt →
  envelope_id p = Ok eid → fingerprint p = Ok fp →
  t_envelopes (ds_tables s) !! eid = None → t_ledger (ds_tables s) !! p_operation p = None →
  t ∈ visited (commit h w no_hooks p token) s →
  healthy w1 → healthy w2 →
  (∀ b x, b ∈ p_blocks p → ds_files t !! sha256 b = Some x → x = b) →
  let s1 := final (connect h w1) (reopened t) in
  let again := commit h w2 no_hooks p (w_token w1) in
  ∃ e, l_p e = p ∧ logs h (e :: l) (final again s1) ∧ outcome again s1 = Ok (Some (receipt_for h e)).
Proof.
  intros Hl Hc Hro Hv Hcheck Hid Hfp Hfid Hfop Ht Hw1 Hw2 Hfiles s1 again.
  assert (s1 = set_database (set_fences (<[h_generation h := (w_token w1, w_owner w1)]> (t_fences (ds_tables t)))
                (ds_tables t)) (ds_extra t) (reopened t)) as Hs1.
  { unfold s1, final. by rewrite (connect_accepted h w1 Hw1 Hc Hro). }
  assert (∀ k, logs h k t → logs h k s1) as Hfence.
  { intros k R. rewrite Hs1. unfold logs. cbn [ds_tables ds_files set_database reopened]. by apply represents_fences. }
  apply (commit_visited h w no_hooks p token l s) in Ht as [Hk|(_ & e & He & _ & Hle)]; [| |done].
  - pose proof (Hfence l (kept_logs h l s t Hl Hk)) as Hl1. destruct Hk as [Htab _].
    assert (wp again (λ _, True) (λ r _, is_ok r = true) s1) as Hok.
    { refine (commit_accepted h w2 no_hooks Hw2 Hc Hro p (w_token w1) l s1 eid fp Hl1 _ Hv (hw_token _ Hw1) _ Hid Hfp _ _ _ eq_refl _).
      - by rewrite Hs1.
      - rewrite Hs1. cbn [ds_tables set_database]. rewrite Htab.
        exact (check_state_fence h w2 Hw2 w1 p token (w_token w1) (w_owner w1) _ _ Hcheck (lookup_insert_eq _ _ _)).
      - rewrite Hs1. cbn [ds_tables set_database t_envelopes set_fences]. by rewrite Htab.
      - rewrite Hs1. cbn [ds_tables set_database t_ledger set_fences]. by rewrite Htab.
      - rewrite Hs1. exact Hfiles.
      - intros d _. by exists (ds_extra s1). }
    pose proof (wp_commit h w2 no_hooks p (w_token w1) l s1 Hl1) as Hwp1. apply wp_outcome in Hok, Hwp1.
    fold again in Hwp1. destruct (outcome again s1) as [o|x]; [|done].
    destruct Hwp1 as (e & -> & Hop & _ & [[He _]|(_ & He & _ & Hle)]); [|by exists e].
    exfalso. pose proof (ledger_at _ _ _ _ Hl e He) as Hat. rewrite Hop in Hat. congruence.
  - exists e. assert (again s1 = ([], s1, Ok (Some (receipt_for h e)))) as Hag.
    { unfold again. rewrite <-He. apply (commit_again h w2 no_hooks Hw2 Hc Hro (e :: l)).
      - by apply Hfence.
      - by rewrite Hs1.
      - by left.
      - apply Hw1. }
    unfold final, outcome. rewrite Hag. split_and!; [done| |done]. by apply Hfence.
Qed.
End Retry.

(** ** A concrete store *)

Definition bytes_of (n : nat) (c : byte) : bytes := repeat c n.
Definition sample_handle : handle := Handle (bytes_of 16 x67) false false.
(** A world where nothing fails; [token] is the next random identifier. *)
Definition calm (token : byte) : world :=
  World (Ok true) true true (λ _, None) false (λ _, None) (λ _ _, None) (λ _ _, None) (λ _, "block-0.part")
    (bytes_of 16 token) (bytes_of 16 x6f).
(** One where the COMMIT takes effect but reports an error. *)
Definition interrupted : world :=
  World (Ok true) true true (λ label, if String.eqb label "commit" then Some (sqlite_exn "SQLITE_IOERR") else None)
    true (λ _, None) (λ _ _, None) (λ _ _, None) (λ _, "block-0.part") (bytes_of 16 x74) (bytes_of 16 x6f).

Definition sample_commit : prepared :=
  Prepared (bytes_of 16 x01) (bytes_of 32 x02) (bytes_of 32 x03) (bytes_of 32 x04) (bytes_of 32 x05) (bytes_of 16 x06)
    7 1 None (bytes_of 32 x08) (bytes_of 16 x72) [x65; x6e; x76] [x63] [x72]
    [bytes_of 32 x0b; bytes_of 32 x0a] [[x62; x31]; [x62; x32]].

Definition calls : list (world * call) :=
  [(calm x66, Connect);
   (calm x66, ConfigureSpace (bytes_of 32 x03) (str "notes.app") 7 (bytes_of 32 x0c));
   (calm x72, ReserveNonce (bytes_of 16 x01) (bytes_of 32 x02) (bytes_of 32 x0d) (bytes_of 24 x0e))].

Definition after (l : list (world * call)) (s : disk unit) : disk unit :=
  fold_left (λ s c, final (perform sample_handle c.1 no_hooks c.2) s) l s.
(** The store with its nonce reserved, and with the commit. *)
Definition reserved : disk unit := after calls (created tt).
Definition stored : disk unit := final (perform sample_handle (calm x74) no_hooks (Commit sample_commit (bytes_of 16 x66))) reserved.

Lemma after_steps l s : rtc (store_step (h_generation sample_handle)) s (after l s).
Proof.
  revert s. induction l as [|[w c] l IH]; intros s; [constructor|].
  eapply rtc_l; [|apply IH]. by apply (step_call _ sample_handle).
Qed.

Lemma stored_steps : rtc (store_step (h_generation sample_handle)) reserved stored.
Proof. apply rtc_once, (step_call _ sample_handle). done. Qed.

Lemma reserved_logs : logs sample_handle [] reserved.
Proof.
  assert (∀ w c s, (∀ p token, c ≠ Commit p token) → logs sample_handle [] s →
    logs sample_handle [] (final (perform sample_handle w no_hooks c) s)) as Hstep.
  { intros w c s Hc Hs. destruct (wp_outcome _ _ _ _ (wp_store_call sample_handle w no_hooks c [] s Hs)) as [|(e & token & -> & _)];
      [done|]. by destruct (Hc (l_p e) token). }
  unfold reserved, calls, after. cbn [fold_left fst snd].
  repeat (apply Hstep; [done|]). apply represents_created.
Qed.

Lemma store_refines_log_witness :
  let gen := h_generation sample_handle in
  size (t_ledger (ds_tables stored)) = 1%nat ∧
  ∃ l l', represents gen l (ds_tables reserved) (ds_files reserved) ∧
    represents gen (l' ++ l) (ds_tables stored) (ds_files stored) ∧
    ∀ h w, h_closed h = false → healthy w → w_schema w = true → w_quick_check w = true → ds_in_tx stored = false →
      outcome (audit h w) stored = Ok [].
Proof.
  split; [vm_compute; reflexivity|].
  apply (store_refines_log (h_generation sample_handle) reserved stored (after_steps calls (created tt)) stored_steps).
Defined.

Lemma nonce_seals_once_witness :
  let gen := h_generation sample_handle in
  ∃ l, represents gen l (ds_tables stored) (ds_files stored) ∧ chained l ∧
    (∀ e, e ∈ l → ∃ r, t_reservations (ds_tables stored) !! p_reservation (l_p e) = Some r ∧
       rv_operation r = l_op e ∧ rv_consumed r = Some (l_id e)) ∧
    ∀ e e' r r', e ∈ l → e' ∈ l →
      t_reservations (ds_tables stored) !! p_reservation (l_p e) = Some r →
      t_reservations (ds_tables stored) !! p_reservation (l_p e') = Some r' →
      rv_context r = rv_context r' → rv_nonce r = rv_nonce r' → e = e'.
Proof.
  apply (nonce_seals_once (h_generation sample_handle) stored).
  exact (transitivity (after_steps calls (created tt)) stored_steps).
Defined.

Lemma commit_once_witness :
  let m := commit sample_handle (calm x74) no_hooks sample_commit (bytes_of 16 x66) in
  is_ok (outcome m reserved) = true ∧
  (∀ t, t ∈ visited m reserved → logs sample_handle [] t ∨ ∃ e, l_p e = sample_commit ∧ logs sample_handle [e] t) ∧
  let t := final m reserved in
  match outcome m reserved with
  | Ok o => ∃ e, o = Some (receipt_for sample_handle e) ∧ l_op e = p_operation sample_commit ∧
                 fingerprint sample_commit = Ok (l_fp e) ∧
                 ((e ∈ [] ∧ t = reserved) ∨ (l_p e = sample_commit ∧ logs sample_handle [e] t))
  | Err x => logs sample_handle [] t ∧ ds_tables t = ds_tables reserved ∨
             x = outcome_unknown ∧ ∃ e, l_p e = sample_commit ∧ logs sample_handle [e] t
  end.
Proof.
  split; [vm_compute; reflexivity|].
  apply (commit_once sample_handle no_hooks (calm x74) sample_commit (bytes_of 16 x66) [] reserved reserved_logs).
Defined.

(** The store after another process has taken the fence. *)
Definition fenced : disk unit := final (perform sample_handle (calm x77) no_hooks Connect) reserved.

Lemma fenced_logs : logs sample_handle [] fenced.
Proof.
  destruct (wp_outcome _ _ _ _ (wp_store_call sample_handle (calm x77) no_hooks Connect [] reserved reserved_logs))
    as [|(? & ? & ? & _)]; done.
Qed.

Lemma stale_fence_refused_witness :
  let m := commit sample_handle (calm x74) no_hooks sample_commit (bytes_of 16 x66) in
  (∀ t, t ∈ visited m fenced → ds_tables t = ds_tables fenced) ∧ is_ok (outcome m fenced) = false.
Proof.
  apply (stale_fence_refused sample_handle no_hooks (calm x74) sample_commit (bytes_of 16 x66) (bytes_of 16 x77) (bytes_of 16 x6f)
           [] fenced fenced_logs); [vm_compute; reflexivity|vm_compute; reflexivity|discriminate].
Defined.

Definition crashed : disk unit := final (commit sample_handle interrupted no_hooks sample_commit (bytes_of 16 x66)) reserved.

Lemma calm_healthy b : healthy (calm b).
Proof. by split. Qed.

(** The COMMIT took effect and the process died; its repetition gets the receipt. *)
Lemma commit_retry_witness :
  outcome (commit sample_handle interrupted no_hooks sample_commit (bytes_of 16 x66)) reserved = Err outcome_unknown ∧
  let s1 := final (connect sample_handle (calm x77)) (reopened crashed) in
  let again := commit sample_handle (calm x78) no_hooks sample_commit (w_token (calm x77)) in
  ∃ e, l_p e = sample_commit ∧ logs sample_handle [e] (final again s1) ∧
       outcome again s1 = Ok (Some (receipt_for sample_handle e)).
Proof.
  split; [vm_compute; reflexivity|].
  eapply (commit_retry sample_handle interrupted (calm x77) (calm x78) sample_commit (bytes_of 16 x66) [] reserved
            crashed _ _ reserved_logs);
    [reflexivity|reflexivity|vm_compute; reflexivity|vm_compute; reflexivity|vm_compute; reflexivity|vm_compute; reflexivity
    |vm_compute; reflexivity|vm_compute; reflexivity|apply final_visited|apply calm_healthy|apply calm_healthy|].
  intros b x Hb Hx. apply elem_of_cons in Hb as [->|Hb]; [|apply list_elem_of_singleton in Hb as ->];
    vm_compute in Hx; injection Hx as <-; reflexivity.
Defined.
